(** * OmniRoboGym: joint impedance controller, reference filter, homing and
      state synchronisation

    A shallow embedding of

    - [omni_robo_gym/utils/jnt_imp_cntrl.py]  ([FirstOrderFilter], [OmniJntImpCntrl]),
    - [omni_robo_gym/utils/homing.py]         ([OmniRobotHomer]),
    - [omni_robo_gym/tasks/custom_task.py]    ([CustomTask._get_robots_state]),

    followed by the properties of the specification that concern them.

    Modelling conventions.

    - Scalars.  The tensors hold [torch.double] values.  They are modelled as
      exact rationals [Q]; rounding, infinities and NaN are not modelled, and
      arithmetic identities are stated up to [Qeq] ([==]).
    - Tensors.  A two-dimensional buffer owned by an object is a list of rows
      ([Matrix]).  A tensor handed in by a caller carries its shape and its
      device ([torch.Tensor2D]); an index tensor carries shape, dtype, device
      and its integer entries ([torch.IndexTensor]).
    - Effects.  Methods that mutate [self], print or raise are functions in a
      state-and-error monad [M] over a [World]: the object together with the
      effects so far (lines printed, device barriers, calls received by the
      articulation).  What a method did before it raised stays in the
      world, as in Python.
    - The articulation is an external collaborator; it is modelled by the list
      of calls it received, in order. *)

From Stdlib Require Import QArith ZArith Lia.
From stdpp Require Import base option list strings gmap.
From stdpp Require Import pretty.

Local Open Scope string_scope.

(** ** Exceptions and results *)

Inductive exn : Type :=
| AttributeError (attr : string)   (* 'X' object has no attribute attr *)
| RuntimeError (msg : string)
| IndexError (msg : string)
| KeyError (key : string)
| ZeroDivisionError
| Exception (msg : string).

Inductive result (A : Type) : Type :=
| Ok (a : A)
| Raise (e : exn).
Arguments Ok {A} a.
Arguments Raise {A} e.

(** ** Matrices of scalars *)

Abbreviation Matrix := (list (list Q)).

Definition mat_at (m : Matrix) (i j : nat) : Q :=
  default 0%Q (m !! i ≫= (.!! j)).

Definition has_shape (rows cols : nat) (m : Matrix) : Prop :=
  length m = rows ∧ Forall (λ r, length r = cols) m.

(** [dst[:, :] = src] for a source of the destination's shape: every cell of
    [dst] is overwritten in place by the cell of [src] at the same position.
    (For a source of another shape torch broadcasts or raises; the callers
    below either check the shape first or are used on equal shapes.) *)
Definition slice_assign (dst : Matrix) (src : nat → nat → Q) : Matrix :=
  imap (λ i row, imap (λ j _, src i j) row) dst.

(** [t[:, :].zero_()] *)
Definition zero_ (m : Matrix) : Matrix := slice_assign m (λ _ _, 0%Q).

(** [m[r, c] = v] (no effect out of range; torch would raise there, and every
    caller below has checked the bounds). *)
Definition set_cell (m : Matrix) (r c : nat) (v : Q) : Matrix :=
  alter (λ row, <[c := v]> row) r m.

(** [m[:, c] = torch.full((rows, 1), v).flatten()] *)
Definition set_column (m : Matrix) (c : nat) (v : Q) : Matrix :=
  map (λ row, <[c := v]> row) m.

(** What a method does to the outside, in order: a line printed, the device
    barrier [torch.cuda.synchronize()], and the calls made on the
    articulation view ([set_gains(kps, kds)] with its two optional
    arguments, [set_joint_efforts], [set_joint_position_targets],
    [set_joint_velocity_targets]).  Of a printed f-string only the fixed text
    is recorded. *)
Inductive event : Type :=
| Print (line : string)
| CudaSynchronize
| ArtSetGains (kps kds : option Matrix)
| ArtSetJointEfforts (m : Matrix)
| ArtSetJointPositionTargets (m : Matrix)
| ArtSetJointVelocityTargets (m : Matrix).

(** The object a method runs on, and the effects so far. *)
Record World (O : Type) : Type := mkWorld {
  obj : O;
  trace : list event
}.
Arguments mkWorld {O} obj trace.
Arguments obj {O} w.
Arguments trace {O} w.

Definition M (O A : Type) : Type := World O → result A * World O.

Definition ret {O A} (a : A) : M O A := λ w, (Ok a, w).

Definition bind {O A B} (m : M O A) (k : A → M O B) : M O B :=
  λ w, match m w with
       | (Ok a, w') => k a w'
       | (Raise e, w') => (Raise e, w')
       end.

Declare Scope py_scope.
Delimit Scope py_scope with py.
Bind Scope py_scope with M.
Notation "x ← y ; z" := (bind y (λ x, z))
  (at level 20, y at level 100, z at level 200, only parsing) : py_scope.
Notation "x ;; z" := (bind x (λ _, z))
  (at level 100, z at level 200, only parsing, right associativity) : py_scope.
Open Scope py_scope.

Definition raise {O A} (e : exn) : M O A := λ w, (Raise e, w).

Definition lift {O A} (r : result A) : M O A := λ w, (r, w).

Definition get_self {O} : M O O := λ w, (Ok (obj w), w).

Definition modify {O} (f : O → O) : M O unit :=
  λ w, (Ok tt, mkWorld (f (obj w)) (trace w)).

Definition emit {O} (e : event) : M O unit :=
  λ w, (Ok tt, mkWorld (obj w) (trace w ++ [e])).

Definition print {O} (line : string) : M O unit := emit (Print line).

(** Reading an attribute that may not have been set on the object. *)
Definition getattr {O A} (name : string) (o : option A) : M O A :=
  match o with
  | Some a => ret a
  | None => raise (AttributeError name)
  end.

(** [for x in l: body(x)] *)
Fixpoint for_each {O A} (l : list A) (body : A → M O unit) : M O unit :=
  match l with
  | [] => ret tt
  | x :: l' => body x;; for_each l' body
  end.

(** A Python [dict] with string keys where the order of insertion is
    observed: [d[k] = v] overwrites in place or appends, [d[k]] raises
    [KeyError] on a missing key. *)
Fixpoint dict_setitem {V} (k : string) (v : V) (d : list (string * V))
    : list (string * V) :=
  match d with
  | [] => [(k, v)]
  | (k', v') :: d' =>
      if String.eqb k k' then (k, v) :: d' else (k', v') :: dict_setitem k v d'
  end.

Fixpoint dict_getitem {V} (k : string) (d : list (string * V)) : result V :=
  match d with
  | [] => Raise (KeyError k)
  | (k', v') :: d' => if String.eqb k k' then Ok v' else dict_getitem k d'
  end.

Definition dict_keys {V} (d : list (string * V)) : list string := map fst d.

(** ** Strings and lists of strings *)

(** [pattern in s] on strings: [pattern] occurs in [s] as a contiguous run
    of characters. *)
Fixpoint str_in (pattern s : string) : bool :=
  String.prefix pattern s
  || match s with
     | EmptyString => false
     | String _ s' => str_in pattern s'
     end.

(** [l.index(x)]: the first position of [x] in [l].  On a list without [x]
    Python raises [ValueError], a subclass of [Exception]. *)
Fixpoint list_index (x : string) (l : list string) : result nat :=
  match l with
  | [] => Raise (Exception "ValueError: x is not in list")
  | y :: l' =>
      if String.eqb y x then Ok 0
      else match list_index x l' with
           | Ok i => Ok (S i)
           | Raise e => Raise e
           end
  end.

(** ** The fragment of torch that the sources use *)

Module torch.

Inductive dtype : Type := int64 | int32 | float32 | float64.
Inductive device : Type := cpu | cuda.   (* [device.type] *)

Definition dtype_eqb (a b : dtype) : bool :=
  match a, b with
  | int64, int64 | int32, int32 | float32, float32 | float64, float64 => true
  | _, _ => false
  end.

Definition device_eqb (a b : device) : bool :=
  match a, b with
  | cpu, cpu | cuda, cuda => true
  | _, _ => false
  end.

(** An index tensor as a caller builds it: [ix_data] are the entries in
    row-major order, [ix_shape] the shape (one entry for a 1-D tensor). *)
Record IndexTensor : Type := mkIndex {
  ix_shape : list nat;
  ix_dtype : dtype;
  ix_device : device;
  ix_data : list Z
}.

(** A two-dimensional tensor of scalars handed in by a caller. *)
Record Tensor2D : Type := mkTensor {
  t_rows : nat;
  t_cols : nat;
  t_device : device;
  t_at : nat → nat → Q
}.

(** [torch.tensor(rows, device=d)] for a literal list of rows *)
Definition tensor (d : device) (rows : Matrix) : Tensor2D :=
  mkTensor (length rows) (length (default [] (head rows))) d (mat_at rows).

(** [torch.tensor(l, device=d, dtype=torch.int64)] for a flat list *)
Definition index_tensor (d : device) (ty : dtype) (l : list Z) : IndexTensor :=
  mkIndex [length l] ty d l.

Definition full (rows cols : nat) (v : Q) : Matrix :=
  replicate rows (replicate cols v).

Definition zeros (rows cols : nat) : Matrix := full rows cols 0%Q.

(** elementwise operations on tensors of one shape *)
Definition add (a b : Matrix) : Matrix := zip_with (zip_with Qplus) a b.
Definition sub (a b : Matrix) : Matrix := zip_with (zip_with Qminus) a b.
Definition mul (a b : Matrix) : Matrix := zip_with (zip_with Qmult) a b.
(** [torch.mul(t, c)] and [t / c] with a Python scalar [c] *)
Definition mul_scalar (a : Matrix) (c : Q) : Matrix := map (map (λ x, x * c)%Q) a.
Definition div_scalar (a : Matrix) (c : Q) : Matrix := map (map (λ x, x / c)%Q) a.

(** [torch.min(t)], [torch.max(t)]: the reduction over all entries; it
    raises on a tensor without entries. *)
Definition min (l : list Z) : result Z :=
  match l with
  | [] => Raise (RuntimeError "min(): Expected reduction dim to be specified for input.numel() == 0")
  | x :: l' => Ok (foldl Z.min x l')
  end.

Definition max (l : list Z) : result Z :=
  match l with
  | [] => Raise (RuntimeError "max(): Expected reduction dim to be specified for input.numel() == 0")
  | x :: l' => Ok (foldl Z.max x l')
  end.

(** [torch.meshgrid((rs, js), indexing="ij")]: two grids of shape
    [[|rs|, |js|]]; at position (a, b) the first holds [rs[a]] and the
    second [js[b]].  The pair is kept as the two generating index lists. *)
Record Selector : Type := meshgrid {
  sel_robots : list nat;
  sel_jnts : list nat
}.

(** [selector[0].shape] *)
Definition selector_shape (s : Selector) : nat * nat :=
  (length (sel_robots s), length (sel_jnts s)).

(** [buf[selector] = signal] (index_put without accumulation): position
    (a, b) of the grids names the cell ([rs[a]], [js[b]]), which receives
    [signal[a, b]]; positions are visited in row-major order. *)
Definition index_put_row (v : nat → nat → Q) (js : list nat)
    (m : Matrix) (ar : nat * nat) : Matrix :=
  foldl (λ m' bc, set_cell m' ar.2 bc.2 (v ar.1 bc.1)) m (imap pair js).

Definition index_put (buf : Matrix) (s : Selector) (v : nat → nat → Q) : Matrix :=
  foldl (index_put_row v (sel_jnts s)) buf (imap pair (sel_robots s)).

End torch.

(** [math.pi]: the binary64 number nearest to pi, as an exact rational. *)
Definition math_pi : Q := 884279719003555 # 281474976710656.

(** ** [class FirstOrderFilter] *)

Module FirstOrderFilter.

Record t : Type := mk {
  _device : torch.device;
  _dt : Q;
  _rows : nat;
  _cols : nat;
  _filter_BW : Q;
  _gain : Q;
  yk : Matrix;
  ykm1 : Matrix;
  refk : Matrix;
  refkm1 : Matrix;
  _kh2 : Q;
  _coeff_ref : Q;
  _coeff_km1 : Q
}.

(** [__init__].  The two coefficient lines divide Python floats, which
    raises [ZeroDivisionError] when [1 + self._kh2] is zero. *)
Definition __init__ (dt filter_BW : Q) (rows cols : nat) (device : torch.device)
    : result t :=
  let gain := (2 * math_pi * filter_BW)%Q in
  let kh2 := (gain * dt / 2)%Q in
  if Qeq_bool (1 + kh2) 0 then Raise ZeroDivisionError
  else Ok {| _device := device;
             _dt := dt;
             _rows := rows;
             _cols := cols;
             _filter_BW := filter_BW;
             _gain := gain;
             yk := torch.zeros rows cols;
             ykm1 := torch.zeros rows cols;
             refk := torch.zeros rows cols;
             refkm1 := torch.zeros rows cols;
             _kh2 := kh2;
             _coeff_ref := (kh2 * 1 / (1 + kh2))%Q;
             _coeff_km1 := ((1 - kh2) / (1 + kh2))%Q |}.

Definition with_refk (f : t) (m : Matrix) : t :=
  mk (_device f) (_dt f) (_rows f) (_cols f) (_filter_BW f) (_gain f)
     (yk f) (ykm1 f) m (refkm1 f) (_kh2 f) (_coeff_ref f) (_coeff_km1 f).
Definition with_yk (f : t) (m : Matrix) : t :=
  mk (_device f) (_dt f) (_rows f) (_cols f) (_filter_BW f) (_gain f)
     m (ykm1 f) (refk f) (refkm1 f) (_kh2 f) (_coeff_ref f) (_coeff_km1 f).
Definition with_refkm1 (f : t) (m : Matrix) : t :=
  mk (_device f) (_dt f) (_rows f) (_cols f) (_filter_BW f) (_gain f)
     (yk f) (ykm1 f) (refk f) m (_kh2 f) (_coeff_ref f) (_coeff_km1 f).
Definition with_ykm1 (f : t) (m : Matrix) : t :=
  mk (_device f) (_dt f) (_rows f) (_cols f) (_filter_BW f) (_gain f)
     (yk f) m (refk f) (refkm1 f) (_kh2 f) (_coeff_ref f) (_coeff_km1 f).

(** [update(refk = None)] *)
Definition update (self : t) (refk_arg : option Matrix) : t :=
  let self :=
    match refk_arg with
    | Some r => with_refk self (slice_assign (refk self) (mat_at r))
    | None => self
    end in
  let self :=
    with_yk self
      (slice_assign (yk self)
         (mat_at (torch.add (torch.mul_scalar (ykm1 self) (_coeff_km1 self))
                            (torch.mul_scalar (torch.add (refk self) (refkm1 self))
                                              (_coeff_ref self))))) in
  let self := with_refkm1 self (slice_assign (refkm1 self) (mat_at (refk self))) in
  with_ykm1 self (slice_assign (ykm1 self) (mat_at (yk self))).

(** [reset()] *)
Definition reset (self : t) : t :=
  let z := mat_at (torch.zeros (_rows self) (_cols self)) in
  let self := with_yk self (slice_assign (yk self) z) in
  let self := with_ykm1 self (slice_assign (ykm1 self) z) in
  let self := with_refk self (slice_assign (refk self) z) in
  with_refkm1 self (slice_assign (refkm1 self) z).

(** [get()] *)
Definition get (self : t) : Matrix := yk self.

End FirstOrderFilter.

(** ** The articulation view, as far as the controller and the homer read it *)

Module ArticulationView.

Record t : Type := mk {
  initialized : bool;
  count : nat;
  num_dof : nat;
  dof_names : list string
}.

End ArticulationView.

(** ** [class OmniJntImpCntrl] *)

Module OmniJntImpCntrl.

Import torch.

(** [class IndxState(Enum)] *)
Inductive IndxState : Type := NONE | VALID | INVALID.

Definition IndxState_eqb (a b : IndxState) : bool :=
  match a, b with
  | NONE, NONE | VALID, VALID | INVALID, INVALID => true
  | _, _ => false
  end.

(** The attributes of a controller.  The three filters exist only when a
    [filter_dt] was given ([None] here: the attribute was never set). *)
Record t : Type := mk {
  override_art_controller : bool;
  init_on_creation : bool;
  gains_initialized : bool;
  refs_initialized : bool;
  _default_pgain : Q;
  _default_vgain : Q;
  _filter_BW : Q;
  _filter_dt : option Q;
  _device : torch.device;
  num_robots : nat;
  n_dofs : nat;
  jnts_names : list string;
  _pos_gains : Matrix;
  _vel_gains : Matrix;
  _eff_ref : Matrix;
  _pos_ref : Matrix;
  _vel_ref : Matrix;
  _pos_err : Matrix;
  _vel_err : Matrix;
  _pos : Matrix;
  _vel : Matrix;
  _eff : Matrix;
  _imp_eff : Matrix;
  _filter_available : bool;
  _pos_ref_filter : option FirstOrderFilter.t;
  _vel_ref_filter : option FirstOrderFilter.t;
  _eff_ref_filter : option FirstOrderFilter.t
}.

(** Attribute assignment [self.x = v], one function per assigned attribute. *)
Definition set_gains_initialized (v : bool) (self : t) : t :=
  mk (override_art_controller self) (init_on_creation self) v
     (refs_initialized self) (_default_pgain self) (_default_vgain self)
     (_filter_BW self) (_filter_dt self) (_device self) (num_robots self)
     (n_dofs self) (jnts_names self) (_pos_gains self) (_vel_gains self)
     (_eff_ref self) (_pos_ref self) (_vel_ref self) (_pos_err self)
     (_vel_err self) (_pos self) (_vel self) (_eff self) (_imp_eff self)
     (_filter_available self) (_pos_ref_filter self) (_vel_ref_filter
     self) (_eff_ref_filter self).
Definition set_refs_initialized (v : bool) (self : t) : t :=
  mk (override_art_controller self) (init_on_creation self)
     (gains_initialized self) v (_default_pgain self) (_default_vgain
     self) (_filter_BW self) (_filter_dt self) (_device self) (num_robots
     self) (n_dofs self) (jnts_names self) (_pos_gains self) (_vel_gains
     self) (_eff_ref self) (_pos_ref self) (_vel_ref self) (_pos_err self)
     (_vel_err self) (_pos self) (_vel self) (_eff self) (_imp_eff self)
     (_filter_available self) (_pos_ref_filter self) (_vel_ref_filter
     self) (_eff_ref_filter self).
Definition set_pos_gains (v : Matrix) (self : t) : t :=
  mk (override_art_controller self) (init_on_creation self)
     (gains_initialized self) (refs_initialized self) (_default_pgain
     self) (_default_vgain self) (_filter_BW self) (_filter_dt self)
     (_device self) (num_robots self) (n_dofs self) (jnts_names self) v
     (_vel_gains self) (_eff_ref self) (_pos_ref self) (_vel_ref self)
     (_pos_err self) (_vel_err self) (_pos self) (_vel self) (_eff self)
     (_imp_eff self) (_filter_available self) (_pos_ref_filter self)
     (_vel_ref_filter self) (_eff_ref_filter self).
Definition set_vel_gains (v : Matrix) (self : t) : t :=
  mk (override_art_controller self) (init_on_creation self)
     (gains_initialized self) (refs_initialized self) (_default_pgain
     self) (_default_vgain self) (_filter_BW self) (_filter_dt self)
     (_device self) (num_robots self) (n_dofs self) (jnts_names self)
     (_pos_gains self) v (_eff_ref self) (_pos_ref self) (_vel_ref self)
     (_pos_err self) (_vel_err self) (_pos self) (_vel self) (_eff self)
     (_imp_eff self) (_filter_available self) (_pos_ref_filter self)
     (_vel_ref_filter self) (_eff_ref_filter self).
Definition set_eff_ref (v : Matrix) (self : t) : t :=
  mk (override_art_controller self) (init_on_creation self)
     (gains_initialized self) (refs_initialized self) (_default_pgain
     self) (_default_vgain self) (_filter_BW self) (_filter_dt self)
     (_device self) (num_robots self) (n_dofs self) (jnts_names self)
     (_pos_gains self) (_vel_gains self) v (_pos_ref self) (_vel_ref self)
     (_pos_err self) (_vel_err self) (_pos self) (_vel self) (_eff self)
     (_imp_eff self) (_filter_available self) (_pos_ref_filter self)
     (_vel_ref_filter self) (_eff_ref_filter self).
Definition set_pos_ref (v : Matrix) (self : t) : t :=
  mk (override_art_controller self) (init_on_creation self)
     (gains_initialized self) (refs_initialized self) (_default_pgain
     self) (_default_vgain self) (_filter_BW self) (_filter_dt self)
     (_device self) (num_robots self) (n_dofs self) (jnts_names self)
     (_pos_gains self) (_vel_gains self) (_eff_ref self) v (_vel_ref self)
     (_pos_err self) (_vel_err self) (_pos self) (_vel self) (_eff self)
     (_imp_eff self) (_filter_available self) (_pos_ref_filter self)
     (_vel_ref_filter self) (_eff_ref_filter self).
Definition set_vel_ref (v : Matrix) (self : t) : t :=
  mk (override_art_controller self) (init_on_creation self)
     (gains_initialized self) (refs_initialized self) (_default_pgain
     self) (_default_vgain self) (_filter_BW self) (_filter_dt self)
     (_device self) (num_robots self) (n_dofs self) (jnts_names self)
     (_pos_gains self) (_vel_gains self) (_eff_ref self) (_pos_ref self) v
     (_pos_err self) (_vel_err self) (_pos self) (_vel self) (_eff self)
     (_imp_eff self) (_filter_available self) (_pos_ref_filter self)
     (_vel_ref_filter self) (_eff_ref_filter self).
Definition set_pos_err (v : Matrix) (self : t) : t :=
  mk (override_art_controller self) (init_on_creation self)
     (gains_initialized self) (refs_initialized self) (_default_pgain
     self) (_default_vgain self) (_filter_BW self) (_filter_dt self)
     (_device self) (num_robots self) (n_dofs self) (jnts_names self)
     (_pos_gains self) (_vel_gains self) (_eff_ref self) (_pos_ref self)
     (_vel_ref self) v (_vel_err self) (_pos self) (_vel self) (_eff self)
     (_imp_eff self) (_filter_available self) (_pos_ref_filter self)
     (_vel_ref_filter self) (_eff_ref_filter self).
Definition set_vel_err (v : Matrix) (self : t) : t :=
  mk (override_art_controller self) (init_on_creation self)
     (gains_initialized self) (refs_initialized self) (_default_pgain
     self) (_default_vgain self) (_filter_BW self) (_filter_dt self)
     (_device self) (num_robots self) (n_dofs self) (jnts_names self)
     (_pos_gains self) (_vel_gains self) (_eff_ref self) (_pos_ref self)
     (_vel_ref self) (_pos_err self) v (_pos self) (_vel self) (_eff self)
     (_imp_eff self) (_filter_available self) (_pos_ref_filter self)
     (_vel_ref_filter self) (_eff_ref_filter self).
Definition set_pos (v : Matrix) (self : t) : t :=
  mk (override_art_controller self) (init_on_creation self)
     (gains_initialized self) (refs_initialized self) (_default_pgain
     self) (_default_vgain self) (_filter_BW self) (_filter_dt self)
     (_device self) (num_robots self) (n_dofs self) (jnts_names self)
     (_pos_gains self) (_vel_gains self) (_eff_ref self) (_pos_ref self)
     (_vel_ref self) (_pos_err self) (_vel_err self) v (_vel self) (_eff
     self) (_imp_eff self) (_filter_available self) (_pos_ref_filter self)
     (_vel_ref_filter self) (_eff_ref_filter self).
Definition set_vel (v : Matrix) (self : t) : t :=
  mk (override_art_controller self) (init_on_creation self)
     (gains_initialized self) (refs_initialized self) (_default_pgain
     self) (_default_vgain self) (_filter_BW self) (_filter_dt self)
     (_device self) (num_robots self) (n_dofs self) (jnts_names self)
     (_pos_gains self) (_vel_gains self) (_eff_ref self) (_pos_ref self)
     (_vel_ref self) (_pos_err self) (_vel_err self) (_pos self) v (_eff
     self) (_imp_eff self) (_filter_available self) (_pos_ref_filter self)
     (_vel_ref_filter self) (_eff_ref_filter self).
Definition set_eff (v : Matrix) (self : t) : t :=
  mk (override_art_controller self) (init_on_creation self)
     (gains_initialized self) (refs_initialized self) (_default_pgain
     self) (_default_vgain self) (_filter_BW self) (_filter_dt self)
     (_device self) (num_robots self) (n_dofs self) (jnts_names self)
     (_pos_gains self) (_vel_gains self) (_eff_ref self) (_pos_ref self)
     (_vel_ref self) (_pos_err self) (_vel_err self) (_pos self) (_vel
     self) v (_imp_eff self) (_filter_available self) (_pos_ref_filter
     self) (_vel_ref_filter self) (_eff_ref_filter self).
Definition set_imp_eff (v : Matrix) (self : t) : t :=
  mk (override_art_controller self) (init_on_creation self)
     (gains_initialized self) (refs_initialized self) (_default_pgain
     self) (_default_vgain self) (_filter_BW self) (_filter_dt self)
     (_device self) (num_robots self) (n_dofs self) (jnts_names self)
     (_pos_gains self) (_vel_gains self) (_eff_ref self) (_pos_ref self)
     (_vel_ref self) (_pos_err self) (_vel_err self) (_pos self) (_vel
     self) (_eff self) v (_filter_available self) (_pos_ref_filter self)
     (_vel_ref_filter self) (_eff_ref_filter self).
Definition set_filter_available (v : bool) (self : t) : t :=
  mk (override_art_controller self) (init_on_creation self)
     (gains_initialized self) (refs_initialized self) (_default_pgain
     self) (_default_vgain self) (_filter_BW self) (_filter_dt self)
     (_device self) (num_robots self) (n_dofs self) (jnts_names self)
     (_pos_gains self) (_vel_gains self) (_eff_ref self) (_pos_ref self)
     (_vel_ref self) (_pos_err self) (_vel_err self) (_pos self) (_vel
     self) (_eff self) (_imp_eff self) v (_pos_ref_filter self)
     (_vel_ref_filter self) (_eff_ref_filter self).
Definition set_pos_ref_filter (v : option FirstOrderFilter.t) (self : t) : t :=
  mk (override_art_controller self) (init_on_creation self)
     (gains_initialized self) (refs_initialized self) (_default_pgain
     self) (_default_vgain self) (_filter_BW self) (_filter_dt self)
     (_device self) (num_robots self) (n_dofs self) (jnts_names self)
     (_pos_gains self) (_vel_gains self) (_eff_ref self) (_pos_ref self)
     (_vel_ref self) (_pos_err self) (_vel_err self) (_pos self) (_vel
     self) (_eff self) (_imp_eff self) (_filter_available self) v
     (_vel_ref_filter self) (_eff_ref_filter self).
Definition set_vel_ref_filter (v : option FirstOrderFilter.t) (self : t) : t :=
  mk (override_art_controller self) (init_on_creation self)
     (gains_initialized self) (refs_initialized self) (_default_pgain
     self) (_default_vgain self) (_filter_BW self) (_filter_dt self)
     (_device self) (num_robots self) (n_dofs self) (jnts_names self)
     (_pos_gains self) (_vel_gains self) (_eff_ref self) (_pos_ref self)
     (_vel_ref self) (_pos_err self) (_vel_err self) (_pos self) (_vel
     self) (_eff self) (_imp_eff self) (_filter_available self)
     (_pos_ref_filter self) v (_eff_ref_filter self).
Definition set_eff_ref_filter (v : option FirstOrderFilter.t) (self : t) : t :=
  mk (override_art_controller self) (init_on_creation self)
     (gains_initialized self) (refs_initialized self) (_default_pgain
     self) (_default_vgain self) (_filter_BW self) (_filter_dt self)
     (_device self) (num_robots self) (n_dofs self) (jnts_names self)
     (_pos_gains self) (_vel_gains self) (_eff_ref self) (_pos_ref self)
     (_vel_ref self) (_pos_err self) (_vel_err self) (_pos self) (_vel
     self) (_eff self) (_imp_eff self) (_filter_available self)
     (_pos_ref_filter self) (_vel_ref_filter self) v.

(** The class has no attribute called [vel_ref_filter]: the filter is kept
    in [_vel_ref_filter], and [vel_ref] is a method. *)
Definition vel_ref_filter (self : t) : option FirstOrderFilter.t := None.

Definition _valid_signal_types : list string :=
  ["pos_ref"; "vel_ref"; "eff_ref";  (* references *)
   "pos"; "vel"; "eff";              (* measurements *)
   "pgain"; "vgain"].

(** [_initialize_gains] *)
Definition _initialize_gains : M t unit :=
  self ← get_self;
  if negb (gains_initialized self) then
    (if negb (override_art_controller self) then
       emit (ArtSetGains (Some (_pos_gains self)) (Some (_vel_gains self)))
     else
       let no_gains := torch.zeros (num_robots self) (n_dofs self) in
       emit (ArtSetGains (Some no_gains) (Some no_gains)));;
    modify (set_gains_initialized true)
  else ret tt.

(** [_initialize_refs] *)
Definition _initialize_refs : M t unit :=
  self ← get_self;
  if negb (refs_initialized self) then
    (if negb (override_art_controller self) then
       emit (ArtSetJointEfforts (_eff_ref self));;
       emit (ArtSetJointPositionTargets (_pos_ref self));;
       emit (ArtSetJointVelocityTargets (_vel_ref self))
     else
       emit (ArtSetJointEfforts (_eff_ref self)));;
    modify (set_refs_initialized true)
  else ret tt.

(** The condition tested on a provided index tensor, with Python's
    left-to-right short-circuit [and]:
    [len(shape) == 1 and dtype == torch.int64 and
     device.type == self._device.type and
     bool(torch.min(indxs) >= 0) and bool(torch.max(indxs) < bound)]. *)
Definition sanity_checks (self : t) (indxs : IndexTensor) (bound : nat)
    : result bool :=
  if negb (length (ix_shape indxs) =? 1)%nat then Ok false
  else if negb (dtype_eqb (ix_dtype indxs) int64) then Ok false
  else if negb (device_eqb (ix_device indxs) (_device self)) then Ok false
  else match torch.min (ix_data indxs) with
       | Raise e => Raise e
       | Ok mn =>
           if negb (0 <=? mn)%Z then Ok false
           else match torch.max (ix_data indxs) with
                | Raise e => Raise e
                | Ok mx => Ok (mx <? Z.of_nat bound)%Z
                end
       end.

(** [_validate_selectors]; the returned list [check] is a pair.  The
    warning block formats [torch.min] and [torch.max] of the tensor, which
    raise on a tensor without entries. *)
Definition _validate_selectors (robot_indxs jnt_indxs : option IndexTensor)
    : M t (IndxState * IndxState) :=
  self ← get_self;
  check0 ←
    match robot_indxs with
    | Some r =>
        ok ← lift (sanity_checks self r (num_robots self));
        if negb ok then
          print ": mismatch in provided selector ->";;
          print ": robot_indxs_shape -> VS expected -> 1";;
          print ": robot_indxs.dtype -> VS expected -> torch.int64";;
          print ": robot_indxs.device -> VS expected -> ";;
          _ ← lift (torch.min (ix_data r));
          print ": torch.min(robot_indxs) >= 0) -> VS True";;
          _ ← lift (torch.max (ix_data r));
          print ": torch.max(robot_indxs) < self.n_dofs -> VS ";;
          ret INVALID
        else ret VALID
    | None => ret NONE
    end;
  check1 ←
    match jnt_indxs with
    | Some j =>
        ok ← lift (sanity_checks self j (n_dofs self));
        if negb ok then
          print ": mismatch in provided selector ->";;
          print ": jnt_indxs_shape -> VS expected -> 1";;
          print ": jnt_indxs.dtype -> VS expected -> torch.int64";;
          print ": jnt_indxs.device -> VS expected -> ";;
          _ ← lift (torch.min (ix_data j));
          print ": torch.min(jnt_indxs) >= 0) -> VS True";;
          _ ← lift (torch.max (ix_data j));
          print ": torch.max(jnt_indxs) < self.n_dofs -> VS ";;
          ret INVALID
        else ret VALID
    | None => ret NONE
    end;
  ret (check0, check1).

(** The entries of an index tensor that passed the checks (all of them are
    non-negative), as positions. *)
Definition indices (indxs : option IndexTensor) : list nat :=
  match indxs with
  | Some x => map Z.to_nat (ix_data x)
  | None => []
  end.

(** [_gen_selector]: three independent [if]s; every other combination of
    states, in particular one with an [INVALID], leaves [selector = None]. *)
Definition _gen_selector (robot_indxs jnt_indxs : option IndexTensor)
    : M t (option Selector) :=
  self ← get_self;
  let selector := None in
  indxs_check ← _validate_selectors robot_indxs jnt_indxs;
  let selector :=
    if IndxState_eqb indxs_check.1 VALID && IndxState_eqb indxs_check.2 VALID
    then Some (meshgrid (indices robot_indxs) (indices jnt_indxs))
    else selector in
  let selector :=
    if IndxState_eqb indxs_check.1 VALID && IndxState_eqb indxs_check.2 NONE
    then Some (meshgrid (indices robot_indxs) (seq 0 (n_dofs self)))
    else selector in
  let selector :=
    if IndxState_eqb indxs_check.1 NONE && IndxState_eqb indxs_check.2 VALID
    then Some (meshgrid (seq 0 (num_robots self)) (indices jnt_indxs))
    else selector in
  ret selector.

(** [_validate_signal].  The first statement reads [signal.shape], which
    raises [AttributeError] when the argument is [None]. *)
Definition _validate_signal (signal : option Tensor2D) (selector : option Selector)
    : M t bool :=
  self ← get_self;
  signal ← getattr "shape" signal;
  match selector with
  | None =>
      if (t_rows signal =? num_robots self)%nat
         && (t_cols signal =? n_dofs self)%nat
         && device_eqb (t_device signal) (_device self)
      then ret true
      else
        print ": mismatch in provided signal ->";;
        print ": signal rows -> VS expected rows -> ";;
        print ": signal cols -> VS expected cols -> ";;
        print ": signal device -> VS expected type -> ";;
        ret false
  | Some sel =>
      let selector_shape := selector_shape sel in
      if (t_rows signal =? selector_shape.1)%nat
         && (t_cols signal =? selector_shape.2)%nat
         && device_eqb (t_device signal) (_device self)
      then ret true
      else
        print ": mismatch in provided signal and/or selector ->";;
        print ": signal rows -> VS selector rows -> ";;
        print ": signal cols -> VS selector cols -> ";;
        print ": signal device -> VS expected type -> ";;
        ret false
  end.

(** [buf[selector] = signal] when a selector is given, else
    [buf[:, :] = signal]. *)
Definition assign (buf : Matrix) (signal : Tensor2D) (selector : option Selector)
    : Matrix :=
  match selector with
  | Some sel => index_put buf sel (t_at signal)
  | None => slice_assign buf (t_at signal)
  end.

(** [_assign_signal]: the buffer is chosen by comparing the tag with the
    entries of [_valid_signal_types]. *)
Definition _assign_signal (signal_type : string) (signal : Tensor2D)
    (selector : option Selector) : M t bool :=
  self ← get_self;
  if bool_decide (signal_type ∈ _valid_signal_types) then
    if String.eqb signal_type "pos_ref" then
      modify (set_pos_ref (assign (_pos_ref self) signal selector));; ret true
    else if String.eqb signal_type "vel_ref" then
      modify (set_vel_ref (assign (_vel_ref self) signal selector));; ret true
    else if String.eqb signal_type "eff_ref" then
      modify (set_eff_ref (assign (_eff_ref self) signal selector));; ret true
    else if String.eqb signal_type "pos" then
      modify (set_pos (assign (_pos self) signal selector));; ret true
    else if String.eqb signal_type "vel" then
      modify (set_vel (assign (_vel self) signal selector));; ret true
    else if String.eqb signal_type "eff" then
      modify (set_eff (assign (_eff self) signal selector));; ret true
    else if String.eqb signal_type "pgain" then
      modify (set_pos_gains (assign (_pos_gains self) signal selector));; ret true
    else if String.eqb signal_type "vgain" then
      modify (set_vel_gains (assign (_vel_gains self) signal selector));; ret true
    else ret false   (* falls off the end: [None], which is falsy *)
  else ret false.

(** The three filters of [__init__] and [reset]. *)
Definition new_filter (self : t) (dt : Q) : result FirstOrderFilter.t :=
  FirstOrderFilter.__init__ dt (_filter_BW self) (num_robots self) (n_dofs self)
    (_device self).

(** [reset] *)
Definition reset : M t unit :=
  modify (set_gains_initialized false);;
  modify (set_refs_initialized false);;
  self ← get_self;
  let rows := num_robots self in
  let cols := n_dofs self in
  modify (set_pos_gains (torch.full rows cols (_default_pgain self)));;
  modify (set_vel_gains (torch.full rows cols (_default_vgain self)));;
  modify (set_eff_ref (torch.zeros rows cols));;
  modify (set_pos_ref (torch.zeros rows cols));;
  modify (set_vel_ref (torch.zeros rows cols));;
  modify (set_pos_err (torch.zeros rows cols));;
  modify (set_vel_err (torch.zeros rows cols));;
  modify (set_pos (torch.zeros rows cols));;
  modify (set_vel (torch.zeros rows cols));;
  modify (set_eff (torch.zeros rows cols));;
  modify (set_imp_eff (torch.zeros rows cols));;
  match _filter_dt self with
  | Some dt =>
      f ← lift (new_filter self dt); modify (set_pos_ref_filter (Some f));;
      f ← lift (new_filter self dt); modify (set_vel_ref_filter (Some f));;
      f ← lift (new_filter self dt); modify (set_eff_ref_filter (Some f));;
      self ← get_self;
      f ← getattr "_pos_ref_filter" (_pos_ref_filter self);
      modify (set_pos_ref_filter (Some (FirstOrderFilter.reset f)));;
      f ← getattr "_vel_ref_filter" (_vel_ref_filter self);
      modify (set_vel_ref_filter (Some (FirstOrderFilter.reset f)));;
      f ← getattr "_eff_ref_filter" (_eff_ref_filter self);
      modify (set_eff_ref_filter (Some (FirstOrderFilter.reset f)))
  | None => ret tt
  end;;
  if init_on_creation self then
    _initialize_gains;; _initialize_refs
  else ret tt.

(** [__init__]: the attributes are set on a fresh object, then [reset()]
    runs.  The buffers do not exist before [reset] creates them. *)
Definition __init__ (articulation : ArticulationView.t)
    (default_pgain default_vgain : Q) (backend : string) (device : torch.device)
    (filter_BW : Q) (filter_dt : option Q)
    (override_art_controller init_on_creation : bool)
    : M t unit :=
  let self :=
    {| override_art_controller := override_art_controller;
       init_on_creation := init_on_creation;
       gains_initialized := false;
       refs_initialized := false;
       _default_pgain := default_pgain;
       _default_vgain := default_vgain;
       _filter_BW := filter_BW;
       _filter_dt := filter_dt;
       _device := device;
       num_robots := ArticulationView.count articulation;
       n_dofs := ArticulationView.num_dof articulation;
       jnts_names := ArticulationView.dof_names articulation;
       _pos_gains := []; _vel_gains := []; _eff_ref := []; _pos_ref := [];
       _vel_ref := []; _pos_err := []; _vel_err := []; _pos := []; _vel := [];
       _eff := []; _imp_eff := [];
       _filter_available := false;
       _pos_ref_filter := None; _vel_ref_filter := None; _eff_ref_filter := None |} in
  modify (λ _, self);;
  if negb (ArticulationView.initialized articulation) then
    raise (Exception ": the provided articulation_view is not initialized properly!!")
  else
    (if negb (String.eqb backend "torch") then
       print ": forcing torch backend. Other backends are not yet supported."
     else ret tt);;
    match filter_dt with
    | Some dt =>
        f ← lift (new_filter self dt); modify (set_pos_ref_filter (Some f));;
        f ← lift (new_filter self dt); modify (set_vel_ref_filter (Some f));;
        f ← lift (new_filter self dt); modify (set_eff_ref_filter (Some f));;
        modify (set_filter_available true)
    | None =>
        print ": no filter dt provided -> reference filter will not be available"
    end;;
    reset.

(** One block of [update_state] and of [set_refs], which differ only in
    the tag and in the flag they clear:
    [if x is not None:
       valid = self._validate_signal(signal = x, selector = selector)
       if (valid):
         if (not self._assign_signal(signal_type = tag, signal = x,
                                     selector = selector)):
           success[3] = False
       else:
         success[i] = False]. *)
Definition write_signal (signal_type : string) (i : nat)
    (signal : option Tensor2D) (selector : option Selector)
    (success : list bool) : M t (list bool) :=
  match signal with
  | Some x =>
      valid ← _validate_signal signal selector;
      if valid then
        assigned ← _assign_signal signal_type x selector;
        if negb assigned then ret (<[3 := false]> success) else ret success
      else ret (<[i := false]> success)
  | None => ret success
  end.

(** [update_state]; [success] is the list of flags
    [pos, vel, eff, assign]. *)
Definition update_state (pos vel eff : option Tensor2D)
    (robot_indxs jnt_indxs : option IndexTensor) : M t (list bool) :=
  let success := [true; true; true; true] in
  selector ← _gen_selector robot_indxs jnt_indxs;
  success ← write_signal "pos" 0 pos selector success;
  success ← write_signal "vel" 1 vel selector success;
  success ← write_signal "eff" 2 eff selector success;
  ret success.

(** [set_gains]; [success] is the list of flags
    [pos_gains, vel_gains, assign].  The second block validates
    [pos_gains], as the source does. *)
Definition set_gains (pos_gains vel_gains : option Tensor2D)
    (robot_indxs jnt_indxs : option IndexTensor) : M t (list bool) :=
  let success := [true; true; true] in
  selector ← _gen_selector robot_indxs jnt_indxs;
  success ←
    match pos_gains with
    | Some signal =>
        pos_gains_valid ← _validate_signal pos_gains selector;
        if pos_gains_valid then
          assigned ← _assign_signal "pgain" signal selector;
          if negb assigned then ret (<[2 := false]> success)
          else
            self ← get_self;
            (if negb (override_art_controller self) then
               emit (ArtSetGains (Some (_pos_gains self)) None)
             else ret tt);;
            ret success
        else ret (<[0 := false]> success)
    | None => ret success
    end;
  success ←
    match vel_gains with
    | Some signal =>
        vel_gains_valid ← _validate_signal pos_gains selector;
        if vel_gains_valid then
          assigned ← _assign_signal "vgain" signal selector;
          if negb assigned then ret (<[2 := false]> success)
          else
            self ← get_self;
            (if negb (override_art_controller self) then
               emit (ArtSetGains None (Some (_vel_gains self)))
             else ret tt);;
            ret success
        else ret (<[1 := false]> success)
    | None => ret success
    end;
  ret success.

(** [set_refs]; [success] is the list of flags
    [eff_ref, pos_ref, vel_ref, assign]. *)
Definition set_refs (eff_ref pos_ref vel_ref : option Tensor2D)
    (robot_indxs jnt_indxs : option IndexTensor) : M t (list bool) :=
  let success := [true; true; true; true] in
  selector ← _gen_selector robot_indxs jnt_indxs;
  success ← write_signal "eff_ref" 0 eff_ref selector success;
  success ← write_signal "pos_ref" 1 pos_ref selector success;
  success ← write_signal "vel_ref" 2 vel_ref selector success;
  ret success.

(** [self.<name>.update(ref)] on one of the three filter attributes *)
Definition filter_update (name : string) (read : t → option FirstOrderFilter.t)
    (write : option FirstOrderFilter.t → t → t) (ref : Matrix) : M t unit :=
  self ← get_self;
  f ← getattr name (read self);
  modify (write (Some (FirstOrderFilter.update f (Some ref)))).

(** [self.<name>.get()] *)
Definition filter_get (name : string) (read : t → option FirstOrderFilter.t)
    : M t Matrix :=
  self ← get_self;
  f ← getattr name (read self);
  ret (FirstOrderFilter.get f).

(** The impedance law of both branches of [apply_cmds]:
    [torch.add(eff, torch.add(torch.mul(pos_gains, pos_err),
                              torch.mul(vel_gains, vel_err)))]. *)
Definition imp_law (eff pos_gains pos_err vel_gains vel_err : Matrix) : Matrix :=
  torch.add eff (torch.add (torch.mul pos_gains pos_err)
                           (torch.mul vel_gains vel_err)).

(** [apply_cmds(filter = False)] *)
Definition apply_cmds (filter : bool) : M t unit :=
  self ← get_self;
  (if negb (gains_initialized self) then _initialize_gains else ret tt);;
  self ← get_self;
  (if negb (refs_initialized self) then _initialize_refs else ret tt);;
  self ← get_self;
  if filter && _filter_available self then
    filter_update "_pos_ref_filter" _pos_ref_filter set_pos_ref_filter (_pos_ref self);;
    filter_update "_vel_ref_filter" _vel_ref_filter set_vel_ref_filter (_vel_ref self);;
    filter_update "_eff_ref_filter" _eff_ref_filter set_eff_ref_filter (_eff_ref self);;
    if negb (override_art_controller self) then
      p ← filter_get "_pos_ref_filter" _pos_ref_filter;
      emit (ArtSetJointPositionTargets p);;
      v ← filter_get "vel_ref_filter" vel_ref_filter;
      emit (ArtSetJointVelocityTargets v);;
      e ← filter_get "_eff_ref_filter" _eff_ref_filter;
      emit (ArtSetJointEfforts e)
    else
      p ← filter_get "_pos_ref_filter" _pos_ref_filter;
      modify (set_pos_err (torch.sub p (_pos self)));;
      v ← filter_get "vel_ref_filter" vel_ref_filter;
      modify (set_vel_err (torch.sub v (_vel self)));;
      e ← filter_get "_eff_ref_filter" _eff_ref_filter;
      self ← get_self;
      modify (set_imp_eff (imp_law e (_pos_gains self) (_pos_err self)
                                   (_vel_gains self) (_vel_err self)));;
      emit CudaSynchronize;;
      (* apply only effort (comprehensive of all imp. terms) *)
      self ← get_self;
      emit (ArtSetJointEfforts (_imp_eff self))
  else
    if negb (override_art_controller self) then
      emit (ArtSetJointEfforts (_eff_ref self));;
      emit (ArtSetJointPositionTargets (_pos_ref self));;
      emit (ArtSetJointVelocityTargets (_vel_ref self))
    else
      modify (set_pos_err (torch.sub (_pos_ref self) (_pos self)));;
      modify (set_vel_err (torch.sub (_vel_ref self) (_vel self)));;
      self ← get_self;
      modify (set_imp_eff (imp_law (_eff_ref self) (_pos_gains self) (_pos_err self)
                                   (_vel_gains self) (_vel_err self)));;
      emit CudaSynchronize;;
      (* apply only effort (comprehensive of all imp. terms) *)
      self ← get_self;
      emit (ArtSetJointEfforts (_imp_eff self)).

(** [get_jnt_names_matching]:
    [[jnt for jnt in self.jnts_names if name_pattern in jnt]] *)
Definition get_jnt_names_matching (self : t) (name_pattern : string)
    : list string :=
  List.filter (str_in name_pattern) (jnts_names self).

(** [[self.jnts_names.index(jnt) for jnt in jnts_names]] *)
Fixpoint index_each (self : t) (matching : list string) : result (list nat) :=
  match matching with
  | [] => Ok []
  | jnt :: rest =>
      match list_index jnt (jnts_names self) with
      | Raise e => Raise e
      | Ok i =>
          match index_each self rest with
          | Raise e => Raise e
          | Ok idxs => Ok (i :: idxs)
          end
      end
  end.

(** [get_jnt_idxs_matching]: the positions of the matching joints, as an
    int64 tensor on the controller's device. *)
Definition get_jnt_idxs_matching (self : t) (name_pattern : string)
    : result IndexTensor :=
  let matching := get_jnt_names_matching self name_pattern in
  match index_each self matching with
  | Raise e => Raise e
  | Ok jnt_idxs => Ok (index_tensor (_device self) int64 (map Z.of_nat jnt_idxs))
  end.

(** A freshly allocated object, before [__init__] has set anything. *)
Definition blank : t :=
  mk false false false false 0 0 0 None cpu 0 0 [] [] [] [] [] [] [] [] [] [] [] []
     false None None None.

(** [OmniJntImpCntrl(articulation, ...)] *)
Definition new (articulation : ArticulationView.t)
    (default_pgain default_vgain : Q) (backend : string) (device : torch.device)
    (filter_BW : Q) (filter_dt : option Q)
    (override_art_controller init_on_creation : bool)
    : result unit * World t :=
  __init__ articulation default_pgain default_vgain backend device filter_BW
    filter_dt override_art_controller init_on_creation (mkWorld blank []).

End OmniJntImpCntrl.

(** ** [class OmniRobotHomer] *)

Module OmniRobotHomer.

Record t : Type := mk {
  num_robots : nat;
  n_dofs : nat;
  jnts_names : list string;
  joint_idx_map : gmap string nat;
  _homing : Matrix;
  _homing_map : list (string * Q)
}.

Definition set_joint_idx_map (v : gmap string nat) (self : t) : t :=
  mk (num_robots self) (n_dofs self) (jnts_names self) v (_homing self)
     (_homing_map self).
Definition set_homing (v : Matrix) (self : t) : t :=
  mk (num_robots self) (n_dofs self) (jnts_names self) (joint_idx_map self) v
     (_homing_map self).
Definition set_homing_map (v : list (string * Q)) (self : t) : t :=
  mk (num_robots self) (n_dofs self) (jnts_names self) (joint_idx_map self)
     (_homing self) v.

(** Neither the class nor [__init__] ever sets an attribute [journal]:
    the module imports [Journal] and calls it as [Journal.log], while the
    [print] lines format [self.journal]. *)
Definition journal (self : t) : option unit := None.

(** [_assign2homing] *)
Definition _assign2homing : M t unit :=
  self ← get_self;
  for_each (dict_keys (_homing_map self)) (λ joint,
    self ← get_self;
    match joint_idx_map self !! joint with
    | Some idx =>
        value ← lift (dict_getitem joint (_homing_map self));
        modify (set_homing (set_column (_homing self) idx value))
    | None =>
        _ ← getattr "journal" (journal self);
        print ": joint is not present in the articulation. It will be ignored."
    end).

(** [__init__].  Reading the file and parsing the XML are the library's;
    the document enters as what
    [findall(".//group_state[@name='home']/joint")] yields, in document
    order, each element with its [name] and its [value] converted by
    [float] — or as [None] when the text is not well-formed XML. *)
Definition __init__ (articulation : ArticulationView.t)
    (srdf : option (list (string * Q))) (backend : string) : M t unit :=
  if negb (ArticulationView.initialized articulation) then
    raise (Exception "the provided articulation is not initialized properly!")
  else
    modify (λ _, {| num_robots := ArticulationView.count articulation;
                    n_dofs := ArticulationView.num_dof articulation;
                    jnts_names := ArticulationView.dof_names articulation;
                    joint_idx_map := ∅;
                    _homing := [];
                    _homing_map := [] |});;
    self ← get_self;
    for_each (seq 0 (n_dofs self)) (λ joint,
      self ← get_self;
      match jnts_names self !! joint with
      | Some name => modify (set_joint_idx_map (<[name := joint]> (joint_idx_map self)))
      | None => raise (IndexError "list index out of range")
      end);;
    (if negb (String.eqb backend "torch") then
       _ ← getattr "journal" (journal self);
       print ": forcing torch backend. Other backends are not yet supported."
     else ret tt);;
    modify (set_homing (torch.full (num_robots self) (n_dofs self) 0));;
    joints ←
      match srdf with
      | Some joints => ret joints
      | None =>
          _ ← getattr "journal" (journal self);
          print ": could not read SRDF properly!!";;
          raise (AttributeError "_srdf_root")
      end;
    modify (set_homing_map []);;
    for_each joints (λ joint,
      self ← get_self;
      modify (set_homing_map (dict_setitem joint.1 joint.2 (_homing_map self))));;
    _assign2homing.

Definition blank : t := mk 0 0 [] ∅ [] [].

(** [OmniRobotHomer(articulation, srdf_path, backend)] *)
Definition new (articulation : ArticulationView.t)
    (srdf : option (list (string * Q))) (backend : string)
    : result unit * World t :=
  __init__ articulation srdf backend (mkWorld blank []).

(** [get_homing()] *)
Definition get_homing (self : t) : Matrix := _homing self.

End OmniRobotHomer.

(** ** [CustomTask._get_robots_state] *)

Module CustomTask.

(** What the articulation view of one robot returns when read. *)
Record Readback : Type := mkReadback {
  get_world_poses : Matrix * Matrix;      (* (pos, quat) *)
  get_joint_positions : Matrix;
  get_linear_velocities : Matrix;
  get_angular_velocities : Matrix;
  get_joint_velocities : Matrix
}.

(** The state dictionaries of the task, keyed by robot name. *)
Record t : Type := mk {
  robot_names : list string;
  root_p : gmap string Matrix;
  root_q : gmap string Matrix;
  jnts_q : gmap string Matrix;
  root_v : gmap string Matrix;
  root_omega : gmap string Matrix;
  jnts_v : gmap string Matrix;
  root_p_prev : gmap string Matrix;
  root_q_prev : gmap string Matrix;
  jnts_q_prev : gmap string Matrix
}.

Definition set_root_p (v : gmap string Matrix) (self : t) : t :=
  mk (robot_names self) v (root_q self) (jnts_q self) (root_v self)
     (root_omega self) (jnts_v self) (root_p_prev self) (root_q_prev self)
     (jnts_q_prev self).
Definition set_root_q (v : gmap string Matrix) (self : t) : t :=
  mk (robot_names self) (root_p self) v (jnts_q self) (root_v self)
     (root_omega self) (jnts_v self) (root_p_prev self) (root_q_prev self)
     (jnts_q_prev self).
Definition set_jnts_q (v : gmap string Matrix) (self : t) : t :=
  mk (robot_names self) (root_p self) (root_q self) v (root_v self)
     (root_omega self) (jnts_v self) (root_p_prev self) (root_q_prev self)
     (jnts_q_prev self).
Definition set_root_v (v : gmap string Matrix) (self : t) : t :=
  mk (robot_names self) (root_p self) (root_q self) (jnts_q self) v
     (root_omega self) (jnts_v self) (root_p_prev self) (root_q_prev self)
     (jnts_q_prev self).
Definition set_root_omega (v : gmap string Matrix) (self : t) : t :=
  mk (robot_names self) (root_p self) (root_q self) (jnts_q self) (root_v
     self) v (jnts_v self) (root_p_prev self) (root_q_prev self)
     (jnts_q_prev self).
Definition set_jnts_v (v : gmap string Matrix) (self : t) : t :=
  mk (robot_names self) (root_p self) (root_q self) (jnts_q self) (root_v
     self) (root_omega self) v (root_p_prev self) (root_q_prev self)
     (jnts_q_prev self).
Definition set_root_p_prev (v : gmap string Matrix) (self : t) : t :=
  mk (robot_names self) (root_p self) (root_q self) (jnts_q self) (root_v
     self) (root_omega self) (jnts_v self) v (root_q_prev self)
     (jnts_q_prev self).
Definition set_root_q_prev (v : gmap string Matrix) (self : t) : t :=
  mk (robot_names self) (root_p self) (root_q self) (jnts_q self) (root_v
     self) (root_omega self) (jnts_v self) (root_p_prev self) v
     (jnts_q_prev self).
Definition set_jnts_q_prev (v : gmap string Matrix) (self : t) : t :=
  mk (robot_names self) (root_p self) (root_q self) (jnts_q self) (root_v
     self) (root_omega self) (jnts_v self) (root_p_prev self) (root_q_prev
     self) v.

(** [d[key]] *)
Definition getitem {V} (d : gmap string V) (key : string) : M t V :=
  match d !! key with
  | Some v => ret v
  | None => raise (KeyError key)
  end.

(** [self.<d>[robot_name][:, :] = src]: the tensor stored under the key
    is overwritten in place. *)
Definition inplace (read : t → gmap string Matrix)
    (write : gmap string Matrix → t → t) (key : string) (src : Matrix)
    : M t unit :=
  self ← get_self;
  buf ← getitem (read self) key;
  modify (write (<[key := slice_assign buf (mat_at src)]> (read self))).

(** [self.<d>[robot_name][:, :].zero_()] *)
Definition inplace_zero (read : t → gmap string Matrix)
    (write : gmap string Matrix → t → t) (key : string) : M t unit :=
  self ← get_self;
  buf ← getitem (read self) key;
  modify (write (<[key := zero_ buf]> (read self))).

Section GetRobotsState.

(** [omni_robo_gym.utils.math_utils.quat_to_omega(q, q_prev, dt)]: the
    module is not among the sources; the function is a parameter. *)
Variable quat_to_omega : Matrix → Matrix → Q → Matrix.

(** What the view of each robot returns during this call. *)
Variable _robots_art_views : gmap string Readback.

(** The body of the loop of [_get_robots_state], for one robot. *)
Definition get_robot_state (dt : option Q) (reset : bool) (robot_name : string)
    : M t unit :=
  view ← getitem _robots_art_views robot_name;
  let pose := get_world_poses view in
  inplace root_p set_root_p robot_name pose.1;;
  inplace root_q set_root_q robot_name pose.2;;
  inplace jnts_q set_jnts_q robot_name (get_joint_positions view);;
  match dt with
  | None =>
      inplace root_v set_root_v robot_name (get_linear_velocities view);;
      inplace root_omega set_root_omega robot_name (get_angular_velocities view);;
      inplace jnts_v set_jnts_v robot_name (get_joint_velocities view)
  | Some dt =>
      (* differentiate numerically *)
      (if negb reset then
         self ← get_self;
         p ← getitem (root_p self) robot_name;
         p_prev ← getitem (root_p_prev self) robot_name;
         inplace root_v set_root_v robot_name
           (torch.div_scalar (torch.sub p p_prev) dt);;
         q ← getitem (root_q self) robot_name;
         q_prev ← getitem (root_q_prev self) robot_name;
         inplace root_omega set_root_omega robot_name (quat_to_omega q q_prev dt);;
         jq ← getitem (jnts_q self) robot_name;
         jq_prev ← getitem (jnts_q_prev self) robot_name;
         inplace jnts_v set_jnts_v robot_name
           (torch.div_scalar (torch.sub jq jq_prev) dt)
       else
         (* to avoid issues when differentiating numerically *)
         inplace_zero root_v set_root_v robot_name;;
         inplace_zero root_omega set_root_omega robot_name;;
         inplace_zero jnts_v set_jnts_v robot_name);;
      (* update "previous" data for numerical differentiation *)
      self ← get_self;
      p ← getitem (root_p self) robot_name;
      inplace root_p_prev set_root_p_prev robot_name p;;
      q ← getitem (root_q self) robot_name;
      inplace root_q_prev set_root_q_prev robot_name q;;
      jq ← getitem (jnts_q self) robot_name;
      inplace jnts_q_prev set_jnts_q_prev robot_name jq
  end.

(** [_get_robots_state(dt = None, reset = False)]:
    [for i in range(0, len(self.robot_names)): robot_name = self.robot_names[i]; ...] *)
Definition _get_robots_state (dt : option Q) (reset : bool) : M t unit :=
  self ← get_self;
  for_each (robot_names self) (get_robot_state dt reset).

End GetRobotsState.

End CustomTask.

(** ** [class OmniJntImpCntrl]: the setters on signals with their dtype *)

(** The setters above take a signal as its shape, device and entries.
    They are repeated here on signals that also carry their dtype, which
    the assignment through a selector depends on; everything else is as
    above. *)
Module SignalDtype.

Import torch OmniJntImpCntrl.

(** A signal as a caller builds it: the tensor and its dtype. *)
Record Signal : Type := mkSignal {
  sig_dtype : dtype;
  sig_tensor : Tensor2D
}.

Section Setters.

(** [self.torch_dtype]: set by [__init__] from its argument [dtype] and
    never assigned again; every buffer is allocated with it. *)
Variable torch_dtype : dtype.

(** [_validate_signal] reads the shape and the device of the signal, not
    its dtype. *)
Definition _validate_signal (signal : option Signal) (selector : option Selector)
    : M t bool :=
  OmniJntImpCntrl._validate_signal (sig_tensor <$> signal) selector.

(** [buf[selector] = signal] is an index_put, which raises when the dtype
    of the signal is not the dtype of the buffer; [buf[:, :] = signal]
    copies and converts. *)
Definition assign (buf : Matrix) (signal : Signal) (selector : option Selector)
    : result Matrix :=
  match selector with
  | Some sel =>
      if dtype_eqb (sig_dtype signal) torch_dtype
      then Ok (index_put buf sel (t_at (sig_tensor signal)))
      else Raise (RuntimeError "Index put requires the source and destination dtypes match")
  | None => Ok (slice_assign buf (t_at (sig_tensor signal)))
  end.

(** [_assign_signal] *)
Definition _assign_signal (signal_type : string) (signal : Signal)
    (selector : option Selector) : M t bool :=
  self ← get_self;
  if bool_decide (signal_type ∈ _valid_signal_types) then
    if String.eqb signal_type "pos_ref" then
      buf ← lift (assign (_pos_ref self) signal selector);
      modify (set_pos_ref buf);; ret true
    else if String.eqb signal_type "vel_ref" then
      buf ← lift (assign (_vel_ref self) signal selector);
      modify (set_vel_ref buf);; ret true
    else if String.eqb signal_type "eff_ref" then
      buf ← lift (assign (_eff_ref self) signal selector);
      modify (set_eff_ref buf);; ret true
    else if String.eqb signal_type "pos" then
      buf ← lift (assign (_pos self) signal selector);
      modify (set_pos buf);; ret true
    else if String.eqb signal_type "vel" then
      buf ← lift (assign (_vel self) signal selector);
      modify (set_vel buf);; ret true
    else if String.eqb signal_type "eff" then
      buf ← lift (assign (_eff self) signal selector);
      modify (set_eff buf);; ret true
    else if String.eqb signal_type "pgain" then
      buf ← lift (assign (_pos_gains self) signal selector);
      modify (set_pos_gains buf);; ret true
    else if String.eqb signal_type "vgain" then
      buf ← lift (assign (_vel_gains self) signal selector);
      modify (set_vel_gains buf);; ret true
    else ret false   (* falls off the end: [None], which is falsy *)
  else ret false.

(** One block of [update_state] and of [set_refs]. *)
Definition write_signal (signal_type : string) (i : nat)
    (signal : option Signal) (selector : option Selector)
    (success : list bool) : M t (list bool) :=
  match signal with
  | Some x =>
      valid ← _validate_signal signal selector;
      if valid then
        assigned ← _assign_signal signal_type x selector;
        if negb assigned then ret (<[3 := false]> success) else ret success
      else ret (<[i := false]> success)
  | None => ret success
  end.

(** [update_state] *)
Definition update_state (pos vel eff : option Signal)
    (robot_indxs jnt_indxs : option IndexTensor) : M t (list bool) :=
  let success := [true; true; true; true] in
  selector ← _gen_selector robot_indxs jnt_indxs;
  success ← write_signal "pos" 0 pos selector success;
  success ← write_signal "vel" 1 vel selector success;
  success ← write_signal "eff" 2 eff selector success;
  ret success.

(** [set_gains]; the second block validates [pos_gains], as the source
    does. *)
Definition set_gains (pos_gains vel_gains : option Signal)
    (robot_indxs jnt_indxs : option IndexTensor) : M t (list bool) :=
  let success := [true; true; true] in
  selector ← _gen_selector robot_indxs jnt_indxs;
  success ←
    match pos_gains with
    | Some signal =>
        pos_gains_valid ← _validate_signal pos_gains selector;
        if pos_gains_valid then
          assigned ← _assign_signal "pgain" signal selector;
          if negb assigned then ret (<[2 := false]> success)
          else
            self ← get_self;
            (if negb (override_art_controller self) then
               emit (ArtSetGains (Some (_pos_gains self)) None)
             else ret tt);;
            ret success
        else ret (<[0 := false]> success)
    | None => ret success
    end;
  success ←
    match vel_gains with
    | Some signal =>
        vel_gains_valid ← _validate_signal pos_gains selector;
        if vel_gains_valid then
          assigned ← _assign_signal "vgain" signal selector;
          if negb assigned then ret (<[2 := false]> success)
          else
            self ← get_self;
            (if negb (override_art_controller self) then
               emit (ArtSetGains None (Some (_vel_gains self)))
             else ret tt);;
            ret success
        else ret (<[1 := false]> success)
    | None => ret success
    end;
  ret success.

(** [set_refs] *)
Definition set_refs (eff_ref pos_ref vel_ref : option Signal)
    (robot_indxs jnt_indxs : option IndexTensor) : M t (list bool) :=
  let success := [true; true; true; true] in
  selector ← _gen_selector robot_indxs jnt_indxs;
  success ← write_signal "eff_ref" 0 eff_ref selector success;
  success ← write_signal "pos_ref" 1 pos_ref selector success;
  success ← write_signal "vel_ref" 2 vel_ref selector success;
  ret success.

End Setters.

End SignalDtype.

(** ** [CustomTask]: driving the joint impedance controllers *)

Module CustomTaskControl.

Import torch.

(** The attributes of the task that [update_jnt_imp_control],
    [_reset_jnt_imp_control] and [_init_jnt_imp_control] read or write.
    The joint states are kept with their shape and device; a homer of
    [homers] has been built by [_init_homing_managers], which passes it the
    task's device, so its homing tensor lies on [torch_device]. *)
Record t : Type := mk {
  num_envs : nat;
  torch_device : device;
  override_art_controller : bool;
  _world_initialized : bool;
  robot_names : list string;
  default_jnt_stiffness : Q;
  default_jnt_damping : Q;
  default_wheel_stiffness : Q;
  default_wheel_damping : Q;
  _robots_art_views : gmap string ArticulationView.t;
  jnts_q : gmap string Tensor2D;
  jnts_v : gmap string Tensor2D;
  jnt_imp_controllers : gmap string OmniJntImpCntrl.t;
  homers : gmap string OmniRobotHomer.t
}.

Definition set_jnt_imp_controllers (v : gmap string OmniJntImpCntrl.t) (self : t) : t :=
  mk (num_envs self) (torch_device self) (override_art_controller self)
     (_world_initialized self) (robot_names self) (default_jnt_stiffness self)
     (default_jnt_damping self) (default_wheel_stiffness self)
     (default_wheel_damping self) (_robots_art_views self) (jnts_q self)
     (jnts_v self) v (homers self).

(** [d[key]] *)
Definition getitem {V} (d : gmap string V) (key : string) : M t V :=
  match d !! key with
  | Some v => ret v
  | None => raise (KeyError key)
  end.

(** [self.jnt_imp_controllers[robot_name].<method>(...)]: the method runs on
    the controller stored under the key and mutates it in place; what it
    emits joins the effects of the task, and what it raises propagates. *)
Definition on_controller {A} (robot_name : string) (m : M OmniJntImpCntrl.t A)
    : M t A :=
  λ w, match jnt_imp_controllers (obj w) !! robot_name with
       | None => (Raise (KeyError robot_name), w)
       | Some c =>
           let out := m (mkWorld c (trace w)) in
           (out.1,
            mkWorld (set_jnt_imp_controllers
                       (<[robot_name := obj out.2]> (jnt_imp_controllers (obj w)))
                       (obj w))
                    (trace out.2))
       end.

(** [torch.full((rows, cols), v, device = d)] as a tensor handed to a
    method. *)
Definition full_tensor (rows cols : nat) (v : Q) (d : device) : Tensor2D :=
  mkTensor rows cols d (mat_at (torch.full rows cols v)).

(** [self.homers[robot_name].get_homing()] as the tensor handed to
    [set_refs]: the homer allocated it with shape [[num_robots, n_dofs]],
    and only its columns are assigned afterwards. *)
Definition homing_tensor (d : device) (homer : OmniRobotHomer.t) : Tensor2D :=
  mkTensor (OmniRobotHomer.num_robots homer) (OmniRobotHomer.n_dofs homer) d
           (mat_at (OmniRobotHomer.get_homing homer)).

(** [len(x)] and [x.numel()] of an index tensor *)
Definition len (x : IndexTensor) : nat := default 0 (head (ix_shape x)).
Definition numel (x : IndexTensor) : nat := length (ix_data x).

(** [all(success)] *)
Definition all (success : list bool) : bool := forallb id success.

(** [try: body except Exception: handler]; every exception of [exn] is an
    [Exception]. *)
Definition try_except {O A} (body handler : M O A) : M O A :=
  λ w, match body w with
       | (Ok a, w') => (Ok a, w')
       | (Raise _, w') => handler w'
       end.

(** The class has no attribute [init_imp_control] (the method is called
    [_init_jnt_imp_control]); the [except] block of
    [_reset_jnt_imp_control] formats [self.init_imp_control.__name__]. *)
Definition init_imp_control (self : t) : option unit := None.

(** [update_jnt_imp_control] *)
Definition update_jnt_imp_control (robot_name : string)
    (jnt_stiffness jnt_damping wheel_stiffness wheel_damping : Q) : M t unit :=
  (* updates joint imp. controller with new impedance values *)
  print "updating joint impedances...";;
  self ← get_self;
  c ← getitem (jnt_imp_controllers self) robot_name;
  let gains_pos :=
    full_tensor (num_envs self) (OmniJntImpCntrl.n_dofs c) jnt_stiffness
                (torch_device self) in
  c ← getitem (jnt_imp_controllers self) robot_name;
  let gains_vel :=
    full_tensor (num_envs self) (OmniJntImpCntrl.n_dofs c) jnt_damping
                (torch_device self) in
  success ← on_controller robot_name
              (OmniJntImpCntrl.set_gains (Some gains_pos) (Some gains_vel) None None);
  (if negb (all success) then print "impedance controller could not set gains."
   else ret tt);;
  (* wheels are velocity-controlled *)
  wheels_indxs ← on_controller robot_name
                   (c ← get_self;
                    lift (OmniJntImpCntrl.get_jnt_idxs_matching c "wheel"));
  let wheels_pos_gains :=
    full_tensor (num_envs self) (len wheels_indxs) wheel_stiffness
                (torch_device self) in
  let wheels_vel_gains :=
    full_tensor (num_envs self) (len wheels_indxs) wheel_damping
                (torch_device self) in
  success_wheels ← on_controller robot_name
                     (OmniJntImpCntrl.set_gains (Some wheels_pos_gains)
                        (Some wheels_vel_gains) None (Some wheels_indxs));
  (if negb (all success_wheels)
   then print "impedance controller could not set wheel gains."
   else ret tt);;
  print "joint impedances updated.".

(** [_reset_jnt_imp_control] *)
Definition _reset_jnt_imp_control (robot_name : string) : M t unit :=
  (* resets all refs and cmds and gains to 0 and internal defaults *)
  on_controller robot_name OmniJntImpCntrl.reset;;
  self ← get_self;
  _ ← getitem (jnt_imp_controllers self) robot_name;
  pos ← getitem (jnts_q self) robot_name;
  vel ← getitem (jnts_v self) robot_name;
  _ ← on_controller robot_name
        (OmniJntImpCntrl.update_state (Some pos) (Some vel) None None None);
  wheels_indxs ← on_controller robot_name
                   (c ← get_self;
                    lift (OmniJntImpCntrl.get_jnt_idxs_matching c "wheel"));
  (if negb (numel wheels_indxs =? 0)%nat then (* the robot has wheels *)
     let wheels_pos_gains :=
       full_tensor (num_envs self) (len wheels_indxs)
                   (default_wheel_stiffness self) (torch_device self) in
     let wheels_vel_gains :=
       full_tensor (num_envs self) (len wheels_indxs)
                   (default_wheel_damping self) (torch_device self) in
     _ ← on_controller robot_name
           (OmniJntImpCntrl.set_gains (Some wheels_pos_gains)
              (Some wheels_vel_gains) None (Some wheels_indxs));
     ret tt
   else ret tt);;
  try_except
    (_ ← getitem (jnt_imp_controllers self) robot_name;
     homer ← getitem (homers self) robot_name;
     _ ← on_controller robot_name
           (OmniJntImpCntrl.set_refs None
              (Some (homing_tensor (torch_device self) homer)) None None None);
     ret tt)
    (self ← get_self;
     _ ← getattr "init_imp_control" (init_imp_control self);
     print ": cannot set imp. controller reference to homing. Did you call the init_homing_managers method ?");;
  (* actually applies reset commands to the articulation *)
  on_controller robot_name (OmniJntImpCntrl.apply_cmds false).

(** [OmniJntImpCntrl(articulation = ..., default_pgain = ..., ...)] inside
    a method of the task: the constructor runs on a fresh object; what it
    prints joins the effects of the task. *)
Definition construct_controller (articulation : ArticulationView.t)
    (default_pgain default_vgain : Q) (override : bool) (d : device)
    : M t OmniJntImpCntrl.t :=
  λ w, let out := OmniJntImpCntrl.__init__ articulation default_pgain default_vgain
                    "torch" d 50 None override false
                    (mkWorld OmniJntImpCntrl.blank (trace w)) in
       match out.1 with
       | Ok _ => (Ok (obj out.2), mkWorld (obj w) (trace out.2))
       | Raise e => (Raise e, mkWorld (obj w) (trace out.2))
       end.

(** [_init_jnt_imp_control] *)
Definition _init_jnt_imp_control : M t unit :=
  self ← get_self;
  if _world_initialized self then
    for_each (robot_names self) (λ robot_name,
      self ← get_self;
      view ← getitem (_robots_art_views self) robot_name;
      (* creates impedance controller *)
      c ← construct_controller view (default_jnt_stiffness self)
             (default_jnt_damping self) (override_art_controller self)
             (torch_device self);
      modify (set_jnt_imp_controllers
                (<[robot_name := c]> (jnt_imp_controllers self)));;
      _reset_jnt_imp_control robot_name)
  else
    raise (Exception ": you should reset the World at least once and call the post_initialization_steps() method before initializing the joint impedance controller.").

End CustomTaskControl.

(** ** [class OmniContactSensors] *)

Module OmniContactSensors.

(** [ContactSensor(prim_path = ..., name = ..., min_threshold = ...,
    max_threshold = ..., radius = ..., translation = ..., position = None)] *)
Record ContactSensor : Type := mkSensor {
  prim_path : string;
  sensor_name : string;
  min_threshold : Z;
  max_threshold : Z;
  radius : Q;
  translation : list Q
}.

(** The attributes of the object.  The rows of [contact_sensors] are
    references into [rows]: [[[None] * self.n_sensors] * n_envs] builds one
    inner list and an outer list that refers to it [n_envs] times. *)
Record t : Type := mk {
  n_envs : nat;
  name : string;
  contact_radius_default : Q;
  contact_prims : list string;
  contact_offsets : list (string * list Q);
  sensor_radii : list (string * Q);
  n_sensors : nat;
  in_contact : list (list bool);
  force_norm : Matrix;
  n_contacts : list (list Z);
  rows : list (list (option ContactSensor));
  contact_sensors : list nat
}.

Definition set_contact_prims (v : list string) (self : t) : t :=
  mk (n_envs self) (name self) (contact_radius_default self) v
     (contact_offsets self) (sensor_radii self) (n_sensors self)
     (in_contact self) (force_norm self) (n_contacts self) (rows self)
     (contact_sensors self).
Definition set_contact_offsets (v : list (string * list Q)) (self : t) : t :=
  mk (n_envs self) (name self) (contact_radius_default self) (contact_prims self)
     v (sensor_radii self) (n_sensors self)
     (in_contact self) (force_norm self) (n_contacts self) (rows self)
     (contact_sensors self).
Definition set_sensor_radii (v : list (string * Q)) (self : t) : t :=
  mk (n_envs self) (name self) (contact_radius_default self) (contact_prims self)
     (contact_offsets self) v (n_sensors self)
     (in_contact self) (force_norm self) (n_contacts self) (rows self)
     (contact_sensors self).
Definition set_rows (v : list (list (option ContactSensor))) (self : t) : t :=
  mk (n_envs self) (name self) (contact_radius_default self) (contact_prims self)
     (contact_offsets self) (sensor_radii self) (n_sensors self)
     (in_contact self) (force_norm self) (n_contacts self) v
     (contact_sensors self).

(** [d[key]] inside [try: ... except: raise Exception(...)], for an argument
    that may be [None]: whatever the lookup raises becomes the
    [Exception]. *)
Definition lookup_or_raise {O V} (d : option (list (string * V))) (key : string)
    (message : string) : M O V :=
  match d with
  | None => raise (Exception message)
  | Some d =>
      match dict_getitem key d with
      | Ok v => ret v
      | Raise _ => raise (Exception message)
      end
  end.

(** [item in d] for a dict *)
Definition dict_contains {V} (key : string) (d : list (string * V)) : bool :=
  bool_decide (key ∈ dict_keys d).

(** [_parse_contact_dicts].  The dictionaries kept in [self] are the
    caller's own objects; only what the object reads of them is modelled. *)
Definition _parse_contact_dicts (name : string)
    (contact_prims : option (list (string * list string)))
    (contact_offsets : option (list (string * list (string * list Q))))
    (sensor_radii : option (list (string * list (string * Q)))) : M t unit :=
  prims ← lookup_or_raise contact_prims name
            ("Could not find key " ++ name ++ " in" ++ "contact_prims dictionary.");
  modify (set_contact_prims prims);;
  offsets ← lookup_or_raise contact_offsets name
              ("Could not find key " ++ name ++ " in" ++ "contact_offsets dictionary.");
  modify (set_contact_offsets offsets);;
  radii ← lookup_or_raise sensor_radii name
            ("Could not find key " ++ name ++ " in" ++ "sensor_radii dictionary.");
  modify (set_sensor_radii radii);;
  self ← get_self;
  let contact_offsets_ok :=
    forallb (λ item, dict_contains item (OmniContactSensors.contact_offsets self))
            (OmniContactSensors.contact_prims self) in
  let sensor_radii_ok :=
    forallb (λ item, dict_contains item (OmniContactSensors.sensor_radii self))
            (OmniContactSensors.contact_prims self) in
  (if negb contact_offsets_ok then
     print "Provided contact_offsets dictionary does not posses all the necessary keys. Resetting all offsets to zero...";;
     for_each (seq 0 (length (OmniContactSensors.contact_prims self))) (λ i,
       self ← get_self;
       match OmniContactSensors.contact_prims self !! i with
       | Some prim =>
           modify (set_contact_offsets
                     (dict_setitem prim [0; 0; 0]%Q
                        (OmniContactSensors.contact_offsets self)))
       | None => raise (IndexError "list index out of range")
       end)
   else ret tt);;
  (if negb sensor_radii_ok then
     print "Provided sensor_radii dictionary does not posses all the necessary keys. Resetting all radii to the default ...";;
     for_each (seq 0 (length (OmniContactSensors.contact_prims self))) (λ i,
       self ← get_self;
       match OmniContactSensors.contact_prims self !! i with
       | Some prim =>
           modify (set_sensor_radii
                     (dict_setitem prim (contact_radius_default self)
                        (OmniContactSensors.sensor_radii self)))
       | None => raise (IndexError "list index out of range")
       end)
   else ret tt).

(** [__init__] *)
Definition __init__ (name : string) (n_envs : nat)
    (contact_prims : option (list (string * list string)))
    (contact_offsets : option (list (string * list (string * list Q))))
    (sensor_radii : option (list (string * list (string * Q)))) : M t unit :=
  (* contact sensors abstraction for a single robot over multiple environments *)
  modify (λ _, mk n_envs name 0.003 [] [] [] 0 [] [] [] [] []);;
  (* parses contact dictionaries and checks for issues *)
  _parse_contact_dicts name contact_prims contact_offsets sensor_radii;;
  self ← get_self;
  let n_sensors := length (OmniContactSensors.contact_prims self) in
  modify (λ self,
    mk (OmniContactSensors.n_envs self) (OmniContactSensors.name self)
       (contact_radius_default self) (OmniContactSensors.contact_prims self)
       (OmniContactSensors.contact_offsets self)
       (OmniContactSensors.sensor_radii self)
       n_sensors
       (replicate n_envs (replicate n_sensors false))
       (torch.full n_envs n_sensors (-1))
       (replicate n_envs (replicate n_sensors 0%Z))
       [replicate n_sensors None]
       (replicate n_envs 0)).

Definition blank : t := mk 0 "" 0 [] [] [] 0 [] [] [] [] [].

(** [OmniContactSensors(name, n_envs, contact_prims, contact_offsets,
    sensor_radii)] *)
Definition new (name : string) (n_envs : nat)
    (contact_prims : option (list (string * list string)))
    (contact_offsets : option (list (string * list (string * list Q))))
    (sensor_radii : option (list (string * list (string * Q))))
    : result unit * World t :=
  __init__ name n_envs contact_prims contact_offsets sensor_radii
    (mkWorld blank []).

(** [self.contact_sensors[env_idx][sensor_idx]] *)
Definition sensor_at (self : t) (env_idx sensor_idx : nat)
    : option (option ContactSensor) :=
  match contact_sensors self !! env_idx with
  | Some r =>
      match rows self !! r with
      | Some row => row !! sensor_idx
      | None => None
      end
  | None => None
  end.

(** The world handed to [create_base_contact_sensor], as far as the method
    touches it: the sensors given to [world.scene.add], in order, and the
    names of the sensors on which [add_raw_contact_data_to_frame()] was
    called.  [scene.add] returns the object it is given; the checks of
    the scene itself, such as the uniqueness of the names, are the
    library's and are not modelled. *)
Record Stage : Type := mkStage {
  self_ : t;
  scene : list ContactSensor;
  raw_contact_data : list string
}.

(** [self.contact_sensors[env_idx][sensor_idx] = world.scene.add(contact_sensor)]:
    the right-hand side is evaluated first, then the row is looked up and
    the item stored. *)
Definition scene_add_into (env_idx sensor_idx : nat) (contact_sensor : ContactSensor)
    : M Stage unit :=
  modify (λ st, mkStage (self_ st) (scene st ++ [contact_sensor])
                        (raw_contact_data st));;
  st ← get_self;
  let self := self_ st in
  match contact_sensors self !! env_idx with
  | None => raise (IndexError "list index out of range")
  | Some r =>
      match rows self !! r with
      | None => raise (IndexError "list index out of range")
      | Some row =>
          if (sensor_idx <? length row)%nat then
            modify (λ st,
              mkStage (set_rows (<[r := <[sensor_idx := Some contact_sensor]> row]>
                                   (rows self)) self)
                      (scene st) (raw_contact_data st))
          else raise (IndexError "list assignment index out of range")
      end
  end.

(** [self.contact_sensors[env_idx][sensor_idx].add_raw_contact_data_to_frame()] *)
Definition add_raw_contact_data_to_frame (env_idx sensor_idx : nat) : M Stage unit :=
  st ← get_self;
  match sensor_at (self_ st) env_idx sensor_idx with
  | Some (Some sensor) =>
      modify (λ st, mkStage (self_ st) (scene st)
                            (raw_contact_data st ++ [sensor_name sensor]))
  | Some None => raise (AttributeError "add_raw_contact_data_to_frame")
  | None => raise (IndexError "list index out of range")
  end.

(** The sensor that [create_base_contact_sensor] builds for one
    environment and one contact link. *)
Definition make_sensor (self : t) (envs_namespace : string) (env_idx : nat)
    (link : string) : result ContactSensor :=
  let contact_link_prim_path :=
    envs_namespace ++ "/env_" ++ pretty env_idx ++ "/" ++ name self ++ "/" ++ link in
  let sensor_prim_path := contact_link_prim_path ++ "/contact_sensor" in
  match dict_getitem link (sensor_radii self) with
  | Raise e => Raise e
  | Ok radius =>
      match dict_getitem link (contact_offsets self) with
      | Raise e => Raise e
      | Ok translation =>
          Ok (mkSensor sensor_prim_path
                (name self ++ pretty env_idx ++ "_" ++ link ++ "_contact_sensor")
                0 10000000 radius translation)
      end
  end.

(** [create_base_contact_sensor] *)
Definition create_base_contact_sensor (envs_namespace : string) : M Stage unit :=
  st ← get_self;
  let self := self_ st in
  let contact_link_names := contact_prims self in
  for_each (seq 0 (n_envs self)) (λ env_idx,
    for_each (seq 0 (n_sensors self)) (λ sensor_idx,
      match contact_link_names !! sensor_idx with
      | None => raise (IndexError "list index out of range")
      | Some link =>
          print ": creating contact sensor at ...";;
          contact_sensor ← lift (make_sensor self envs_namespace env_idx link);
          scene_add_into env_idx sensor_idx contact_sensor;;
          add_raw_contact_data_to_frame env_idx sensor_idx;;
          print ": contact sensor created."
      end)).

End OmniContactSensors.

(** * Vocabulary of the properties *)

(** ** Cells, runs and raises *)

(** The cell of a matrix at row [r] and column [c], if there is one. *)
Definition cell (m : Matrix) (r c : nat) : option Q := m !! r ≫= (.!! c).

(** [m] started on object [c] returns [a] and leaves object [c'], whatever
    had been emitted before; it only appends to the trace. *)
Definition runs {O A} (m : M O A) (c : O) (a : A) (c' : O) : Prop :=
  ∀ tr, ∃ out, m (mkWorld c tr) = (Ok a, mkWorld c' (tr ++ out)).

(** [m] started on object [c] raises [e] and leaves object [c']. *)
Definition raises {O A} (m : M O A) (c : O) (e : exn) (c' : O) : Prop :=
  ∀ tr, ∃ out, m (mkWorld c tr) = (Raise e, mkWorld c' (tr ++ out)).

#[global] Instance dtype_eq_dec : EqDecision torch.dtype.
Proof. solve_decision. Defined.
#[global] Instance device_eq_dec : EqDecision torch.device.
Proof. solve_decision. Defined.

(** What [_validate_selectors] accepts of a provided index tensor. *)
Definition valid_index (dev : torch.device) (bound : nat) (x : torch.IndexTensor) : Prop :=
  length (torch.ix_shape x) = 1
  ∧ torch.ix_dtype x = torch.int64
  ∧ torch.ix_device x = dev
  ∧ torch.ix_data x ≠ []
  ∧ Forall (λ z, (0 ≤ z < Z.of_nat bound)%Z) (torch.ix_data x).

#[global] Instance valid_index_dec dev bound x : Decision (valid_index dev bound x).
Proof. unfold valid_index. apply _. Defined.

(** ** The controller *)

Section ControllerVocabulary.

Import torch OmniJntImpCntrl.

(** An index argument the validation can classify without raising: absent,
    or a tensor with at least one entry. *)
Definition classifiable (o : option IndexTensor) : Prop :=
  ∀ x, o = Some x → ix_data x ≠ [].

Definition classify (dev : torch.device) (bound : nat) (o : option IndexTensor)
    : IndxState :=
  match o with
  | None => NONE
  | Some x => if decide (valid_index dev bound x) then VALID else INVALID
  end.

(** The selector [_gen_selector] builds from the two classifications. *)
Definition selector_of (c : OmniJntImpCntrl.t) (r j : option IndexTensor)
    : option Selector :=
  match classify (_device c) (num_robots c) r, classify (_device c) (n_dofs c) j with
  | VALID, VALID => Some (meshgrid (indices r) (indices j))
  | VALID, NONE => Some (meshgrid (indices r) (seq 0 (n_dofs c)))
  | NONE, VALID => Some (meshgrid (seq 0 (num_robots c)) (indices j))
  | _, _ => None
  end.

(** The shape and device test of [_validate_signal]. *)
Definition fits (c : OmniJntImpCntrl.t) (s : Tensor2D) (sel : option Selector) : bool :=
  match sel with
  | None => (t_rows s =? num_robots c)%nat && (t_cols s =? n_dofs c)%nat
            && device_eqb (t_device s) (_device c)
  | Some g => (t_rows s =? length (sel_robots g))%nat
              && (t_cols s =? length (sel_jnts g))%nat
              && device_eqb (t_device s) (_device c)
  end.

(** The eight buffers a tag of [_valid_signal_types] can name. *)
Inductive Buffer : Type := PosRef | VelRef | EffRef | Pos | Vel | Eff | PGain | VGain.

Definition tag (k : Buffer) : string :=
  match k with
  | PosRef => "pos_ref" | VelRef => "vel_ref" | EffRef => "eff_ref"
  | Pos => "pos" | Vel => "vel" | Eff => "eff"
  | PGain => "pgain" | VGain => "vgain"
  end.

Definition read (k : Buffer) : OmniJntImpCntrl.t → Matrix :=
  match k with
  | PosRef => _pos_ref | VelRef => _vel_ref | EffRef => _eff_ref
  | Pos => _pos | Vel => _vel | Eff => _eff
  | PGain => _pos_gains | VGain => _vel_gains
  end.

Definition write (k : Buffer) : Matrix → OmniJntImpCntrl.t → OmniJntImpCntrl.t :=
  match k with
  | PosRef => set_pos_ref | VelRef => set_vel_ref | EffRef => set_eff_ref
  | Pos => set_pos | Vel => set_vel | Eff => set_eff
  | PGain => set_pos_gains | VGain => set_vel_gains
  end.

(** The setter call that passes one signal, for the buffer it targets. *)
Definition setter_call (k : Buffer) (s : Tensor2D)
    (robot_indxs jnt_indxs : option IndexTensor) : M OmniJntImpCntrl.t (list bool) :=
  match k with
  | EffRef => set_refs (Some s) None None robot_indxs jnt_indxs
  | PosRef => set_refs None (Some s) None robot_indxs jnt_indxs
  | VelRef => set_refs None None (Some s) robot_indxs jnt_indxs
  | Pos => update_state (Some s) None None robot_indxs jnt_indxs
  | Vel => update_state None (Some s) None robot_indxs jnt_indxs
  | Eff => update_state None None (Some s) robot_indxs jnt_indxs
  | PGain => set_gains (Some s) None robot_indxs jnt_indxs
  | VGain => set_gains None (Some s) robot_indxs jnt_indxs
  end.

(** The flag of [success] that the call clears when the signal is refused. *)
Definition flag_of (k : Buffer) : nat :=
  match k with
  | EffRef => 0 | PosRef => 1 | VelRef => 2
  | Pos => 0 | Vel => 1 | Eff => 2
  | PGain => 0 | VGain => 1
  end.

Definition all_true (k : Buffer) : list bool :=
  match k with
  | PGain | VGain => [true; true; true]
  | _ => [true; true; true; true]
  end.

(** The positions an index argument stands for: its entries, or the whole
    axis when it is absent. *)
Definition resolved (bound : nat) (o : option IndexTensor) : list nat :=
  match o with
  | Some _ => indices o
  | None => seq 0 bound
  end.

(** A provided index tensor that the validation accepts and whose entries
    are pairwise distinct. *)
Definition valid_subset (dev : torch.device) (bound : nat) (o : option IndexTensor)
    : Prop :=
  ∀ x, o = Some x → valid_index dev bound x ∧ NoDup (ix_data x).

(** The buffers the setters and the impedance law read have the shape
    [[num_robots, n_dofs]] of the controller. *)
Definition cntrl_shaped (c : OmniJntImpCntrl.t) : Prop :=
  let shaped := has_shape (num_robots c) (n_dofs c) in
  shaped (_pos_gains c) ∧ shaped (_vel_gains c) ∧ shaped (_eff_ref c)
  ∧ shaped (_pos_ref c) ∧ shaped (_vel_ref c)
  ∧ shaped (_pos c) ∧ shaped (_vel c) ∧ shaped (_eff c).

(** The controller has its filter bank. *)
Definition has_filter_bank (c : OmniJntImpCntrl.t) : Prop :=
  _filter_available c = true
  ∧ is_Some (_pos_ref_filter c) ∧ is_Some (_vel_ref_filter c)
  ∧ is_Some (_eff_ref_filter c).

(** ** Worked examples: two robots with joints hip, knee, wheel *)

Definition example_articulation : ArticulationView.t :=
  ArticulationView.mk true 2 3 ["hip"; "knee"; "wheel"].

(** [OmniJntImpCntrl(articulation, device = cpu)] with the default gains *)
Definition example_cntrl : World OmniJntImpCntrl.t :=
  (new example_articulation 300 30 "torch" cpu 50 None false false).2.

(** the same in override mode *)
Definition example_override_cntrl : World OmniJntImpCntrl.t :=
  (new example_articulation 300 30 "torch" cpu 50 None true false).2.

(** the same with a filter bank ([filter_dt = 0.01]) *)
Definition example_filtered_cntrl : World OmniJntImpCntrl.t :=
  (new example_articulation 300 30 "torch" cpu 50 (Some 0.01%Q) false false).2.

Definition int64_indices : list Z → IndexTensor := index_tensor cpu int64.

(** the override controller after references and measurements were set *)
Definition example_tracking_cntrl : World OmniJntImpCntrl.t :=
  (update_state (Some (tensor cpu [[1; 1; 1]; [2; 2; 2]]%Q))
                (Some (tensor cpu [[0; 0; 0]; [1; 1; 1]]%Q)) None None None
     (set_refs (Some (tensor cpu [[1; 0; 0]; [0; 0; 0]]%Q))
               (Some (tensor cpu [[2; 1; 1]; [2; 2; 2]]%Q)) None None None
        example_override_cntrl).2).2.

End ControllerVocabulary.

(** ** The filter *)

(** What holds of a filter between two calls: its four buffers have the
    filter's shape, and the "previous" buffers hold what the last call left
    in the "current" ones. *)
Record filter_inv (f : FirstOrderFilter.t) : Prop := {
  inv_yk : has_shape (FirstOrderFilter._rows f) (FirstOrderFilter._cols f) (FirstOrderFilter.yk f);
  inv_ykm1 : has_shape (FirstOrderFilter._rows f) (FirstOrderFilter._cols f) (FirstOrderFilter.ykm1 f);
  inv_refk : has_shape (FirstOrderFilter._rows f) (FirstOrderFilter._cols f) (FirstOrderFilter.refk f);
  inv_refkm1 : has_shape (FirstOrderFilter._rows f) (FirstOrderFilter._cols f) (FirstOrderFilter.refkm1 f);
  inv_y_shifted : FirstOrderFilter.ykm1 f = FirstOrderFilter.yk f;
  inv_ref_shifted : FirstOrderFilter.refkm1 f = FirstOrderFilter.refk f
}.

(** The attributes that [update] never assigns. *)
Definition same_config (f g : FirstOrderFilter.t) : Prop :=
  FirstOrderFilter._rows g = FirstOrderFilter._rows f ∧ FirstOrderFilter._cols g = FirstOrderFilter._cols f ∧ FirstOrderFilter._dt g = FirstOrderFilter._dt f
  ∧ FirstOrderFilter._filter_BW g = FirstOrderFilter._filter_BW f ∧ FirstOrderFilter._gain g = FirstOrderFilter._gain f ∧ FirstOrderFilter._kh2 g = FirstOrderFilter._kh2 f
  ∧ FirstOrderFilter._coeff_ref g = FirstOrderFilter._coeff_ref f ∧ FirstOrderFilter._coeff_km1 g = FirstOrderFilter._coeff_km1 f.

Definition ref_fits (f : FirstOrderFilter.t) (r : option Matrix) : Prop :=
  ∀ m, r = Some m → has_shape (FirstOrderFilter._rows f) (FirstOrderFilter._cols f) m.

(** ** The state of the robots *)

Section TaskVocabulary.

Import CustomTask.

(** The nine tensors the task keeps for one robot. *)
Record RobotBuffers : Type := mkBuffers {
  b_root_p : Matrix; b_root_q : Matrix; b_jnts_q : Matrix;
  b_root_v : Matrix; b_root_omega : Matrix; b_jnts_v : Matrix;
  b_root_p_prev : Matrix; b_root_q_prev : Matrix; b_jnts_q_prev : Matrix
}.

Definition buffers_of (c : CustomTask.t) (name : string) (b : RobotBuffers) : Prop :=
  root_p c !! name = Some (b_root_p b)
  ∧ root_q c !! name = Some (b_root_q b)
  ∧ jnts_q c !! name = Some (b_jnts_q b)
  ∧ root_v c !! name = Some (b_root_v b)
  ∧ root_omega c !! name = Some (b_root_omega b)
  ∧ jnts_v c !! name = Some (b_jnts_v b)
  ∧ root_p_prev c !! name = Some (b_root_p_prev b)
  ∧ root_q_prev c !! name = Some (b_root_q_prev b)
  ∧ jnts_q_prev c !! name = Some (b_jnts_q_prev b).

(** The shapes of the buffers of a robot with [envs] instances and [dofs]
    joints: positions and velocities of the root are [[envs, 3]],
    orientations [[envs, 4]], joint quantities [[envs, dofs]]. *)
Definition robot_shaped (envs dofs : nat) (b : RobotBuffers) : Prop :=
  has_shape envs 3 (b_root_p b) ∧ has_shape envs 4 (b_root_q b)
  ∧ has_shape envs dofs (b_jnts_q b)
  ∧ has_shape envs 3 (b_root_v b) ∧ has_shape envs 3 (b_root_omega b)
  ∧ has_shape envs dofs (b_jnts_v b)
  ∧ has_shape envs 3 (b_root_p_prev b) ∧ has_shape envs 4 (b_root_q_prev b)
  ∧ has_shape envs dofs (b_jnts_q_prev b).

Definition readback_shaped (envs dofs : nat) (rb : Readback) : Prop :=
  has_shape envs 3 (get_world_poses rb).1
  ∧ has_shape envs 4 (get_world_poses rb).2
  ∧ has_shape envs dofs (get_joint_positions rb).

(** The dictionaries after the tensors of [name] have been overwritten. *)
Definition store (name : string) (b : RobotBuffers) (c : CustomTask.t) : CustomTask.t :=
  CustomTask.mk (robot_names c)
    (<[name := b_root_p b]> (root_p c)) (<[name := b_root_q b]> (root_q c))
    (<[name := b_jnts_q b]> (jnts_q c)) (<[name := b_root_v b]> (root_v c))
    (<[name := b_root_omega b]> (root_omega c)) (<[name := b_jnts_v b]> (jnts_v c))
    (<[name := b_root_p_prev b]> (root_p_prev c))
    (<[name := b_root_q_prev b]> (root_q_prev c))
    (<[name := b_jnts_q_prev b]> (jnts_q_prev c)).

(** One pass of the loop body in differentiated mode, on the tensors of one
    robot. *)
Definition tick (quat_to_omega : Matrix → Matrix → Q → Matrix) (dt : Q)
    (reset : bool) (rb : Readback) (b : RobotBuffers) : RobotBuffers :=
  let p := slice_assign (b_root_p b) (mat_at (get_world_poses rb).1) in
  let q := slice_assign (b_root_q b) (mat_at (get_world_poses rb).2) in
  let jq := slice_assign (b_jnts_q b) (mat_at (get_joint_positions rb)) in
  {| b_root_p := p; b_root_q := q; b_jnts_q := jq;
     b_root_v :=
       if reset then zero_ (b_root_v b)
       else slice_assign (b_root_v b)
              (mat_at (torch.div_scalar (torch.sub p (b_root_p_prev b)) dt));
     b_root_omega :=
       if reset then zero_ (b_root_omega b)
       else slice_assign (b_root_omega b)
              (mat_at (quat_to_omega q (b_root_q_prev b) dt));
     b_jnts_v :=
       if reset then zero_ (b_jnts_v b)
       else slice_assign (b_jnts_v b)
              (mat_at (torch.div_scalar (torch.sub jq (b_jnts_q_prev b)) dt));
     b_root_p_prev := slice_assign (b_root_p_prev b) (mat_at p);
     b_root_q_prev := slice_assign (b_root_q_prev b) (mat_at q);
     b_jnts_q_prev := slice_assign (b_jnts_q_prev b) (mat_at jq) |}.

(** What the theorem assumes of a task and of what the views return: every
    listed robot has its nine tensors and a view, of the shapes of [envs]
    instances and [dofs name] joints. *)
Definition task_shaped (envs : nat) (dofs : string → nat) (c : CustomTask.t) : Prop :=
  ∀ name, name ∈ robot_names c →
    ∃ b, buffers_of c name b ∧ robot_shaped envs (dofs name) b.

Definition views_shaped (envs : nat) (dofs : string → nat) (names : list string)
    (views : gmap string Readback) : Prop :=
  ∀ name, name ∈ names →
    ∃ rb, views !! name = Some rb ∧ readback_shaped envs (dofs name) rb.

(** One robot "r" in one environment, with two joints; the velocity
    buffers hold stale values. *)
Definition example_task : World CustomTask.t :=
  mkWorld (CustomTask.mk ["r"]
             {["r" := [[1; 2; 3]]%Q]} {["r" := [[1; 0; 0; 0]]%Q]} {["r" := [[5; 5]]%Q]}
             {["r" := [[9; 9; 9]]%Q]} {["r" := [[9; 9; 9]]%Q]} {["r" := [[9; 9]]%Q]}
             {["r" := [[7; 7; 7]]%Q]} {["r" := [[7; 7; 7; 7]]%Q]} {["r" := [[7; 7]]%Q]})
          [].

Definition example_views0 : gmap string Readback :=
  {["r" := mkReadback ([[1; 1; 1]]%Q, [[1; 0; 0; 0]]%Q) [[2; 2]]%Q [] [] [] ]}.

Definition example_views1 : gmap string Readback :=
  {["r" := mkReadback ([[2; 3; 4]]%Q, [[0; 1; 0; 0]]%Q) [[3; 5]]%Q [] [] [] ]}.

(** a stand-in for the angular-rate formula, of the right shape *)
Definition example_quat_to_omega (q q_prev : Matrix) (dt : Q) : Matrix :=
  torch.zeros (length q) 3.

End TaskVocabulary.

(** ** Homing *)

(** The map built by the loop over [range(0, n_dofs)]. *)
Definition idx_step (names : list string) (m : gmap string nat) (joint : nat)
    : gmap string nat :=
  match names !! joint with
  | Some name => <[name := joint]> m
  | None => m
  end.

(** The loop of [_assign2homing] over keys that are all joints of the
    articulation. *)
Definition homing_step (c : OmniRobotHomer.t) (h : Matrix) (joint : string) : Matrix :=
  match OmniRobotHomer.joint_idx_map c !! joint, dict_getitem joint (OmniRobotHomer._homing_map c) with
  | Some idx, Ok value => set_column h idx value
  | _, _ => h
  end.

(** ** Tactics *)

(** Evaluation that leaves the filter constructor, string comparison and the
    tensor constructors folded. *)
Ltac crunch H :=
  lazy beta iota zeta delta
    -[FirstOrderFilter.__init__ String.eqb FirstOrderFilter.reset torch.full
      torch.zeros ArticulationView.initialized ArticulationView.count
      ArticulationView.num_dof ArticulationView.dof_names] in H.

Ltac crunch_goal :=
  lazy beta iota zeta delta
    -[FirstOrderFilter.__init__ String.eqb FirstOrderFilter.reset torch.full
      torch.zeros ArticulationView.initialized ArticulationView.count
      ArticulationView.num_dof ArticulationView.dof_names].

Ltac not_in_list :=
  let H := fresh "H" in
  intros H; repeat (apply elem_of_cons in H as [H|H]; [discriminate|]);
  by apply elem_of_nil in H.

(** ** Effects of the setters *)

(** An effect that is a printed line: not a call on the articulation, not
    a device barrier. *)
Definition is_print (e : event) : Prop := ∃ line, e = Print line.

(** Whatever it returns or raises, [m] adds only printed lines to the
    effects. *)
Definition prints_only {O A} (m : M O A) : Prop :=
  ∀ w, ∃ out, trace (m w).2 = (trace w ++ out)%list ∧ Forall is_print out.

Section SetterVocabulary.

Import torch OmniJntImpCntrl.

(** What one block of a setter leaves: the buffer written through the
    selector when the signal is given and passes [_validate_signal], the
    object as it was otherwise. *)
Definition put (k : Buffer) (signal : option Tensor2D) (sel : option Selector)
    (c : OmniJntImpCntrl.t) : OmniJntImpCntrl.t :=
  match signal with
  | Some s => if fits c s sel then write k (assign (read k c) s sel) c else c
  | None => c
  end.

(** The flag of a block: false exactly when a given signal is refused. *)
Definition accepted (signal : option Tensor2D) (sel : option Selector)
    (c : OmniJntImpCntrl.t) : bool :=
  match signal with
  | Some s => fits c s sel
  | None => true
  end.

End SetterVocabulary.

#[global] Instance Buffer_eq_dec : EqDecision Buffer.
Proof. solve_decision. Defined.

(** ** Exact effects *)

(** [m] started on object [c] returns [a], leaves object [c'] and adds
    exactly [out] to the effects. *)
Definition yields {O A} (m : M O A) (c : O) (a : A) (c' : O) (out : list event)
    : Prop :=
  ∀ tr, m (mkWorld c tr) = (Ok a, mkWorld c' (tr ++ out)).

(** ** Driving the controllers from the task *)

Section ControlVocabulary.

Import torch OmniJntImpCntrl.

(** The controller that [reset()] leaves when no filter period was given:
    gains at their defaults, everything else zero; the two flags are set
    exactly when [init_on_creation] makes [reset] initialize the
    articulation. *)
Definition reset_state (c : OmniJntImpCntrl.t) : OmniJntImpCntrl.t :=
  let rows := num_robots c in
  let cols := n_dofs c in
  OmniJntImpCntrl.mk (override_art_controller c) (init_on_creation c)
    (init_on_creation c) (init_on_creation c)
    (_default_pgain c) (_default_vgain c) (_filter_BW c) (_filter_dt c)
    (_device c) rows cols (jnts_names c)
    (torch.full rows cols (_default_pgain c))
    (torch.full rows cols (_default_vgain c))
    (torch.zeros rows cols) (torch.zeros rows cols) (torch.zeros rows cols)
    (torch.zeros rows cols) (torch.zeros rows cols) (torch.zeros rows cols)
    (torch.zeros rows cols) (torch.zeros rows cols) (torch.zeros rows cols)
    (_filter_available c) (_pos_ref_filter c) (_vel_ref_filter c)
    (_eff_ref_filter c).

(** The controller that [apply_cmds(filter = False)] leaves. *)
Definition applied (c : OmniJntImpCntrl.t) : OmniJntImpCntrl.t :=
  let c := set_refs_initialized true (set_gains_initialized true c) in
  if override_art_controller c then
    let c := set_pos_err (torch.sub (_pos_ref c) (_pos c)) c in
    let c := set_vel_err (torch.sub (_vel_ref c) (_vel c)) c in
    set_imp_eff (imp_law (_eff_ref c) (_pos_gains c) (_pos_err c)
                         (_vel_gains c) (_vel_err c)) c
  else c.

(** A joint whose name contains "wheel". *)
Definition is_wheel (jnt : string) : bool := str_in "wheel" jnt.

End ControlVocabulary.

Section TaskControlVocabulary.

Import torch CustomTaskControl.

(** The task after the controller of [name] has been mutated into [c]. *)
Definition with_controller (name : string) (c : OmniJntImpCntrl.t)
    (T : CustomTaskControl.t) : CustomTaskControl.t :=
  set_jnt_imp_controllers (<[name := c]> (jnt_imp_controllers T)) T.

(** What the task and its controller of [name] must agree on: one
    controlled instance per environment, on the task's device, with one
    name per joint and no name twice; no reference filter. *)
Definition controller_of (T : CustomTaskControl.t) (name : string)
    (c : OmniJntImpCntrl.t) : Prop :=
  jnt_imp_controllers T !! name = Some c
  ∧ OmniJntImpCntrl.num_robots c = num_envs T
  ∧ OmniJntImpCntrl._device c = torch_device T
  ∧ length (OmniJntImpCntrl.jnts_names c) = OmniJntImpCntrl.n_dofs c
  ∧ NoDup (OmniJntImpCntrl.jnts_names c)
  ∧ OmniJntImpCntrl._filter_dt c = None.

(** A joint state the task holds for a controller: of the controller's
    shape, on the task's device. *)
Definition state_of (T : CustomTaskControl.t) (c : OmniJntImpCntrl.t)
    (s : Tensor2D) : Prop :=
  t_rows s = num_envs T ∧ t_cols s = OmniJntImpCntrl.n_dofs c
  ∧ t_device s = torch_device T.

End TaskControlVocabulary.

(** ** Worked examples: a task with one robot *)

Section ControlExamples.

Import torch.

(** two instances of a robot without wheels *)
Definition example_legged_articulation : ArticulationView.t :=
  ArticulationView.mk true 2 2 ["hip"; "knee"].

Definition example_legged_cntrl : World OmniJntImpCntrl.t :=
  (OmniJntImpCntrl.new example_legged_articulation 300 20 "torch" cpu 50 None
     false false).2.

Definition example_homer : OmniRobotHomer.t :=
  obj (OmniRobotHomer.new example_articulation
         (Some [("hip", 0.3); ("knee", -0.6)]%Q) "torch").2.

(** The task of robot "r" (joints hip, knee, wheel) in two environments. *)
Definition example_control_task : World CustomTaskControl.t :=
  mkWorld
    (CustomTaskControl.mk 2 cpu false true ["r"] 300 20 0 10
       {["r" := example_articulation]}
       {["r" := tensor cpu [[1; 2; 3]; [4; 5; 6]]%Q]}
       {["r" := tensor cpu [[0; 0; 0]; [0; 0; 1]]%Q]}
       {["r" := obj example_cntrl]}
       {["r" := example_homer]})
    [].

(** The same task with the robot without wheels. *)
Definition example_legged_task : World CustomTaskControl.t :=
  mkWorld
    (CustomTaskControl.mk 2 cpu false true ["r"] 300 20 0 10
       {["r" := example_legged_articulation]}
       {["r" := tensor cpu [[1; 2]; [4; 5]]%Q]}
       {["r" := tensor cpu [[0; 0]; [0; 0]]%Q]}
       {["r" := obj example_legged_cntrl]}
       ∅)
    [].

End ControlExamples.

(** ** Contact sensors *)

Section ContactVocabulary.

Import OmniContactSensors.

(** A dictionary argument that is given and holds the key. *)
Definition holds {V} (d : option (list (string * V))) (key : string) (v : V) : Prop :=
  ∃ d', d = Some d' ∧ dict_getitem key d' = Ok v.

(** [d[k] = v] for every [k] of [keys], in order. *)
Definition set_all {V} (keys : list string) (v : V) (d : list (string * V))
    : list (string * V) :=
  foldl (λ d k, dict_setitem k v d) d keys.

(** The dictionary that [_parse_contact_dicts] keeps: the given one when it
    has every contact link, else the given one with the entry of every
    contact link overwritten by the default. *)
Definition completed {V} (prims : list string) (default_value : V)
    (d : list (string * V)) : list (string * V) :=
  if forallb (λ item, dict_contains item d) prims then d
  else set_all prims default_value d.

End ContactVocabulary.

Section ContactState.

Import OmniContactSensors.

(** The object that the constructor leaves when the three dictionaries
    hold the robot's name. *)
Definition constructed (name : string) (n_envs : nat) (prims : list string)
    (offsets : list (string * list Q)) (radii : list (string * Q))
    : OmniContactSensors.t :=
  let n_sensors := length prims in
  OmniContactSensors.mk n_envs name 0.003 prims
    (completed prims [0; 0; 0]%Q offsets) (completed prims 0.003%Q radii)
    n_sensors
    (replicate n_envs (replicate n_sensors false))
    (torch.full n_envs n_sensors (-1))
    (replicate n_envs (replicate n_sensors 0%Z))
    [replicate n_sensors None]
    (replicate n_envs 0).

End ContactState.

Section ContactExamples.

(** A robot with two contact links on two environments; the offsets name
    only one of the links. *)
Definition example_contact_prims : list (string * list string) :=
  [("aliengo", ["FL_foot"; "FR_foot"])].

Definition example_contact_offsets : list (string * list (string * list Q)) :=
  [("aliengo", [("FL_foot", [0; 0; 0.01]%Q)])].

Definition example_sensor_radii : list (string * list (string * Q)) :=
  [("aliengo", [("FL_foot", 0.02%Q); ("FR_foot", 0.02%Q)])].

End ContactExamples.

(** ** Velocities read from the simulation *)

Section SampledVocabulary.

Import CustomTask.

(** One pass of the loop body of [_get_robots_state] without [dt], on the
    tensors of one robot. *)
Definition sample (rb : Readback) (b : RobotBuffers) : RobotBuffers :=
  {| b_root_p := slice_assign (b_root_p b) (mat_at (get_world_poses rb).1);
     b_root_q := slice_assign (b_root_q b) (mat_at (get_world_poses rb).2);
     b_jnts_q := slice_assign (b_jnts_q b) (mat_at (get_joint_positions rb));
     b_root_v := slice_assign (b_root_v b) (mat_at (get_linear_velocities rb));
     b_root_omega :=
       slice_assign (b_root_omega b) (mat_at (get_angular_velocities rb));
     b_jnts_v := slice_assign (b_jnts_v b) (mat_at (get_joint_velocities rb));
     b_root_p_prev := b_root_p_prev b;
     b_root_q_prev := b_root_q_prev b;
     b_jnts_q_prev := b_jnts_q_prev b |}.

(** The velocities a view returns have the shapes of the velocity
    buffers. *)
Definition velocities_shaped (envs : nat) (dofs : string → nat) (names : list string)
    (views : gmap string Readback) : Prop :=
  ∀ name rb, name ∈ names → views !! name = Some rb →
    has_shape envs 3 (get_linear_velocities rb)
    ∧ has_shape envs 3 (get_angular_velocities rb)
    ∧ has_shape envs (dofs name) (get_joint_velocities rb).

(** A readback of the robot of [example_task] that carries velocities. *)
Definition example_views_sampled : gmap string Readback :=
  {["r" := mkReadback ([[1; 1; 1]]%Q, [[1; 0; 0; 0]]%Q) [[2; 2]]%Q
             [[4; 4; 4]]%Q [[6; 6; 6]]%Q [[8; 8]]%Q ]}.

End SampledVocabulary.

(** ** Creating the controllers *)

Section InitControlVocabulary.

Import torch CustomTaskControl.

(** What [_init_jnt_imp_control] needs of a robot: an initialized view
    with one instance per environment and distinct joint names, the joint
    state of the task and a homer, all of the shape of the view and on the
    task's device. *)
Definition robot_ready (T : CustomTaskControl.t) (name : string)
    (view : ArticulationView.t) (pos vel : Tensor2D) (homer : OmniRobotHomer.t)
    : Prop :=
  _robots_art_views T !! name = Some view
  ∧ jnts_q T !! name = Some pos
  ∧ jnts_v T !! name = Some vel
  ∧ homers T !! name = Some homer
  ∧ ArticulationView.initialized view = true
  ∧ ArticulationView.count view = num_envs T
  ∧ length (ArticulationView.dof_names view) = ArticulationView.num_dof view
  ∧ NoDup (ArticulationView.dof_names view)
  ∧ (t_rows pos = num_envs T ∧ t_cols pos = ArticulationView.num_dof view
     ∧ t_device pos = torch_device T)
  ∧ (t_rows vel = num_envs T ∧ t_cols vel = ArticulationView.num_dof view
     ∧ t_device vel = torch_device T)
  ∧ OmniRobotHomer.num_robots homer = num_envs T
  ∧ OmniRobotHomer.n_dofs homer = ArticulationView.num_dof view.

(** The controller that the task holds for a robot after
    [_init_jnt_imp_control]. *)
Definition controller_ready (T : CustomTaskControl.t) (view : ArticulationView.t)
    (pos vel : Tensor2D) (homer : OmniRobotHomer.t) (c : OmniJntImpCntrl.t)
    : Prop :=
  OmniJntImpCntrl.gains_initialized c = true
  ∧ OmniJntImpCntrl.refs_initialized c = true
  ∧ ∀ i j jname,
      i < num_envs T →
      ArticulationView.dof_names view !! j = Some jname →
      mat_at (OmniJntImpCntrl._pos_gains c) i j
      = (if is_wheel jname then default_wheel_stiffness T
         else default_jnt_stiffness T)
      ∧ mat_at (OmniJntImpCntrl._vel_gains c) i j
        = (if is_wheel jname then default_wheel_damping T
           else default_jnt_damping T)
      ∧ mat_at (OmniJntImpCntrl._pos c) i j = t_at pos i j
      ∧ mat_at (OmniJntImpCntrl._vel c) i j = t_at vel i j
      ∧ mat_at (OmniJntImpCntrl._eff c) i j = 0%Q
      ∧ mat_at (OmniJntImpCntrl._pos_ref c) i j
        = mat_at (OmniRobotHomer.get_homing homer) i j
      ∧ mat_at (OmniJntImpCntrl._vel_ref c) i j = 0%Q
      ∧ mat_at (OmniJntImpCntrl._eff_ref c) i j = 0%Q.

End InitControlVocabulary.

(** ** Signals with their dtype *)

Section DtypeVocabulary.

Import torch OmniJntImpCntrl.

(** A signal, when given, has the dtype [dt]. *)
Definition of_dtype (dt : dtype) (signal : option SignalDtype.Signal) : Prop :=
  ∀ s, signal = Some s → SignalDtype.sig_dtype s = dt.

(** The tensor of a signal that may be absent. *)
Definition tensor_of (signal : option SignalDtype.Signal) : option Tensor2D :=
  SignalDtype.sig_tensor <$> signal.

(** A provided index tensor has pairwise distinct entries. *)
Definition distinct (o : option IndexTensor) : Prop :=
  ∀ x, o = Some x → NoDup (ix_data x).

(** The setter call that passes one signal with its dtype, for the buffer
    it targets, on a controller whose buffers have the dtype [dt]. *)
Definition signal_call (dt : dtype) (k : Buffer) (s : SignalDtype.Signal)
    (robot_indxs jnt_indxs : option IndexTensor) : M OmniJntImpCntrl.t (list bool) :=
  match k with
  | EffRef => SignalDtype.set_refs dt (Some s) None None robot_indxs jnt_indxs
  | PosRef => SignalDtype.set_refs dt None (Some s) None robot_indxs jnt_indxs
  | VelRef => SignalDtype.set_refs dt None None (Some s) robot_indxs jnt_indxs
  | Pos => SignalDtype.update_state dt (Some s) None None robot_indxs jnt_indxs
  | Vel => SignalDtype.update_state dt None (Some s) None robot_indxs jnt_indxs
  | Eff => SignalDtype.update_state dt None None (Some s) robot_indxs jnt_indxs
  | PGain => SignalDtype.set_gains dt (Some s) None robot_indxs jnt_indxs
  | VGain => SignalDtype.set_gains dt None (Some s) robot_indxs jnt_indxs
  end.

(** What index_put raises on a signal of another dtype. *)
Definition dtype_mismatch : exn :=
  RuntimeError "Index put requires the source and destination dtypes match".

(** [torch.tensor(rows, device = d, dtype = ty)] for a literal list of
    rows. *)
Definition signal (ty : dtype) (d : device) (rows : Matrix) : SignalDtype.Signal :=
  SignalDtype.mkSignal ty (tensor d rows).

End DtypeVocabulary.

(** * Properties *)

(** ** Matrices: lookups and shapes *)

Section MatrixFacts.

Implicit Types (m a b dst : Matrix) (i j rows cols : nat).

Lemma has_shape_lookup rows cols m i j :
  has_shape rows cols m → i < rows → j < cols →
  ∃ row x, m !! i = Some row ∧ row !! j = Some x ∧ length row = cols.
Proof.
  intros [Hlen Hrows] Hi Hj.
  destruct (lookup_lt_is_Some_2 m i) as [row Hrow]; [lia|].
  assert (Hl : length row = cols).
  { rewrite Forall_forall in Hrows. apply Hrows. eapply list_elem_of_lookup_2, Hrow. }
  destruct (lookup_lt_is_Some_2 row j) as [x Hx]; [lia|].
  eauto.
Qed.

Lemma mat_at_lookup m i j row x :
  m !! i = Some row → row !! j = Some x → mat_at m i j = x.
Proof. intros Hi Hj. unfold mat_at. rewrite Hi. simpl. by rewrite Hj. Qed.

Lemma has_shape_ext rows cols a b :
  has_shape rows cols a → has_shape rows cols b →
  (∀ i j, i < rows → j < cols → mat_at a i j = mat_at b i j) → a = b.
Proof.
  intros Ha Hb Heq.
  apply list_eq_same_length with rows; [apply Hb | apply Ha |].
  intros i ra rb Hi Hra Hrb.
  assert (length ra = cols) as Hla.
  { destruct Ha as [_ Ha]. rewrite Forall_forall in Ha. apply Ha.
    eapply list_elem_of_lookup_2, Hra. }
  assert (length rb = cols) as Hlb.
  { destruct Hb as [_ Hb]. rewrite Forall_forall in Hb. apply Hb.
    eapply list_elem_of_lookup_2, Hrb. }
  apply list_eq_same_length with cols; [done | done |].
  intros j x y Hj Hx Hy.
  rewrite <- (mat_at_lookup a i j ra x Hra Hx).
  rewrite <- (mat_at_lookup b i j rb y Hrb Hy).
  by apply Heq.
Qed.

Lemma slice_assign_shape rows cols dst src :
  has_shape rows cols dst → has_shape rows cols (slice_assign dst src).
Proof.
  intros [Hlen Hrows]. split.
  - unfold slice_assign. by rewrite length_imap.
  - unfold slice_assign. rewrite Forall_forall. intros r Hr.
    apply list_elem_of_lookup_1 in Hr as [i Hi].
    rewrite list_lookup_imap in Hi.
    destruct (dst !! i) as [row|] eqn:Hrow; simplify_eq/=.
    rewrite length_imap. rewrite Forall_forall in Hrows. apply Hrows.
    eapply list_elem_of_lookup_2, Hrow.
Qed.

Lemma mat_at_slice_assign rows cols dst src i j :
  has_shape rows cols dst → i < rows → j < cols →
  mat_at (slice_assign dst src) i j = src i j.
Proof.
  intros Hs Hi Hj.
  destruct (has_shape_lookup _ _ _ _ _ Hs Hi Hj) as (row & x & Hrow & Hx & _).
  unfold mat_at, slice_assign.
  rewrite list_lookup_imap, Hrow. simpl.
  by rewrite list_lookup_imap, Hx.
Qed.

Lemma slice_assign_same_shape rows cols dst src :
  has_shape rows cols dst → has_shape rows cols src →
  slice_assign dst (mat_at src) = src.
Proof.
  intros Hd Hs. apply has_shape_ext with rows cols; [by apply slice_assign_shape | done |].
  intros i j Hi Hj. by eapply mat_at_slice_assign.
Qed.

Lemma full_shape rows cols v : has_shape rows cols (torch.full rows cols v).
Proof.
  split.
  - apply length_replicate.
  - unfold torch.full. apply Forall_replicate, length_replicate.
Qed.

Lemma mat_at_full rows cols v i j :
  i < rows → j < cols → mat_at (torch.full rows cols v) i j = v.
Proof.
  intros Hi Hj. apply mat_at_lookup with (replicate cols v).
  - by apply lookup_replicate_2.
  - by apply lookup_replicate_2.
Qed.

Lemma zip_with_shape (f : Q → Q → Q) rows cols a b :
  has_shape rows cols a → has_shape rows cols b →
  has_shape rows cols (zip_with (zip_with f) a b).
Proof.
  intros [Hla Ha] [Hlb Hb]. split.
  - rewrite length_zip_with. lia.
  - rewrite Forall_forall. intros r Hr.
    apply list_elem_of_lookup_1 in Hr as [i Hi].
    rewrite lookup_zip_with in Hi.
    destruct (a !! i) as [ra|] eqn:Hra; simplify_eq/=.
    destruct (b !! i) as [rb|] eqn:Hrb; simplify_eq/=.
    rewrite Forall_forall in Ha, Hb.
    rewrite length_zip_with.
    rewrite (Ha ra), (Hb rb); [lia | |]; eapply list_elem_of_lookup_2; eauto.
Qed.

Lemma mat_at_zip_with (f : Q → Q → Q) rows cols a b i j :
  has_shape rows cols a → has_shape rows cols b → i < rows → j < cols →
  mat_at (zip_with (zip_with f) a b) i j = f (mat_at a i j) (mat_at b i j).
Proof.
  intros Ha Hb Hi Hj.
  destruct (has_shape_lookup _ _ _ _ _ Ha Hi Hj) as (ra & x & Hra & Hx & _).
  destruct (has_shape_lookup _ _ _ _ _ Hb Hi Hj) as (rb & y & Hrb & Hy & _).
  rewrite (mat_at_lookup a i j ra x), (mat_at_lookup b i j rb y) by done.
  apply mat_at_lookup with (zip_with f ra rb).
  - by rewrite lookup_zip_with, Hra, Hrb.
  - by rewrite lookup_zip_with, Hx, Hy.
Qed.

Lemma map_map_shape (f : Q → Q) rows cols a :
  has_shape rows cols a → has_shape rows cols (map (map f) a).
Proof.
  intros [Hla Ha]. split.
  - by rewrite length_map.
  - rewrite Forall_forall. intros r Hr.
    apply list_elem_of_In, in_map_iff in Hr as (r' & <- & Hin).
    rewrite length_map. rewrite Forall_forall in Ha. apply Ha.
    by apply list_elem_of_In.
Qed.

Lemma mat_at_map_map (f : Q → Q) rows cols a i j :
  has_shape rows cols a → i < rows → j < cols →
  mat_at (map (map f) a) i j = f (mat_at a i j).
Proof.
  intros Ha Hi Hj.
  destruct (has_shape_lookup _ _ _ _ _ Ha Hi Hj) as (ra & x & Hra & Hx & _).
  rewrite (mat_at_lookup a i j ra x) by done.
  apply mat_at_lookup with (map f ra).
  - change (map (map f) a) with (map f <$> a). by rewrite list_lookup_fmap, Hra.
  - change (map f ra) with (f <$> ra). by rewrite list_lookup_fmap, Hx.
Qed.

End MatrixFacts.

(** ** The reference filter *)

Section FilterFacts.

Import FirstOrderFilter.

Lemma init_inv dt bw rows cols dev f :
  __init__ dt bw rows cols dev = Ok f → filter_inv f ∧ _rows f = rows ∧ _cols f = cols.
Proof.
  unfold __init__. case_match; [done|]. intros [= <-]. simpl.
  split; [|done]. split; simpl; try apply full_shape; done.
Qed.

Lemma update_config f r : same_config f (update f r).
Proof. unfold same_config, update. destruct r; simpl; tauto. Qed.

Lemma update_refk f r :
  filter_inv f → ref_fits f r →
  refk (update f r) = default (refk f) r.
Proof.
  intros Hf Hr. unfold update. destruct r as [m|]; simpl; [|done].
  apply slice_assign_same_shape with (_rows f) (_cols f); [apply Hf | by apply Hr].
Qed.

Lemma update_inv f r : filter_inv f → ref_fits f r → filter_inv (update f r).
Proof.
  intros Hf Hr.
  pose proof (update_refk f r Hf Hr) as Hrefk.
  assert (Hsr : has_shape (_rows f) (_cols f) (refk (update f r))).
  { rewrite Hrefk. destruct r as [m|]; simpl; [by apply Hr | apply Hf]. }
  assert (Hsy : has_shape (_rows f) (_cols f) (yk (update f r))).
  { unfold update. destruct r; simpl; apply slice_assign_shape, Hf. }
  destruct (update_config f r) as (Hrows & Hcols & _).
  split; rewrite ?Hrows, ?Hcols; try done.
  - unfold update. destruct r; simpl; apply slice_assign_shape, Hf.
  - unfold update. destruct r; simpl; apply slice_assign_shape, Hf.
  - unfold update in *. destruct r; simpl in *;
      (rewrite (slice_assign_same_shape (_rows f) (_cols f)); [done | apply Hf | done]).
  - unfold update in *. destruct r; simpl in *;
      (rewrite (slice_assign_same_shape (_rows f) (_cols f) (refkm1 f)); [done | apply Hf | done]).
Qed.

Lemma updates_inv f rs :
  filter_inv f → Forall (ref_fits f) rs →
  filter_inv (foldl update f rs) ∧ same_config f (foldl update f rs).
Proof.
  revert f. induction rs as [|r rs IH]; intros f Hf Hrs; simpl.
  - split; [done|]. unfold same_config. tauto.
  - apply Forall_cons_1 in Hrs as [Hr Hrs].
    pose proof (update_config f r) as Hc.
    destruct (IH (update f r)) as [Hi Hc'].
    + by apply update_inv.
    + eapply Forall_impl; [exact Hrs|]. intros o Ho m ->.
      destruct Hc as (-> & -> & _). by apply Ho.
    + split; [done|]. unfold same_config in *. intuition congruence.
Qed.

(** One call on a filter in its invariant: the new output, cell by cell. *)
Lemma update_yk f m i j :
  filter_inv f → has_shape (_rows f) (_cols f) m →
  i < _rows f → j < _cols f →
  mat_at (yk (update f (Some m))) i j
  = (mat_at (ykm1 f) i j * _coeff_km1 f
     + (mat_at m i j + mat_at (refkm1 f) i j) * _coeff_ref f)%Q.
Proof.
  intros Hf Hm Hi Hj.
  assert (Hrefk : slice_assign (refk f) (mat_at m) = m).
  { apply slice_assign_same_shape with (_rows f) (_cols f); [apply Hf | done]. }
  unfold update. simpl. rewrite Hrefk.
  rewrite (mat_at_slice_assign (_rows f) (_cols f)); [| apply Hf | done | done].
  unfold torch.add, torch.mul_scalar.
  rewrite (mat_at_zip_with _ (_rows f) (_cols f)); try done.
  - rewrite !(mat_at_map_map _ (_rows f) (_cols f)); try done.
    + rewrite (mat_at_zip_with _ (_rows f) (_cols f)); try done. apply Hf.
    + apply zip_with_shape; [done | apply Hf].
    + apply Hf.
  - apply map_map_shape, Hf.
  - apply map_map_shape, zip_with_shape; [done | apply Hf].
Qed.

End FilterFacts.

(** Claim C2.  For a filter constructed with tick period [dt] and bandwidth
    [bw], after any sequence of earlier calls, a call of [update] with a
    reference [ref] of the filter's shape leaves, in every cell,
    [yk = ykm1 * c1 + (ref + refkm1) * c2] with
    [c1 = (1 - K*dt/2) / (1 + K*dt/2)], [c2 = (K*dt/2) / (1 + K*dt/2)] and
    [K = 2 * pi * bw] ([pi] being [math.pi]); [ykm1] and [refkm1] are the
    output and the reference of the call before; and the call ends by
    copying the reference and the new output into [refkm1] and [ykm1]. *)
Theorem filter_update_law :
  ∀ (dt bw : Q) (rows cols : nat) (dev : torch.device) (f : FirstOrderFilter.t)
    (earlier : list (option Matrix)) (ref : Matrix),
    FirstOrderFilter.__init__ dt bw rows cols dev = Ok f →
    Forall (λ r, ∀ m, r = Some m → has_shape rows cols m) earlier →
    has_shape rows cols ref →
    let K := (2 * math_pi * bw)%Q in
    let c1 := ((1 - K * dt / 2) / (1 + K * dt / 2))%Q in
    let c2 := ((K * dt / 2) / (1 + K * dt / 2))%Q in
    let before := foldl FirstOrderFilter.update f earlier in
    let after := FirstOrderFilter.update before (Some ref) in
    (∀ i j, i < rows → j < cols →
       (mat_at (FirstOrderFilter.yk after) i j
        == mat_at (FirstOrderFilter.ykm1 before) i j * c1
           + (mat_at ref i j + mat_at (FirstOrderFilter.refkm1 before) i j) * c2)%Q)
    ∧ FirstOrderFilter.ykm1 before = FirstOrderFilter.yk before
    ∧ FirstOrderFilter.refkm1 before = FirstOrderFilter.refk before
    ∧ FirstOrderFilter.refk after = ref
    ∧ FirstOrderFilter.refkm1 after = ref
    ∧ FirstOrderFilter.ykm1 after = FirstOrderFilter.yk after.
Proof.
  intros dt bw rows cols dev f earlier ref Hinit Hearlier Href K c1 c2 before after.
  destruct (init_inv _ _ _ _ _ _ Hinit) as (Hf & Hrows & Hcols).
  assert (Hcoef : FirstOrderFilter._coeff_km1 f = c1
                  ∧ (FirstOrderFilter._coeff_ref f == c2)%Q).
  { revert Hinit. unfold FirstOrderFilter.__init__.
    destruct (Qeq_bool _ _) eqn:Hz; [done|]. intros [= <-]. simpl. split; [done|].
    subst c2 K. unfold Qdiv. ring. }
  destruct Hcoef as [Hc1 Hc2].
  destruct (updates_inv f earlier Hf) as [Hb Hcfg].
  { eapply Forall_impl; [exact Hearlier|]. intros o Ho m ->.
    rewrite Hrows, Hcols. by apply Ho. }
  fold before in Hb, Hcfg.
  destruct Hcfg as (Hr & Hc & _ & _ & _ & _ & Hcr & Hck).
  assert (Href' : has_shape (FirstOrderFilter._rows before) (FirstOrderFilter._cols before) ref)
    by (by rewrite Hr, Hc, Hrows, Hcols).
  assert (Ha : filter_inv after).
  { apply update_inv; [done|]. by intros m [= <-]. }
  split; [|split; [apply Hb | split; [apply Hb | split; [| split]]]].
  - intros i j Hi Hj. subst after.
    rewrite update_yk; [| done | done | lia | lia].
    rewrite Hck, Hcr, Hc1, Hc2. reflexivity.
  - subst after. by rewrite update_refk; [| done | intros m [= <-]].
  - rewrite (inv_ref_shifted _ Ha). subst after.
    by rewrite update_refk; [| done | intros m [= <-]].
  - apply Ha.
Qed.

Section IndexPut.

Implicit Types (m : Matrix) (r c a b : nat).

Lemma mat_at_cell m r c : mat_at m r c = default 0%Q (cell m r c).
Proof. reflexivity. Qed.

Lemma cell_is_Some rows cols m r c :
  has_shape rows cols m → r < rows → c < cols → is_Some (cell m r c).
Proof.
  intros Hs Hr Hc.
  destruct (has_shape_lookup _ _ _ _ _ Hs Hr Hc) as (row & x & Hrow & Hx & _).
  exists x. unfold cell. by rewrite Hrow.
Qed.

Lemma set_cell_shape rows cols m r c v :
  has_shape rows cols m → has_shape rows cols (set_cell m r c v).
Proof.
  intros [Hlen Hrows]. unfold set_cell. split.
  - by rewrite length_alter.
  - rewrite Forall_forall. intros row Hrow.
    apply list_elem_of_lookup_1 in Hrow as [i Hi].
    rewrite Forall_forall in Hrows.
    rewrite list_lookup_alter in Hi. case_decide.
    + destruct (m !! r) as [row0|] eqn:Hr0; simplify_eq/=.
      rewrite length_insert. apply Hrows. eapply list_elem_of_lookup_2, Hr0.
    + apply Hrows. eapply list_elem_of_lookup_2, Hi.
Qed.

Lemma cell_set_cell_eq m r c v :
  is_Some (cell m r c) → cell (set_cell m r c v) r c = Some v.
Proof.
  unfold cell, set_cell. intros [x Hx].
  destruct (m !! r) as [row|] eqn:Hrow; [|done]. simpl in Hx.
  rewrite list_lookup_alter. case_decide; [|done]. rewrite Hrow. simpl.
  apply list_lookup_insert_eq. by eapply lookup_lt_Some.
Qed.

Lemma cell_set_cell_ne m r c r' c' v :
  (r', c') ≠ (r, c) → cell (set_cell m r c v) r' c' = cell m r' c'.
Proof.
  unfold cell, set_cell. intros Hne.
  rewrite list_lookup_alter. case_decide as Hr; [|done]. subst r'.
  destruct (m !! r) as [row|]; [|done]. simpl.
  apply list_lookup_insert_ne. congruence.
Qed.

(** A left fold of steps, seen from one cell: steps that do not hit the
    cell leave it alone; if every step of the list that hits it writes [x],
    the cell ends holding [x] as soon as one of them does. *)
Lemma fold_cell_frame {A} (step : Matrix → A → Matrix) (l : list A) r c :
  (∀ m' x, x ∈ l → cell (step m' x) r c = cell m' r c) →
  ∀ m, cell (foldl step m l) r c = cell m r c.
Proof.
  induction l as [|x l IH]; intros Hstep m; simpl; [done|].
  rewrite IH.
  - apply Hstep. left.
  - intros m' y Hy. apply Hstep. by right.
Qed.

Lemma fold_cell_hit {A} (step : Matrix → A → Matrix) (hits : A → bool)
    (l : list A) r c (x : Q) :
  (∀ m' y, y ∈ l → hits y = false → cell (step m' y) r c = cell m' r c) →
  (∀ m' y, y ∈ l → hits y = true → is_Some (cell m' r c) →
           cell (step m' y) r c = Some x) →
  ∀ m, is_Some (cell m r c) →
       cell m r c = Some x ∨ (∃ y, y ∈ l ∧ hits y = true) →
       cell (foldl step m l) r c = Some x.
Proof.
  induction l as [|y l IH]; intros Hmiss Hhit m Hsome Hor; simpl.
  - destruct Hor as [?|(y & Hy & _)]; [done|]. by apply elem_of_nil in Hy.
  - assert (Hy : y ∈ y :: l) by left.
    apply IH.
    + intros m' z Hz. apply Hmiss. by right.
    + intros m' z Hz. apply Hhit. by right.
    + destruct (hits y) eqn:Hh.
      * rewrite (Hhit m y Hy Hh Hsome). eauto.
      * by rewrite (Hmiss m y Hy Hh).
    + destruct (hits y) eqn:Hh.
      * left. by apply Hhit.
      * rewrite (Hmiss m y Hy Hh).
        destruct Hor as [?|(z & Hz & Hhz)]; [by left|].
        apply elem_of_cons in Hz as [->|Hz]; [congruence|]. right. eauto.
Qed.

Lemma fold_shape {A} (step : Matrix → A → Matrix) (l : list A) rows cols :
  (∀ m' x, has_shape rows cols m' → has_shape rows cols (step m' x)) →
  ∀ m, has_shape rows cols m → has_shape rows cols (foldl step m l).
Proof.
  intros Hstep. induction l as [|x l IH]; intros m Hm; simpl; [done|].
  apply IH, Hstep, Hm.
Qed.

(** One row of the grid. *)
Lemma index_put_row_frame v js m a r r' c' :
  r' ≠ r ∨ c' ∉ js →
  cell (torch.index_put_row v js m (a, r)) r' c' = cell m r' c'.
Proof.
  intros Hout. unfold torch.index_put_row. apply fold_cell_frame.
  intros m' [b c] Hbc. simpl.
  apply cell_set_cell_ne. intros [= -> ->].
  destruct Hout as [?|Hnot]; [done|]. apply Hnot.
  apply elem_of_lookup_imap_1 in Hbc as (i & y & [= -> ->] & Hy).
  eapply list_elem_of_lookup_2, Hy.
Qed.

Lemma index_put_row_hit v js m a r b c :
  NoDup js → js !! b = Some c → is_Some (cell m r c) →
  cell (torch.index_put_row v js m (a, r)) r c = Some (v a b).
Proof.
  intros Hnd Hb Hsome. unfold torch.index_put_row.
  apply (fold_cell_hit _ (λ bc : nat * nat, bool_decide (bc.2 = c))); [| |done|].
  - intros m' [b' c'] _ Hh. simpl in *. apply bool_decide_eq_false in Hh.
    apply cell_set_cell_ne. congruence.
  - intros m' [b' c'] Hin Hh Hs. simpl in *. apply bool_decide_eq_true in Hh. subst c'.
    apply elem_of_lookup_imap_1 in Hin as (i & y & [= -> ->] & Hy).
    rewrite (NoDup_lookup js i b y Hnd Hy Hb).
    by apply cell_set_cell_eq.
  - right. exists (b, c). split; [|by apply bool_decide_eq_true].
    by apply (elem_of_lookup_imap_2 pair js c b).
Qed.

Lemma index_put_row_shape v js rows cols m ar :
  has_shape rows cols m → has_shape rows cols (torch.index_put_row v js m ar).
Proof.
  unfold torch.index_put_row. apply fold_shape.
  intros m' x. apply set_cell_shape.
Qed.

Lemma index_put_row_is_Some v js m ar r c :
  is_Some (cell m r c) → is_Some (cell (torch.index_put_row v js m ar) r c).
Proof.
  unfold torch.index_put_row. generalize (imap pair js). intros l. revert m.
  induction l as [|x l IH]; intros m Hm; simpl; [done|].
  apply IH.
  destruct (decide ((r, c) = (ar.2, x.2))) as [[= -> ->]|Hne].
  - rewrite cell_set_cell_eq; [eauto | done].
  - by rewrite cell_set_cell_ne.
Qed.

(** The whole grid. *)
Lemma index_put_frame buf rs js v r c :
  r ∉ rs ∨ c ∉ js →
  cell (torch.index_put buf (torch.meshgrid rs js) v) r c = cell buf r c.
Proof.
  intros Hout. unfold torch.index_put. simpl. apply fold_cell_frame.
  intros m' [a r'] Har. apply index_put_row_frame.
  destruct Hout as [Hr|Hc]; [left | by right].
  intros ->. apply Hr.
  apply elem_of_lookup_imap_1 in Har as (i & y & [= -> ->] & Hy).
  eapply list_elem_of_lookup_2, Hy.
Qed.

Lemma index_put_hit buf rs js v a b r c :
  NoDup rs → NoDup js → rs !! a = Some r → js !! b = Some c →
  is_Some (cell buf r c) →
  cell (torch.index_put buf (torch.meshgrid rs js) v) r c = Some (v a b).
Proof.
  intros Hndr Hndj Ha Hb Hsome. unfold torch.index_put. simpl.
  apply (fold_cell_hit _ (λ ar : nat * nat, bool_decide (ar.2 = r))); [| |done|].
  - intros m' [a' r'] _ Hh. simpl in *. apply bool_decide_eq_false in Hh.
    apply index_put_row_frame. left. congruence.
  - intros m' [a' r'] Hin Hh Hs. simpl in *. apply bool_decide_eq_true in Hh. subst r'.
    apply elem_of_lookup_imap_1 in Hin as (i & y & [= -> ->] & Hy).
    rewrite (NoDup_lookup rs i a y Hndr Hy Ha).
    by apply index_put_row_hit.
  - right. exists (a, r). split; [|by apply bool_decide_eq_true].
    by apply (elem_of_lookup_imap_2 pair rs r a).
Qed.

Lemma index_put_shape buf sel v rows cols :
  has_shape rows cols buf → has_shape rows cols (torch.index_put buf sel v).
Proof.
  unfold torch.index_put. apply fold_shape.
  intros m' x. apply index_put_row_shape.
Qed.

End IndexPut.

(** ** Running the monad *)

Section Runs.

Context {O : Type}.
Implicit Types (c : O).

Lemma runs_ret {A} (a : A) c : runs (ret a) c a c.
Proof. intros tr. exists []. by rewrite app_nil_r. Qed.

Lemma runs_bind {A B} (m : M O A) (k : A → M O B) c a c1 b c2 :
  runs m c a c1 → runs (k a) c1 b c2 → runs (bind m k) c b c2.
Proof.
  intros Hm Hk tr. destruct (Hm tr) as [o1 H1].
  destruct (Hk (tr ++ o1)%list) as [o2 H2].
  exists (o1 ++ o2)%list. unfold bind. rewrite H1, H2. by rewrite app_assoc.
Qed.

Lemma raises_bind {A B} (m : M O A) (k : A → M O B) c e c' :
  raises m c e c' → raises (bind m k) c e c'.
Proof.
  intros Hm tr. destruct (Hm tr) as [o1 H1]. exists o1. unfold bind. by rewrite H1.
Qed.

Lemma runs_raises_bind {A B} (m : M O A) (k : A → M O B) c a c1 e c2 :
  runs m c a c1 → raises (k a) c1 e c2 → raises (bind m k) c e c2.
Proof.
  intros Hm Hk tr. destruct (Hm tr) as [o1 H1].
  destruct (Hk (tr ++ o1)%list) as [o2 H2].
  exists (o1 ++ o2)%list. unfold bind. rewrite H1, H2. by rewrite app_assoc.
Qed.

Lemma runs_get_self c : runs get_self c c c.
Proof. intros tr. exists []. by rewrite app_nil_r. Qed.

Lemma runs_modify (f : O → O) c : runs (modify f) c tt (f c).
Proof. intros tr. exists []. by rewrite app_nil_r. Qed.

Lemma runs_emit (e : event) c : runs (emit e) c tt c.
Proof. intros tr. by exists [e]. Qed.

Lemma runs_print (s : string) c : runs (print s) c tt c.
Proof. apply runs_emit. Qed.

Lemma runs_lift {A} (a : A) c : runs (lift (Ok a)) c a c.
Proof. intros tr. exists []. by rewrite app_nil_r. Qed.

Lemma raises_raise {A} e c : raises (raise e : M O A) c e c.
Proof. intros tr. exists []. by rewrite app_nil_r. Qed.

Lemma raises_lift {A} e c : raises (lift (Raise e) : M O A) c e c.
Proof. intros tr. exists []. by rewrite app_nil_r. Qed.

Lemma runs_inj {A} (m : M O A) c a a' c1 c1' :
  runs m c a c1 → runs m c a' c1' → a = a' ∧ c1 = c1'.
Proof.
  intros H1 H2. destruct (H1 []) as [o1 E1]. destruct (H2 []) as [o2 E2].
  rewrite E1 in E2. by simplify_eq.
Qed.

Lemma runs_not_raises {A} (m : M O A) c a c1 e c2 :
  runs m c a c1 → raises m c e c2 → False.
Proof.
  intros H1 H2. destruct (H1 []) as [o1 E1]. destruct (H2 []) as [o2 E2].
  rewrite E1 in E2. by simplify_eq.
Qed.

End Runs.

(** One step of a [runs] derivation. *)
Ltac step :=
  first
    [ eapply runs_bind; [ first [ apply runs_get_self | apply runs_modify
                                | apply runs_emit | apply runs_print
                                | apply runs_ret | apply runs_lift ] | ]
    | apply runs_ret | apply runs_modify | apply runs_emit | apply runs_print ];
  cbv beta.


(** ** Selector validation *)

Section Validation.

Import torch OmniJntImpCntrl.

Implicit Types (c : OmniJntImpCntrl.t) (x : IndexTensor).

Lemma foldl_min_spec (l : list Z) (z : Z) :
  foldl Z.min z l ∈ z :: l ∧ Forall (λ y, (foldl Z.min z l ≤ y)%Z) (z :: l).
Proof.
  revert z. induction l as [|y l IH]; intros z; simpl.
  - split; [left | repeat constructor; lia].
  - destruct (IH (Z.min z y)) as [Hin Hle]. split.
    + apply elem_of_cons in Hin as [Heq|Hin].
      * rewrite Heq. destruct (Z.min_spec z y) as [[_ ->]|[_ ->]]; [left | right; left].
      * right. by right.
    + apply Forall_cons_1 in Hle as [H0 Hle].
      repeat constructor; [lia | lia | done].
Qed.

Lemma foldl_max_spec (l : list Z) (z : Z) :
  foldl Z.max z l ∈ z :: l ∧ Forall (λ y, (y ≤ foldl Z.max z l)%Z) (z :: l).
Proof.
  revert z. induction l as [|y l IH]; intros z; simpl.
  - split; [left | repeat constructor; lia].
  - destruct (IH (Z.max z y)) as [Hin Hle]. split.
    + apply elem_of_cons in Hin as [Heq|Hin].
      * rewrite Heq. destruct (Z.max_spec z y) as [[_ ->]|[_ ->]]; [right; left | left].
      * right. by right.
    + apply Forall_cons_1 in Hle as [H0 Hle].
      repeat constructor; [lia | lia | done].
Qed.

Lemma torch_min_spec (l : list Z) :
  l ≠ [] → ∃ mn, torch.min l = Ok mn ∧ mn ∈ l ∧ Forall (λ y, (mn ≤ y)%Z) l.
Proof.
  destruct l as [|z l]; [done|]. intros _. eexists. split; [reflexivity|].
  apply foldl_min_spec.
Qed.

Lemma torch_max_spec (l : list Z) :
  l ≠ [] → ∃ mx, torch.max l = Ok mx ∧ mx ∈ l ∧ Forall (λ y, (y ≤ mx)%Z) l.
Proof.
  destruct l as [|z l]; [done|]. intros _. eexists. split; [reflexivity|].
  apply foldl_max_spec.
Qed.

Lemma dtype_eqb_eq a b : dtype_eqb a b = true ↔ a = b.
Proof. destruct a, b; simpl; split; congruence. Qed.

Lemma device_eqb_eq a b : device_eqb a b = true ↔ a = b.
Proof. destruct a, b; simpl; split; congruence. Qed.

(** On a tensor with entries the test never raises, and it succeeds
    exactly on the valid ones. *)
Lemma sanity_checks_spec c x bound :
  ix_data x ≠ [] →
  sanity_checks c x bound = Ok (bool_decide (valid_index (_device c) bound x)).
Proof.
  intros Hne. unfold sanity_checks.
  destruct (torch_min_spec _ Hne) as (mn & -> & Hmn & Hmin).
  destruct (torch_max_spec _ Hne) as (mx & -> & Hmx & Hmax).
  destruct (length (ix_shape x) =? 1)%nat eqn:Hs; simpl.
  2: { apply Nat.eqb_neq in Hs. rewrite bool_decide_eq_false_2; [done|].
       intros (? & _). done. }
  apply Nat.eqb_eq in Hs.
  destruct (dtype_eqb (ix_dtype x) int64) eqn:Ht; simpl.
  2: { rewrite bool_decide_eq_false_2; [done|]. intros (_ & Hd & _).
       apply dtype_eqb_eq in Hd. congruence. }
  apply dtype_eqb_eq in Ht.
  destruct (device_eqb (ix_device x) (_device c)) eqn:Hd; simpl.
  2: { rewrite bool_decide_eq_false_2; [done|]. intros (_ & _ & Hd' & _).
       apply device_eqb_eq in Hd'. congruence. }
  apply device_eqb_eq in Hd.
  destruct (0 <=? mn)%Z eqn:H0; simpl.
  2: { apply Z.leb_gt in H0. rewrite bool_decide_eq_false_2; [done|].
       intros (_ & _ & _ & _ & Hall). rewrite Forall_forall in Hall.
       specialize (Hall mn Hmn). lia. }
  apply Z.leb_le in H0.
  destruct (mx <? Z.of_nat bound)%Z eqn:H1.
  - apply Z.ltb_lt in H1. rewrite bool_decide_eq_true_2; [done|].
    repeat split; try done.
    rewrite Forall_forall in Hmin, Hmax. rewrite Forall_forall. intros z Hz.
    specialize (Hmin z Hz). specialize (Hmax z Hz). lia.
  - apply Z.ltb_ge in H1. rewrite bool_decide_eq_false_2; [done|].
    intros (_ & _ & _ & _ & Hall). rewrite Forall_forall in Hall.
    specialize (Hall mx Hmx). lia.
Qed.

Lemma validate_one_block c (o : option IndexTensor) bound
    (l1 l2 l3 l4 l5 l6 : string) :
  classifiable o →
  runs (match o with
        | Some r =>
            ok ← lift (sanity_checks c r bound);
            if negb ok then
              print l1;; print l2;; print l3;; print l4;;
              _ ← lift (torch.min (ix_data r)); print l5;;
              _ ← lift (torch.max (ix_data r)); print l6;;
              ret INVALID
            else ret VALID
        | None => ret NONE
        end) c (classify (_device c) bound o) c.
Proof.
  intros Hcl. destruct o as [x|]; simpl; [|apply runs_ret].
  specialize (Hcl x eq_refl).
  rewrite (sanity_checks_spec c x bound Hcl).
  destruct (torch_min_spec _ Hcl) as (mn & Emn & _).
  destruct (torch_max_spec _ Hcl) as (mx & Emx & _).
  rewrite Emn, Emx.
  eapply runs_bind; [apply runs_lift|]. cbv beta.
  destruct (decide (valid_index (_device c) bound x)) as [Hv|Hv].
  - rewrite bool_decide_eq_true_2 by done. apply runs_ret.
  - rewrite bool_decide_eq_false_2 by done. simpl. repeat step.
Qed.

Lemma runs_validate_selectors c r j :
  classifiable r → classifiable j →
  runs (_validate_selectors r j) c
       (classify (_device c) (num_robots c) r, classify (_device c) (n_dofs c) j) c.
Proof.
  intros Hr Hj. unfold _validate_selectors.
  step.
  eapply runs_bind; [by apply validate_one_block|]. cbv beta.
  eapply runs_bind; [by apply validate_one_block|]. cbv beta.
  apply runs_ret.
Qed.

Lemma runs_gen_selector c r j :
  classifiable r → classifiable j →
  runs (_gen_selector r j) c (selector_of c r j) c.
Proof.
  intros Hr Hj. unfold _gen_selector. step.
  eapply runs_bind; [by apply runs_validate_selectors|]. cbv beta. simpl.
  unfold selector_of.
  destruct (classify (_device c) (num_robots c) r),
           (classify (_device c) (n_dofs c) j); simpl; apply runs_ret.
Qed.

Lemma runs_validate_signal c s sel :
  runs (_validate_signal (Some s) sel) c (fits c s sel) c.
Proof.
  unfold _validate_signal. step. simpl. step.
  destruct sel as [g|]; simpl; destruct (_ && _); repeat step.
Qed.

Lemma raises_validate_signal_None c sel :
  raises (_validate_signal None sel) c (AttributeError "shape") c.
Proof.
  unfold _validate_signal. eapply runs_raises_bind; [apply runs_get_self|].
  apply raises_bind. apply raises_raise.
Qed.

Lemma runs_assign_signal c k s sel :
  runs (_assign_signal (tag k) s sel) c true
       (write k (assign (read k c) s sel) c).
Proof.
  unfold _assign_signal. step. destruct k; simpl; repeat step.
Qed.

Lemma runs_write_signal c k i s sel success :
  runs (write_signal (tag k) i (Some s) sel success) c
       (if fits c s sel then success else <[i := false]> success)
       (if fits c s sel then write k (assign (read k c) s sel) c else c).
Proof.
  unfold write_signal.
  eapply runs_bind; [apply runs_validate_signal|]. cbv beta.
  destruct (fits c s sel).
  - eapply runs_bind; [apply runs_assign_signal|]. simpl. apply runs_ret.
  - apply runs_ret.
Qed.

Lemma runs_write_signal_None c (tg : string) i sel success :
  runs (write_signal tg i None sel success) c success c.
Proof. apply runs_ret. Qed.

End Validation.

Section ControllerProperties.

Import torch OmniJntImpCntrl.

Section Setters.

Implicit Types (c : OmniJntImpCntrl.t) (k : Buffer) (s : Tensor2D).

Lemma write_read k m c : read k (write k m c) = m.
Proof. by destruct k. Qed.

Lemma write_read_ne k k' m c : k' ≠ k → read k' (write k m c) = read k' c.
Proof. by destruct k, k'. Qed.

Lemma runs_setter_call c k s r j :
  k ≠ VGain → classifiable r → classifiable j →
  let sel := selector_of c r j in
  runs (setter_call k s r j) c
       (if fits c s sel then all_true k else <[flag_of k := false]> (all_true k))
       (if fits c s sel then write k (assign (read k c) s sel) c else c).
Proof.
  intros Hk Hr Hj sel.
  pose proof (runs_gen_selector c r j Hr Hj) as Hsel. fold sel in Hsel.
  destruct k; try done; unfold setter_call, set_refs, update_state, set_gains;
    (eapply runs_bind; [exact Hsel|]); cbv beta.
  - (* pos_ref *)
    eapply runs_bind; [apply runs_write_signal_None|]. cbv beta.
    eapply runs_bind; [apply (runs_write_signal c PosRef)|]. cbv beta.
    eapply runs_bind; [apply runs_write_signal_None|]. apply runs_ret.
  - (* vel_ref *)
    eapply runs_bind; [apply runs_write_signal_None|]. cbv beta.
    eapply runs_bind; [apply runs_write_signal_None|]. cbv beta.
    eapply runs_bind; [apply (runs_write_signal c VelRef)|]. apply runs_ret.
  - (* eff_ref *)
    eapply runs_bind; [apply (runs_write_signal c EffRef)|]. cbv beta.
    eapply runs_bind; [apply runs_write_signal_None|]. cbv beta.
    eapply runs_bind; [apply runs_write_signal_None|]. apply runs_ret.
  - (* pos *)
    eapply runs_bind; [apply (runs_write_signal c Pos)|]. cbv beta.
    eapply runs_bind; [apply runs_write_signal_None|]. cbv beta.
    eapply runs_bind; [apply runs_write_signal_None|]. apply runs_ret.
  - (* vel *)
    eapply runs_bind; [apply runs_write_signal_None|]. cbv beta.
    eapply runs_bind; [apply (runs_write_signal c Vel)|]. cbv beta.
    eapply runs_bind; [apply runs_write_signal_None|]. apply runs_ret.
  - (* eff *)
    eapply runs_bind; [apply runs_write_signal_None|]. cbv beta.
    eapply runs_bind; [apply runs_write_signal_None|]. cbv beta.
    eapply runs_bind; [apply (runs_write_signal c Eff)|]. apply runs_ret.
  - (* pgain *)
    eapply runs_bind; [|apply runs_ret].
    eapply runs_bind; [apply runs_validate_signal|]. cbv beta.
    destruct (fits c s sel); [|apply runs_ret].
    eapply runs_bind; [apply (runs_assign_signal c PGain)|]. cbv beta. simpl.
    step. destruct (negb _); repeat step.
Qed.

(** The object is never touched while the selector is generated, whether
    that ends normally or raises. *)
Lemma gen_selector_obj r j (w : World OmniJntImpCntrl.t) :
  obj (_gen_selector r j w).2 = obj w.
Proof.
  unfold _gen_selector, _validate_selectors, bind, get_self, lift, print, emit, ret.
  destruct w as [c tr]. simpl.
  destruct r as [x|], j as [y|]; simpl;
    repeat (match goal with
            | |- context [sanity_checks ?a ?b ?d] =>
                destruct (sanity_checks a b d) as [[|]|]; simpl
            | |- context [torch.min ?l] => destruct (torch.min l); simpl
            | |- context [torch.max ?l] => destruct (torch.max l); simpl
            end); reflexivity.
Qed.

(** [set_gains] with [vel_gains] alone never returns. *)
Lemma set_gains_vel_only s r j (w : World OmniJntImpCntrl.t) :
  ∃ e w', set_gains None (Some s) r j w = (Raise e, w') ∧ obj w' = obj w.
Proof.
  pose proof (gen_selector_obj r j w) as Hobj.
  unfold set_gains. unfold bind at 1.
  destruct (_gen_selector r j w) as [[sel|e] w1] eqn:Hg; simpl in Hobj.
  - exists (AttributeError "shape"), w1. split; [|done].
    unfold bind, ret, _validate_signal, get_self, getattr, raise. reflexivity.
  - by exists e, w1.
Qed.

Lemma indices_lookup x a row :
  indices (Some x) !! a = Some row → ∃ z, ix_data x !! a = Some z ∧ row = Z.to_nat z.
Proof.
  unfold indices. change (map Z.to_nat (ix_data x)) with (Z.to_nat <$> ix_data x).
  rewrite list_lookup_fmap. destruct (ix_data x !! a) as [z|]; [|done].
  intros [= <-]. eauto.
Qed.

Lemma resolved_bound dev bound o a row :
  valid_subset dev bound o → resolved bound o !! a = Some row → row < bound.
Proof.
  intros Hv Ha. destruct o as [x|]; simpl in Ha.
  - destruct (Hv x eq_refl) as [(_ & _ & _ & _ & Hall) _].
    apply indices_lookup in Ha as (z & Hz & ->).
    rewrite Forall_forall in Hall.
    specialize (Hall z (list_elem_of_lookup_2 _ _ _ Hz)). lia.
  - apply lookup_seq in Ha. lia.
Qed.

Lemma resolved_NoDup dev bound o :
  valid_subset dev bound o → NoDup (resolved bound o).
Proof.
  intros Hv. destruct o as [x|]; simpl; [|apply NoDup_seq].
  destruct (Hv x eq_refl) as [(_ & _ & _ & _ & Hall) Hnd].
  change (map Z.to_nat (ix_data x)) with (Z.to_nat <$> ix_data x).
  apply NoDup_fmap_2_strong; [|done].
  intros z1 z2 H1 H2 Heq. rewrite Forall_forall in Hall.
  pose proof (Hall z1 H1). pose proof (Hall z2 H2). lia.
Qed.

Lemma valid_subset_classifiable dev bound o :
  valid_subset dev bound o → classifiable o.
Proof. intros Hv x ->. by destruct (Hv x eq_refl) as [(_ & _ & _ & ? & _) _]. Qed.

Lemma valid_subset_classify dev bound o :
  valid_subset dev bound o →
  classify dev bound o = match o with Some _ => VALID | None => NONE end.
Proof.
  intros Hv. destruct o as [x|]; simpl; [|done].
  destruct (Hv x eq_refl) as [Hx _]. by rewrite decide_True.
Qed.

(** The selector of two valid subsets is the grid over what they resolve
    to, unless both are absent. *)
Lemma selector_of_valid c r j :
  valid_subset (_device c) (num_robots c) r →
  valid_subset (_device c) (n_dofs c) j →
  selector_of c r j
  = match r, j with
    | None, None => None
    | _, _ => Some (meshgrid (resolved (num_robots c) r) (resolved (n_dofs c) j))
    end.
Proof.
  intros Hr Hj. unfold selector_of.
  rewrite (valid_subset_classify _ _ _ Hr), (valid_subset_classify _ _ _ Hj).
  by destruct r, j.
Qed.

(** What [assign] does to a buffer of the controller's shape, for the
    selector of two valid subsets and a signal of the selector's shape. *)
Lemma assign_valid c buf s r j :
  has_shape (num_robots c) (n_dofs c) buf →
  valid_subset (_device c) (num_robots c) r →
  valid_subset (_device c) (n_dofs c) j →
  let R := resolved (num_robots c) r in
  let J := resolved (n_dofs c) j in
  let buf' := assign buf s (selector_of c r j) in
  has_shape (num_robots c) (n_dofs c) buf'
  ∧ (∀ a b row col, R !! a = Some row → J !! b = Some col →
       mat_at buf' row col = t_at s a b)
  ∧ (∀ row col, ¬ (row ∈ R ∧ col ∈ J) → mat_at buf' row col = mat_at buf row col).
Proof.
  intros Hs Hr Hj R J buf'. subst buf'. rewrite (selector_of_valid c r j Hr Hj).
  assert (Hgrid : ∀ g, g = meshgrid R J →
    has_shape (num_robots c) (n_dofs c) (index_put buf g (t_at s))
    ∧ (∀ a b row col, R !! a = Some row → J !! b = Some col →
         mat_at (index_put buf g (t_at s)) row col = t_at s a b)
    ∧ (∀ row col, ¬ (row ∈ R ∧ col ∈ J) →
         mat_at (index_put buf g (t_at s)) row col = mat_at buf row col)).
  { intros g ->. split; [by apply index_put_shape|]. split.
    - intros a b row col Ha Hb. rewrite mat_at_cell.
      rewrite (index_put_hit buf R J (t_at s) a b row col); try done.
      + by eapply resolved_NoDup.
      + by eapply resolved_NoDup.
      + eapply cell_is_Some; [done | |]; by eapply resolved_bound.
    - intros row col Hout. rewrite !mat_at_cell. rewrite index_put_frame; [done|].
      destruct (decide (row ∈ R)); [right | by left]. tauto. }
  destruct r as [x|], j as [y|]; try (by apply Hgrid).
  (* no index given: the whole buffer *)
  simpl. split; [by apply slice_assign_shape|]. split.
  - intros a b row col Ha Hb. subst R J. simpl in Ha, Hb.
    apply lookup_seq in Ha as [-> ?], Hb as [-> ?]. simpl.
    by eapply mat_at_slice_assign.
  - intros row col Hout. subst R J. simpl in Hout.
    assert (Hor : ¬ row < num_robots c ∨ ¬ col < n_dofs c).
    { destruct (decide (row < num_robots c)); [|by left]. right. intros ?.
      apply Hout. split; apply elem_of_seq; lia. }
    assert (Hnone : ∀ m, has_shape (num_robots c) (n_dofs c) m → mat_at m row col = 0%Q).
    { intros m [Hlen Hrows]. unfold mat_at.
      destruct (m !! row) as [rw|] eqn:Hrw; [|done]. simpl.
      destruct (rw !! col) as [v|] eqn:Hv; [|done]. exfalso.
      apply lookup_lt_Some in Hrw as Hlt.
      rewrite Forall_forall in Hrows.
      specialize (Hrows rw (list_elem_of_lookup_2 _ _ _ Hrw)).
      apply lookup_lt_Some in Hv. destruct Hor; lia. }
    rewrite (Hnone buf Hs). apply Hnone. by apply slice_assign_shape.
Qed.

Lemma fits_valid c s r j :
  valid_subset (_device c) (num_robots c) r →
  valid_subset (_device c) (n_dofs c) j →
  t_rows s = length (resolved (num_robots c) r) →
  t_cols s = length (resolved (n_dofs c) j) →
  t_device s = _device c →
  fits c s (selector_of c r j) = true.
Proof.
  intros Hr Hj Hrows Hcols Hdev. rewrite (selector_of_valid c r j Hr Hj).
  assert (Hd : device_eqb (t_device s) (_device c) = true) by by apply device_eqb_eq.
  destruct r, j; simpl in *; rewrite Hd, ?length_seq in *;
    rewrite Hrows, Hcols, !Nat.eqb_refl; done.
Qed.

End Setters.

(** Writes through the selector, on the tensor of the signal alone: for
    every buffer but the velocity gains, valid index subsets of pairwise
    distinct entries (an absent subset standing for the whole axis) and a
    tensor of shape [[|R|, |J|]], the setter call returns all flags true,
    writes [signal[a, b]] into the cell ([R[a]], [J[b]]) and leaves every
    cell outside [R x J] and every other buffer as it was. *)
Lemma setter_call_scoped :
  ∀ (k : Buffer) (w : World OmniJntImpCntrl.t) (s : Tensor2D)
    (r j : option IndexTensor),
    k ≠ VGain →
    has_shape (num_robots (obj w)) (n_dofs (obj w)) (read k (obj w)) →
    valid_subset (_device (obj w)) (num_robots (obj w)) r →
    valid_subset (_device (obj w)) (n_dofs (obj w)) j →
    let R := resolved (num_robots (obj w)) r in
    let J := resolved (n_dofs (obj w)) j in
    t_rows s = length R → t_cols s = length J → t_device s = _device (obj w) →
    ∃ w',
      setter_call k s r j w = (Ok (all_true k), w')
      ∧ has_shape (num_robots (obj w)) (n_dofs (obj w)) (read k (obj w'))
      ∧ (∀ a b row col, R !! a = Some row → J !! b = Some col →
           mat_at (read k (obj w')) row col = t_at s a b)
      ∧ (∀ row col, ¬ (row ∈ R ∧ col ∈ J) →
           mat_at (read k (obj w')) row col = mat_at (read k (obj w)) row col)
      ∧ (∀ k', k' ≠ k → read k' (obj w') = read k' (obj w)).
Proof.
  intros k [c tr] s r j Hk Hs Hr Hj R J Hrows Hcols Hdev. simpl in *.
  pose proof (runs_setter_call c k s r j Hk
                (valid_subset_classifiable _ _ _ Hr)
                (valid_subset_classifiable _ _ _ Hj)) as Hrun.
  simpl in Hrun. rewrite (fits_valid c s r j Hr Hj Hrows Hcols Hdev) in Hrun.
  destruct (Hrun tr) as [out Eq]. eexists. split; [exact Eq|]. simpl.
  rewrite write_read.
  destruct (assign_valid c (read k c) s r j Hs Hr Hj) as (Hshape & Hhit & Hframe).
  split; [done|]. split; [done|]. split; [done|].
  intros k' Hne. by apply write_read_ne.
Qed.

(** A signal that has not the full shape [[num_robots, n_dofs]] is refused
    when a provided index subset is [INVALID]: the flag of its field comes
    back false and the controller is left as it was. *)
Theorem invalid_selector_refuses_partial_signal :
  ∀ (k : Buffer) (w : World OmniJntImpCntrl.t) (s : Tensor2D)
    (r j : option IndexTensor),
    k ≠ VGain →
    classifiable r → classifiable j →
    classify (_device (obj w)) (num_robots (obj w)) r = INVALID
    ∨ classify (_device (obj w)) (n_dofs (obj w)) j = INVALID →
    ¬ (t_rows s = num_robots (obj w) ∧ t_cols s = n_dofs (obj w)) →
    ∃ w',
      setter_call k s r j w = (Ok (<[flag_of k := false]> (all_true k)), w')
      ∧ obj w' = obj w.
Proof.
  intros k [c tr] s r j Hk Hr Hj Hinv Hshape. simpl in *.
  pose proof (runs_setter_call c k s r j Hk Hr Hj) as Hrun. simpl in Hrun.
  assert (Hsel : selector_of c r j = None).
  { unfold selector_of. destruct Hinv as [-> | ->]; [done|].
    by destruct (classify _ (num_robots c) r). }
  assert (Hfits : fits c s (selector_of c r j) = false).
  { rewrite Hsel. simpl.
    destruct (t_rows s =? num_robots c)%nat eqn:E1; [|done].
    destruct (t_cols s =? n_dofs c)%nat eqn:E2; [|done].
    apply Nat.eqb_eq in E1, E2. tauto. }
  rewrite Hfits in Hrun. destruct (Hrun tr) as [out Eq]. eauto.
Qed.

Lemma imp_law_shape rows cols e pg pe vg ve :
  has_shape rows cols e → has_shape rows cols pg → has_shape rows cols pe →
  has_shape rows cols vg → has_shape rows cols ve →
  has_shape rows cols (imp_law e pg pe vg ve).
Proof.
  intros. unfold imp_law, torch.add, torch.mul.
  repeat apply zip_with_shape; done.
Qed.

Lemma mat_at_imp_law rows cols e pg pr p vg vr v i j :
  has_shape rows cols e → has_shape rows cols pg → has_shape rows cols pr →
  has_shape rows cols p → has_shape rows cols vg → has_shape rows cols vr →
  has_shape rows cols v → i < rows → j < cols →
  mat_at (imp_law e pg (torch.sub pr p) vg (torch.sub vr v)) i j
  = (mat_at e i j
     + (mat_at pg i j * (mat_at pr i j - mat_at p i j)
        + mat_at vg i j * (mat_at vr i j - mat_at v i j)))%Q.
Proof.
  intros He Hpg Hpr Hp Hvg Hvr Hv Hi Hj.
  unfold imp_law, torch.add, torch.mul, torch.sub.
  assert (Hpe := zip_with_shape Qminus _ _ _ _ Hpr Hp).
  assert (Hve := zip_with_shape Qminus _ _ _ _ Hvr Hv).
  assert (Hm1 := zip_with_shape Qmult _ _ _ _ Hpg Hpe).
  assert (Hm2 := zip_with_shape Qmult _ _ _ _ Hvg Hve).
  assert (Hs := zip_with_shape Qplus _ _ _ _ Hm1 Hm2).
  rewrite (mat_at_zip_with Qplus rows cols) by done.
  rewrite (mat_at_zip_with Qplus rows cols) by done.
  rewrite !(mat_at_zip_with Qmult rows cols) by done.
  rewrite !(mat_at_zip_with Qminus rows cols) by done.
  reflexivity.
Qed.

(** Claim C1.  In override mode, on buffers of shape [[num_robots, n_dofs]],
    [apply_cmds(filter = False)] returns normally; the last things it does
    are the device barrier and [set_joint_efforts(self._imp_eff)]; and in
    every cell the commanded effort is
    [eff_ref + pos_gain * (pos_ref - pos) + vel_gain * (vel_ref - vel)].
    Where both gains are zero it is [eff_ref]; where [eff_ref] is zero it is
    the pure PD term. *)
Theorem apply_cmds_effort_law :
  ∀ (w : World OmniJntImpCntrl.t),
    override_art_controller (obj w) = true →
    cntrl_shaped (obj w) →
    ∃ w' earlier,
      apply_cmds false w = (Ok tt, w')
      ∧ trace w' = (earlier ++ [CudaSynchronize; ArtSetJointEfforts (_imp_eff (obj w'))])%list
      ∧ has_shape (num_robots (obj w)) (n_dofs (obj w)) (_imp_eff (obj w'))
      ∧ ∀ i j, i < num_robots (obj w) → j < n_dofs (obj w) →
          let effort := mat_at (_imp_eff (obj w')) i j in
          let eff_ref := mat_at (_eff_ref (obj w)) i j in
          let pos_gain := mat_at (_pos_gains (obj w)) i j in
          let vel_gain := mat_at (_vel_gains (obj w)) i j in
          let pos_err := (mat_at (_pos_ref (obj w)) i j - mat_at (_pos (obj w)) i j)%Q in
          let vel_err := (mat_at (_vel_ref (obj w)) i j - mat_at (_vel (obj w)) i j)%Q in
          (effort == eff_ref + pos_gain * pos_err + vel_gain * vel_err)%Q
          ∧ ((pos_gain == 0)%Q → (vel_gain == 0)%Q → (effort == eff_ref)%Q)
          ∧ ((eff_ref == 0)%Q → (effort == pos_gain * pos_err + vel_gain * vel_err)%Q).
Proof.
  intros [c tr] Hov (Hpg & Hvg & He & Hpr & Hvr & Hp & Hv & _). simpl in *.
  assert (Hlaw : ∀ i j, i < num_robots c → j < n_dofs c →
            mat_at (imp_law (_eff_ref c) (_pos_gains c) (torch.sub (_pos_ref c) (_pos c))
                            (_vel_gains c) (torch.sub (_vel_ref c) (_vel c))) i j
            = (mat_at (_eff_ref c) i j
               + (mat_at (_pos_gains c) i j * (mat_at (_pos_ref c) i j - mat_at (_pos c) i j)
                  + mat_at (_vel_gains c) i j * (mat_at (_vel_ref c) i j - mat_at (_vel c) i j)))%Q).
  { intros i j Hi Hj. by apply mat_at_imp_law with (num_robots c) (n_dofs c). }
  assert (Hshape : has_shape (num_robots c) (n_dofs c)
            (imp_law (_eff_ref c) (_pos_gains c) (torch.sub (_pos_ref c) (_pos c))
                     (_vel_gains c) (torch.sub (_vel_ref c) (_vel c)))).
  { apply imp_law_shape; try done; apply zip_with_shape; done. }
  assert (Hrun : ∃ w' earlier,
            apply_cmds false (mkWorld c tr) = (Ok tt, w')
            ∧ trace w' = (earlier ++ [CudaSynchronize; ArtSetJointEfforts (_imp_eff (obj w'))])%list
            ∧ _imp_eff (obj w')
              = imp_law (_eff_ref c) (_pos_gains c) (torch.sub (_pos_ref c) (_pos c))
                        (_vel_gains c) (torch.sub (_vel_ref c) (_vel c))).
  { clear Hlaw Hshape Hpg Hvg He Hpr Hvr Hp Hv.
    destruct c as [ov ? gi ri]; simpl in Hov; subst ov.
    destruct gi, ri; eexists _, _; (split; [reflexivity|]); simpl;
      (split; [| reflexivity]); symmetry; apply (app_assoc _ [_] [_]). }
  destruct Hrun as (w' & earlier & Hrun & Htr & Himp).
  exists w', earlier.
  split; [done|]. split; [done|]. rewrite Himp. split; [done|].
  intros i j Hi Hj. simpl. rewrite Hlaw by done.
  split; [ring|]. split.
  - intros -> ->. ring.
  - intros ->. ring.
Qed.

Lemma new_has_filter_bank art pg vg backend dev bw dt ov ioc w :
  new art pg vg backend dev bw (Some dt) ov ioc = (Ok tt, w) →
  has_filter_bank (obj w).
Proof.
  intros H. crunch H.
  destruct (ArticulationView.initialized art); crunch H; [|done].
  destruct (String.eqb backend "torch"); crunch H;
    repeat (match type of H with
            | context [match FirstOrderFilter.__init__ ?a ?b ?c ?d ?e with _ => _ end] =>
                destruct (FirstOrderFilter.__init__ a b c d e); crunch H
            end); try done;
    destruct ioc, ov; crunch H; injection H as <-;
    unfold has_filter_bank; lazy; eauto 10.
Qed.

(** Claim C6 (the code does otherwise).  On a controller that has its filter
    bank, [apply_cmds(filter = True)] never completes, in override mode or not:
    it reads [self.vel_ref_filter], an attribute the class does not have
    (the filter is kept as [_vel_ref_filter]), and raises [AttributeError];
    no impedance effort is computed ([_imp_eff] stays as it was). *)
Theorem apply_cmds_with_filter_raises :
  ∀ (w : World OmniJntImpCntrl.t),
    has_filter_bank (obj w) →
    ∃ w', apply_cmds true w = (Raise (AttributeError "vel_ref_filter"), w')
          ∧ _imp_eff (obj w') = _imp_eff (obj w).
Proof.
  intros [c tr] (Hav & [fp Hfp] & [fv Hfv] & [fe Hfe]).
  destruct c as [ov ioc gi ri pg vg bw fdt dev nr nd names
                 bpg bvg ber bpr bvr bpe bve bp bv be bie fa pf vf ef].
  simpl in *. subst.
  destruct gi, ri, ov; vm_compute; eexists; (split; [reflexivity|]); reflexivity.
Qed.



(** Claim C3 (the code does otherwise on one path).  On the controller of two
    robots and three joints, [set_gains(vel_gains = [[5, 7]],
    robot_indxs = [1], jnt_indxs = [0, 2])] raises [AttributeError] and
    writes nothing: the block for [vel_gains] validates [pos_gains], which
    is [None].  The same call with [pos_gains] returns all flags true and
    yields the rows [[300, 300, 300]] and [[5, 300, 7]]. *)
Theorem set_gains_vel_gains_alone_example :
  set_gains None (Some (tensor cpu [[5; 7]]%Q))
            (Some (int64_indices [1]%Z)) (Some (int64_indices [0; 2]%Z)) example_cntrl
  = (Raise (AttributeError "shape"), example_cntrl)
  ∧ _vel_gains (obj example_cntrl) = [[30; 30; 30]; [30; 30; 30]]%Q
  ∧ (set_gains (Some (tensor cpu [[5; 7]]%Q)) None
               (Some (int64_indices [1]%Z)) (Some (int64_indices [0; 2]%Z))
               example_cntrl).1 = Ok [true; true; true]
  ∧ _pos_gains (obj (set_gains (Some (tensor cpu [[5; 7]]%Q)) None
                               (Some (int64_indices [1]%Z))
                               (Some (int64_indices [0; 2]%Z)) example_cntrl).2)
    = [[300; 300; 300]; [5; 300; 7]]%Q.
Proof. vm_compute. repeat split. Qed.

(** Claim C4 (the code does otherwise).  On the controller of two robots and
    three joints, [set_refs(pos_ref = s, jnt_indxs = [5])] with [s] of the
    full shape [[2, 3]]: the joint index is classified [INVALID], yet all
    four flags come back true and [s] has overwritten the whole position
    reference buffer. *)
Theorem out_of_bounds_index_full_signal_example :
  let signal := tensor cpu [[1; 2; 3]; [4; 5; 6]]%Q in
  let out := set_refs None (Some signal) None None (Some (int64_indices [5]%Z))
               example_cntrl in
  classify cpu 3 (Some (int64_indices [5]%Z)) = INVALID
  ∧ _pos_ref (obj example_cntrl) = [[0; 0; 0]; [0; 0; 0]]%Q
  ∧ out.1 = Ok [true; true; true; true]
  ∧ _pos_ref (obj out.2) = [[1; 2; 3]; [4; 5; 6]]%Q.
Proof. vm_compute. repeat split. Qed.

(** Claim C5 (the code does otherwise).  [set_gains] called with [vel_gains]
    and without [pos_gains] never returns, whatever the tensor and the
    selectors: it raises, leaving the controller as it was; when selector
    validation itself does not raise, the exception is the [AttributeError]
    of reading [.shape] of [None]. *)
Theorem set_gains_vel_gains_alone_raises :
  ∀ (w : World OmniJntImpCntrl.t) (vel_gains : Tensor2D)
    (robot_indxs jnt_indxs : option IndexTensor),
    ∃ e w', set_gains None (Some vel_gains) robot_indxs jnt_indxs w = (Raise e, w')
            ∧ obj w' = obj w
            ∧ (classifiable robot_indxs → classifiable jnt_indxs →
               e = AttributeError "shape").
Proof.
  intros w s r j.
  destruct (set_gains_vel_only s r j w) as (e & w' & E & Hobj).
  exists e, w'. split; [done|]. split; [done|].
  intros Hr Hj. destruct w as [c tr].
  destruct (runs_gen_selector c r j Hr Hj tr) as [out Hg].
  revert E. unfold set_gains. unfold bind at 1. rewrite Hg.
  unfold bind, ret, _validate_signal, get_self, getattr, raise. by intros [= <- _].
Qed.

(** Claim C7 (the code does otherwise).  Joints hip, knee, wheel over two
    robots, document hip = 0.3, ankle = 1, knee = -0.6: at the joint absent
    from the articulation the constructor raises [AttributeError] (the
    warning formats [self.journal], which the class never sets); nothing
    was printed, and the column of knee, which comes later in the document,
    is still 0. *)
Theorem homing_unknown_joint_example :
  let out := OmniRobotHomer.new example_articulation
               (Some [("hip", 0.3); ("ankle", 1); ("knee", -0.6)]%Q) "torch" in
  out.1 = Raise (AttributeError "journal")
  ∧ trace out.2 = []
  ∧ OmniRobotHomer._homing (obj out.2) = [[0.3; 0; 0]; [0.3; 0; 0]]%Q.
Proof. vm_compute. repeat split. Qed.

Example homing_scenario :
  let out := OmniRobotHomer.new example_articulation
               (Some [("hip", 0.3); ("knee", -0.6)]%Q) "torch" in
  out.1 = Ok tt
  ∧ OmniRobotHomer.get_homing (obj out.2) = [[0.3; -0.6; 0]; [0.3; -0.6; 0]]%Q.
Proof. vm_compute. repeat split. Qed.

(** Claim C10 (the code does otherwise).  On the controller of two robots
    and three joints, [set_refs(pos_ref = s, robot_indxs = [1, 0])] with an
    int32 index tensor and [s] of shape [[2, 3]]: the index tensor is
    classified [INVALID], yet all four flags come back true and [s] has been
    written over the whole buffer, row 0 of [s] into row 0. *)
Theorem int32_indices_full_signal_example :
  let robot_indxs := index_tensor cpu int32 [1; 0]%Z in
  let signal := tensor cpu [[1; 2; 3]; [4; 5; 6]]%Q in
  let out := set_refs None (Some signal) None (Some robot_indxs) None example_cntrl in
  classify cpu 2 (Some robot_indxs) = INVALID
  ∧ out.1 = Ok [true; true; true; true]
  ∧ _pos_ref (obj out.2) = [[1; 2; 3]; [4; 5; 6]]%Q.
Proof. vm_compute. repeat split. Qed.

Lemma example_cntrl_dims :
  _device (obj example_cntrl) = cpu
  ∧ num_robots (obj example_cntrl) = 2
  ∧ n_dofs (obj example_cntrl) = 3.
Proof. vm_compute. repeat split. Qed.

Lemma apply_cmds_effort_law_witness :
  override_art_controller (obj example_tracking_cntrl) = true
  ∧ cntrl_shaped (obj example_tracking_cntrl)
  ∧ ∃ w' earlier,
      apply_cmds false example_tracking_cntrl = (Ok tt, w')
      ∧ trace w' = (earlier ++ [CudaSynchronize; ArtSetJointEfforts (_imp_eff (obj w'))])%list
      ∧ has_shape (num_robots (obj example_tracking_cntrl))
                  (n_dofs (obj example_tracking_cntrl)) (_imp_eff (obj w'))
      ∧ ∀ i j, i < num_robots (obj example_tracking_cntrl) →
               j < n_dofs (obj example_tracking_cntrl) →
          let effort := mat_at (_imp_eff (obj w')) i j in
          let eff_ref := mat_at (_eff_ref (obj example_tracking_cntrl)) i j in
          let pos_gain := mat_at (_pos_gains (obj example_tracking_cntrl)) i j in
          let vel_gain := mat_at (_vel_gains (obj example_tracking_cntrl)) i j in
          let pos_err := (mat_at (_pos_ref (obj example_tracking_cntrl)) i j
                          - mat_at (_pos (obj example_tracking_cntrl)) i j)%Q in
          let vel_err := (mat_at (_vel_ref (obj example_tracking_cntrl)) i j
                          - mat_at (_vel (obj example_tracking_cntrl)) i j)%Q in
          (effort == eff_ref + pos_gain * pos_err + vel_gain * vel_err)%Q
          ∧ ((pos_gain == 0)%Q → (vel_gain == 0)%Q → (effort == eff_ref)%Q)
          ∧ ((eff_ref == 0)%Q → (effort == pos_gain * pos_err + vel_gain * vel_err)%Q).
Proof.
  assert (H1 : override_art_controller (obj example_tracking_cntrl) = true)
    by (vm_compute; reflexivity).
  assert (H2 : cntrl_shaped (obj example_tracking_cntrl))
    by (vm_compute; repeat constructor).
  exact (conj H1 (conj H2 (apply_cmds_effort_law example_tracking_cntrl H1 H2))).
Defined.

Lemma filter_update_law_witness :
  ∃ f,
    FirstOrderFilter.__init__ 0.01 50 1 2 cpu = Ok f
    ∧ Forall (λ r, ∀ m, r = Some m → has_shape 1 2 m) [Some [[1; 1]]%Q; None]
    ∧ has_shape 1 2 [[1; 0]]%Q
    ∧ let K := (2 * math_pi * 50)%Q in
      let c1 := ((1 - K * 0.01 / 2) / (1 + K * 0.01 / 2))%Q in
      let c2 := ((K * 0.01 / 2) / (1 + K * 0.01 / 2))%Q in
      let before := foldl FirstOrderFilter.update f [Some [[1; 1]]%Q; None] in
      let after := FirstOrderFilter.update before (Some [[1; 0]]%Q) in
      (∀ i j, i < 1 → j < 2 →
         (mat_at (FirstOrderFilter.yk after) i j
          == mat_at (FirstOrderFilter.ykm1 before) i j * c1
             + (mat_at [[1; 0]]%Q i j + mat_at (FirstOrderFilter.refkm1 before) i j) * c2)%Q)
      ∧ FirstOrderFilter.ykm1 before = FirstOrderFilter.yk before
      ∧ FirstOrderFilter.refkm1 before = FirstOrderFilter.refk before
      ∧ FirstOrderFilter.refk after = [[1; 0]]%Q
      ∧ FirstOrderFilter.refkm1 after = [[1; 0]]%Q
      ∧ FirstOrderFilter.ykm1 after = FirstOrderFilter.yk after.
Proof.
  eexists.
  assert (H1 : FirstOrderFilter.__init__ 0.01 50 1 2 cpu = Ok _)
    by (vm_compute; reflexivity).
  assert (H2 : Forall (λ r, ∀ m, r = Some m → has_shape 1 2 m) [Some [[1; 1]]%Q; None]).
  { apply Forall_cons_2; [intros m [= <-]; repeat constructor|].
    apply Forall_cons_2; [intros m [=]|]. apply Forall_nil_2. }
  assert (H3 : has_shape 1 2 [[1; 0]]%Q) by repeat constructor.
  exact (conj H1 (conj H2 (conj H3
           (filter_update_law 0.01 50 1 2 cpu _ _ _ H1 H2 H3)))).
Defined.

Lemma apply_cmds_with_filter_raises_witness :
  has_filter_bank (obj example_filtered_cntrl)
  ∧ ∃ w', apply_cmds true example_filtered_cntrl
          = (Raise (AttributeError "vel_ref_filter"), w')
          ∧ _imp_eff (obj w') = _imp_eff (obj example_filtered_cntrl).
Proof.
  assert (H : has_filter_bank (obj example_filtered_cntrl)).
  { unfold has_filter_bank. repeat split; vm_compute; eauto. }
  exact (conj H (apply_cmds_with_filter_raises example_filtered_cntrl H)).
Defined.



Lemma invalid_selector_refuses_partial_signal_witness :
  let s := tensor cpu [[5; 7]]%Q in
  let j := Some (int64_indices [5]%Z) in
  PosRef ≠ VGain
  ∧ classify (_device (obj example_cntrl)) (n_dofs (obj example_cntrl)) j = INVALID
  ∧ ∃ w', setter_call PosRef s None j example_cntrl
          = (Ok [true; false; true; true], w')
          ∧ obj w' = obj example_cntrl.
Proof.
  cbv zeta.
  assert (H0 : PosRef ≠ VGain) by done.
  assert (H1 : classify (_device (obj example_cntrl)) (n_dofs (obj example_cntrl))
                 (Some (int64_indices [5]%Z)) = INVALID) by (vm_compute; reflexivity).
  assert (H2 : classifiable None) by (intros x [=]).
  assert (H3 : classifiable (Some (int64_indices [5]%Z))) by (by intros x [= <-]).
  assert (H4 : ¬ (t_rows (tensor cpu [[5; 7]]%Q) = num_robots (obj example_cntrl)
                  ∧ t_cols (tensor cpu [[5; 7]]%Q) = n_dofs (obj example_cntrl))).
  { destruct example_cntrl_dims as (_ & -> & _). simpl. intros [? _]. done. }
  split; [exact H0|]. split; [exact H1|].
  exact (invalid_selector_refuses_partial_signal PosRef example_cntrl
           (tensor cpu [[5; 7]]%Q) None (Some (int64_indices [5]%Z))
           H0 H2 H3 (or_intror H1) H4).
Defined.

(** An index tensor that is not int64, or lies on another device than the
    controller's, never passes the checks, on either axis.  With at least
    one entry it is classified [INVALID] whatever its entries, and no
    selector is built from it.  Without entries the warning block, which
    formats [torch.min] of the tensor, raises, so that neither
    [_validate_selectors] nor [_gen_selector] returns.  The object is left
    as it was in both cases. *)
Theorem wrong_dtype_or_device_is_invalid :
  ∀ (w : World OmniJntImpCntrl.t) (x : IndexTensor),
    ix_dtype x ≠ int64 ∨ ix_device x ≠ _device (obj w) →
    (ix_data x ≠ [] →
       ∃ w1 w2 w3 w4,
         _validate_selectors (Some x) None w = (Ok (INVALID, NONE), w1) ∧ obj w1 = obj w
         ∧ _validate_selectors None (Some x) w = (Ok (NONE, INVALID), w2) ∧ obj w2 = obj w
         ∧ _gen_selector (Some x) None w = (Ok None, w3) ∧ obj w3 = obj w
         ∧ _gen_selector None (Some x) w = (Ok None, w4) ∧ obj w4 = obj w)
    ∧ (ix_data x = [] →
         let error :=
           RuntimeError "min(): Expected reduction dim to be specified for input.numel() == 0" in
         ∃ w1 w2 w3 w4,
           _validate_selectors (Some x) None w = (Raise error, w1) ∧ obj w1 = obj w
           ∧ _validate_selectors None (Some x) w = (Raise error, w2) ∧ obj w2 = obj w
           ∧ _gen_selector (Some x) None w = (Raise error, w3) ∧ obj w3 = obj w
           ∧ _gen_selector None (Some x) w = (Raise error, w4) ∧ obj w4 = obj w).
Proof.
  intros [c tr] x Hbad. cbn [obj] in *. split.
  - intros Hne.
    assert (Hc : ∀ bound, classify (_device c) bound (Some x) = INVALID).
    { intros bound. simpl. rewrite decide_False; [done|].
      intros (_ & Hd & Hv & _). destruct Hbad; done. }
    assert (Hsome : classifiable (Some x)) by (by intros y [= <-]).
    assert (Hnone : classifiable None) by (intros y [=]).
    destruct (runs_validate_selectors c (Some x) None Hsome Hnone tr) as [o1 E1].
    destruct (runs_validate_selectors c None (Some x) Hnone Hsome tr) as [o2 E2].
    destruct (runs_gen_selector c (Some x) None Hsome Hnone tr) as [o3 E3].
    destruct (runs_gen_selector c None (Some x) Hnone Hsome tr) as [o4 E4].
    unfold selector_of in E3, E4. rewrite !Hc in *. simpl in *.
    eexists _, _, _, _. repeat split; try eassumption; reflexivity.
  - intros He.
    assert (Hs : ∀ bound, sanity_checks c x bound = Ok false).
    { intros bound. unfold sanity_checks.
      destruct (length (ix_shape x) =? 1)%nat; [|done]. cbn [negb].
      destruct (dtype_eqb (ix_dtype x) int64) eqn:Ht; [|done]. cbn [negb].
      apply dtype_eqb_eq in Ht.
      destruct (device_eqb (ix_device x) (_device c)) eqn:Hd; [|done].
      apply device_eqb_eq in Hd. by destruct Hbad. }
    unfold _gen_selector, _validate_selectors, bind, get_self, lift, ret, print, emit.
    cbn [obj trace fst snd]. rewrite !Hs, He. cbn.
    eexists _, _, _, _. repeat split; reflexivity.
Qed.

Lemma wrong_dtype_or_device_is_invalid_witness :
  let x := index_tensor cpu int32 [0; 1]%Z in
  ix_data x ≠ []
  ∧ (ix_dtype x ≠ int64 ∨ ix_device x ≠ _device (obj example_cntrl))
  ∧ ∃ w1, _validate_selectors (Some x) None example_cntrl = (Ok (INVALID, NONE), w1)
          ∧ obj w1 = obj example_cntrl.
Proof.
  cbv zeta.
  assert (H1 : ix_data (index_tensor cpu int32 [0; 1]%Z) ≠ []) by done.
  assert (H2 : ix_dtype (index_tensor cpu int32 [0; 1]%Z) ≠ int64
               ∨ ix_device (index_tensor cpu int32 [0; 1]%Z) ≠ _device (obj example_cntrl))
    by (by left).
  split; [exact H1|]. split; [exact H2|].
  destruct (proj1 (wrong_dtype_or_device_is_invalid example_cntrl _ H2) H1)
    as (w1 & _ & _ & _ & E1 & O1 & _).
  exists w1. split; [exact E1 | exact O1].
Defined.

(** [reset()] is idempotent on the object: a second [reset] leaves the
    controller that the first one left. *)
Theorem reset_idempotent :
  ∀ (w w1 : World OmniJntImpCntrl.t),
    reset w = (Ok tt, w1) →
    ∃ w2, reset w1 = (Ok tt, w2) ∧ obj w2 = obj w1.
Proof.
  intros [c tr] w1 H.
  destruct c as [ov ioc gi ri pg vg bw fdt dev nr nd names
                 bpg bvg ber bpr bvr bpe bve bp bv be bie fa pf vf ef].
  crunch H.
  destruct fdt as [dt|]; crunch H.
  - destruct (FirstOrderFilter.__init__ dt bw nr nd dev) as [f|e] eqn:Ef; crunch H; [|done].
    destruct ioc, ov; crunch H; injection H as <-; crunch_goal; rewrite Ef;
      crunch_goal; eexists; split; reflexivity.
  - destruct ioc, ov; crunch H; injection H as <-; crunch_goal;
      eexists; split; reflexivity.
Qed.

Lemma reset_idempotent_witness :
  ∃ w1, reset example_filtered_cntrl = (Ok tt, w1)
        ∧ ∃ w2, reset w1 = (Ok tt, w2) ∧ obj w2 = obj w1.
Proof.
  eexists.
  assert (H : reset example_filtered_cntrl = (Ok tt, _)) by (vm_compute; reflexivity).
  exact (conj H (reset_idempotent _ _ H)).
Defined.

End ControllerProperties.

Section TaskProperties.

Import CustomTask.

Section StateSync.

Variable quat_to_omega : Matrix → Matrix → Q → Matrix.
Variable views : gmap string Readback.
Variable dt : Q.
Variable reset : bool.

Lemma runs_getitem {V} (d : gmap string V) key v (c : CustomTask.t) :
  d !! key = Some v → runs (getitem d key) c v c.
Proof. intros H. unfold getitem. rewrite H. apply runs_ret. Qed.

Lemma runs_inplace read write key src buf (c : CustomTask.t) :
  read c !! key = Some buf →
  runs (inplace read write key src) c tt
       (write (<[key := slice_assign buf (mat_at src)]> (read c)) c).
Proof.
  intros H. unfold inplace. step.
  eapply runs_bind; [by apply runs_getitem|]. apply runs_modify.
Qed.

Lemma runs_inplace_zero read write key buf (c : CustomTask.t) :
  read c !! key = Some buf →
  runs (inplace_zero read write key) c tt (write (<[key := zero_ buf]> (read c)) c).
Proof.
  intros H. unfold inplace_zero. step.
  eapply runs_bind; [by apply runs_getitem|]. apply runs_modify.
Qed.

Ltac run :=
  lazymatch goal with
  | |- runs (bind _ _) _ _ _ => eapply runs_bind; [run | cbv beta; run]
  | |- runs get_self _ _ _ => apply runs_get_self
  | |- runs (ret _) _ _ _ => apply runs_ret
  | |- runs (getitem _ _) _ _ _ =>
      eapply runs_getitem; simpl; rewrite ?lookup_insert_eq;
      first [eassumption | reflexivity]
  | |- runs (inplace _ _ _ _) _ _ _ =>
      eapply runs_inplace; simpl; rewrite ?lookup_insert_eq;
      first [eassumption | reflexivity]
  | |- runs (inplace_zero _ _ _) _ _ _ =>
      eapply runs_inplace_zero; simpl; rewrite ?lookup_insert_eq;
      first [eassumption | reflexivity]
  end.

(** The body of the loop, on a robot whose tensors and view exist. *)
Lemma runs_get_robot_state c name b rb :
  buffers_of c name b → views !! name = Some rb →
  runs (get_robot_state quat_to_omega views (Some dt) reset name) c tt
       (store name (tick quat_to_omega dt reset rb b) c).
Proof.
  intros (Hp & Hq & Hjq & Hv & Hom & Hjv & Hpp & Hqp & Hjqp) Hrb.
  destruct c as [names rp rq jq rv ro jv rpp rqp jqp]. simpl in *.
  assert (∃ c', runs (get_robot_state quat_to_omega views (Some dt) reset name)
                     (CustomTask.mk names rp rq jq rv ro jv rpp rqp jqp) tt c'
                ∧ c' = store name (tick quat_to_omega dt reset rb b)
                         (CustomTask.mk names rp rq jq rv ro jv rpp rqp jqp))
    as (c' & Hrun & ->); [|done].
  unfold get_robot_state.
  destruct reset; simpl; (eexists; split; [run|]);
    unfold store, tick; simpl; rewrite ?insert_insert_eq; reflexivity.
Qed.

Lemma buffers_of_store_eq c name b : buffers_of (store name b c) name b.
Proof. unfold buffers_of, store. simpl. by rewrite !lookup_insert_eq. Qed.

Lemma buffers_of_store_ne c name name' b b' :
  name ≠ name' → buffers_of (store name b c) name' b' ↔ buffers_of c name' b'.
Proof. intros Hne. unfold buffers_of, store. simpl. by rewrite !lookup_insert_ne. Qed.

Lemma buffers_of_inj c name b b' :
  buffers_of c name b → buffers_of c name b' → b = b'.
Proof.
  destruct b, b'. unfold buffers_of. simpl.
  intros (? & ? & ? & ? & ? & ? & ? & ? & ?) (? & ? & ? & ? & ? & ? & ? & ? & ?).
  f_equal; congruence.
Qed.

(** The loop: every listed robot is advanced by one [tick], the tensors of
    the other robots stay as they are. *)
Lemma runs_for_each_robot names :
  NoDup names →
  ∀ c,
    (∀ name, name ∈ names → ∃ b rb, buffers_of c name b ∧ views !! name = Some rb) →
    ∃ c',
      runs (for_each names (get_robot_state quat_to_omega views (Some dt) reset)) c tt c'
      ∧ robot_names c' = robot_names c
      ∧ (∀ name b rb, name ∈ names → buffers_of c name b → views !! name = Some rb →
           buffers_of c' name (tick quat_to_omega dt reset rb b))
      ∧ (∀ name b, name ∉ names → buffers_of c name b → buffers_of c' name b).
Proof.
  induction 1 as [|name names Hnotin Hnd IH]; intros c Hall; simpl.
  - exists c. split; [apply runs_ret|]. split; [done|]. split; [|done].
    intros name b rb Hin. by apply elem_of_nil in Hin.
  - destruct (Hall name) as (b & rb & Hb & Hrb); [left|].
    pose proof (runs_get_robot_state c name b rb Hb Hrb) as Hstep.
    set (c1 := store name (tick quat_to_omega dt reset rb b) c) in *.
    destruct (IH c1) as (c' & Hrun & Hnames & Hin & Hout).
    { intros n' Hn'. destruct (Hall n') as (b' & rb' & Hb' & Hrb'); [by right|].
      exists b', rb'. split; [|done].
      apply buffers_of_store_ne; [|done]. intros ->. done. }
    exists c'. split; [eapply runs_bind; [exact Hstep | exact Hrun]|].
    split; [by rewrite Hnames|]. split.
    + intros n' b' rb' Hn' Hb' Hrb'. apply elem_of_cons in Hn' as [->|Hn'].
      * rewrite (buffers_of_inj c name b' b Hb' Hb).
        assert (rb' = rb) as -> by congruence.
        apply Hout; [done|]. apply buffers_of_store_eq.
      * apply Hin; [done | | done].
        apply buffers_of_store_ne; [|done]. intros ->. done.
    + intros n' b' Hn' Hb'. apply not_elem_of_cons in Hn' as [Hne Hn'].
      apply Hout; [done|]. apply buffers_of_store_ne; [|done]. congruence.
Qed.

(** What one [tick] leaves, on tensors and a readback of the right shapes. *)
Lemma tick_shaped envs dofs rb b :
  robot_shaped envs dofs b →
  robot_shaped envs dofs (tick quat_to_omega dt reset rb b).
Proof.
  intros (Hp & Hq & Hjq & Hv & Hom & Hjv & Hpp & Hqp & Hjqp).
  unfold tick, robot_shaped, zero_. simpl.
  destruct reset;
    repeat (match goal with |- _ ∧ _ => split end); by apply slice_assign_shape.
Qed.

Lemma tick_state envs dofs rb b :
  robot_shaped envs dofs b → readback_shaped envs dofs rb →
  let b' := tick quat_to_omega dt reset rb b in
  b_root_p b' = (get_world_poses rb).1
  ∧ b_root_q b' = (get_world_poses rb).2
  ∧ b_jnts_q b' = get_joint_positions rb
  ∧ b_root_p_prev b' = (get_world_poses rb).1
  ∧ b_root_q_prev b' = (get_world_poses rb).2
  ∧ b_jnts_q_prev b' = get_joint_positions rb.
Proof.
  intros (Hp & Hq & Hjq & Hv & Hom & Hjv & Hpp & Hqp & Hjqp) (Hrp & Hrq & Hrjq).
  unfold tick. simpl.
  rewrite (slice_assign_same_shape envs 3 (b_root_p b)) by done.
  rewrite (slice_assign_same_shape envs 4 (b_root_q b)) by done.
  rewrite (slice_assign_same_shape envs dofs (b_jnts_q b)) by done.
  rewrite (slice_assign_same_shape envs 3 (b_root_p_prev b)) by done.
  rewrite (slice_assign_same_shape envs 4 (b_root_q_prev b)) by done.
  rewrite (slice_assign_same_shape envs dofs (b_jnts_q_prev b)) by done.
  done.
Qed.

End StateSync.

Lemma zero__zeros rows cols m : has_shape rows cols m → zero_ m = torch.zeros rows cols.
Proof.
  intros Hm. apply has_shape_ext with rows cols.
  - by apply slice_assign_shape.
  - apply full_shape.
  - intros i j Hi Hj. unfold zero_.
    rewrite (mat_at_slice_assign rows cols) by done.
    unfold torch.zeros. by rewrite mat_at_full.
Qed.

Lemma tick_reset quat_to_omega dt envs dofs rb b :
  robot_shaped envs dofs b →
  let b' := tick quat_to_omega dt true rb b in
  b_root_v b' = torch.zeros envs 3
  ∧ b_root_omega b' = torch.zeros envs 3
  ∧ b_jnts_v b' = torch.zeros envs dofs.
Proof.
  intros (Hp & Hq & Hjq & Hv & Hom & Hjv & Hpp & Hqp & Hjqp). simpl.
  by rewrite (zero__zeros envs 3), (zero__zeros envs 3), (zero__zeros envs dofs).
Qed.

Lemma mat_at_difference rows cols x x_prev dt i j :
  has_shape rows cols x → has_shape rows cols x_prev → i < rows → j < cols →
  mat_at (torch.div_scalar (torch.sub x x_prev) dt) i j
  = ((mat_at x i j - mat_at x_prev i j) / dt)%Q.
Proof.
  intros Hx Hp Hi Hj. unfold torch.div_scalar, torch.sub.
  rewrite (mat_at_map_map _ rows cols); [| by apply zip_with_shape | done | done].
  by rewrite (mat_at_zip_with _ rows cols).
Qed.

Lemma tick_differentiate quat_to_omega dt envs dofs rb b :
  robot_shaped envs dofs b → readback_shaped envs dofs rb →
  has_shape envs 3 (quat_to_omega (get_world_poses rb).2 (b_root_q_prev b) dt) →
  let b' := tick quat_to_omega dt false rb b in
  has_shape envs 3 (b_root_v b')
  ∧ (∀ i j, i < envs → j < 3 →
       mat_at (b_root_v b') i j
       = ((mat_at (get_world_poses rb).1 i j - mat_at (b_root_p_prev b) i j) / dt)%Q)
  ∧ b_root_omega b' = quat_to_omega (get_world_poses rb).2 (b_root_q_prev b) dt
  ∧ has_shape envs dofs (b_jnts_v b')
  ∧ (∀ i j, i < envs → j < dofs →
       mat_at (b_jnts_v b') i j
       = ((mat_at (get_joint_positions rb) i j - mat_at (b_jnts_q_prev b) i j) / dt)%Q).
Proof.
  intros (Hp & Hq & Hjq & Hv & Hom & Hjv & Hpp & Hqp & Hjqp) (Hrp & Hrq & Hrjq) Hw.
  simpl.
  rewrite (slice_assign_same_shape envs 3 (b_root_p b)) by done.
  rewrite (slice_assign_same_shape envs 4 (b_root_q b)) by done.
  rewrite (slice_assign_same_shape envs dofs (b_jnts_q b)) by done.
  split; [by apply slice_assign_shape|]. split.
  { intros i j Hi Hj. rewrite (mat_at_slice_assign envs 3) by done.
    by apply mat_at_difference with envs 3. }
  split; [by apply slice_assign_same_shape with envs 3|].
  split; [by apply slice_assign_shape|].
  intros i j Hi Hj. rewrite (mat_at_slice_assign envs dofs) by done.
  by apply mat_at_difference with envs dofs.
Qed.

(** Claim C8.  In differentiated mode ([dt] given and not zero), with every
    robot listed once and whatever the buffers held before: after a reset tick the root linear velocity, the root
    angular velocity and the joint velocities of every robot are zero and
    the three [_prev] buffers hold the state just read; after the tick that
    follows, root linear velocity and joint velocity are, cell by cell,
    [(x_t - x_prev) / dt] with [x_prev] the state read at the reset tick, and
    the angular velocity is [quat_to_omega] of the orientation just read and
    the orientation read at the reset tick. *)
Theorem differentiated_velocity_across_reset :
  ∀ (quat_to_omega : Matrix → Matrix → Q → Matrix)
    (views0 views1 : gmap string Readback) (dt : Q)
    (envs : nat) (dofs : string → nat) (w : World CustomTask.t),
    NoDup (robot_names (obj w)) →
    task_shaped envs dofs (obj w) →
    views_shaped envs dofs (robot_names (obj w)) views0 →
    views_shaped envs dofs (robot_names (obj w)) views1 →
    (∀ q q_prev, has_shape envs 4 q → has_shape envs 4 q_prev →
                 has_shape envs 3 (quat_to_omega q q_prev dt)) →
    ¬ (dt == 0)%Q →
    ∃ w1 w2,
      _get_robots_state quat_to_omega views0 (Some dt) true w = (Ok tt, w1)
      ∧ _get_robots_state quat_to_omega views1 (Some dt) false w1 = (Ok tt, w2)
      ∧ ∀ name rb0 rb1,
          name ∈ robot_names (obj w) →
          views0 !! name = Some rb0 → views1 !! name = Some rb1 →
          (* the reset tick *)
          root_v (obj w1) !! name = Some (torch.zeros envs 3)
          ∧ root_omega (obj w1) !! name = Some (torch.zeros envs 3)
          ∧ jnts_v (obj w1) !! name = Some (torch.zeros envs (dofs name))
          ∧ root_p_prev (obj w1) !! name = Some (get_world_poses rb0).1
          ∧ root_q_prev (obj w1) !! name = Some (get_world_poses rb0).2
          ∧ jnts_q_prev (obj w1) !! name = Some (get_joint_positions rb0)
          (* the tick after it *)
          ∧ (∃ v, root_v (obj w2) !! name = Some v ∧ has_shape envs 3 v
                  ∧ ∀ i j, i < envs → j < 3 →
                      mat_at v i j
                      = ((mat_at (get_world_poses rb1).1 i j
                          - mat_at (get_world_poses rb0).1 i j) / dt)%Q)
          ∧ root_omega (obj w2) !! name
            = Some (quat_to_omega (get_world_poses rb1).2 (get_world_poses rb0).2 dt)
          ∧ (∃ v, jnts_v (obj w2) !! name = Some v ∧ has_shape envs (dofs name) v
                  ∧ ∀ i j, i < envs → j < dofs name →
                      mat_at v i j
                      = ((mat_at (get_joint_positions rb1) i j
                          - mat_at (get_joint_positions rb0) i j) / dt)%Q).
Proof.
  intros q2o views0 views1 dt envs dofs [c tr] Hnd Hc Hv0 Hv1 Hq2o _. simpl in *.
  destruct (runs_for_each_robot q2o views0 dt true (robot_names c) Hnd c)
    as (c1 & Hrun1 & Hnames1 & Hin1 & _).
  { intros name Hn. destruct (Hc name Hn) as (b & Hb & _).
    destruct (Hv0 name Hn) as (rb & Hrb & _). eauto. }
  assert (Hnd1 : NoDup (robot_names c1)) by by rewrite Hnames1.
  destruct (runs_for_each_robot q2o views1 dt false (robot_names c1) Hnd1 c1)
    as (c2 & Hrun2 & Hnames2 & Hin2 & _).
  { intros name Hn. rewrite Hnames1 in Hn.
    destruct (Hc name Hn) as (b & Hb & _).
    destruct (Hv0 name Hn) as (rb0 & Hrb0 & _).
    destruct (Hv1 name Hn) as (rb1 & Hrb1 & _).
    exists (tick q2o dt true rb0 b), rb1. split; [by apply Hin1|done]. }
  destruct (Hrun1 tr) as [out1 E1].
  destruct (Hrun2 (tr ++ out1)%list) as [out2 E2].
  exists (mkWorld c1 (tr ++ out1)%list), (mkWorld c2 ((tr ++ out1) ++ out2)%list).
  split; [exact E1|]. split; [exact E2|]. simpl.
  intros name rb0 rb1 Hn Hrb0 Hrb1.
  destruct (Hc name Hn) as (b & Hb & Hbs).
  destruct (Hv0 name Hn) as (rb0' & Hrb0' & Hrs0).
  destruct (Hv1 name Hn) as (rb1' & Hrb1' & Hrs1).
  assert (rb0' = rb0) as -> by congruence.
  assert (rb1' = rb1) as -> by congruence.
  pose proof (Hin1 name b rb0 Hn Hb Hrb0) as Hb1.
  assert (Hn1 : name ∈ robot_names c1) by by rewrite Hnames1.
  pose proof (Hin2 name _ rb1 Hn1 Hb1 Hrb1) as Hb2.
  pose proof (tick_shaped q2o dt true envs (dofs name) rb0 b Hbs) as Hbs1.
  destruct (tick_reset q2o dt envs (dofs name) rb0 b Hbs) as (Z1 & Z2 & Z3).
  destruct (tick_state q2o dt true envs (dofs name) rb0 b Hbs Hrs0)
    as (_ & _ & _ & P1 & P2 & P3).
  destruct (tick_differentiate q2o dt envs (dofs name) rb1 _ Hbs1 Hrs1)
    as (S1 & D1 & D2 & S3 & D3).
  { apply Hq2o; [apply Hrs1 | apply Hbs1]. }
  rewrite P1, P2, P3 in *.
  destruct Hb1 as (_ & _ & _ & L4 & L5 & L6 & L7 & L8 & L9).
  destruct Hb2 as (_ & _ & _ & M4 & M5 & M6 & _).
  rewrite L4, L5, L6, L7, L8, L9, Z1, Z2, Z3, P1, P2, P3.
  repeat (split; [reflexivity|]).
  split; [eauto|]. split; [by rewrite M5, D2|]. eauto.
Qed.

Lemma example_task_shaped : task_shaped 1 (λ _, 2) (obj example_task).
Proof.
  intros name Hn. apply list_elem_of_singleton in Hn as ->.
  exists (mkBuffers [[1; 2; 3]]%Q [[1; 0; 0; 0]]%Q [[5; 5]]%Q
                    [[9; 9; 9]]%Q [[9; 9; 9]]%Q [[9; 9]]%Q
                    [[7; 7; 7]]%Q [[7; 7; 7; 7]]%Q [[7; 7]]%Q).
  split.
  - unfold buffers_of. simpl. rewrite !lookup_singleton_eq. done.
  - unfold robot_shaped. simpl. repeat constructor.
Qed.

Lemma example_views_shaped :
  views_shaped 1 (λ _, 2) ["r"] example_views0
  ∧ views_shaped 1 (λ _, 2) ["r"] example_views1.
Proof.
  split; intros name Hn; apply list_elem_of_singleton in Hn as ->;
    eexists; (split; [apply lookup_singleton_eq|]);
    unfold readback_shaped; simpl; repeat constructor.
Qed.

Lemma differentiated_velocity_across_reset_witness :
  NoDup (robot_names (obj example_task))
  ∧ ¬ (0.5 == 0)%Q
  ∧ ∃ w1 w2,
      _get_robots_state example_quat_to_omega example_views0 (Some 0.5%Q) true example_task
      = (Ok tt, w1)
      ∧ _get_robots_state example_quat_to_omega example_views1 (Some 0.5%Q) false w1
        = (Ok tt, w2)
      ∧ root_v (obj w1) !! "r" = Some (torch.zeros 1 3)
      ∧ jnts_q_prev (obj w1) !! "r" = Some [[2; 2]]%Q
      ∧ ∃ v, jnts_v (obj w2) !! "r" = Some v
             ∧ ∀ i j, i < 1 → j < 2 →
                 mat_at v i j = ((mat_at [[3; 5]]%Q i j - mat_at [[2; 2]]%Q i j) / 0.5)%Q.
Proof.
  assert (H1 : NoDup (robot_names (obj example_task))).
  { simpl. apply NoDup_singleton. }
  assert (H2 : ¬ (0.5 == 0)%Q) by done.
  assert (H3 : ∀ q q_prev, has_shape 1 4 q → has_shape 1 4 q_prev →
                 has_shape 1 3 (example_quat_to_omega q q_prev 0.5)).
  { intros q q_prev [Hl _] _. unfold example_quat_to_omega. rewrite Hl. apply full_shape. }
  split; [exact H1|]. split; [exact H2|].
  destruct (differentiated_velocity_across_reset example_quat_to_omega
              example_views0 example_views1 0.5 1 (λ _, 2) example_task
              H1 example_task_shaped (proj1 example_views_shaped)
              (proj2 example_views_shaped) H3 H2) as (w1 & w2 & E1 & E2 & Hall).
  exists w1, w2. split; [exact E1|]. split; [exact E2|].
  assert (Hin : "r" ∈ robot_names (obj example_task)) by (simpl; apply list_elem_of_singleton; done).
  assert (L0 : example_views0 !! "r"
               = Some (mkReadback ([[1; 1; 1]]%Q, [[1; 0; 0; 0]]%Q) [[2; 2]]%Q [] [] []))
    by apply lookup_singleton_eq.
  assert (L1 : example_views1 !! "r"
               = Some (mkReadback ([[2; 3; 4]]%Q, [[0; 1; 0; 0]]%Q) [[3; 5]]%Q [] [] []))
    by apply lookup_singleton_eq.
  destruct (Hall "r" _ _ Hin L0 L1)
    as (Z1 & _ & _ & _ & _ & P3 & _ & _ & (v & Hv & _ & Hd)).
  split; [exact Z1|]. split; [exact P3|]. exists v. split; [exact Hv|]. exact Hd.
Defined.

End TaskProperties.

(** ** Homing *)

Section Homing.

Import OmniRobotHomer.

Implicit Types (c : OmniRobotHomer.t) (names : list string).

Lemma runs_idx_loop k : ∀ a c,
  (a + k ≤ length (jnts_names c))%nat →
  runs (for_each (seq a k) (λ joint,
          self ← get_self;
          match jnts_names self !! joint with
          | Some name => modify (set_joint_idx_map (<[name := joint]> (joint_idx_map self)))
          | None => raise (IndexError "list index out of range")
          end)) c tt
       (set_joint_idx_map (foldl (idx_step (jnts_names c)) (joint_idx_map c) (seq a k)) c).
Proof.
  induction k as [|k IH]; intros a c Hlen.
  - simpl. destruct c. apply runs_ret.
  - destruct (lookup_lt_is_Some_2 (jnts_names c) a) as [name Hname]; [lia|].
    assert (Hstep : idx_step (jnts_names c) (joint_idx_map c) a
                    = <[name := a]> (joint_idx_map c)).
    { unfold idx_step. by rewrite Hname. }
    cbn [seq for_each foldl]. rewrite Hstep.
    eapply runs_bind.
    { eapply runs_bind; [apply runs_get_self|]. cbv beta. rewrite Hname.
      apply runs_modify. }
    cbv beta.
    specialize (IH (S a) (set_joint_idx_map (<[name := a]> (joint_idx_map c)) c)).
    destruct c. simpl in *. apply IH. lia.
Qed.

Lemma idx_loop_lookup names : NoDup names →
  ∀ k a (m : gmap string nat) name,
    (a + k ≤ length names)%nat →
    foldl (idx_step names) m (seq a k) !! name
    = match list_find (λ i, names !! i = Some name) (seq a k) with
      | Some (_, i) => Some i
      | None => m !! name
      end.
Proof.
  intros Hnd. induction k as [|k IH]; intros a m name Hlen; [done|].
  destruct (lookup_lt_is_Some_2 names a) as [na Hna]; [lia|].
  assert (Hstep : idx_step names m a = <[na := a]> m).
  { unfold idx_step. by rewrite Hna. }
  cbn [seq foldl list_find]. rewrite Hstep.
  rewrite IH by lia.
  destruct (decide (names !! a = Some name)) as [Ha|Ha].
  - assert (na = name) as -> by congruence.
    destruct (list_find _ (seq (S a) k)) as [[p i]|] eqn:Hf; simpl.
    + apply list_find_Some in Hf as (Hp & Hi & _).
      apply lookup_seq in Hp as [-> _].
      pose proof (NoDup_lookup names _ _ _ Hnd Hi Hna). lia.
    + by rewrite lookup_insert_eq.
  - destruct (list_find _ (seq (S a) k)) as [[p i]|] eqn:Hf; simpl; [done|].
    rewrite lookup_insert_ne; [done|]. congruence.
Qed.

(** With distinct joint names the map is the inverse of the list. *)
Lemma idx_map_Some names name i :
  NoDup names → names !! i = Some name →
  foldl (idx_step names) ∅ (seq 0 (length names)) !! name = Some i.
Proof.
  intros Hnd Hi. rewrite idx_loop_lookup by (done || lia).
  destruct (list_find _ (seq 0 (length names))) as [[p i']|] eqn:Hf.
  - apply list_find_Some in Hf as (_ & Hi' & _).
    by rewrite (NoDup_lookup names _ _ _ Hnd Hi' Hi).
  - exfalso. apply list_find_None in Hf. rewrite Forall_forall in Hf.
    apply (Hf i); [|done]. apply elem_of_seq.
    apply lookup_lt_Some in Hi. lia.
Qed.

Lemma idx_map_inv names name i :
  NoDup names →
  foldl (idx_step names) ∅ (seq 0 (length names)) !! name = Some i →
  names !! i = Some name.
Proof.
  intros Hnd. rewrite idx_loop_lookup by (done || lia).
  destruct (list_find _ (seq 0 (length names))) as [[p i']|] eqn:Hf; [|done].
  apply list_find_Some in Hf as (_ & Hi' & _). by intros [= <-].
Qed.

(** The dictionary built from the joint elements of the document. *)
Lemma dict_setitem_fresh {V} (k : string) (v : V) (d : list (string * V)) :
  k ∉ d.*1 → dict_setitem k v d = (d ++ [(k, v)])%list.
Proof.
  induction d as [|[k' v'] d IH]; intros Hk; simpl; [done|].
  apply not_elem_of_cons in Hk as [Hne Hk]. simpl in Hne.
  destruct (String.eqb k k') eqn:E.
  - apply String.eqb_eq in E. done.
  - by rewrite IH.
Qed.

Lemma dict_getitem_elem {V} (k : string) (v : V) (d : list (string * V)) :
  NoDup d.*1 → (k, v) ∈ d → dict_getitem k d = Ok v.
Proof.
  induction d as [|[k' v'] d IH]; intros Hnd Hin; simpl.
  - by apply elem_of_nil in Hin.
  - apply NoDup_cons in Hnd as [Hk' Hnd].
    apply elem_of_cons in Hin as [[= <- <-]|Hin].
    + by rewrite String.eqb_refl.
    + destruct (String.eqb k k') eqn:E; [|by apply IH].
      apply String.eqb_eq in E. subst k'. exfalso. apply Hk'.
      apply list_elem_of_fmap. by exists (k, v).
Qed.

Lemma runs_homing_map_loop joints : ∀ c,
  NoDup ((_homing_map c ++ joints)%list).*1 →
  runs (for_each joints (λ joint,
          self ← get_self;
          modify (set_homing_map (dict_setitem joint.1 joint.2 (_homing_map self)))))
       c tt (set_homing_map (_homing_map c ++ joints)%list c).
Proof.
  induction joints as [|[k v] joints IH]; intros c Hnd; simpl.
  - rewrite app_nil_r. destruct c. apply runs_ret.
  - eapply runs_bind.
    { eapply runs_bind; [apply runs_get_self|]. apply runs_modify. }
    cbv beta. simpl.
    rewrite dict_setitem_fresh.
    2: { rewrite fmap_app in Hnd. apply NoDup_app in Hnd as (_ & Hdis & _).
         intros Hin. apply (Hdis k Hin). simpl. left. }
    specialize (IH (set_homing_map (_homing_map c ++ [(k, v)])%list c)).
    destruct c. simpl in *. rewrite <- app_assoc in IH. simpl in IH.
    apply IH. done.
Qed.

Lemma runs_assign_loop keys : ∀ c,
  (∀ k, k ∈ keys → is_Some (joint_idx_map c !! k)
                   ∧ ∃ v, dict_getitem k (_homing_map c) = Ok v) →
  runs (for_each keys (λ joint,
          self ← get_self;
          match joint_idx_map self !! joint with
          | Some idx =>
              value ← lift (dict_getitem joint (_homing_map self));
              modify (set_homing (set_column (_homing self) idx value))
          | None =>
              _ ← getattr "journal" (journal self);
              print ": joint is not present in the articulation. It will be ignored."
          end)) c tt
       (set_homing (foldl (homing_step c) (_homing c) keys) c).
Proof.
  induction keys as [|k keys IH]; intros c Hall.
  - simpl. destruct c. apply runs_ret.
  - destruct (Hall k) as ([idx Hidx] & v & Hv); [left|].
    assert (Hstep : homing_step c (_homing c) k = set_column (_homing c) idx v).
    { unfold homing_step. by rewrite Hidx, Hv. }
    cbn [for_each foldl]. rewrite Hstep.
    eapply runs_bind.
    { eapply runs_bind; [apply runs_get_self|]. cbv beta. rewrite Hidx, Hv.
      eapply runs_bind; [apply runs_lift|]. apply runs_modify. }
    cbv beta.
    specialize (IH (set_homing (set_column (_homing c) idx v) c)).
    destruct c. simpl in *. apply IH.
    intros k' Hk'. apply Hall. by right.
Qed.

Lemma cell_set_column_eq (m : Matrix) (r col : nat) (v : Q) :
  is_Some (cell m r col) → cell (set_column m col v) r col = Some v.
Proof.
  unfold cell, set_column. intros [x Hx].
  change (map (λ row, <[col:=v]> row) m) with ((λ row : list Q, <[col:=v]> row) <$> m).
  rewrite list_lookup_fmap.
  destruct (m !! r) as [row|]; [|done]. simpl in *.
  apply list_lookup_insert_eq. by eapply lookup_lt_Some.
Qed.

Lemma cell_set_column_ne (m : Matrix) (r col col' : nat) (v : Q) :
  col' ≠ col → cell (set_column m col v) r col' = cell m r col'.
Proof.
  unfold cell, set_column. intros Hne.
  change (map (λ row, <[col:=v]> row) m) with ((λ row : list Q, <[col:=v]> row) <$> m).
  rewrite list_lookup_fmap.
  destruct (m !! r) as [row|]; [|done]. simpl.
  by apply list_lookup_insert_ne.
Qed.

Lemma set_column_shape rows cols (m : Matrix) (col : nat) (v : Q) :
  has_shape rows cols m → has_shape rows cols (set_column m col v).
Proof.
  intros [Hlen Hrows]. unfold set_column. split.
  - by rewrite length_map.
  - rewrite Forall_forall. intros row Hrow.
    apply list_elem_of_In, in_map_iff in Hrow as (row' & <- & Hin).
    rewrite length_insert. rewrite Forall_forall in Hrows. apply Hrows.
    by apply list_elem_of_In.
Qed.

Lemma homing_step_shape rows cols c h k :
  has_shape rows cols h → has_shape rows cols (homing_step c h k).
Proof.
  intros Hh. unfold homing_step.
  destruct (joint_idx_map c !! k); [|done].
  destruct (dict_getitem k (_homing_map c)); [|done].
  by apply set_column_shape.
Qed.

(** The cells of the buffer left by the loop of [_assign2homing]. *)
Lemma homing_cells c names keys h rows cols row col name :
  NoDup names → NoDup (_homing_map c).*1 →
  (∀ k i, joint_idx_map c !! k = Some i ↔ names !! i = Some k) →
  keys = dict_keys (_homing_map c) →
  has_shape rows cols h → row < rows → col < cols →
  names !! col = Some name →
  (∀ v, (name, v) ∈ _homing_map c →
        cell (foldl (homing_step c) h keys) row col = Some v)
  ∧ (name ∉ keys → cell (foldl (homing_step c) h keys) row col = cell h row col).
Proof.
  intros Hnd Hndk Hmap -> Hh Hrow Hcol Hname.
  assert (Hmiss : ∀ m' k, k ≠ name →
            cell (homing_step c m' k) row col = cell m' row col).
  { intros m' k Hne. unfold homing_step.
    destruct (joint_idx_map c !! k) as [i|] eqn:Hi; [|done].
    destruct (dict_getitem k (_homing_map c)); [|done].
    apply cell_set_column_ne. intros ->.
    apply Hmap in Hi. congruence. }
  split.
  - intros v Hv.
    apply (fold_cell_hit _ (λ k : string, bool_decide (k = name))).
    + intros m' k _ Hk. apply bool_decide_eq_false in Hk. by apply Hmiss.
    + intros m' k _ Hk Hsome. apply bool_decide_eq_true in Hk. subst k.
      unfold homing_step.
      rewrite (proj2 (Hmap name col) Hname).
      rewrite (dict_getitem_elem name v _ Hndk Hv).
      by apply cell_set_column_eq.
    + by eapply cell_is_Some.
    + right. exists name. split; [|by apply bool_decide_eq_true].
      unfold dict_keys. apply list_elem_of_In, in_map_iff.
      exists (name, v). split; [done|]. by apply list_elem_of_In.
  - intros Hout. apply fold_cell_frame.
    intros m' k Hk. apply Hmiss. intros ->. done.
Qed.

End Homing.

(** Homing of a document whose joints all belong to the articulation (joint
    names distinct on both sides): the constructor returns, and at every
    robot row the column of a joint holds the value the document gives it,
    or 0 when the document does not name it. *)
Theorem homing_of_known_joints :
  ∀ (art : ArticulationView.t) (joints : list (string * Q)),
    ArticulationView.initialized art = true →
    length (ArticulationView.dof_names art) = ArticulationView.num_dof art →
    NoDup (ArticulationView.dof_names art) →
    NoDup joints.*1 →
    (∀ name, name ∈ joints.*1 → name ∈ ArticulationView.dof_names art) →
    ∃ w,
      OmniRobotHomer.new art (Some joints) "torch" = (Ok tt, w)
      ∧ has_shape (ArticulationView.count art) (ArticulationView.num_dof art)
                  (OmniRobotHomer.get_homing (obj w))
      ∧ ∀ row col name,
          row < ArticulationView.count art →
          ArticulationView.dof_names art !! col = Some name →
          (∀ v, (name, v) ∈ joints →
                mat_at (OmniRobotHomer.get_homing (obj w)) row col = v)
          ∧ (name ∉ joints.*1 →
             mat_at (OmniRobotHomer.get_homing (obj w)) row col = 0%Q).
Proof.
  intros [ini cnt n names] joints Hini Hlen Hnd Hndj Hknown. simpl in *. subst ini.
  set (M := foldl (idx_step names) ∅ (seq 0 n)).
  set (c4 := OmniRobotHomer.mk cnt n names M (torch.full cnt n 0) joints).
  set (H5 := foldl (homing_step c4) (torch.full cnt n 0) (dict_keys joints)).
  assert (HM : ∀ k i, M !! k = Some i ↔ names !! i = Some k).
  { intros k i. subst M. rewrite <- Hlen. split.
    - by apply idx_map_inv.
    - by apply idx_map_Some. }
  assert (Hrun : runs (OmniRobotHomer.__init__
                         (ArticulationView.mk true cnt n names) (Some joints) "torch")
                      OmniRobotHomer.blank tt
                      (OmniRobotHomer.mk cnt n names M H5 joints)).
  { unfold OmniRobotHomer.__init__. simpl.
    eapply runs_bind; [apply runs_modify|]. cbv beta.
    eapply runs_bind; [apply runs_get_self|]. cbv beta. simpl.
    eapply runs_bind.
    { apply (runs_idx_loop n 0). simpl. lia. }
    cbv beta. simpl. fold M.
    eapply runs_bind; [apply runs_ret|]. cbv beta.
    eapply runs_bind; [apply runs_modify|]. cbv beta. simpl.
    eapply runs_bind; [apply runs_ret|]. cbv beta.
    eapply runs_bind; [apply runs_modify|]. cbv beta. simpl.
    eapply runs_bind.
    { apply (runs_homing_map_loop joints). simpl. done. }
    cbv beta. simpl.
    unfold OmniRobotHomer._assign2homing.
    eapply runs_bind; [apply runs_get_self|]. cbv beta. simpl.
    apply (runs_assign_loop (dict_keys joints) c4).
    intros k Hk. subst c4. simpl. unfold dict_keys in Hk.
    change (map fst joints) with (joints.*1) in Hk.
    split.
    - apply Hknown in Hk. apply list_elem_of_lookup_1 in Hk as [i Hi].
      exists i. by apply HM.
    - apply list_elem_of_fmap in Hk as ([k' v] & -> & Hin). exists v.
      by apply dict_getitem_elem. }
  destruct (Hrun []) as [out E].
  eexists. split; [exact E|]. simpl. unfold OmniRobotHomer.get_homing. simpl.
  assert (Hshape : has_shape cnt n H5).
  { subst H5. apply fold_shape; [|apply full_shape].
    intros m' x. apply homing_step_shape. }
  split; [done|].
  intros row col name Hrow Hcol.
  assert (Hcoln : col < n).
  { rewrite <- Hlen. by eapply lookup_lt_Some. }
  destruct (homing_cells c4 names (dict_keys joints) (torch.full cnt n 0) cnt n
              row col name Hnd Hndj HM eq_refl (full_shape cnt n 0) Hrow Hcoln Hcol)
    as [Hhit Hframe].
  fold H5 in Hhit, Hframe. split.
  - intros v Hv. rewrite mat_at_cell. by rewrite (Hhit v Hv).
  - intros Hout. rewrite mat_at_cell. rewrite Hframe; [|done].
    rewrite <- mat_at_cell. by apply mat_at_full.
Qed.

Lemma homing_of_known_joints_witness :
  let joints := [("hip", 0.3); ("knee", -0.6)]%Q in
  NoDup (ArticulationView.dof_names example_articulation)
  ∧ NoDup joints.*1
  ∧ ∃ w,
      OmniRobotHomer.new example_articulation (Some joints) "torch" = (Ok tt, w)
      ∧ mat_at (OmniRobotHomer.get_homing (obj w)) 1 0 = 0.3%Q
      ∧ mat_at (OmniRobotHomer.get_homing (obj w)) 1 2 = 0%Q.
Proof.
  cbv zeta.
  assert (H1 : NoDup (ArticulationView.dof_names example_articulation)).
  { simpl. repeat (apply NoDup_cons_2; [not_in_list|]). apply NoDup_nil_2. }
  assert (H2 : NoDup ([("hip", 0.3); ("knee", -0.6)]%Q).*1).
  { simpl. repeat (apply NoDup_cons_2; [not_in_list|]). apply NoDup_nil_2. }
  assert (H3 : ∀ name, name ∈ ([("hip", 0.3); ("knee", -0.6)]%Q).*1 →
                 name ∈ ArticulationView.dof_names example_articulation).
  { intros name Hn. simpl in *.
    repeat (apply elem_of_cons in Hn as [->|Hn]; [repeat constructor|]).
    by apply elem_of_nil in Hn. }
  split; [exact H1|]. split; [exact H2|].
  destruct (homing_of_known_joints example_articulation _ eq_refl eq_refl H1 H2 H3)
    as (w & E & _ & Hcells).
  exists w. split; [exact E|]. split.
  - apply (proj1 (Hcells 1 0 "hip" ltac:(simpl; lia) eq_refl)). simpl. left.
  - apply (proj2 (Hcells 1 2 "wheel" ltac:(simpl; lia) eq_refl)). simpl. not_in_list.
Defined.

(** ** The reference filter: reset and steady state *)

Section FilterMore.

Import FirstOrderFilter.

Implicit Types (f g : FirstOrderFilter.t).

Lemma update_device f r : _device (update f r) = _device f.
Proof. by destruct r. Qed.

Lemma updates_device f rs : _device (foldl update f rs) = _device f.
Proof.
  revert f. induction rs as [|r rs IH]; intros f; [done|].
  simpl. by rewrite IH, update_device.
Qed.

Lemma slice_assign_zeros rows cols m :
  has_shape rows cols m →
  slice_assign m (mat_at (torch.zeros rows cols)) = torch.zeros rows cols.
Proof. intros H. apply slice_assign_same_shape with rows cols; [done|apply full_shape]. Qed.

Lemma init_fields dt bw rows cols dev f :
  __init__ dt bw rows cols dev = Ok f →
  f = mk dev dt rows cols bw (2 * math_pi * bw)%Q
         (torch.zeros rows cols) (torch.zeros rows cols)
         (torch.zeros rows cols) (torch.zeros rows cols)
         (2 * math_pi * bw * dt / 2)%Q
         (2 * math_pi * bw * dt / 2 * 1 / (1 + 2 * math_pi * bw * dt / 2))%Q
         ((1 - 2 * math_pi * bw * dt / 2) / (1 + 2 * math_pi * bw * dt / 2))%Q
  ∧ ¬ (1 + 2 * math_pi * bw * dt / 2 == 0)%Q.
Proof.
  unfold __init__. cbv zeta.
  destruct (Qeq_bool _ 0) eqn:E; [done|]. intros [= <-]. split; [done|].
  by apply Qeq_bool_neq.
Qed.

End FilterMore.

(** [reset()] undoes every [update]: whatever references of the filter's
    shape were fed to a filter built by the constructor, [reset()] gives
    back the filter exactly as the constructor left it, and [get()] then
    returns zeros. *)
Theorem filter_reset_restores_initial_state :
  ∀ (dt bw : Q) (rows cols : nat) (dev : torch.device) (f : FirstOrderFilter.t)
    (earlier : list (option Matrix)),
    FirstOrderFilter.__init__ dt bw rows cols dev = Ok f →
    Forall (λ r, ∀ m, r = Some m → has_shape rows cols m) earlier →
    FirstOrderFilter.reset (foldl FirstOrderFilter.update f earlier) = f
    ∧ FirstOrderFilter.get (FirstOrderFilter.reset (foldl FirstOrderFilter.update f earlier))
      = torch.zeros rows cols.
Proof.
  intros dt bw rows cols dev f earlier Hinit Hearlier.
  destruct (init_inv _ _ _ _ _ _ Hinit) as (Hinv & Hrows & Hcols).
  assert (Hfit : Forall (ref_fits f) earlier).
  { eapply Forall_impl; [exact Hearlier|]. intros r Hr m ->.
    rewrite Hrows, Hcols. by apply Hr. }
  destruct (updates_inv f earlier Hinv Hfit) as (Hinv' & Hcfg).
  pose proof (updates_device f earlier) as Hdev.
  set (g := foldl FirstOrderFilter.update f earlier) in *.
  destruct Hcfg as (Er & Ec & Edt & Ebw & Eg & Ek & Ecr & Eck).
  destruct Hinv' as [Hy Hym Hr Hrm _ _].
  assert (E : FirstOrderFilter.reset g = f).
  { destruct (init_fields _ _ _ _ _ _ Hinit) as [Ef _].
    clearbody g. destruct g as [gd gdt gr gc gbw gg gy gym grf grm gk gcr gck].
    rewrite Ef in Hdev, Er, Ec, Edt, Ebw, Eg, Ek, Ecr, Eck. simpl in *. subst.
    unfold FirstOrderFilter.reset, FirstOrderFilter.with_yk,
      FirstOrderFilter.with_ykm1, FirstOrderFilter.with_refk,
      FirstOrderFilter.with_refkm1.
    cbn [FirstOrderFilter._device FirstOrderFilter._dt FirstOrderFilter._rows
         FirstOrderFilter._cols FirstOrderFilter._filter_BW FirstOrderFilter._gain
         FirstOrderFilter.yk FirstOrderFilter.ykm1 FirstOrderFilter.refk
         FirstOrderFilter.refkm1 FirstOrderFilter._kh2 FirstOrderFilter._coeff_ref
         FirstOrderFilter._coeff_km1].
    by rewrite !slice_assign_zeros. }
  split; [done|]. rewrite E.
  destruct (init_fields _ _ _ _ _ _ Hinit) as [-> _]. done.
Qed.

Lemma filter_reset_restores_initial_state_witness :
  ∃ f, FirstOrderFilter.__init__ 0.01 50 1 2 torch.cpu = Ok f
       ∧ FirstOrderFilter.reset
           (foldl FirstOrderFilter.update f [Some [[1; 2]]%Q; None]) = f.
Proof.
  destruct (FirstOrderFilter.__init__ 0.01 50 1 2 torch.cpu) as [f|e] eqn:E;
    [|by vm_compute in E].
  exists f. split; [done|].
  apply (filter_reset_restores_initial_state 0.01 50 1 2 torch.cpu f
           [Some [[1; 2]]%Q; None] E).
  apply Forall_cons. split.
  - intros m [= <-]. vm_compute. repeat constructor.
  - apply Forall_cons. split; [intros m [=]|constructor].
Defined.

(** ** What the setters never do *)

Section PrintsOnly.

Context {O : Type}.

Lemma prints_only_ret {A} (a : A) : prints_only (ret a : M O A).
Proof. intros w. exists []. by rewrite app_nil_r. Qed.

Lemma prints_only_get_self : prints_only (get_self : M O O).
Proof. intros w. exists []. by rewrite app_nil_r. Qed.

Lemma prints_only_modify (f : O → O) : prints_only (modify f).
Proof. intros w. exists []. by rewrite app_nil_r. Qed.

Lemma prints_only_print (line : string) : prints_only (print line : M O unit).
Proof.
  intros w. exists [Print line]. split; [done|].
  constructor; [by exists line|constructor].
Qed.

Lemma prints_only_lift {A} (r : result A) : prints_only (lift r : M O A).
Proof. intros w. exists []. by rewrite app_nil_r. Qed.

Lemma prints_only_raise {A} (e : exn) : prints_only (raise e : M O A).
Proof. intros w. exists []. by rewrite app_nil_r. Qed.

Lemma prints_only_getattr {A} (name : string) (o : option A) :
  prints_only (getattr name o : M O A).
Proof. destruct o; [apply prints_only_ret|apply prints_only_raise]. Qed.

Lemma prints_only_bind {A B} (m : M O A) (k : A → M O B) :
  prints_only m → (∀ a, prints_only (k a)) → prints_only (bind m k).
Proof.
  intros Hm Hk w. unfold bind.
  destruct (Hm w) as (out1 & E1 & F1).
  destruct (m w) as [[a|e] w1]; simpl in E1.
  - destruct (Hk a w1) as (out2 & E2 & F2).
    exists (out1 ++ out2)%list. split.
    + rewrite E2, E1. symmetry. apply (app_assoc _ _ _).
    + by apply Forall_app.
  - by exists out1.
Qed.

End PrintsOnly.

Ltac quiet :=
  repeat first
    [ apply prints_only_ret | apply prints_only_get_self | apply prints_only_modify
    | apply prints_only_print | apply prints_only_lift | apply prints_only_raise
    | apply prints_only_getattr
    | apply prints_only_bind; [|intros ?]
    | match goal with
      | |- prints_only (if ?b then _ else _) => destruct b
      | |- prints_only (match ?x with _ => _ end) => destruct x
      end ].

Section SettersQuiet.

Import torch OmniJntImpCntrl.

Lemma prints_only_validate_selectors r j : prints_only (_validate_selectors r j).
Proof. unfold _validate_selectors. quiet. Qed.

Lemma prints_only_gen_selector r j : prints_only (_gen_selector r j).
Proof.
  unfold _gen_selector.
  apply prints_only_bind; [apply prints_only_get_self|intros self].
  apply prints_only_bind; [apply prints_only_validate_selectors|intros chk].
  apply prints_only_ret.
Qed.

Lemma prints_only_validate_signal s sel : prints_only (_validate_signal s sel).
Proof. unfold _validate_signal. quiet. Qed.

Lemma prints_only_assign_signal tg s sel : prints_only (_assign_signal tg s sel).
Proof. unfold _assign_signal. quiet. Qed.

Lemma prints_only_write_signal tg i s sel success :
  prints_only (write_signal tg i s sel success).
Proof.
  unfold write_signal. destruct s as [x|]; [|apply prints_only_ret].
  apply prints_only_bind; [apply prints_only_validate_signal|intros valid].
  destruct valid; [|apply prints_only_ret].
  apply prints_only_bind; [apply prints_only_assign_signal|intros assigned].
  destruct (negb assigned); apply prints_only_ret.
Qed.

Lemma prints_only_set_refs a b c r j : prints_only (set_refs a b c r j).
Proof.
  unfold set_refs.
  apply prints_only_bind; [apply prints_only_gen_selector|intros sel].
  repeat (apply prints_only_bind; [apply prints_only_write_signal|intros ?]).
  apply prints_only_ret.
Qed.

Lemma prints_only_update_state a b c r j : prints_only (update_state a b c r j).
Proof.
  unfold update_state.
  apply prints_only_bind; [apply prints_only_gen_selector|intros sel].
  repeat (apply prints_only_bind; [apply prints_only_write_signal|intros ?]).
  apply prints_only_ret.
Qed.

End SettersQuiet.

(** [set_refs] and [update_state] never act on the articulation: whatever
    their arguments and whether they return or raise, everything they add to
    the effects is a printed line. *)
Theorem setters_never_command_articulation :
  ∀ (a b c : option torch.Tensor2D) (robot_indxs jnt_indxs : option torch.IndexTensor)
    (w : World OmniJntImpCntrl.t),
    (∃ out, trace (OmniJntImpCntrl.set_refs a b c robot_indxs jnt_indxs w).2
            = (trace w ++ out)%list ∧ Forall is_print out)
    ∧ (∃ out, trace (OmniJntImpCntrl.update_state a b c robot_indxs jnt_indxs w).2
              = (trace w ++ out)%list ∧ Forall is_print out).
Proof.
  intros a b c r j w. split.
  - apply prints_only_set_refs.
  - apply prints_only_update_state.
Qed.

(** ** The setters: what is written and what is kept *)

Section SetterBlocks.

Import torch OmniJntImpCntrl.

Implicit Types (c : OmniJntImpCntrl.t) (k : Buffer) (s : Tensor2D).

Lemma write_dims k m c :
  num_robots (write k m c) = num_robots c
  ∧ n_dofs (write k m c) = n_dofs c
  ∧ _device (write k m c) = _device c
  ∧ gains_initialized (write k m c) = gains_initialized c
  ∧ refs_initialized (write k m c) = refs_initialized c
  ∧ override_art_controller (write k m c) = override_art_controller c
  ∧ _imp_eff (write k m c) = _imp_eff c
  ∧ jnts_names (write k m c) = jnts_names c.
Proof. by destruct k. Qed.

Lemma fits_write k m c s sel : fits (write k m c) s sel = fits c s sel.
Proof. by destruct k, sel. Qed.

Lemma put_dims k o sel c :
  num_robots (put k o sel c) = num_robots c
  ∧ n_dofs (put k o sel c) = n_dofs c
  ∧ _device (put k o sel c) = _device c
  ∧ gains_initialized (put k o sel c) = gains_initialized c
  ∧ refs_initialized (put k o sel c) = refs_initialized c
  ∧ override_art_controller (put k o sel c) = override_art_controller c
  ∧ _imp_eff (put k o sel c) = _imp_eff c
  ∧ jnts_names (put k o sel c) = jnts_names c.
Proof.
  unfold put. destruct o as [s|]; [|done].
  destruct (fits c s sel); [apply write_dims|done].
Qed.

Lemma accepted_put k o sel c o' :
  accepted o' sel (put k o sel c) = accepted o' sel c.
Proof.
  unfold accepted, put. destruct o' as [s'|]; [|done].
  destruct o as [s|]; [|done]. destruct (fits c s sel); [apply fits_write|done].
Qed.

Lemma read_put_ne k k' o sel c : k' ≠ k → read k' (put k o sel c) = read k' c.
Proof.
  intros Hne. unfold put. destruct o as [s|]; [|done].
  destruct (fits c s sel); [by apply write_read_ne|done].
Qed.

Lemma read_put_refused k o sel c :
  accepted o sel c = false → put k o sel c = c.
Proof. unfold accepted, put. destruct o as [s|]; [by intros ->|done]. Qed.

Lemma read_put_accepted k s sel c :
  accepted (Some s) sel c = true →
  read k (put k (Some s) sel c) = assign (read k c) s sel.
Proof. unfold accepted, put. intros ->. apply write_read. Qed.

Lemma assign_shape rows cols buf s sel :
  has_shape rows cols buf → has_shape rows cols (assign buf s sel).
Proof.
  intros H. destruct sel as [g|]; simpl.
  - by apply index_put_shape.
  - by apply slice_assign_shape.
Qed.

Lemma read_put_shape k k' o sel c :
  has_shape (num_robots c) (n_dofs c) (read k' c) →
  has_shape (num_robots c) (n_dofs c) (read k' (put k o sel c)).
Proof.
  intros H. destruct (decide (k' = k)) as [->|Hne].
  - unfold put. destruct o as [s|]; [|done].
    destruct (fits c s sel); [|done]. rewrite write_read. by apply assign_shape.
  - by rewrite read_put_ne.
Qed.

Lemma cntrl_shaped_read c :
  cntrl_shaped c ↔ ∀ k, has_shape (num_robots c) (n_dofs c) (read k c).
Proof.
  unfold cntrl_shaped. split.
  - intros (H1 & H2 & H3 & H4 & H5 & H6 & H7 & H8) k. by destruct k.
  - intros H. repeat split;
      first [ apply (H PGain) | apply (H VGain) | apply (H EffRef) | apply (H PosRef)
            | apply (H VelRef) | apply (H Pos) | apply (H Vel) | apply (H Eff) ].
Qed.

Lemma put_shaped k o sel c : cntrl_shaped c → cntrl_shaped (put k o sel c).
Proof.
  rewrite !cntrl_shaped_read. intros H k'.
  destruct (put_dims k o sel c) as (-> & -> & _).
  by apply read_put_shape.
Qed.

Lemma runs_write_signal_opt c k i o sel success :
  runs (write_signal (tag k) i o sel success) c
       (if accepted o sel c then success else <[i := false]> success)
       (put k o sel c).
Proof.
  destruct o as [s|]; unfold accepted, put.
  - apply runs_write_signal.
  - apply runs_write_signal_None.
Qed.

(** The three blocks of [set_refs] and of [update_state]. *)
Lemma runs_three_blocks c k0 k1 k2 o0 o1 o2 sel :
  runs (success ← write_signal (tag k0) 0 o0 sel [true; true; true; true];
        success ← write_signal (tag k1) 1 o1 sel success;
        success ← write_signal (tag k2) 2 o2 sel success;
        ret success) c
       [accepted o0 sel c; accepted o1 sel c; accepted o2 sel c; true]
       (put k2 o2 sel (put k1 o1 sel (put k0 o0 sel c))).
Proof.
  eapply runs_bind; [apply runs_write_signal_opt|]. cbv beta.
  eapply runs_bind; [apply runs_write_signal_opt|]. cbv beta.
  eapply runs_bind; [apply runs_write_signal_opt|]. cbv beta.
  rewrite !accepted_put.
  replace (if accepted o2 sel c then _ else _)
    with [accepted o0 sel c; accepted o1 sel c; accepted o2 sel c; true];
    [apply runs_ret|].
  by destruct (accepted o0 sel c), (accepted o1 sel c), (accepted o2 sel c).
Qed.

Lemma runs_set_refs c e p v r j :
  classifiable r → classifiable j →
  let sel := selector_of c r j in
  runs (set_refs e p v r j) c
       [accepted e sel c; accepted p sel c; accepted v sel c; true]
       (put VelRef v sel (put PosRef p sel (put EffRef e sel c))).
Proof.
  intros Hr Hj sel. unfold set_refs.
  eapply runs_bind; [by apply runs_gen_selector|]. cbv beta.
  apply (runs_three_blocks c EffRef PosRef VelRef).
Qed.

Lemma runs_update_state c p v e r j :
  classifiable r → classifiable j →
  let sel := selector_of c r j in
  runs (update_state p v e r j) c
       [accepted p sel c; accepted v sel c; accepted e sel c; true]
       (put Eff e sel (put Vel v sel (put Pos p sel c))).
Proof.
  intros Hr Hj sel. unfold update_state.
  eapply runs_bind; [by apply runs_gen_selector|]. cbv beta.
  apply (runs_three_blocks c Pos Vel Eff).
Qed.

(** What three blocks on the buffers [k0], [k1], [k2] leave. *)
Lemma three_blocks_frame c k0 k1 k2 o0 o1 o2 sel :
  k0 ≠ k1 → k0 ≠ k2 → k1 ≠ k2 →
  cntrl_shaped c →
  let c' := put k2 o2 sel (put k1 o1 sel (put k0 o0 sel c)) in
  cntrl_shaped c'
  ∧ (∀ k, k ≠ k0 → k ≠ k1 → k ≠ k2 → read k c' = read k c)
  ∧ (accepted o0 sel c = false → read k0 c' = read k0 c)
  ∧ (accepted o1 sel c = false → read k1 c' = read k1 c)
  ∧ (accepted o2 sel c = false → read k2 c' = read k2 c)
  ∧ (∀ s, o0 = Some s → accepted o0 sel c = true →
          read k0 c' = assign (read k0 c) s sel)
  ∧ (∀ s, o1 = Some s → accepted o1 sel c = true →
          read k1 c' = assign (read k1 c) s sel)
  ∧ (∀ s, o2 = Some s → accepted o2 sel c = true →
          read k2 c' = assign (read k2 c) s sel)
  ∧ gains_initialized c' = gains_initialized c
  ∧ refs_initialized c' = refs_initialized c
  ∧ _imp_eff c' = _imp_eff c.
Proof.
  intros H01 H02 H12 Hs c'. subst c'.
  split; [by do 3 apply put_shaped|].
  split.
  { intros k Hk0 Hk1 Hk2.
    rewrite (read_put_ne k2 k), (read_put_ne k1 k), (read_put_ne k0 k); done. }
  split.
  { intros Ha.
    rewrite (read_put_ne k2 k0), (read_put_ne k1 k0), read_put_refused; done. }
  split.
  { intros Ha.
    rewrite (read_put_ne k2 k1) by done.
    rewrite (read_put_refused k1) by (by rewrite accepted_put).
    by rewrite (read_put_ne k0 k1) by done. }
  split.
  { intros Ha.
    rewrite (read_put_refused k2) by (by rewrite !accepted_put).
    rewrite (read_put_ne k1 k2), (read_put_ne k0 k2); done. }
  split.
  { intros s -> Ha.
    rewrite (read_put_ne k2 k0), (read_put_ne k1 k0) by done.
    by apply read_put_accepted. }
  split.
  { intros s -> Ha.
    rewrite (read_put_ne k2 k1) by done.
    rewrite read_put_accepted by (by rewrite accepted_put).
    by rewrite (read_put_ne k0 k1) by done. }
  split.
  { intros s -> Ha.
    rewrite read_put_accepted by (by rewrite !accepted_put).
    by rewrite (read_put_ne k1 k2), (read_put_ne k0 k2) by done. }
  destruct (put_dims k2 o2 sel (put k1 o1 sel (put k0 o0 sel c)))
    as (_ & _ & _ & -> & -> & _ & -> & _).
  destruct (put_dims k1 o1 sel (put k0 o0 sel c)) as (_ & _ & _ & -> & -> & _ & -> & _).
  destruct (put_dims k0 o0 sel c) as (_ & _ & _ & -> & -> & _ & -> & _).
  done.
Qed.

End SetterBlocks.

(** The three blocks of [set_refs], on the tensors of the signals alone:
    one flag per reference, a refused or absent reference leaves its
    buffer, an accepted one is written through the selector. *)
Lemma set_refs_blocks :
  ∀ (eff_ref pos_ref vel_ref : option torch.Tensor2D)
    (robot_indxs jnt_indxs : option torch.IndexTensor)
    (w : World OmniJntImpCntrl.t),
    classifiable robot_indxs → classifiable jnt_indxs →
    cntrl_shaped (obj w) →
    let sel := selector_of (obj w) robot_indxs jnt_indxs in
    let ok_eff := accepted eff_ref sel (obj w) in
    let ok_pos := accepted pos_ref sel (obj w) in
    let ok_vel := accepted vel_ref sel (obj w) in
    ∃ w',
      OmniJntImpCntrl.set_refs eff_ref pos_ref vel_ref robot_indxs jnt_indxs w
      = (Ok [ok_eff; ok_pos; ok_vel; true], w')
      ∧ cntrl_shaped (obj w')
      ∧ (ok_eff = false →
         OmniJntImpCntrl._eff_ref (obj w') = OmniJntImpCntrl._eff_ref (obj w))
      ∧ (ok_pos = false →
         OmniJntImpCntrl._pos_ref (obj w') = OmniJntImpCntrl._pos_ref (obj w))
      ∧ (ok_vel = false →
         OmniJntImpCntrl._vel_ref (obj w') = OmniJntImpCntrl._vel_ref (obj w))
      ∧ (∀ s, eff_ref = Some s → ok_eff = true →
           OmniJntImpCntrl._eff_ref (obj w')
           = OmniJntImpCntrl.assign (OmniJntImpCntrl._eff_ref (obj w)) s sel)
      ∧ (∀ s, pos_ref = Some s → ok_pos = true →
           OmniJntImpCntrl._pos_ref (obj w')
           = OmniJntImpCntrl.assign (OmniJntImpCntrl._pos_ref (obj w)) s sel)
      ∧ (∀ s, vel_ref = Some s → ok_vel = true →
           OmniJntImpCntrl._vel_ref (obj w')
           = OmniJntImpCntrl.assign (OmniJntImpCntrl._vel_ref (obj w)) s sel)
      ∧ (∀ k, k ∉ [EffRef; PosRef; VelRef] → read k (obj w') = read k (obj w))
      ∧ OmniJntImpCntrl.gains_initialized (obj w')
        = OmniJntImpCntrl.gains_initialized (obj w)
      ∧ OmniJntImpCntrl.refs_initialized (obj w')
        = OmniJntImpCntrl.refs_initialized (obj w)
      ∧ OmniJntImpCntrl._imp_eff (obj w') = OmniJntImpCntrl._imp_eff (obj w).
Proof.
  intros e p v r j [c tr] Hr Hj Hs sel oke okp okv. simpl in *.
  destruct (runs_set_refs c e p v r j Hr Hj tr) as [out E].
  eexists. split; [exact E|]. simpl.
  destruct (three_blocks_frame c EffRef PosRef VelRef e p v sel)
    as (H1 & H2 & H3 & H4 & H5 & H3' & H4' & H5' & H6 & H7 & H8); try done.
  repeat (match goal with |- _ ∧ _ => split end); try done.
  intros k Hk. apply H2; intros ->; apply Hk; rewrite !elem_of_cons; auto.
Qed.

(** The three blocks of [update_state], on the tensors of the signals
    alone. *)
Lemma update_state_blocks :
  ∀ (pos vel eff : option torch.Tensor2D)
    (robot_indxs jnt_indxs : option torch.IndexTensor)
    (w : World OmniJntImpCntrl.t),
    classifiable robot_indxs → classifiable jnt_indxs →
    cntrl_shaped (obj w) →
    let sel := selector_of (obj w) robot_indxs jnt_indxs in
    let ok_pos := accepted pos sel (obj w) in
    let ok_vel := accepted vel sel (obj w) in
    let ok_eff := accepted eff sel (obj w) in
    ∃ w',
      OmniJntImpCntrl.update_state pos vel eff robot_indxs jnt_indxs w
      = (Ok [ok_pos; ok_vel; ok_eff; true], w')
      ∧ cntrl_shaped (obj w')
      ∧ (ok_pos = false → OmniJntImpCntrl._pos (obj w') = OmniJntImpCntrl._pos (obj w))
      ∧ (ok_vel = false → OmniJntImpCntrl._vel (obj w') = OmniJntImpCntrl._vel (obj w))
      ∧ (ok_eff = false → OmniJntImpCntrl._eff (obj w') = OmniJntImpCntrl._eff (obj w))
      ∧ (∀ s, pos = Some s → ok_pos = true →
           OmniJntImpCntrl._pos (obj w')
           = OmniJntImpCntrl.assign (OmniJntImpCntrl._pos (obj w)) s sel)
      ∧ (∀ s, vel = Some s → ok_vel = true →
           OmniJntImpCntrl._vel (obj w')
           = OmniJntImpCntrl.assign (OmniJntImpCntrl._vel (obj w)) s sel)
      ∧ (∀ s, eff = Some s → ok_eff = true →
           OmniJntImpCntrl._eff (obj w')
           = OmniJntImpCntrl.assign (OmniJntImpCntrl._eff (obj w)) s sel)
      ∧ (∀ k, k ∉ [Pos; Vel; Eff] → read k (obj w') = read k (obj w))
      ∧ OmniJntImpCntrl.gains_initialized (obj w')
        = OmniJntImpCntrl.gains_initialized (obj w)
      ∧ OmniJntImpCntrl.refs_initialized (obj w')
        = OmniJntImpCntrl.refs_initialized (obj w)
      ∧ OmniJntImpCntrl._imp_eff (obj w') = OmniJntImpCntrl._imp_eff (obj w).
Proof.
  intros p v e r j [c tr] Hr Hj Hs sel okp okv oke. simpl in *.
  destruct (runs_update_state c p v e r j Hr Hj tr) as [out E].
  eexists. split; [exact E|]. simpl.
  destruct (three_blocks_frame c Pos Vel Eff p v e sel)
    as (H1 & H2 & H3 & H4 & H5 & H3' & H4' & H5' & H6 & H7 & H8); try done.
  repeat (match goal with |- _ ∧ _ => split end); try done.
  intros k Hk. apply H2; intros ->; apply Hk; rewrite !elem_of_cons; auto.
Qed.

(** A signal that lies on another device than the controller's is refused
    by every setter but the one of the velocity gains: the flag of the field
    comes back false and the controller is unchanged, whatever the shape of
    the signal and the index subsets. *)
Theorem signal_on_other_device_is_refused :
  ∀ (k : Buffer) (w : World OmniJntImpCntrl.t) (s : torch.Tensor2D)
    (r j : option torch.IndexTensor),
    k ≠ VGain →
    classifiable r → classifiable j →
    torch.t_device s ≠ OmniJntImpCntrl._device (obj w) →
    ∃ w',
      setter_call k s r j w = (Ok (<[flag_of k := false]> (all_true k)), w')
      ∧ obj w' = obj w.
Proof.
  intros k [c tr] s r j Hk Hr Hj Hdev. simpl in *.
  pose proof (runs_setter_call c k s r j Hk Hr Hj) as Hrun. simpl in Hrun.
  assert (Hfits : fits c s (selector_of c r j) = false).
  { assert (Hd : torch.device_eqb (torch.t_device s) (OmniJntImpCntrl._device c) = false).
    { destruct (torch.device_eqb _ _) eqn:E; [|done]. by apply device_eqb_eq in E. }
    unfold fits. destruct (selector_of c r j); rewrite Hd; apply andb_false_r. }
  rewrite Hfits in Hrun. destruct (Hrun tr) as [out Eq]. eauto.
Qed.

(** ** Exact effects of the controller *)

Section Yields.

Context {O : Type}.

Implicit Types (c : O).

Lemma yields_ret {A} (a : A) c : yields (ret a) c a c [].
Proof. intros tr. by rewrite app_nil_r. Qed.

Lemma yields_bind {A B} (m : M O A) (k : A → M O B) c a c1 o1 b c2 o2 :
  yields m c a c1 o1 → yields (k a) c1 b c2 o2 →
  yields (bind m k) c b c2 (o1 ++ o2).
Proof.
  intros Hm Hk tr. unfold bind. rewrite Hm, Hk. f_equal. f_equal.
  symmetry. apply (app_assoc _ _ _).
Qed.

Lemma yields_get_self c : yields get_self c c c [].
Proof. intros tr. by rewrite app_nil_r. Qed.

Lemma yields_modify (f : O → O) c : yields (modify f) c tt (f c) [].
Proof. intros tr. by rewrite app_nil_r. Qed.

Lemma yields_emit (e : event) c : yields (emit e) c tt c [e].
Proof. by intros tr. Qed.

Lemma yields_print (line : string) c : yields (print line) c tt c [Print line].
Proof. by intros tr. Qed.

Lemma yields_lift {A} (a : A) c : yields (lift (Ok a)) c a c [].
Proof. intros tr. by rewrite app_nil_r. Qed.

Lemma yields_eq {A} (m : M O A) c a c' out out' :
  yields m c a c' out → out = out' → yields m c a c' out'.
Proof. by intros H <-. Qed.

Lemma yields_runs {A} (m : M O A) c a c' out : yields m c a c' out → runs m c a c'.
Proof. intros H tr. by exists out. Qed.

End Yields.

Ltac yield :=
  first
    [ eapply yields_bind; [ first [ apply yields_get_self | apply yields_modify
                                  | apply yields_emit | apply yields_print
                                  | apply yields_ret | apply yields_lift ] | ]
    | apply yields_ret | apply yields_modify | apply yields_emit | apply yields_print ];
  cbv beta.

Section ControllerEffects.

Import torch OmniJntImpCntrl.

Implicit Types (c : OmniJntImpCntrl.t) (k : Buffer) (s : Tensor2D).

Lemma valid_index_sanity c x bound :
  valid_index (_device c) bound x → sanity_checks c x bound = Ok true.
Proof.
  intros Hv. rewrite sanity_checks_spec by apply Hv.
  by rewrite bool_decide_eq_true_2.
Qed.

(** Valid subsets are classified without a line being printed. *)
Lemma yields_validate_selectors c r j :
  valid_subset (_device c) (num_robots c) r →
  valid_subset (_device c) (n_dofs c) j →
  yields (_validate_selectors r j) c
         (match r with Some _ => VALID | None => NONE end,
          match j with Some _ => VALID | None => NONE end) c [].
Proof.
  intros Hr Hj tr. rewrite app_nil_r.
  unfold _validate_selectors, bind, get_self, lift, ret. simpl.
  destruct r as [x|], j as [y|]; simpl;
    try (rewrite (valid_index_sanity c x) by (by apply Hr));
    try (rewrite (valid_index_sanity c y) by (by apply Hj)); simpl;
    try (rewrite (valid_index_sanity c y) by (by apply Hj)); done.
Qed.

Lemma yields_gen_selector c r j :
  valid_subset (_device c) (num_robots c) r →
  valid_subset (_device c) (n_dofs c) j →
  yields (_gen_selector r j) c (selector_of c r j) c [].
Proof.
  intros Hr Hj. unfold _gen_selector.
  eapply yields_eq.
  - eapply yields_bind; [apply yields_get_self|]. cbv beta.
    eapply yields_bind; [by apply yields_validate_selectors|]. cbv beta.
    unfold selector_of.
    rewrite (valid_subset_classify _ _ r Hr), (valid_subset_classify _ _ j Hj).
    destruct r, j; apply yields_ret.
  - done.
Qed.

Lemma yields_validate_signal c s sel :
  fits c s sel = true → yields (_validate_signal (Some s) sel) c true c [].
Proof.
  intros Hf tr. rewrite app_nil_r.
  unfold _validate_signal, bind, get_self, getattr, ret. simpl.
  unfold fits in Hf. destruct sel as [g|]; simpl; by rewrite Hf.
Qed.

Lemma yields_assign_signal c k s sel :
  yields (_assign_signal (tag k) s sel) c true
         (write k (assign (read k c) s sel) c) [].
Proof. intros tr. rewrite app_nil_r. by destruct k. Qed.

(** [set_gains] with both tensors, through valid subsets. *)
Lemma yields_set_gains c pg vg r j :
  valid_subset (_device c) (num_robots c) r →
  valid_subset (_device c) (n_dofs c) j →
  let sel := selector_of c r j in
  fits c pg sel = true →
  let c1 := write PGain (assign (_pos_gains c) pg sel) c in
  let c2 := write VGain (assign (_vel_gains c) vg sel) c1 in
  yields (set_gains (Some pg) (Some vg) r j) c [true; true; true] c2
         (if override_art_controller c then []
          else [ArtSetGains (Some (_pos_gains c1)) None;
                ArtSetGains None (Some (_vel_gains c2))]).
Proof.
  intros Hr Hj sel Hfit c1 c2. unfold set_gains.
  assert (Hov1 : override_art_controller c1 = override_art_controller c) by done.
  assert (Hov2 : override_art_controller c2 = override_art_controller c) by done.
  assert (Hfit1 : fits c1 pg sel = true) by (subst c1; by rewrite fits_write).
  eapply yields_eq.
  - eapply yields_bind; [by apply yields_gen_selector|]. cbv beta.
    eapply yields_bind.
    { eapply yields_bind; [by apply yields_validate_signal|]. cbv beta iota.
      eapply yields_bind; [apply (yields_assign_signal c PGain)|]. cbv beta.
      simpl negb. cbv iota.
      eapply yields_bind; [apply yields_get_self|]. cbv beta.
      change (write PGain (assign (read PGain c) pg _) c) with c1.
      rewrite Hov1.
      eapply yields_bind; [|apply yields_ret].
      instantiate (1 := if override_art_controller c then []
                        else [ArtSetGains (Some (_pos_gains c1)) None]).
      destruct (override_art_controller c); [apply yields_ret|apply yields_emit]. }
    cbv beta.
    eapply yields_bind.
    { eapply yields_bind; [by apply yields_validate_signal|]. cbv beta iota.
      eapply yields_bind; [apply (yields_assign_signal c1 VGain)|]. cbv beta.
      simpl negb. cbv iota.
      eapply yields_bind; [apply yields_get_self|]. cbv beta.
      change (write VGain (assign (read VGain c1) vg _) c1) with c2.
      rewrite Hov2.
      eapply yields_bind; [|apply yields_ret].
      instantiate (1 := if override_art_controller c then []
                        else [ArtSetGains None (Some (_vel_gains c2))]).
      destruct (override_art_controller c); [apply yields_ret|apply yields_emit]. }
    apply yields_ret.
  - by destruct (override_art_controller c).
Qed.

End ControllerEffects.

(** [set_gains] with both gains, on the tensors of the signals alone. *)
Lemma set_gains_both :
  ∀ (w : World OmniJntImpCntrl.t) (pos_gains vel_gains : torch.Tensor2D)
    (r j : option torch.IndexTensor),
    cntrl_shaped (obj w) →
    valid_subset (OmniJntImpCntrl._device (obj w)) (OmniJntImpCntrl.num_robots (obj w)) r →
    valid_subset (OmniJntImpCntrl._device (obj w)) (OmniJntImpCntrl.n_dofs (obj w)) j →
    let R := resolved (OmniJntImpCntrl.num_robots (obj w)) r in
    let J := resolved (OmniJntImpCntrl.n_dofs (obj w)) j in
    torch.t_rows pos_gains = length R → torch.t_cols pos_gains = length J →
    torch.t_device pos_gains = OmniJntImpCntrl._device (obj w) →
    torch.t_rows vel_gains = length R → torch.t_cols vel_gains = length J →
    torch.t_device vel_gains = OmniJntImpCntrl._device (obj w) →
    ∃ w',
      OmniJntImpCntrl.set_gains (Some pos_gains) (Some vel_gains) r j w
      = (Ok [true; true; true], w')
      ∧ (∀ a b row col, R !! a = Some row → J !! b = Some col →
           mat_at (OmniJntImpCntrl._pos_gains (obj w')) row col = torch.t_at pos_gains a b
           ∧ mat_at (OmniJntImpCntrl._vel_gains (obj w')) row col = torch.t_at vel_gains a b)
      ∧ (∀ row col, ¬ (row ∈ R ∧ col ∈ J) →
           mat_at (OmniJntImpCntrl._pos_gains (obj w')) row col
           = mat_at (OmniJntImpCntrl._pos_gains (obj w)) row col
           ∧ mat_at (OmniJntImpCntrl._vel_gains (obj w')) row col
             = mat_at (OmniJntImpCntrl._vel_gains (obj w)) row col)
      ∧ (∀ k, k ≠ PGain → k ≠ VGain → read k (obj w') = read k (obj w))
      ∧ cntrl_shaped (obj w')
      ∧ trace w'
        = (trace w
           ++ if OmniJntImpCntrl.override_art_controller (obj w) then []
              else [ArtSetGains (Some (OmniJntImpCntrl._pos_gains (obj w'))) None;
                    ArtSetGains None (Some (OmniJntImpCntrl._vel_gains (obj w')))])%list.
Proof.
  intros [c tr] pg vg r j Hs Hr Hj R J Hpr Hpc Hpd Hvr Hvc Hvd. simpl in *.
  pose proof (fits_valid c pg r j Hr Hj Hpr Hpc Hpd) as Hfit.
  pose proof (yields_set_gains c pg vg r j Hr Hj Hfit tr) as E. simpl in E.
  eexists. split; [exact E|]. simpl.
  destruct Hs as (Hpg & Hvg & Hrest).
  destruct (assign_valid c (OmniJntImpCntrl._pos_gains c) pg r j Hpg Hr Hj)
    as (Hshp & Hhitp & Hframep).
  destruct (assign_valid c (OmniJntImpCntrl._vel_gains c) vg r j Hvg Hr Hj)
    as (Hshv & Hhitv & Hframev).
  split; [intros a b row col Ha Hb; split; eauto|].
  split; [intros row col Hn; split; eauto|].
  split; [intros k Hk1 Hk2; by destruct k|].
  split; [|done].
  unfold cntrl_shaped. simpl. tauto.
Qed.


(** [apply_cmds] when the controller does not override the articulation's
    own and no filter is applied: the call returns with both flags set, and
    what it sends is, in this order, the gains if they had not been sent
    yet, the three references if they had not been sent yet, and the three
    references: efforts, position targets, velocity targets.  No buffer
    changes. *)
Theorem apply_cmds_forwards_references :
  ∀ (w : World OmniJntImpCntrl.t) (filter : bool),
    OmniJntImpCntrl.override_art_controller (obj w) = false →
    filter = false ∨ OmniJntImpCntrl._filter_available (obj w) = false →
    let c := obj w in
    let init_gains :=
      if OmniJntImpCntrl.gains_initialized c then []
      else [ArtSetGains (Some (OmniJntImpCntrl._pos_gains c))
                        (Some (OmniJntImpCntrl._vel_gains c))] in
    let cmds :=
      [ArtSetJointEfforts (OmniJntImpCntrl._eff_ref c);
       ArtSetJointPositionTargets (OmniJntImpCntrl._pos_ref c);
       ArtSetJointVelocityTargets (OmniJntImpCntrl._vel_ref c)] in
    let init_refs := if OmniJntImpCntrl.refs_initialized c then [] else cmds in
    OmniJntImpCntrl.apply_cmds filter w
    = (Ok tt,
       mkWorld (OmniJntImpCntrl.set_refs_initialized true
                  (OmniJntImpCntrl.set_gains_initialized true c))
               (trace w ++ init_gains ++ init_refs ++ cmds)).
Proof.
  intros [c tr] filter Hov Hf. simpl in Hov, Hf.
  destruct c as [ov ioc gi ri pg vg bw fdt dev nr nd names
                 bpg bvg ber bpr bvr bpe bve bp bv be bie fa pf vf ef].
  simpl in Hov, Hf. subst ov.
  assert (Hff : filter && fa = false) by (destruct Hf as [-> | ->]; [done|apply andb_false_r]).
  cbv zeta. cbn [obj trace].
  unfold OmniJntImpCntrl.apply_cmds, OmniJntImpCntrl._initialize_gains,
    OmniJntImpCntrl._initialize_refs, bind, get_self, emit, modify, ret.
  cbn [obj trace OmniJntImpCntrl.gains_initialized OmniJntImpCntrl.refs_initialized
       OmniJntImpCntrl.override_art_controller OmniJntImpCntrl._filter_available
       OmniJntImpCntrl._pos_gains OmniJntImpCntrl._vel_gains
       OmniJntImpCntrl._eff_ref OmniJntImpCntrl._pos_ref OmniJntImpCntrl._vel_ref
       OmniJntImpCntrl.set_gains_initialized OmniJntImpCntrl.set_refs_initialized
       negb].
  destruct gi, ri;
    cbn [obj trace OmniJntImpCntrl.gains_initialized OmniJntImpCntrl.refs_initialized
         OmniJntImpCntrl.override_art_controller OmniJntImpCntrl._filter_available
         OmniJntImpCntrl._pos_gains OmniJntImpCntrl._vel_gains
         OmniJntImpCntrl._eff_ref OmniJntImpCntrl._pos_ref OmniJntImpCntrl._vel_ref
         OmniJntImpCntrl.set_gains_initialized OmniJntImpCntrl.set_refs_initialized
         negb];
    rewrite Hff; cbn [negb obj trace OmniJntImpCntrl.override_art_controller
                      OmniJntImpCntrl._eff_ref OmniJntImpCntrl._pos_ref
                      OmniJntImpCntrl._vel_ref];
    f_equal; f_equal; rewrite <- ?app_assoc; reflexivity.
Qed.

(** ** Joints matching a name pattern *)

Section Matching.

Lemma prefix_app (p s : string) :
  String.prefix p s = true ↔ ∃ b, s = p ++ b.
Proof.
  revert s. induction p as [|a p IH]; intros s.
  - split; [intros _; by exists s|intros _; by destruct s].
  - destruct s as [|a' s]; simpl.
    + split; [done|intros [b [=]]].
    + destruct (Ascii.ascii_dec a a') as [->|Hne].
      * rewrite IH. split; intros [b Hb]; exists b; [by rewrite Hb|by injection Hb].
      * split; [done|]. intros [b [= ? ?]]. done.
Qed.

(** [str_in] is the test that the pattern occurs in the string. *)
Lemma str_in_occurs (p s : string) :
  str_in p s = true ↔ ∃ a b, s = a ++ p ++ b.
Proof.
  induction s as [|ch s IH]; cbn [str_in].
  - rewrite orb_false_r, prefix_app. split.
    + intros [b Hb]. by exists "", b.
    + intros (a & b & Hab). destruct a; [by exists b|done].
  - rewrite orb_true_iff, prefix_app, IH. split.
    + intros [[b Hb]|(a & b & Hab)].
      * by exists "", b.
      * exists (String ch a), b. simpl. by rewrite Hab.
    + intros (a & b & Hab). destruct a as [|ch' a]; simpl in Hab.
      * left. by exists b.
      * right. injection Hab as _ Hab. by exists a, b.
Qed.

Lemma list_index_Ok x l i :
  list_index x l = Ok i ↔ l !! i = Some x ∧ ∀ j, j < i → l !! j ≠ Some x.
Proof.
  revert i. induction l as [|y l IH]; intros i; simpl.
  - split; [done|]. by intros [? _].
  - destruct (String.eqb y x) eqn:E.
    + apply String.eqb_eq in E as ->. split.
      * intros [= <-]. split; [done|]. intros j Hj. lia.
      * intros [H1 H2]. destruct i as [|i]; [done|].
        exfalso. apply (H2 0); [lia|done].
    + apply String.eqb_neq in E.
      destruct (list_index x l) as [i'|e] eqn:Ei.
      * split.
        -- intros [= <-]. destruct (proj1 (IH i') eq_refl) as [H1 H2].
           split; [done|]. intros [|j] Hj; simpl; [congruence|]. apply H2. lia.
        -- intros [H1 H2]. destruct i as [|i]; simpl in H1; [congruence|].
           f_equal. f_equal.
           assert (Hi : Ok i' = Ok i :> result nat); [|by injection Hi].
           apply IH. split; [done|]. intros j Hj. apply (H2 (S j)). lia.
      * split; [done|]. intros [H1 H2]. destruct i as [|i]; simpl in H1; [congruence|].
        assert (Hi : Raise e = Ok i :> result nat); [|done].
        apply IH. split; [done|]. intros j Hj. apply (H2 (S j)). lia.
Qed.

Lemma list_index_elem x l : x ∈ l → ∃ i, list_index x l = Ok i.
Proof.
  induction l as [|y l IH]; [by intros ?%elem_of_nil|].
  intros Hx. simpl. destruct (String.eqb y x) eqn:E; [by exists 0|].
  apply String.eqb_neq in E. apply elem_of_cons in Hx as [->|Hx]; [done|].
  destruct (IH Hx) as [i ->]. by exists (S i).
Qed.

End Matching.

Section MatchingJoints.

Import torch OmniJntImpCntrl.

Implicit Types (c : OmniJntImpCntrl.t).

Lemma index_each_spec c l :
  (∀ x, x ∈ l → x ∈ jnts_names c) →
  ∃ idxs, index_each c l = Ok idxs
          ∧ Forall2 (λ x i, list_index x (jnts_names c) = Ok i) l idxs.
Proof.
  induction l as [|x l IH]; intros Hl; simpl.
  - exists []. split; [done|constructor].
  - destruct (list_index_elem x (jnts_names c)) as [i Ei];
      [apply Hl; by left|].
    destruct IH as (idxs & -> & HF); [intros y Hy; apply Hl; by right|].
    rewrite Ei. exists (i :: idxs). split; [done|by constructor].
Qed.

Lemma elem_of_filter_bool (f : string → bool) (l : list string) x :
  x ∈ List.filter f l ↔ x ∈ l ∧ f x = true.
Proof.
  rewrite !list_elem_of_In. apply filter_In.
Qed.

Lemma NoDup_filter_bool (f : string → bool) (l : list string) :
  NoDup l → NoDup (List.filter f l).
Proof.
  rewrite !NoDup_ListNoDup. apply List.NoDup_filter.
Qed.

Lemma Forall2_index_elem (names l : list string) (idxs : list nat) col :
  Forall2 (λ x i, list_index x names = Ok i) l idxs →
  col ∈ idxs ↔ ∃ x, x ∈ l ∧ list_index x names = Ok col.
Proof.
  induction 1 as [|x i l idxs Hx HF IH].
  - split; [by intros ?%elem_of_nil|by intros (x & ?%elem_of_nil & _)].
  - rewrite elem_of_cons, IH. split.
    + intros [->|(y & Hy & Ey)]; [exists x; split; [by left|done]|].
      exists y. split; [by right|done].
    + intros (y & Hy & Ey). apply elem_of_cons in Hy as [->|Hy].
      * left. congruence.
      * right. by exists y.
Qed.

Lemma Forall2_index_NoDup (names l : list string) (idxs : list nat) :
  Forall2 (λ x i, list_index x names = Ok i) l idxs → NoDup l → NoDup idxs.
Proof.
  induction 1 as [|x i l idxs Hx HF IH]; intros Hnd; [constructor|].
  apply NoDup_cons in Hnd as [Hxl Hnd]. apply NoDup_cons. split; [|by apply IH].
  intros Hi. apply (Forall2_index_elem names l idxs i HF) in Hi as (y & Hy & Ey).
  apply list_index_Ok in Hx as [Hx _]. apply list_index_Ok in Ey as [Ey _].
  congruence.
Qed.

Lemma Forall2_index_names (names l : list string) (idxs : list nat) :
  Forall2 (λ x i, list_index x names = Ok i) l idxs →
  omap (λ i, names !! i) idxs = l.
Proof.
  induction 1 as [|x i l idxs Hx HF IH]; [done|].
  apply list_index_Ok in Hx as [Hx _]. cbn [omap list_omap]. rewrite Hx.
  simpl. f_equal. exact IH.
Qed.

(** What [get_jnt_idxs_matching] returns. *)
Lemma get_jnt_idxs_matching_spec c p :
  ∃ idxs,
    get_jnt_idxs_matching c p
    = Ok (index_tensor (_device c) int64 (map Z.of_nat idxs))
    ∧ omap (λ i, jnts_names c !! i) idxs = get_jnt_names_matching c p
    ∧ (∀ col, col ∈ idxs ↔
              ∃ name, jnts_names c !! col = Some name ∧ str_in p name = true
                      ∧ ∀ i, i < col → jnts_names c !! i ≠ Some name)
    ∧ (NoDup (jnts_names c) → NoDup idxs).
Proof.
  unfold get_jnt_idxs_matching, get_jnt_names_matching. cbv zeta.
  destruct (index_each_spec c (List.filter (str_in p) (jnts_names c)))
    as (idxs & -> & HF).
  { intros x Hx. by apply elem_of_filter_bool in Hx as [Hx _]. }
  exists idxs. split; [done|]. split; [by apply Forall2_index_names|]. split.
  - intros col. rewrite (Forall2_index_elem _ _ _ col HF). split.
    + intros (x & Hx & Ex). apply elem_of_filter_bool in Hx as [Hx Hm].
      apply list_index_Ok in Ex as [E1 E2]. by exists x.
    + intros (name & Hn & Hm & Hfirst). exists name. split.
      * apply elem_of_filter_bool. split; [|done]. by eapply list_elem_of_lookup_2.
      * by apply list_index_Ok.
  - intros Hnd. eapply Forall2_index_NoDup; [exact HF|].
    by apply NoDup_filter_bool.
Qed.

End MatchingJoints.

(** [get_jnt_idxs_matching] returns an int64 tensor on the controller's
    device holding, in the order of the joints, for every joint whose name
    contains the pattern the first position at which that name occurs; the
    names at these positions are those of [get_jnt_names_matching], and the
    positions are pairwise distinct when the joint names are. *)
Theorem jnt_idxs_matching_are_first_positions :
  ∀ (c : OmniJntImpCntrl.t) (name_pattern : string),
    ∃ idxs : list nat,
      OmniJntImpCntrl.get_jnt_idxs_matching c name_pattern
      = Ok (torch.index_tensor (OmniJntImpCntrl._device c) torch.int64
              (map Z.of_nat idxs))
      ∧ omap (λ i, OmniJntImpCntrl.jnts_names c !! i) idxs
        = OmniJntImpCntrl.get_jnt_names_matching c name_pattern
      ∧ (∀ col, col ∈ idxs ↔
           ∃ name, OmniJntImpCntrl.jnts_names c !! col = Some name
                   ∧ (∃ a b, name = a ++ name_pattern ++ b)
                   ∧ ∀ i, i < col → OmniJntImpCntrl.jnts_names c !! i ≠ Some name)
      ∧ (NoDup (OmniJntImpCntrl.jnts_names c) → NoDup idxs).
Proof.
  intros c p.
  destruct (get_jnt_idxs_matching_spec c p) as (idxs & E & Hnames & Hmem & Hnd).
  exists idxs. split; [done|]. split; [done|]. split; [|done].
  intros col. rewrite Hmem. by setoid_rewrite str_in_occurs.
Qed.

(** The indices of [get_jnt_idxs_matching] as joint selector.  With one
    name per joint: when some joint matches, [_validate_selectors] accepts
    them as a [VALID] joint subset; when none matches, the tensor is empty
    and [_validate_selectors] raises on its minimum. *)
Theorem jnt_idxs_matching_as_selector :
  ∀ (w : World OmniJntImpCntrl.t) (name_pattern : string) (idxs : torch.IndexTensor),
    length (OmniJntImpCntrl.jnts_names (obj w)) = OmniJntImpCntrl.n_dofs (obj w) →
    OmniJntImpCntrl.get_jnt_idxs_matching (obj w) name_pattern = Ok idxs →
    (OmniJntImpCntrl.get_jnt_names_matching (obj w) name_pattern ≠ [] →
     OmniJntImpCntrl._validate_selectors None (Some idxs) w
     = (Ok (OmniJntImpCntrl.NONE, OmniJntImpCntrl.VALID), w))
    ∧ (OmniJntImpCntrl.get_jnt_names_matching (obj w) name_pattern = [] →
       torch.ix_data idxs = []
       ∧ OmniJntImpCntrl._validate_selectors None (Some idxs) w
         = (Raise (RuntimeError "min(): Expected reduction dim to be specified for input.numel() == 0"),
            w)).
Proof.
  intros [c tr] p t Hlen Ht. simpl in *.
  destruct (get_jnt_idxs_matching_spec c p) as (idxs & E & Hnames & Hmem & _).
  rewrite E in Ht. injection Ht as <-. split.
  - intros Hne.
    assert (Hv : valid_index (OmniJntImpCntrl._device c) (OmniJntImpCntrl.n_dofs c)
                   (torch.index_tensor (OmniJntImpCntrl._device c) torch.int64
                      (map Z.of_nat idxs))).
    { unfold valid_index. simpl. repeat split.
      - destruct idxs; [|done]. simpl in Hnames. by rewrite <- Hnames in Hne.
      - apply Forall_forall. intros z Hz.
        apply list_elem_of_fmap in Hz as (col & -> & Hcol).
        apply Hmem in Hcol as (name & Hn & _).
        apply lookup_lt_Some in Hn. lia. }
    unfold OmniJntImpCntrl._validate_selectors, bind, get_self, lift, ret. simpl.
    rewrite (valid_index_sanity c _ _ Hv). done.
  - intros Hnil. rewrite Hnil in Hnames.
    assert (idxs = []) as ->.
    { destruct idxs as [|i idxs]; [done|]. exfalso.
      assert (Hi : i ∈ i :: idxs) by by left.
      apply Hmem in Hi as (name & Hn & _). simpl in Hnames. by rewrite Hn in Hnames. }
    split; [done|].
    unfold OmniJntImpCntrl._validate_selectors, OmniJntImpCntrl.sanity_checks,
      bind, get_self, lift, ret. simpl.
    by rewrite (proj2 (device_eqb_eq _ _) eq_refl).
Qed.

(** ** The task drives its controllers *)

(** Evaluation of a method on an object given by its fields; the effects
    stay a list of appends. *)
Ltac run_in H :=
  lazy beta iota zeta delta
    -[app FirstOrderFilter.__init__ String.eqb torch.full torch.zeros
      torch.sub OmniJntImpCntrl.imp_law] in H.

Section ControllerSteps.

Import torch OmniJntImpCntrl.

Implicit Types (c : OmniJntImpCntrl.t).

Lemma runs_reset c : _filter_dt c = None → runs reset c tt (reset_state c).
Proof.
  destruct c as [ov ioc gi ri pg vg bw fdt dev nr nd names
                 bpg bvg ber bpr bvr bpe bve bp bv be bie fa pf vf ef].
  simpl. intros -> tr.
  destruct (reset _) as [res w'] eqn:H.
  destruct ioc, ov; run_in H; injection H as <- <-;
    rewrite <- ?app_assoc;
    first [eexists; reflexivity | exists []; rewrite app_nil_r; reflexivity].
Qed.

Lemma runs_apply_cmds c : runs (apply_cmds false) c tt (applied c).
Proof.
  destruct c as [ov ioc gi ri pg vg bw fdt dev nr nd names
                 bpg bvg ber bpr bvr bpe bve bp bv be bie fa pf vf ef].
  intros tr.
  destruct (apply_cmds _ _) as [res w'] eqn:H.
  destruct gi, ri, ov; run_in H; injection H as <- <-;
    rewrite <- ?app_assoc;
    first [eexists; reflexivity | exists []; rewrite app_nil_r; reflexivity].
Qed.

Lemma read_applied k c : read k (applied c) = read k c.
Proof.
  destruct c as [ov ioc gi ri pg vg bw fdt dev nr nd names
                 bpg bvg ber bpr bvr bpe bve bp bv be bie fa pf vf ef].
  by destruct k, ov.
Qed.

Lemma flags_applied c :
  gains_initialized (applied c) = true ∧ refs_initialized (applied c) = true.
Proof.
  destruct c as [ov ioc gi ri pg vg bw fdt dev nr nd names
                 bpg bvg ber bpr bvr bpe bve bp bv be bie fa pf vf ef].
  by destruct ov.
Qed.

End ControllerSteps.

Section TaskControl.

Import torch CustomTaskControl.

Implicit Types (T : CustomTaskControl.t) (c : OmniJntImpCntrl.t).

Lemma runs_getitem_task {V} (d : gmap string V) key v T :
  d !! key = Some v → runs (getitem d key) T v T.
Proof. intros H tr. exists []. unfold getitem. rewrite H. by rewrite app_nil_r. Qed.

Lemma runs_on_controller {A} name (m : M OmniJntImpCntrl.t A) T c a c' :
  jnt_imp_controllers T !! name = Some c →
  runs m c a c' →
  runs (on_controller name m) T a (with_controller name c' T).
Proof.
  intros H Hr tr. destruct (Hr tr) as [out E]. exists out.
  unfold on_controller. cbn [obj trace]. rewrite H, E. done.
Qed.

Lemma raises_on_controller {A} name (m : M OmniJntImpCntrl.t A) T c e c' :
  jnt_imp_controllers T !! name = Some c →
  raises m c e c' →
  raises (on_controller name m) T e (with_controller name c' T).
Proof.
  intros H Hr tr. destruct (Hr tr) as [out E]. exists out.
  unfold on_controller. cbn [obj trace]. rewrite H, E. done.
Qed.

Lemma runs_try_except {A} (body handler : M CustomTaskControl.t A) T a T' :
  runs body T a T' → runs (try_except body handler) T a T'.
Proof.
  intros Hr tr. destruct (Hr tr) as [out E]. exists out.
  unfold try_except. by rewrite E.
Qed.

Lemma with_controller_lookup name c T :
  jnt_imp_controllers (with_controller name c T) !! name = Some c.
Proof. unfold with_controller. simpl. apply lookup_insert_eq. Qed.

Lemma with_controller_lookup_ne name name' c T :
  name' ≠ name →
  jnt_imp_controllers (with_controller name c T) !! name'
  = jnt_imp_controllers T !! name'.
Proof. intros H. unfold with_controller. simpl. by apply lookup_insert_ne. Qed.

Lemma with_controller_twice name c c' T :
  with_controller name c' (with_controller name c T) = with_controller name c' T.
Proof.
  unfold with_controller, set_jnt_imp_controllers. simpl.
  by rewrite insert_insert_eq.
Qed.

End TaskControl.

Section WheelGains.

Import torch OmniJntImpCntrl.

Implicit Types (c : OmniJntImpCntrl.t).

Lemma indices_of_nat (dev : device) (idxs : list nat) :
  indices (Some (index_tensor dev int64 (map Z.of_nat idxs))) = idxs.
Proof.
  unfold indices, index_tensor. simpl. rewrite map_map.
  induction idxs as [|i idxs IH]; [done|]. simpl. by rewrite Nat2Z.id, IH.
Qed.

Lemma valid_subset_of_nat c (idxs : list nat) :
  idxs ≠ [] → NoDup idxs → Forall (λ i, i < n_dofs c) idxs →
  valid_subset (_device c) (n_dofs c)
    (Some (index_tensor (_device c) int64 (map Z.of_nat idxs))).
Proof.
  intros Hne Hnd Hlt x [= <-]. split.
  - unfold valid_index. simpl. repeat split.
    + by destruct idxs.
    + apply Forall_forall. intros z Hz.
      apply list_elem_of_fmap in Hz as (i & -> & Hi).
      rewrite Forall_forall in Hlt. specialize (Hlt i Hi). lia.
  - simpl. apply NoDup_fmap; [|done]. intros a b. apply Nat2Z.inj.
Qed.

Lemma valid_subset_None dev bound : valid_subset dev bound None.
Proof. by intros x. Qed.

(** Writing one value into the columns [idxs] of every row. *)
Lemma assign_columns c buf (idxs : list nat) (v : Q) (d : device) :
  has_shape (num_robots c) (n_dofs c) buf →
  idxs ≠ [] → NoDup idxs → Forall (λ i, i < n_dofs c) idxs →
  let t := index_tensor (_device c) int64 (map Z.of_nat idxs) in
  let s := CustomTaskControl.full_tensor (num_robots c) (length idxs) v d in
  let buf' := assign buf s (selector_of c None (Some t)) in
  has_shape (num_robots c) (n_dofs c) buf'
  ∧ ∀ i j, i < num_robots c → j < n_dofs c →
      mat_at buf' i j = if bool_decide (j ∈ idxs) then v else mat_at buf i j.
Proof.
  intros Hs Hne Hnd Hlt. cbv zeta.
  pose proof (valid_subset_of_nat c idxs Hne Hnd Hlt) as Hj.
  pose proof (valid_subset_None (_device c) (num_robots c)) as Hr.
  destruct (assign_valid c buf
              (CustomTaskControl.full_tensor (num_robots c) (length idxs) v d)
              None _ Hs Hr Hj) as (Hshape & Hhit & Hframe).
  split; [done|]. intros i j Hi Hjn.
  unfold resolved in Hhit, Hframe. rewrite indices_of_nat in Hhit, Hframe.
  destruct (bool_decide (j ∈ idxs)) eqn:E.
  - apply bool_decide_eq_true in E.
    apply list_elem_of_lookup in E as [b Hb].
    rewrite (Hhit i b i j); [|by apply lookup_seq|done].
    unfold CustomTaskControl.full_tensor. simpl.
    apply mat_at_full; [done|]. by eapply lookup_lt_Some.
  - apply bool_decide_eq_false in E. apply Hframe. tauto.
Qed.

End WheelGains.

Section GainSteps.

Import torch OmniJntImpCntrl.

Implicit Types (c : OmniJntImpCntrl.t).

Lemma len_index_tensor dev (idxs : list nat) :
  CustomTaskControl.len (index_tensor dev int64 (map Z.of_nat idxs)) = length idxs.
Proof. unfold CustomTaskControl.len, index_tensor. simpl. by rewrite length_map. Qed.

Lemma numel_index_tensor dev (idxs : list nat) :
  CustomTaskControl.numel (index_tensor dev int64 (map Z.of_nat idxs)) = length idxs.
Proof. unfold CustomTaskControl.numel, index_tensor. simpl. by rewrite length_map. Qed.

(** The gains of the columns [idxs] are overwritten in every row. *)
Lemma runs_set_gains_columns c (idxs : list nat) (kp kd : Q) :
  idxs ≠ [] → NoDup idxs → Forall (λ i, i < n_dofs c) idxs →
  has_shape (num_robots c) (n_dofs c) (_pos_gains c) →
  has_shape (num_robots c) (n_dofs c) (_vel_gains c) →
  let t := index_tensor (_device c) int64 (map Z.of_nat idxs) in
  ∃ c',
    runs (set_gains
            (Some (CustomTaskControl.full_tensor (num_robots c)
                     (CustomTaskControl.len t) kp (_device c)))
            (Some (CustomTaskControl.full_tensor (num_robots c)
                     (CustomTaskControl.len t) kd (_device c)))
            None (Some t)) c [true; true; true] c'
    ∧ (∀ k, k ≠ PGain → k ≠ VGain → read k c' = read k c)
    ∧ num_robots c' = num_robots c ∧ n_dofs c' = n_dofs c
    ∧ _device c' = _device c ∧ jnts_names c' = jnts_names c
    ∧ has_shape (num_robots c) (n_dofs c) (_pos_gains c')
    ∧ has_shape (num_robots c) (n_dofs c) (_vel_gains c')
    ∧ ∀ i j, i < num_robots c → j < n_dofs c →
        mat_at (_pos_gains c') i j
        = (if bool_decide (j ∈ idxs) then kp else mat_at (_pos_gains c) i j)
        ∧ mat_at (_vel_gains c') i j
          = (if bool_decide (j ∈ idxs) then kd else mat_at (_vel_gains c) i j).
Proof.
  intros Hne Hnd Hlt Hpg Hvg. cbv zeta. rewrite len_index_tensor.
  pose proof (valid_subset_of_nat c idxs Hne Hnd Hlt) as Hj.
  pose proof (valid_subset_None (_device c) (num_robots c)) as Hr.
  set (t := index_tensor (_device c) int64 (map Z.of_nat idxs)) in *.
  set (wp := CustomTaskControl.full_tensor (num_robots c) (length idxs) kp (_device c)).
  set (wv := CustomTaskControl.full_tensor (num_robots c) (length idxs) kd (_device c)).
  assert (Hfit : fits c wp (selector_of c None (Some t)) = true).
  { apply fits_valid; try done.
    - simpl. by rewrite length_seq.
    - unfold resolved. subst t. by rewrite indices_of_nat. }
  pose proof (yields_runs _ _ _ _ _ (yields_set_gains c wp wv None (Some t) Hr Hj Hfit))
    as Hrun.
  eexists. split; [exact Hrun|].
  destruct (assign_columns c (_pos_gains c) idxs kp (_device c) Hpg Hne Hnd Hlt)
    as (Hsp & Hcp).
  destruct (assign_columns c (_vel_gains c) idxs kd (_device c) Hvg Hne Hnd Hlt)
    as (Hsv & Hcv).
  split; [intros k Hk1 Hk2; by destruct k|].
  repeat (match goal with |- _ ∧ _ => split end); try done.
  - intros i j Hi Hjn. split; [by apply Hcp|by apply Hcv].
Qed.

(** The gains of every cell are overwritten. *)
Lemma runs_set_gains_full c (kp kd : Q) :
  has_shape (num_robots c) (n_dofs c) (_pos_gains c) →
  has_shape (num_robots c) (n_dofs c) (_vel_gains c) →
  ∃ c',
    runs (set_gains
            (Some (CustomTaskControl.full_tensor (num_robots c) (n_dofs c) kp (_device c)))
            (Some (CustomTaskControl.full_tensor (num_robots c) (n_dofs c) kd (_device c)))
            None None) c [true; true; true] c'
    ∧ (∀ k, k ≠ PGain → k ≠ VGain → read k c' = read k c)
    ∧ num_robots c' = num_robots c ∧ n_dofs c' = n_dofs c
    ∧ _device c' = _device c ∧ jnts_names c' = jnts_names c
    ∧ _pos_gains c' = torch.full (num_robots c) (n_dofs c) kp
    ∧ _vel_gains c' = torch.full (num_robots c) (n_dofs c) kd.
Proof.
  intros Hpg Hvg.
  pose proof (valid_subset_None (_device c) (num_robots c)) as Hr.
  pose proof (valid_subset_None (_device c) (n_dofs c)) as Hj.
  set (wp := CustomTaskControl.full_tensor (num_robots c) (n_dofs c) kp (_device c)).
  set (wv := CustomTaskControl.full_tensor (num_robots c) (n_dofs c) kd (_device c)).
  assert (Hfit : fits c wp (selector_of c None None) = true).
  { apply fits_valid; try done; simpl; by rewrite length_seq. }
  pose proof (yields_runs _ _ _ _ _ (yields_set_gains c wp wv None None Hr Hj Hfit))
    as Hrun.
  eexists. split; [exact Hrun|].
  split; [intros k Hk1 Hk2; by destruct k|].
  repeat (match goal with |- _ ∧ _ => split end); try done.
  - simpl. apply (slice_assign_same_shape (num_robots c) (n_dofs c));
      [done|apply full_shape].
  - simpl. apply (slice_assign_same_shape (num_robots c) (n_dofs c));
      [done|apply full_shape].
Qed.

End GainSteps.

Section ResetControl.

Import torch CustomTaskControl.

Implicit Types (T : CustomTaskControl.t) (c : OmniJntImpCntrl.t).

(** With distinct joint names, the positions returned for a pattern are
    exactly those of the names that contain it. *)
Lemma matching_positions c p :
  NoDup (OmniJntImpCntrl.jnts_names c) →
  length (OmniJntImpCntrl.jnts_names c) = OmniJntImpCntrl.n_dofs c →
  ∃ idxs,
    OmniJntImpCntrl.get_jnt_idxs_matching c p
    = Ok (index_tensor (OmniJntImpCntrl._device c) int64 (map Z.of_nat idxs))
    ∧ NoDup idxs
    ∧ Forall (λ i, i < OmniJntImpCntrl.n_dofs c) idxs
    ∧ ∀ j jname, OmniJntImpCntrl.jnts_names c !! j = Some jname →
        bool_decide (j ∈ idxs) = str_in p jname.
Proof.
  intros Hnd Hlen.
  destruct (get_jnt_idxs_matching_spec c p) as (idxs & E & _ & Hmem & Hnd').
  exists idxs. split; [done|]. split; [by apply Hnd'|]. split.
  - apply Forall_forall. intros i Hi. apply Hmem in Hi as (name & Hn & _).
    apply lookup_lt_Some in Hn. lia.
  - intros j jname Hj. destruct (str_in p jname) eqn:Em.
    + apply bool_decide_eq_true. apply Hmem. exists jname.
      split; [done|]. split; [done|]. intros i Hi Hi'.
      pose proof (NoDup_lookup _ _ _ _ Hnd Hi' Hj). lia.
    + apply bool_decide_eq_false. intros Hin.
      apply Hmem in Hin as (name & Hn & Hm & _). congruence.
Qed.

Lemma runs_wheels_indxs c t :
  OmniJntImpCntrl.get_jnt_idxs_matching c "wheel" = Ok t →
  runs (c ← get_self; lift (OmniJntImpCntrl.get_jnt_idxs_matching c "wheel")) c t c.
Proof.
  intros E. eapply runs_bind; [apply runs_get_self|]. cbv beta. rewrite E.
  apply runs_lift.
Qed.

Lemma classifiable_None : classifiable None.
Proof. by intros x. Qed.

Lemma reset_state_fields c :
  OmniJntImpCntrl.num_robots (reset_state c) = OmniJntImpCntrl.num_robots c
  ∧ OmniJntImpCntrl.n_dofs (reset_state c) = OmniJntImpCntrl.n_dofs c
  ∧ OmniJntImpCntrl._device (reset_state c) = OmniJntImpCntrl._device c
  ∧ OmniJntImpCntrl.jnts_names (reset_state c) = OmniJntImpCntrl.jnts_names c
  ∧ cntrl_shaped (reset_state c).
Proof.
  repeat split; try done; apply full_shape.
Qed.

Lemma fits_full_shape c s :
  t_rows s = OmniJntImpCntrl.num_robots c → t_cols s = OmniJntImpCntrl.n_dofs c →
  t_device s = OmniJntImpCntrl._device c →
  fits c s None = true.
Proof.
  intros Hr Hc Hd. unfold fits. rewrite Hr, Hc, Hd, !Nat.eqb_refl. simpl.
  by apply device_eqb_eq.
Qed.

Lemma mat_at_assign_full c buf s i j :
  has_shape (OmniJntImpCntrl.num_robots c) (OmniJntImpCntrl.n_dofs c) buf →
  i < OmniJntImpCntrl.num_robots c → j < OmniJntImpCntrl.n_dofs c →
  mat_at (OmniJntImpCntrl.assign buf s None) i j = t_at s i j.
Proof. intros H Hi Hj. simpl. by eapply mat_at_slice_assign. Qed.

End ResetControl.

Section ResetRun.

Import torch CustomTaskControl.

(** What [_reset_jnt_imp_control] does after the wheel gains: the homing
    as position reference inside [try], then [apply_cmds()]. *)
Let homing_then_apply (name : string) (self : CustomTaskControl.t)
    : M CustomTaskControl.t unit :=
  try_except
    (_ ← getitem (jnt_imp_controllers self) name;
     homer ← getitem (homers self) name;
     _ ← on_controller name
           (OmniJntImpCntrl.set_refs None
              (Some (homing_tensor (torch_device self) homer)) None None None);
     ret tt)
    (self ← get_self;
     _ ← getattr "init_imp_control" (init_imp_control self);
     print ": cannot set imp. controller reference to homing. Did you call the init_homing_managers method ?");;
  on_controller name (OmniJntImpCntrl.apply_cmds false).

(** [_reset_jnt_imp_control] up to the wheel gains: the controller is
    reset, takes the joint state of the task and the wheel gains on the
    wheel joints. *)
Lemma reset_prefix_run (T : CustomTaskControl.t) (name : string)
    (c : OmniJntImpCntrl.t) (pos vel : Tensor2D) :
  controller_of T name c →
  jnts_q T !! name = Some pos →
  jnts_v T !! name = Some vel →
  state_of T c pos → state_of T c vel →
  ∃ c3,
    (∀ T', runs (homing_then_apply name (with_controller name (reset_state c) T))
                (with_controller name c3 T) tt T' →
           runs (_reset_jnt_imp_control name) T tt T')
    ∧ (∀ e T', raises (homing_then_apply name (with_controller name (reset_state c) T))
                  (with_controller name c3 T) e T' →
               raises (_reset_jnt_imp_control name) T e T')
    ∧ OmniJntImpCntrl.num_robots c3 = OmniJntImpCntrl.num_robots c
    ∧ OmniJntImpCntrl.n_dofs c3 = OmniJntImpCntrl.n_dofs c
    ∧ OmniJntImpCntrl._device c3 = OmniJntImpCntrl._device c
    ∧ cntrl_shaped c3
    ∧ ∀ i j jname,
        i < num_envs T →
        OmniJntImpCntrl.jnts_names c !! j = Some jname →
        mat_at (OmniJntImpCntrl._pos_gains c3) i j
        = (if is_wheel jname then default_wheel_stiffness T
           else OmniJntImpCntrl._default_pgain c)
        ∧ mat_at (OmniJntImpCntrl._vel_gains c3) i j
          = (if is_wheel jname then default_wheel_damping T
             else OmniJntImpCntrl._default_vgain c)
        ∧ mat_at (OmniJntImpCntrl._pos c3) i j = t_at pos i j
        ∧ mat_at (OmniJntImpCntrl._vel c3) i j = t_at vel i j
        ∧ mat_at (OmniJntImpCntrl._eff c3) i j = 0%Q
        ∧ mat_at (OmniJntImpCntrl._pos_ref c3) i j = 0%Q
        ∧ mat_at (OmniJntImpCntrl._vel_ref c3) i j = 0%Q
        ∧ mat_at (OmniJntImpCntrl._eff_ref c3) i j = 0%Q.
Proof.
  intros (Hc & Hnr & Hdev & Hlen & Hnd & Hfdt)
    Hpos Hvel (Hpr & Hpc & Hpd) (Hvr & Hvc & Hvd).
  (* the controller after [reset] and after [update_state] *)
  set (c1 := reset_state c).
  destruct (reset_state_fields c) as (E1r & E1c & E1d & E1n & Hs1).
  fold c1 in E1r, E1c, E1d, E1n, Hs1.
  assert (Hfp : accepted (Some pos) None c1 = true).
  { apply fits_full_shape; congruence. }
  assert (Hfv : accepted (Some vel) None (put Pos (Some pos) None c1) = true).
  { rewrite accepted_put. apply fits_full_shape; congruence. }
  set (c2 := put Vel (Some vel) None (put Pos (Some pos) None c1)).
  assert (Hs2 : cntrl_shaped c2) by (by do 2 apply put_shaped).
  assert (E2 : OmniJntImpCntrl.num_robots c2 = OmniJntImpCntrl.num_robots c
               ∧ OmniJntImpCntrl.n_dofs c2 = OmniJntImpCntrl.n_dofs c
               ∧ OmniJntImpCntrl._device c2 = OmniJntImpCntrl._device c
               ∧ OmniJntImpCntrl.jnts_names c2 = OmniJntImpCntrl.jnts_names c).
  { subst c2.
    destruct (put_dims Vel (Some vel) None (put Pos (Some pos) None c1))
      as (-> & -> & -> & _ & _ & _ & _ & ->).
    destruct (put_dims Pos (Some pos) None c1) as (-> & -> & -> & _ & _ & _ & _ & ->).
    done. }
  destruct E2 as (E2r & E2c & E2d & E2n).
  (* the wheels *)
  destruct (matching_positions c2 "wheel") as (idxs & Eidx & Hnd' & Hlt & Hmem);
    [by rewrite E2n | by rewrite E2n, E2c |].
  set (t := torch.index_tensor (OmniJntImpCntrl._device c2) torch.int64
              (map Z.of_nat idxs)) in *.
  assert (Hc3 : ∃ c3,
    runs (if negb (CustomTaskControl.numel t =? 0)%nat then
            _ ← CustomTaskControl.on_controller name
                  (OmniJntImpCntrl.set_gains
                     (Some (CustomTaskControl.full_tensor (CustomTaskControl.num_envs T)
                              (CustomTaskControl.len t)
                              (CustomTaskControl.default_wheel_stiffness T)
                              (CustomTaskControl.torch_device T)))
                     (Some (CustomTaskControl.full_tensor (CustomTaskControl.num_envs T)
                              (CustomTaskControl.len t)
                              (CustomTaskControl.default_wheel_damping T)
                              (CustomTaskControl.torch_device T)))
                     None (Some t));
            ret tt
          else ret tt)
         (with_controller name c2 T) tt (with_controller name c3 T)
    ∧ (∀ k, k ≠ PGain → k ≠ VGain → read k c3 = read k c2)
    ∧ OmniJntImpCntrl.num_robots c3 = OmniJntImpCntrl.num_robots c
    ∧ OmniJntImpCntrl.n_dofs c3 = OmniJntImpCntrl.n_dofs c
    ∧ OmniJntImpCntrl._device c3 = OmniJntImpCntrl._device c
    ∧ cntrl_shaped c3
    ∧ ∀ i j, i < OmniJntImpCntrl.num_robots c → j < OmniJntImpCntrl.n_dofs c →
        mat_at (OmniJntImpCntrl._pos_gains c3) i j
        = (if bool_decide (j ∈ idxs) then CustomTaskControl.default_wheel_stiffness T
           else mat_at (OmniJntImpCntrl._pos_gains c2) i j)
        ∧ mat_at (OmniJntImpCntrl._vel_gains c3) i j
          = (if bool_decide (j ∈ idxs) then CustomTaskControl.default_wheel_damping T
             else mat_at (OmniJntImpCntrl._vel_gains c2) i j)).
  { subst t. rewrite numel_index_tensor.
    destruct idxs as [|i0 idxs'] eqn:Ei.
    - exists c2. split; [apply runs_ret|]. split; [done|].
      repeat (match goal with |- _ ∧ _ => split end); try done.
    - rewrite <- Ei in *. assert (Hne : idxs ≠ []) by (by rewrite Ei).
      replace (negb (length idxs =? 0)%nat) with true by (by rewrite Ei).
      pose proof (proj1 (cntrl_shaped_read c2) Hs2) as Hs2'.
      destruct (runs_set_gains_columns c2 idxs
                  (CustomTaskControl.default_wheel_stiffness T)
                  (CustomTaskControl.default_wheel_damping T) Hne Hnd' Hlt
                  (Hs2' PGain) (Hs2' VGain))
        as (c3 & Hrun & Hfr & E3r & E3c & E3d & E3n & Hsp & Hsv & Hcells).
      exists c3. split.
      { eapply runs_bind; [|apply runs_ret].
        rewrite <- (with_controller_twice name c2 c3 T).
        eapply runs_on_controller; [apply with_controller_lookup|].
        rewrite <- Hnr, <- Hdev, <- E2r, <- E2d. exact Hrun. }
      split; [done|].
      repeat (match goal with |- _ ∧ _ => split end); try congruence.
      + apply cntrl_shaped_read. intros k. rewrite E3r, E3c.
        destruct (decide (k = PGain)) as [->|Hk1]; [done|].
        destruct (decide (k = VGain)) as [->|Hk2]; [done|].
        rewrite Hfr by done. apply Hs2'.
      + intros i j Hi Hj. apply Hcells; congruence. }
  destruct Hc3 as (c3 & Hrun3 & Hframe3 & E3r & E3c & E3d & Hs3 & Hcells3).
  exists c3.
  split; [|split].
  - intros T' Hrest. unfold _reset_jnt_imp_control.
    eapply runs_bind;
      [eapply runs_on_controller; [exact Hc|by apply runs_reset]|]. cbv beta.
    fold c1.
    eapply runs_bind; [apply runs_get_self|]. cbv beta.
    eapply runs_bind;
      [eapply runs_getitem_task; apply with_controller_lookup|]. cbv beta.
    eapply runs_bind; [eapply runs_getitem_task; exact Hpos|]. cbv beta.
    eapply runs_bind; [eapply runs_getitem_task; exact Hvel|]. cbv beta.
    eapply runs_bind.
    { eapply runs_on_controller; [apply with_controller_lookup|].
      apply runs_update_state; apply classifiable_None. }
    cbv beta. rewrite with_controller_twice.
    change (put Eff None (selector_of c1 None None)
              (put Vel (Some vel) (selector_of c1 None None)
                 (put Pos (Some pos) (selector_of c1 None None) c1))) with c2.
    eapply runs_bind.
    { eapply runs_on_controller; [apply with_controller_lookup|].
      apply runs_wheels_indxs. exact Eidx. }
    cbv beta. rewrite with_controller_twice.
    eapply runs_bind; [exact Hrun3|]. cbv beta.
    exact Hrest.
  - intros e T' Hrest. unfold _reset_jnt_imp_control.
    eapply runs_raises_bind;
      [eapply runs_on_controller; [exact Hc|by apply runs_reset]|]. cbv beta.
    fold c1.
    eapply runs_raises_bind; [apply runs_get_self|]. cbv beta.
    eapply runs_raises_bind;
      [eapply runs_getitem_task; apply with_controller_lookup|]. cbv beta.
    eapply runs_raises_bind; [eapply runs_getitem_task; exact Hpos|]. cbv beta.
    eapply runs_raises_bind; [eapply runs_getitem_task; exact Hvel|]. cbv beta.
    eapply runs_raises_bind.
    { eapply runs_on_controller; [apply with_controller_lookup|].
      apply runs_update_state; apply classifiable_None. }
    cbv beta. rewrite with_controller_twice.
    change (put Eff None (selector_of c1 None None)
              (put Vel (Some vel) (selector_of c1 None None)
                 (put Pos (Some pos) (selector_of c1 None None) c1))) with c2.
    eapply runs_raises_bind.
    { eapply runs_on_controller; [apply with_controller_lookup|].
      apply runs_wheels_indxs. exact Eidx. }
    cbv beta. rewrite with_controller_twice.
    eapply runs_raises_bind; [exact Hrun3|]. cbv beta.
    exact Hrest.
  - split; [done|]. split; [done|]. split; [done|]. split; [done|].
    intros i j jname Hi Hj.
    assert (Hi' : i < OmniJntImpCntrl.num_robots c) by lia.
    assert (Hj' : j < OmniJntImpCntrl.n_dofs c).
    { apply lookup_lt_Some in Hj. lia. }
    destruct (Hcells3 i j Hi' Hj') as [Hpg3 Hvg3].
    rewrite (Hmem j jname) in Hpg3, Hvg3 by (by rewrite E2n).
    assert (R2 : ∀ k, k ≠ Pos → k ≠ Vel → read k c2 = read k c1).
    { intros k Hk1 Hk2. subst c2. by rewrite !read_put_ne. }
    pose proof (proj1 (cntrl_shaped_read c1) Hs1) as Hs1'.
    assert (Hz : ∀ k, k ≠ PGain → k ≠ VGain → mat_at (read k c1) i j = 0%Q).
    { intros k Hk1 Hk2.
      destruct k; try done; apply (mat_at_full _ _ 0%Q); done. }
    repeat (match goal with |- _ ∧ _ => split end).
    + rewrite Hpg3.
      unfold is_wheel. destruct (str_in "wheel" jname); [done|].
      change (OmniJntImpCntrl._pos_gains c2) with (read PGain c2). rewrite R2 by done.
      by apply mat_at_full.
    + rewrite Hvg3.
      unfold is_wheel. destruct (str_in "wheel" jname); [done|].
      change (OmniJntImpCntrl._vel_gains c2) with (read VGain c2). rewrite R2 by done.
      by apply mat_at_full.
    + change (OmniJntImpCntrl._pos c3) with (read Pos c3).
      rewrite Hframe3 by done. subst c2.
      rewrite read_put_ne by done. rewrite read_put_accepted by done.
      apply (mat_at_assign_full c1); [apply Hs1'|lia|lia].
    + change (OmniJntImpCntrl._vel c3) with (read Vel c3).
      rewrite Hframe3 by done. subst c2.
      rewrite read_put_accepted by done. rewrite read_put_ne by done.
      apply (mat_at_assign_full c1); [apply Hs1'|lia|lia].
    + change (OmniJntImpCntrl._eff c3) with (read Eff c3).
      rewrite Hframe3, R2 by done. by apply Hz.
    + change (OmniJntImpCntrl._pos_ref c3) with (read PosRef c3).
      rewrite Hframe3, R2 by done. by apply Hz.
    + change (OmniJntImpCntrl._vel_ref c3) with (read VelRef c3).
      rewrite Hframe3, R2 by done. by apply Hz.
    + change (OmniJntImpCntrl._eff_ref c3) with (read EffRef c3).
      rewrite Hframe3, R2 by done. by apply Hz.
Qed.

(** [_reset_jnt_imp_control] on a task whose controller, joint state and
    homing of [name] agree. *)
Lemma reset_jnt_imp_control_run (T : CustomTaskControl.t) (name : string)
    (c : OmniJntImpCntrl.t) (pos vel : Tensor2D) (homer : OmniRobotHomer.t) :
  controller_of T name c →
  jnts_q T !! name = Some pos →
  jnts_v T !! name = Some vel →
  homers T !! name = Some homer →
  state_of T c pos → state_of T c vel →
  OmniRobotHomer.num_robots homer = num_envs T →
  OmniRobotHomer.n_dofs homer = OmniJntImpCntrl.n_dofs c →
  ∃ c',
    runs (_reset_jnt_imp_control name) T tt (with_controller name c' T)
    ∧ OmniJntImpCntrl.gains_initialized c' = true
    ∧ OmniJntImpCntrl.refs_initialized c' = true
    ∧ ∀ i j jname,
        i < num_envs T →
        OmniJntImpCntrl.jnts_names c !! j = Some jname →
        mat_at (OmniJntImpCntrl._pos_gains c') i j
        = (if is_wheel jname then default_wheel_stiffness T
           else OmniJntImpCntrl._default_pgain c)
        ∧ mat_at (OmniJntImpCntrl._vel_gains c') i j
          = (if is_wheel jname then default_wheel_damping T
             else OmniJntImpCntrl._default_vgain c)
        ∧ mat_at (OmniJntImpCntrl._pos c') i j = t_at pos i j
        ∧ mat_at (OmniJntImpCntrl._vel c') i j = t_at vel i j
        ∧ mat_at (OmniJntImpCntrl._eff c') i j = 0%Q
        ∧ mat_at (OmniJntImpCntrl._pos_ref c') i j
          = mat_at (OmniRobotHomer.get_homing homer) i j
        ∧ mat_at (OmniJntImpCntrl._vel_ref c') i j = 0%Q
        ∧ mat_at (OmniJntImpCntrl._eff_ref c') i j = 0%Q.
Proof.
  intros Hco Hpos Hvel Hhomer Hsp Hsv Hhr Hhc.
  destruct (reset_prefix_run T name c pos vel Hco Hpos Hvel Hsp Hsv)
    as (c3 & Hruns & _ & E3r & E3c & E3d & Hs3 & Hcells3).
  destruct Hco as (Hc & Hnr & Hdev & Hlen & Hnd & Hfdt).
  (* the homing as position reference *)
  set (hom := homing_tensor (torch_device T) homer).
  assert (Hfh : accepted (Some hom) None c3 = true).
  { apply fits_full_shape; simpl; congruence. }
  set (c4 := put PosRef (Some hom) None c3).
  set (c5 := applied c4).
  exists c5. split.
  { apply Hruns. unfold homing_then_apply.
    eapply runs_bind.
    { apply runs_try_except.
      eapply runs_bind;
        [eapply runs_getitem_task; apply with_controller_lookup|]. cbv beta.
      eapply runs_bind; [eapply runs_getitem_task; exact Hhomer|]. cbv beta.
      eapply runs_bind; [|apply runs_ret].
      eapply runs_on_controller; [apply with_controller_lookup|].
      apply runs_set_refs; apply classifiable_None. }
    cbv beta. rewrite with_controller_twice.
    change (put VelRef None (selector_of c3 None None)
              (put PosRef (Some (homing_tensor
                                   (torch_device
                                      (with_controller name (reset_state c) T)) homer))
                 (selector_of c3 None None)
                 (put EffRef None (selector_of c3 None None) c3))) with c4.
    rewrite <- (with_controller_twice name c4 c5 T).
    eapply runs_on_controller; [apply with_controller_lookup|].
    apply runs_apply_cmds. }
  destruct (flags_applied c4) as [Hg Hr]. fold c5 in Hg, Hr.
  split; [done|]. split; [done|].
  (* the buffers *)
  intros i j jname Hi Hj.
  assert (Hi' : i < OmniJntImpCntrl.num_robots c) by lia.
  assert (Hj' : j < OmniJntImpCntrl.n_dofs c).
  { apply lookup_lt_Some in Hj. lia. }
  destruct (Hcells3 i j jname Hi Hj) as (G1 & G2 & G3 & G4 & G5 & _ & G7 & G8).
  assert (R5 : ∀ k, read k c5 = read k c4) by (intros k; apply read_applied).
  assert (R4 : ∀ k, k ≠ PosRef → read k c4 = read k c3)
    by (intros k Hk; by apply read_put_ne).
  pose proof (proj1 (cntrl_shaped_read c3) Hs3) as Hs3'.
  repeat (match goal with |- _ ∧ _ => split end).
  - change (OmniJntImpCntrl._pos_gains c5) with (read PGain c5).
    rewrite R5, R4 by done. exact G1.
  - change (OmniJntImpCntrl._vel_gains c5) with (read VGain c5).
    rewrite R5, R4 by done. exact G2.
  - change (OmniJntImpCntrl._pos c5) with (read Pos c5).
    rewrite R5, R4 by done. exact G3.
  - change (OmniJntImpCntrl._vel c5) with (read Vel c5).
    rewrite R5, R4 by done. exact G4.
  - change (OmniJntImpCntrl._eff c5) with (read Eff c5).
    rewrite R5, R4 by done. exact G5.
  - change (OmniJntImpCntrl._pos_ref c5) with (read PosRef c5). rewrite R5. subst c4.
    rewrite read_put_accepted by done.
    rewrite (mat_at_assign_full c3); [done|apply Hs3'|lia|lia].
  - change (OmniJntImpCntrl._vel_ref c5) with (read VelRef c5).
    rewrite R5, R4 by done. exact G7.
  - change (OmniJntImpCntrl._eff_ref c5) with (read EffRef c5).
    rewrite R5, R4 by done. exact G8.
Qed.

Lemma raises_try_except {A} (body handler : M CustomTaskControl.t A) T e T1 e' T2 :
  raises body T e T1 → raises handler T1 e' T2 →
  raises (try_except body handler) T e' T2.
Proof.
  intros Hb Hh tr. destruct (Hb tr) as [out1 E1].
  destruct (Hh (tr ++ out1)%list) as [out2 E2].
  exists (out1 ++ out2)%list. unfold try_except. rewrite E1, E2.
  by rewrite app_assoc.
Qed.

(** Without a homer for the robot, the [except] block is entered and
    raises. *)
Lemma reset_without_homer_raises (T : CustomTaskControl.t) (name : string)
    (c : OmniJntImpCntrl.t) (pos vel : Tensor2D) :
  controller_of T name c →
  jnts_q T !! name = Some pos →
  jnts_v T !! name = Some vel →
  homers T !! name = None →
  state_of T c pos → state_of T c vel →
  ∃ c',
    raises (_reset_jnt_imp_control name) T (AttributeError "init_imp_control")
      (with_controller name c' T)
    ∧ ∀ i j jname,
        i < num_envs T →
        OmniJntImpCntrl.jnts_names c !! j = Some jname →
        mat_at (OmniJntImpCntrl._pos_gains c') i j
        = (if is_wheel jname then default_wheel_stiffness T
           else OmniJntImpCntrl._default_pgain c)
        ∧ mat_at (OmniJntImpCntrl._vel_gains c') i j
          = (if is_wheel jname then default_wheel_damping T
             else OmniJntImpCntrl._default_vgain c)
        ∧ mat_at (OmniJntImpCntrl._pos c') i j = t_at pos i j
        ∧ mat_at (OmniJntImpCntrl._vel c') i j = t_at vel i j
        ∧ mat_at (OmniJntImpCntrl._eff c') i j = 0%Q
        ∧ mat_at (OmniJntImpCntrl._pos_ref c') i j = 0%Q
        ∧ mat_at (OmniJntImpCntrl._vel_ref c') i j = 0%Q
        ∧ mat_at (OmniJntImpCntrl._eff_ref c') i j = 0%Q.
Proof.
  intros Hco Hpos Hvel Hhomer Hsp Hsv.
  destruct (reset_prefix_run T name c pos vel Hco Hpos Hvel Hsp Hsv)
    as (c3 & _ & Hraises & _ & _ & _ & _ & Hcells3).
  exists c3. split; [|exact Hcells3].
  apply Hraises. unfold homing_then_apply.
  apply raises_bind.
  eapply raises_try_except.
  - eapply runs_raises_bind;
      [eapply runs_getitem_task; apply with_controller_lookup|]. cbv beta.
    apply raises_bind. unfold getitem.
    change (homers (with_controller name (reset_state c) T)) with (homers T).
    rewrite Hhomer. apply raises_raise.
  - eapply runs_raises_bind; [apply runs_get_self|]. cbv beta.
    apply raises_bind. apply raises_raise.
Qed.

End ResetRun.

(** [_reset_jnt_imp_control] on a robot whose controller, joint state and
    homer agree in shape and device: the call returns, both flags of the
    controller are set, and cell by cell the gains are the task's wheel
    defaults on the joints whose name contains "wheel" and the controller's
    defaults elsewhere, position and velocity are the task's joint state,
    the effort is zero, the position reference is the homing and the other
    references are zero.  The controllers of the other robots are
    untouched. *)
Theorem reset_jnt_imp_control_outcome :
  ∀ (w : World CustomTaskControl.t) (name : string) (c : OmniJntImpCntrl.t)
    (pos vel : torch.Tensor2D) (homer : OmniRobotHomer.t),
    let T := obj w in
    controller_of T name c →
    CustomTaskControl.jnts_q T !! name = Some pos →
    CustomTaskControl.jnts_v T !! name = Some vel →
    CustomTaskControl.homers T !! name = Some homer →
    state_of T c pos → state_of T c vel →
    OmniRobotHomer.num_robots homer = CustomTaskControl.num_envs T →
    OmniRobotHomer.n_dofs homer = OmniJntImpCntrl.n_dofs c →
    ∃ w' c',
      CustomTaskControl._reset_jnt_imp_control name w = (Ok tt, w')
      ∧ CustomTaskControl.jnt_imp_controllers (obj w') !! name = Some c'
      ∧ (∀ other, other ≠ name →
           CustomTaskControl.jnt_imp_controllers (obj w') !! other
           = CustomTaskControl.jnt_imp_controllers T !! other)
      ∧ OmniJntImpCntrl.gains_initialized c' = true
      ∧ OmniJntImpCntrl.refs_initialized c' = true
      ∧ ∀ i j jname,
          i < CustomTaskControl.num_envs T →
          OmniJntImpCntrl.jnts_names c !! j = Some jname →
          mat_at (OmniJntImpCntrl._pos_gains c') i j
          = (if is_wheel jname then CustomTaskControl.default_wheel_stiffness T
             else OmniJntImpCntrl._default_pgain c)
          ∧ mat_at (OmniJntImpCntrl._vel_gains c') i j
            = (if is_wheel jname then CustomTaskControl.default_wheel_damping T
               else OmniJntImpCntrl._default_vgain c)
          ∧ mat_at (OmniJntImpCntrl._pos c') i j = torch.t_at pos i j
          ∧ mat_at (OmniJntImpCntrl._vel c') i j = torch.t_at vel i j
          ∧ mat_at (OmniJntImpCntrl._eff c') i j = 0%Q
          ∧ mat_at (OmniJntImpCntrl._pos_ref c') i j
            = mat_at (OmniRobotHomer.get_homing homer) i j
          ∧ mat_at (OmniJntImpCntrl._vel_ref c') i j = 0%Q
          ∧ mat_at (OmniJntImpCntrl._eff_ref c') i j = 0%Q.
Proof.
  intros [T tr] name c pos vel homer T0 Hco Hpos Hvel Hhomer Hsp Hsv Hhr Hhc.
  subst T0. cbn [obj] in *.
  destruct (reset_jnt_imp_control_run T name c pos vel homer Hco Hpos Hvel Hhomer
              Hsp Hsv Hhr Hhc) as (c' & Hrun & Hg & Hr & Hcells).
  destruct (Hrun tr) as [out E].
  exists (mkWorld (with_controller name c' T) (tr ++ out)%list), c'.
  split; [exact E|]. cbn [obj].
  split; [apply with_controller_lookup|].
  split; [intros other Hne; by apply with_controller_lookup_ne|].
  done.
Qed.

Section UpdateControl.

Import torch CustomTaskControl.

Implicit Types (T : CustomTaskControl.t) (c : OmniJntImpCntrl.t).

(** An index tensor without entries makes [set_gains] raise while the
    selector is validated; nothing has been written. *)
Lemma raises_set_gains_empty c pg vg :
  raises (OmniJntImpCntrl.set_gains pg vg None
            (Some (index_tensor (OmniJntImpCntrl._device c) int64 (map Z.of_nat []))))
         c
         (RuntimeError "min(): Expected reduction dim to be specified for input.numel() == 0")
         c.
Proof.
  intros tr. exists []. rewrite app_nil_r.
  unfold OmniJntImpCntrl.set_gains, OmniJntImpCntrl._gen_selector,
    OmniJntImpCntrl._validate_selectors, OmniJntImpCntrl.sanity_checks,
    bind, get_self, lift, ret. simpl.
  by rewrite (proj2 (device_eqb_eq _ _) eq_refl).
Qed.

(** The first part of [update_jnt_imp_control], up to the positions of the
    wheels: every gain is overwritten. *)
Lemma update_gains_step T name c ks kd :
  controller_of T name c → cntrl_shaped c →
  ∃ c1,
    runs (on_controller name
            (OmniJntImpCntrl.set_gains
               (Some (full_tensor (num_envs T) (OmniJntImpCntrl.n_dofs c) ks
                        (torch_device T)))
               (Some (full_tensor (num_envs T) (OmniJntImpCntrl.n_dofs c) kd
                        (torch_device T)))
               None None))
         T [true; true; true] (with_controller name c1 T)
    ∧ (∀ k, k ≠ PGain → k ≠ VGain → read k c1 = read k c)
    ∧ OmniJntImpCntrl.num_robots c1 = OmniJntImpCntrl.num_robots c
    ∧ OmniJntImpCntrl.n_dofs c1 = OmniJntImpCntrl.n_dofs c
    ∧ OmniJntImpCntrl._device c1 = OmniJntImpCntrl._device c
    ∧ OmniJntImpCntrl.jnts_names c1 = OmniJntImpCntrl.jnts_names c
    ∧ OmniJntImpCntrl._pos_gains c1
      = torch.full (OmniJntImpCntrl.num_robots c) (OmniJntImpCntrl.n_dofs c) ks
    ∧ OmniJntImpCntrl._vel_gains c1
      = torch.full (OmniJntImpCntrl.num_robots c) (OmniJntImpCntrl.n_dofs c) kd.
Proof.
  intros (Hc & Hnr & Hdev & Hlen & Hnd & _) Hs.
  pose proof (proj1 (cntrl_shaped_read c) Hs) as Hs'.
  destruct (runs_set_gains_full c ks kd (Hs' PGain) (Hs' VGain))
    as (c1 & Hrun & Hfr & E1r & E1c & E1d & E1n & Hpg & Hvg).
  exists c1. split; [|done].
  eapply runs_on_controller; [exact Hc|].
  rewrite <- Hnr, <- Hdev. exact Hrun.
Qed.

End UpdateControl.

(** [update_jnt_imp_control] on a robot with at least one wheel joint: the
    call returns, the gains are the wheel values on every joint whose name
    contains "wheel" and the joint values on every other joint, and no other
    buffer of the controller and no other controller changes. *)
Theorem update_jnt_imp_control_outcome :
  ∀ (w : World CustomTaskControl.t) (name : string) (c : OmniJntImpCntrl.t)
    (jnt_stiffness jnt_damping wheel_stiffness wheel_damping : Q),
    controller_of (obj w) name c →
    cntrl_shaped c →
    (∃ jname, jname ∈ OmniJntImpCntrl.jnts_names c ∧ is_wheel jname = true) →
    ∃ w' c',
      CustomTaskControl.update_jnt_imp_control name jnt_stiffness jnt_damping
        wheel_stiffness wheel_damping w = (Ok tt, w')
      ∧ CustomTaskControl.jnt_imp_controllers (obj w') !! name = Some c'
      ∧ (∀ other, other ≠ name →
           CustomTaskControl.jnt_imp_controllers (obj w') !! other
           = CustomTaskControl.jnt_imp_controllers (obj w) !! other)
      ∧ (∀ k, k ≠ PGain → k ≠ VGain → read k c' = read k c)
      ∧ ∀ i j jname,
          i < CustomTaskControl.num_envs (obj w) →
          OmniJntImpCntrl.jnts_names c !! j = Some jname →
          mat_at (OmniJntImpCntrl._pos_gains c') i j
          = (if is_wheel jname then wheel_stiffness else jnt_stiffness)
          ∧ mat_at (OmniJntImpCntrl._vel_gains c') i j
            = (if is_wheel jname then wheel_damping else jnt_damping).
Proof.
  intros [T tr] name c ks kd wks wkd Hctl Hs (wname & Hwin & Hwheel).
  cbn [obj] in *.
  destruct (update_gains_step T name c ks kd Hctl Hs)
    as (c1 & Hrun1 & Hfr1 & E1r & E1c & E1d & E1n & Hpg1 & Hvg1).
  destruct Hctl as (Hc & Hnr & Hdev & Hlen & Hnd & _).
  destruct (matching_positions c1 "wheel") as (idxs & Eidx & Hnd' & Hlt & Hmem);
    [by rewrite E1n | by rewrite E1n, E1c |].
  assert (Hne : idxs ≠ []).
  { apply list_elem_of_lookup in Hwin as [j Hj].
    rewrite <- E1n in Hj. specialize (Hmem j wname Hj).
    unfold is_wheel in Hwheel. rewrite Hwheel in Hmem.
    apply bool_decide_eq_true in Hmem. intros ->. by apply elem_of_nil in Hmem. }
  assert (Hsp : has_shape (OmniJntImpCntrl.num_robots c1) (OmniJntImpCntrl.n_dofs c1)
                  (OmniJntImpCntrl._pos_gains c1))
    by (rewrite Hpg1, E1r, E1c; apply full_shape).
  assert (Hsv : has_shape (OmniJntImpCntrl.num_robots c1) (OmniJntImpCntrl.n_dofs c1)
                  (OmniJntImpCntrl._vel_gains c1))
    by (rewrite Hvg1, E1r, E1c; apply full_shape).
  destruct (runs_set_gains_columns c1 idxs wks wkd Hne Hnd' Hlt Hsp Hsv)
    as (c2 & Hrun2 & Hfr2 & E2r & E2c & E2d & E2n & _ & _ & Hcells).
  assert (Hrun : runs (CustomTaskControl.update_jnt_imp_control name ks kd wks wkd) T tt
                      (with_controller name c2 T)).
  { unfold CustomTaskControl.update_jnt_imp_control.
    eapply runs_bind; [apply runs_print|]. cbv beta.
    eapply runs_bind; [apply runs_get_self|]. cbv beta.
    eapply runs_bind; [eapply runs_getitem_task; exact Hc|]. cbv beta.
    eapply runs_bind; [eapply runs_getitem_task; exact Hc|]. cbv beta.
    eapply runs_bind; [exact Hrun1|]. cbv beta.
    eapply runs_bind; [apply runs_ret|]. cbv beta.
    eapply runs_bind.
    { eapply runs_on_controller; [apply with_controller_lookup|].
      apply runs_wheels_indxs. exact Eidx. }
    cbv beta. rewrite with_controller_twice.
    eapply runs_bind.
    { eapply runs_on_controller; [apply with_controller_lookup|].
      rewrite <- Hnr, <- Hdev, <- E1r, <- E1d. exact Hrun2. }
    cbv beta. rewrite with_controller_twice.
    eapply runs_bind; [apply runs_ret|]. cbv beta.
    apply runs_print. }
  destruct (Hrun tr) as [out E].
  exists (mkWorld (with_controller name c2 T) (tr ++ out)%list), c2.
  split; [exact E|]. cbn [obj].
  split; [apply with_controller_lookup|].
  split; [intros other Ho; by apply with_controller_lookup_ne|].
  split; [intros k Hk1 Hk2; by rewrite Hfr2, Hfr1|].
  intros i j jname Hi Hj.
  assert (Hi' : i < OmniJntImpCntrl.num_robots c1) by lia.
  assert (Hj' : j < OmniJntImpCntrl.n_dofs c1).
  { apply lookup_lt_Some in Hj. lia. }
  destruct (Hcells i j Hi' Hj') as [Hp Hv].
  rewrite (Hmem j jname) in Hp, Hv by (by rewrite E1n).
  rewrite Hp, Hv, Hpg1, Hvg1. unfold is_wheel.
  destruct (str_in "wheel" jname); [done|].
  split; apply mat_at_full; lia.
Qed.

(** [update_jnt_imp_control] on a robot without a wheel joint: the gains of
    every joint are set to the joint values, then the call raises on the
    empty set of wheel indices. *)
Theorem update_jnt_imp_control_without_wheels_raises :
  ∀ (w : World CustomTaskControl.t) (name : string) (c : OmniJntImpCntrl.t)
    (jnt_stiffness jnt_damping wheel_stiffness wheel_damping : Q),
    controller_of (obj w) name c →
    cntrl_shaped c →
    (∀ jname, jname ∈ OmniJntImpCntrl.jnts_names c → is_wheel jname = false) →
    ∃ w' c',
      CustomTaskControl.update_jnt_imp_control name jnt_stiffness jnt_damping
        wheel_stiffness wheel_damping w
      = (Raise (RuntimeError "min(): Expected reduction dim to be specified for input.numel() == 0"),
         w')
      ∧ CustomTaskControl.jnt_imp_controllers (obj w') !! name = Some c'
      ∧ OmniJntImpCntrl._pos_gains c'
        = torch.full (OmniJntImpCntrl.num_robots c) (OmniJntImpCntrl.n_dofs c)
            jnt_stiffness
      ∧ OmniJntImpCntrl._vel_gains c'
        = torch.full (OmniJntImpCntrl.num_robots c) (OmniJntImpCntrl.n_dofs c)
            jnt_damping
      ∧ (∀ k, k ≠ PGain → k ≠ VGain → read k c' = read k c).
Proof.
  intros [T tr] name c ks kd wks wkd Hctl Hs Hnowheel.
  cbn [obj] in *.
  destruct (update_gains_step T name c ks kd Hctl Hs)
    as (c1 & Hrun1 & Hfr1 & E1r & E1c & E1d & E1n & Hpg1 & Hvg1).
  destruct Hctl as (Hc & Hnr & Hdev & Hlen & Hnd & _).
  destruct (matching_positions c1 "wheel") as (idxs & Eidx & Hnd' & Hlt & Hmem);
    [by rewrite E1n | by rewrite E1n, E1c |].
  assert (idxs = []) as ->.
  { destruct idxs as [|j idxs]; [done|]. exfalso.
    rewrite Forall_cons in Hlt. destruct Hlt as [Hj _].
    rewrite E1c, <- Hlen, <- E1n in Hj.
    apply lookup_lt_is_Some in Hj as [jname Hj].
    pose proof (Hmem j jname Hj) as Hm.
    change (str_in "wheel" jname) with (is_wheel jname) in Hm.
    rewrite (Hnowheel jname) in Hm.
    - apply bool_decide_eq_false in Hm. apply Hm. by left.
    - rewrite E1n in Hj. by eapply list_elem_of_lookup_2. }
  assert (Hraise : raises (CustomTaskControl.update_jnt_imp_control name ks kd wks wkd)
                     T (RuntimeError "min(): Expected reduction dim to be specified for input.numel() == 0")
                     (with_controller name c1 T)).
  { unfold CustomTaskControl.update_jnt_imp_control.
    eapply runs_raises_bind; [apply runs_print|]. cbv beta.
    eapply runs_raises_bind; [apply runs_get_self|]. cbv beta.
    eapply runs_raises_bind; [eapply runs_getitem_task; exact Hc|]. cbv beta.
    eapply runs_raises_bind; [eapply runs_getitem_task; exact Hc|]. cbv beta.
    eapply runs_raises_bind; [exact Hrun1|]. cbv beta.
    eapply runs_raises_bind; [apply runs_ret|]. cbv beta.
    eapply runs_raises_bind.
    { eapply runs_on_controller; [apply with_controller_lookup|].
      apply runs_wheels_indxs. exact Eidx. }
    cbv beta. rewrite with_controller_twice.
    apply raises_bind.
    rewrite <- (with_controller_twice name c1 c1 T) at 2.
    eapply raises_on_controller; [apply with_controller_lookup|].
    apply raises_set_gains_empty. }
  destruct (Hraise tr) as [out E].
  exists (mkWorld (with_controller name c1 T) (tr ++ out)%list), c1.
  split; [exact E|]. cbn [obj].
  split; [apply with_controller_lookup|]. done.
Qed.

(** ** The properties at the worked examples *)

Section Witnesses.

Import torch OmniJntImpCntrl.

Lemma example_cntrl_shaped : cntrl_shaped (obj example_cntrl).
Proof. vm_compute. repeat split; repeat constructor. Qed.

Lemma example_cntrl_names :
  jnts_names (obj example_cntrl) = ["hip"; "knee"; "wheel"]
  ∧ override_art_controller (obj example_cntrl) = false
  ∧ _filter_dt (obj example_cntrl) = None
  ∧ _filter_available (obj example_cntrl) = false.
Proof. vm_compute. repeat split. Qed.

Lemma example_legged_cntrl_dims :
  _device (obj example_legged_cntrl) = cpu
  ∧ num_robots (obj example_legged_cntrl) = 2
  ∧ n_dofs (obj example_legged_cntrl) = 2
  ∧ jnts_names (obj example_legged_cntrl) = ["hip"; "knee"]
  ∧ _filter_dt (obj example_legged_cntrl) = None
  ∧ cntrl_shaped (obj example_legged_cntrl).
Proof. vm_compute. repeat split; repeat constructor. Qed.

Lemma NoDup_hip_knee_wheel : NoDup ["hip"; "knee"; "wheel"].
Proof.
  apply NoDup_cons. split; [not_in_list|].
  apply NoDup_cons. split; [not_in_list|].
  apply NoDup_singleton.
Qed.

Lemma NoDup_hip_knee : NoDup ["hip"; "knee"].
Proof.
  apply NoDup_cons. split; [not_in_list|]. apply NoDup_singleton.
Qed.

End Witnesses.

Lemma signal_on_other_device_is_refused_witness :
  let s := torch.tensor torch.cuda [[1; 2; 3]; [4; 5; 6]]%Q in
  ∃ w',
    setter_call PosRef s None None example_cntrl = (Ok [true; false; true; true], w')
    ∧ obj w' = obj example_cntrl.
Proof.
  cbv zeta.
  assert (H0 : PosRef ≠ VGain) by done.
  assert (H1 : torch.t_device (torch.tensor torch.cuda [[1; 2; 3]; [4; 5; 6]]%Q)
               ≠ OmniJntImpCntrl._device (obj example_cntrl)).
  { destruct example_cntrl_dims as (-> & _). done. }
  exact (signal_on_other_device_is_refused PosRef example_cntrl _ None None
           H0 classifiable_None classifiable_None H1).
Defined.


Lemma example_cntrl_state :
  OmniJntImpCntrl.gains_initialized (obj example_cntrl) = false
  ∧ OmniJntImpCntrl.refs_initialized (obj example_cntrl) = false
  ∧ OmniJntImpCntrl._pos_gains (obj example_cntrl) = torch.full 2 3 300
  ∧ OmniJntImpCntrl._vel_gains (obj example_cntrl) = torch.full 2 3 30
  ∧ OmniJntImpCntrl._eff_ref (obj example_cntrl) = torch.zeros 2 3
  ∧ OmniJntImpCntrl._pos_ref (obj example_cntrl) = torch.zeros 2 3
  ∧ OmniJntImpCntrl._vel_ref (obj example_cntrl) = torch.zeros 2 3.
Proof. vm_compute. repeat split. Qed.

Lemma apply_cmds_forwards_references_witness :
  (OmniJntImpCntrl.apply_cmds true example_cntrl).1 = Ok tt
  ∧ trace (OmniJntImpCntrl.apply_cmds true example_cntrl).2
    = (trace example_cntrl
       ++ [ArtSetGains (Some (torch.full 2 3 300)) (Some (torch.full 2 3 30));
           ArtSetJointEfforts (torch.zeros 2 3);
           ArtSetJointPositionTargets (torch.zeros 2 3);
           ArtSetJointVelocityTargets (torch.zeros 2 3);
           ArtSetJointEfforts (torch.zeros 2 3);
           ArtSetJointPositionTargets (torch.zeros 2 3);
           ArtSetJointVelocityTargets (torch.zeros 2 3)])%list.
Proof.
  destruct example_cntrl_names as (_ & Hov & _ & Hfa).
  destruct example_cntrl_state as (Hgi & Hri & Hpg & Hvg & He & Hp & Hv).
  rewrite (apply_cmds_forwards_references example_cntrl true Hov (or_intror Hfa)).
  cbv zeta. cbn [fst snd trace]. rewrite Hgi, Hri, Hpg, Hvg, He, Hp, Hv.
  split; reflexivity.
Defined.

Lemma jnt_idxs_matching_as_selector_witness :
  OmniJntImpCntrl.get_jnt_idxs_matching (obj example_cntrl) "wheel"
  = Ok (int64_indices [2]%Z)
  ∧ OmniJntImpCntrl._validate_selectors None (Some (int64_indices [2]%Z)) example_cntrl
    = (Ok (OmniJntImpCntrl.NONE, OmniJntImpCntrl.VALID), example_cntrl).
Proof.
  assert (E : OmniJntImpCntrl.get_jnt_idxs_matching (obj example_cntrl) "wheel"
              = Ok (int64_indices [2]%Z)) by (vm_compute; reflexivity).
  split; [exact E|].
  apply (jnt_idxs_matching_as_selector example_cntrl "wheel" (int64_indices [2]%Z)
           eq_refl E).
  vm_compute. discriminate.
Defined.


Section ControlWitnesses.

Import torch CustomTaskControl.

Lemma example_control_task_controller :
  controller_of (obj example_control_task) "r" (obj example_cntrl).
Proof.
  destruct example_cntrl_dims as (Hd & Hr & Hj).
  destruct example_cntrl_names as (Hn & _ & Hf & _).
  unfold controller_of, example_control_task.
  cbn [obj jnt_imp_controllers num_envs torch_device].
  rewrite Hd, Hr, Hj, Hn, Hf.
  repeat split; try done;
    first [apply lookup_singleton_eq | apply NoDup_hip_knee_wheel].
Qed.

Lemma example_legged_task_controller :
  controller_of (obj example_legged_task) "r" (obj example_legged_cntrl).
Proof.
  destruct example_legged_cntrl_dims as (Hd & Hr & Hj & Hn & Hf & _).
  unfold controller_of, example_legged_task.
  cbn [obj jnt_imp_controllers num_envs torch_device].
  rewrite Hd, Hr, Hj, Hn, Hf.
  repeat split; try done;
    first [apply lookup_singleton_eq | apply NoDup_hip_knee].
Qed.

End ControlWitnesses.

Lemma reset_jnt_imp_control_outcome_witness :
  ∃ w' c',
    CustomTaskControl._reset_jnt_imp_control "r" example_control_task = (Ok tt, w')
    ∧ CustomTaskControl.jnt_imp_controllers (obj w') !! "r" = Some c'
    ∧ mat_at (OmniJntImpCntrl._pos_gains c') 1 2 = 0%Q
    ∧ mat_at (OmniJntImpCntrl._vel_gains c') 1 2 = 10%Q
    ∧ mat_at (OmniJntImpCntrl._pos_gains c') 1 1 = 300%Q
    ∧ mat_at (OmniJntImpCntrl._pos c') 1 1 = 5%Q
    ∧ mat_at (OmniJntImpCntrl._pos_ref c') 1 1 = (-0.6)%Q.
Proof.
  destruct example_cntrl_dims as (Hd & Hr & Hj).
  destruct example_cntrl_names as (Hn & _).
  assert (Hs : ∀ s, torch.t_rows s = 2 → torch.t_cols s = 3 → torch.t_device s = torch.cpu →
               state_of (obj example_control_task) (obj example_cntrl) s).
  { intros s H1 H2 H3. unfold state_of. rewrite Hj. done. }
  destruct (reset_jnt_imp_control_outcome example_control_task "r" (obj example_cntrl)
              (torch.tensor torch.cpu [[1; 2; 3]; [4; 5; 6]]%Q)
              (torch.tensor torch.cpu [[0; 0; 0]; [0; 0; 1]]%Q)
              example_homer
              example_control_task_controller
              (lookup_singleton_eq _ _) (lookup_singleton_eq _ _)
              (lookup_singleton_eq _ _)
              (Hs (torch.tensor torch.cpu [[1; 2; 3]; [4; 5; 6]]%Q)
                  eq_refl eq_refl eq_refl)
              (Hs (torch.tensor torch.cpu [[0; 0; 0]; [0; 0; 1]]%Q)
                  eq_refl eq_refl eq_refl))
    as (w' & c' & E & Hc' & _ & _ & _ & Hcells).
  { vm_compute. reflexivity. }
  { rewrite Hj. vm_compute. reflexivity. }
  exists w', c'. split; [exact E|]. split; [exact Hc'|].
  assert (H2 : OmniJntImpCntrl.jnts_names (obj example_cntrl) !! 2 = Some "wheel")
    by (by rewrite Hn).
  assert (H1 : OmniJntImpCntrl.jnts_names (obj example_cntrl) !! 1 = Some "knee")
    by (by rewrite Hn).
  assert (Hi : 1 < CustomTaskControl.num_envs (obj example_control_task))
    by (simpl; lia).
  destruct (Hcells 1 2 "wheel" Hi H2) as (Hw1 & Hw2 & _).
  destruct (Hcells 1 1 "knee" Hi H1) as (Hk1 & _ & Hk3 & _ & _ & Hk6 & _).
  split; [exact Hw1|]. split; [exact Hw2|].
  split; [rewrite Hk1; vm_compute; reflexivity|].
  split; [exact Hk3|].
  rewrite Hk6. vm_compute. reflexivity.
Defined.

Lemma update_jnt_imp_control_outcome_witness :
  ∃ w' c',
    CustomTaskControl.update_jnt_imp_control "r" 100 5 0 2 example_control_task
    = (Ok tt, w')
    ∧ CustomTaskControl.jnt_imp_controllers (obj w') !! "r" = Some c'
    ∧ mat_at (OmniJntImpCntrl._pos_gains c') 0 0 = 100%Q
    ∧ mat_at (OmniJntImpCntrl._vel_gains c') 0 2 = 2%Q.
Proof.
  destruct example_cntrl_names as (Hn & _).
  destruct (update_jnt_imp_control_outcome example_control_task "r" (obj example_cntrl)
              100 5 0 2 example_control_task_controller example_cntrl_shaped)
    as (w' & c' & E & Hc' & _ & _ & Hcells).
  { exists "wheel". rewrite Hn. split; [|done].
    apply elem_of_cons. right. apply elem_of_cons. right. by left. }
  exists w', c'. split; [exact E|]. split; [exact Hc'|].
  assert (H2 : OmniJntImpCntrl.jnts_names (obj example_cntrl) !! 2 = Some "wheel")
    by (by rewrite Hn).
  assert (H0 : OmniJntImpCntrl.jnts_names (obj example_cntrl) !! 0 = Some "hip")
    by (by rewrite Hn).
  assert (Hi : 0 < CustomTaskControl.num_envs (obj example_control_task))
    by (simpl; lia).
  split.
  - exact (proj1 (Hcells 0 0 "hip" Hi H0)).
  - exact (proj2 (Hcells 0 2 "wheel" Hi H2)).
Defined.

Lemma update_jnt_imp_control_without_wheels_raises_witness :
  ∃ w' c',
    CustomTaskControl.update_jnt_imp_control "r" 100 5 0 2 example_legged_task
    = (Raise (RuntimeError "min(): Expected reduction dim to be specified for input.numel() == 0"),
       w')
    ∧ CustomTaskControl.jnt_imp_controllers (obj w') !! "r" = Some c'
    ∧ OmniJntImpCntrl._pos_gains c' = [[100; 100]; [100; 100]]%Q.
Proof.
  destruct example_legged_cntrl_dims as (Hd & Hr & Hj & Hn & Hf & Hs).
  destruct (update_jnt_imp_control_without_wheels_raises example_legged_task "r"
              (obj example_legged_cntrl) 100 5 0 2
              example_legged_task_controller Hs)
    as (w' & c' & E & Hc' & Hpg & _).
  { rewrite Hn. intros jname Hin.
    apply elem_of_cons in Hin as [->|Hin]; [done|].
    apply elem_of_cons in Hin as [->|Hin]; [done|].
    by apply elem_of_nil in Hin. }
  exists w', c'. split; [exact E|]. split; [exact Hc'|].
  rewrite Hpg, Hr, Hj. reflexivity.
Defined.

(** ** Contact sensors: the dictionaries *)

Section Dicts.

Context {V : Type}.

Implicit Types (d : list (string * V)) (k : string) (v : V).

Lemma dict_getitem_setitem_eq k v d : dict_getitem k (dict_setitem k v d) = Ok v.
Proof.
  induction d as [|[k' v'] d IH]; simpl.
  - by rewrite String.eqb_refl.
  - destruct (String.eqb k k') eqn:E; simpl.
    + by rewrite String.eqb_refl.
    + by rewrite E.
Qed.

Lemma dict_getitem_setitem_ne k k' v d :
  k ≠ k' → dict_getitem k' (dict_setitem k v d) = dict_getitem k' d.
Proof.
  intros Hne. induction d as [|[k0 v0] d IH]; simpl.
  - destruct (String.eqb k' k) eqn:E; [|done].
    apply String.eqb_eq in E. congruence.
  - destruct (String.eqb k k0) eqn:E; simpl.
    + apply String.eqb_eq in E as <-.
      destruct (String.eqb k' k) eqn:E'; [|done].
      apply String.eqb_eq in E'. congruence.
    + by rewrite IH.
Qed.

Lemma dict_contains_getitem k d :
  OmniContactSensors.dict_contains k d = true ↔ ∃ v, dict_getitem k d = Ok v.
Proof.
  unfold OmniContactSensors.dict_contains, dict_keys.
  rewrite bool_decide_eq_true.
  induction d as [|[k' v'] d IH]; simpl.
  - split; [by intros ?%elem_of_nil|by intros [v ?]].
  - rewrite elem_of_cons, IH. destruct (String.eqb k k') eqn:E.
    + apply String.eqb_eq in E as ->. split; [by exists v'|by left].
    + apply String.eqb_neq in E. split; [intros [?|?]; done|by right].
Qed.

Lemma set_all_keep keys v d k :
  dict_getitem k d = Ok v → dict_getitem k (set_all keys v d) = Ok v.
Proof.
  unfold set_all. revert d. induction keys as [|k0 keys IH]; intros d Hd; [done|].
  simpl. apply IH. destruct (decide (k0 = k)) as [->|Hne].
  - apply dict_getitem_setitem_eq.
  - by rewrite dict_getitem_setitem_ne.
Qed.

Lemma set_all_getitem_in keys v d k :
  k ∈ keys → dict_getitem k (set_all keys v d) = Ok v.
Proof.
  revert d. induction keys as [|k0 keys IH]; intros d Hk.
  - by apply elem_of_nil in Hk.
  - apply elem_of_cons in Hk as [->|Hk].
    + apply (set_all_keep keys v (dict_setitem k0 v d)).
      apply dict_getitem_setitem_eq.
    + apply (IH (dict_setitem k0 v d) Hk).
Qed.

Lemma set_all_getitem_out keys v d k :
  k ∉ keys → dict_getitem k (set_all keys v d) = dict_getitem k d.
Proof.
  unfold set_all. revert d. induction keys as [|k0 keys IH]; intros d Hk; [done|].
  apply not_elem_of_cons in Hk as [Hne Hk]. simpl. rewrite IH by done.
  by apply dict_getitem_setitem_ne.
Qed.

Lemma completed_getitem prims v d k :
  k ∈ prims → ∃ x, dict_getitem k (completed prims v d) = Ok x.
Proof.
  intros Hk. unfold completed.
  destruct (forallb _ prims) eqn:E.
  - rewrite forallb_forall in E. apply dict_contains_getitem. apply E.
    by apply list_elem_of_In.
  - exists v. by apply set_all_getitem_in.
Qed.

End Dicts.

Section ContactParse.

Import OmniContactSensors.

Implicit Types (c : OmniContactSensors.t).

Lemma runs_lookup_or_raise {O V} (d : option (list (string * V))) key msg v (c : O) :
  holds d key v → runs (lookup_or_raise d key msg) c v c.
Proof.
  intros (d' & -> & E). unfold lookup_or_raise. rewrite E. apply runs_ret.
Qed.

Lemma raises_lookup_or_raise {O V} (d : option (list (string * V))) key msg (c : O) :
  (∀ v, ¬ holds d key v) → raises (lookup_or_raise (O:=O) d key msg) c (Exception msg) c.
Proof.
  intros Hno. unfold lookup_or_raise. destruct d as [d'|]; [|apply raises_raise].
  destruct (dict_getitem key d') as [v|e] eqn:E; [|apply raises_raise].
  exfalso. apply (Hno v). by exists d'.
Qed.

Lemma runs_offsets_loop (v : list Q) (n : nat) : ∀ (a : nat) c,
  (a + n ≤ length (contact_prims c))%nat →
  runs (for_each (seq a n) (λ i,
          self ← get_self;
          match contact_prims self !! i with
          | Some prim =>
              modify (set_contact_offsets (dict_setitem prim v (contact_offsets self)))
          | None => raise (IndexError "list index out of range")
          end)) c tt
       (set_contact_offsets
          (set_all (take n (drop a (contact_prims c))) v (contact_offsets c)) c).
Proof.
  induction n as [|n IH]; intros a c Hlen.
  - simpl. destruct c. apply runs_ret.
  - destruct (lookup_lt_is_Some_2 (contact_prims c) a) as [prim Hprim]; [lia|].
    cbn [seq for_each].
    eapply runs_bind.
    { eapply runs_bind; [apply runs_get_self|]. cbv beta. rewrite Hprim.
      apply runs_modify. }
    cbv beta.
    rewrite (drop_S _ _ _ Hprim). cbn [take set_all foldl].
    specialize (IH (S a) (set_contact_offsets (dict_setitem prim v (contact_offsets c)) c)).
    destruct c. apply IH. simpl in *. lia.
Qed.

Lemma runs_radii_loop (n : nat) : ∀ (a : nat) c,
  (a + n ≤ length (contact_prims c))%nat →
  runs (for_each (seq a n) (λ i,
          self ← get_self;
          match contact_prims self !! i with
          | Some prim =>
              modify (set_sensor_radii
                        (dict_setitem prim (contact_radius_default self)
                           (sensor_radii self)))
          | None => raise (IndexError "list index out of range")
          end)) c tt
       (set_sensor_radii
          (set_all (take n (drop a (contact_prims c))) (contact_radius_default c)
             (sensor_radii c)) c).
Proof.
  induction n as [|n IH]; intros a c Hlen.
  - simpl. destruct c. apply runs_ret.
  - destruct (lookup_lt_is_Some_2 (contact_prims c) a) as [prim Hprim]; [lia|].
    cbn [seq for_each].
    eapply runs_bind.
    { eapply runs_bind; [apply runs_get_self|]. cbv beta. rewrite Hprim.
      apply runs_modify. }
    cbv beta.
    rewrite (drop_S _ _ _ Hprim). cbn [take set_all foldl].
    specialize (IH (S a) (set_sensor_radii
                            (dict_setitem prim (contact_radius_default c)
                               (sensor_radii c)) c)).
    destruct c. apply IH. simpl in *. lia.
Qed.

Lemma completed_true {V} prims (v : V) d :
  forallb (λ item, dict_contains item d) prims = true → completed prims v d = d.
Proof. unfold completed. by intros ->. Qed.

Lemma completed_false {V} prims (v : V) d :
  forallb (λ item, dict_contains item d) prims = false →
  completed prims v d = set_all prims v d.
Proof. unfold completed. by intros ->. Qed.

Lemma runs_init name n_envs cp co sr prims offsets radii :
  holds cp name prims → holds co name offsets → holds sr name radii →
  runs (__init__ name n_envs cp co sr) blank tt
       (constructed name n_envs prims offsets radii).
Proof.
  intros Hp Ho Hr. unfold __init__.
  eapply runs_bind; [apply runs_modify|]. cbv beta.
  eapply runs_bind.
  { unfold _parse_contact_dicts.
    eapply runs_bind; [by apply runs_lookup_or_raise|]. cbv beta.
    eapply runs_bind; [apply runs_modify|]. cbv beta.
    eapply runs_bind; [by apply runs_lookup_or_raise|]. cbv beta.
    eapply runs_bind; [apply runs_modify|]. cbv beta.
    eapply runs_bind; [by apply runs_lookup_or_raise|]. cbv beta.
    eapply runs_bind; [apply runs_modify|]. cbv beta.
    eapply runs_bind; [apply runs_get_self|]. cbv beta zeta.
    cbn [contact_prims contact_offsets sensor_radii set_contact_prims
         set_contact_offsets set_sensor_radii contact_radius_default].
    eapply runs_bind.
    { instantiate (1 := mk n_envs name 0.003 prims
                          (completed prims [0; 0; 0]%Q offsets) radii 0 [] [] [] [] []).
      destruct (forallb (λ item, dict_contains item offsets) prims) eqn:E;
        cbn [negb].
      - rewrite (completed_true _ _ _ E). apply runs_ret.
      - rewrite (completed_false _ _ _ E).
        eapply runs_bind; [apply runs_print|]. cbv beta.
        pose proof (runs_offsets_loop [0; 0; 0]%Q (length prims) 0
                      (mk n_envs name 0.003 prims offsets radii 0 [] [] [] [] [])) as H.
        cbn [contact_prims contact_offsets set_contact_offsets drop] in H.
        rewrite firstn_all in H. apply H. simpl. lia. }
    cbv beta.
    instantiate (1 := mk n_envs name 0.003 prims
                        (completed prims [0; 0; 0]%Q offsets)
                        (completed prims 0.003%Q radii) 0 [] [] [] [] []).
    destruct (forallb (λ item, dict_contains item radii) prims) eqn:E;
      cbn [negb].
    - rewrite (completed_true _ _ _ E). apply runs_ret.
    - rewrite (completed_false _ 0.003%Q _ E).
      eapply runs_bind; [apply runs_print|]. cbv beta.
      pose proof (runs_radii_loop (length prims) 0
                    (mk n_envs name 0.003 prims (completed prims [0; 0; 0]%Q offsets)
                        radii 0 [] [] [] [] [])) as H.
      cbn [contact_prims sensor_radii set_sensor_radii drop
           contact_radius_default] in H.
      rewrite firstn_all in H. apply H. simpl. lia. }
  cbv beta.
  eapply runs_bind; [apply runs_get_self|]. cbv beta zeta.
  exact (runs_modify _ _).
Qed.

End ContactParse.

(** ** Contact sensors: the constructor *)

Section ContactConstructor.

Import OmniContactSensors.

Lemma prints_only_for_each {O A} (l : list A) (body : A → M O unit) :
  (∀ x, prints_only (body x)) → prints_only (for_each l body).
Proof.
  intros Hb. induction l as [|x l IH]; cbn [for_each].
  - apply prints_only_ret.
  - apply prints_only_bind; [apply Hb|intros _; apply IH].
Qed.

Lemma prints_only_lookup_or_raise {O V} (d : option (list (string * V))) key msg :
  prints_only (lookup_or_raise (O:=O) d key msg).
Proof. unfold lookup_or_raise. quiet. Qed.

Lemma prints_only_init name n_envs cp co sr :
  prints_only (__init__ name n_envs cp co sr).
Proof.
  unfold __init__, _parse_contact_dicts.
  repeat first
    [ apply prints_only_lookup_or_raise
    | apply prints_only_for_each; intros ?
    | progress quiet ].
Qed.

Lemma new_outcome name n_envs cp co sr prims offsets radii :
  holds cp name prims → holds co name offsets → holds sr name radii →
  ∃ out, new name n_envs cp co sr
         = (Ok tt, mkWorld (constructed name n_envs prims offsets radii) out)
       ∧ Forall is_print out.
Proof.
  intros Hp Ho Hr. unfold new.
  destruct (runs_init name n_envs cp co sr prims offsets radii Hp Ho Hr [])
    as (out & E).
  destruct (prints_only_init name n_envs cp co sr (mkWorld blank []))
    as (out' & E' & F).
  rewrite E in E'. simpl in E'. subst out'.
  exists out. by rewrite E.
Qed.

Lemma completed_all {V} prims (v : V) d :
  (∀ link, link ∈ prims → ∃ x, dict_getitem link d = Ok x) →
  completed prims v d = d.
Proof.
  intros H. apply completed_true. apply forallb_forall. intros link Hl.
  apply dict_contains_getitem, H. by apply list_elem_of_In.
Qed.

Lemma completed_missing {V} prims (v : V) d missing :
  missing ∈ prims → (∀ x, dict_getitem missing d ≠ Ok x) →
  completed prims v d = set_all prims v d.
Proof.
  intros Hm Hno. apply completed_false.
  destruct (forallb _ prims) eqn:E; [|done].
  rewrite forallb_forall in E.
  destruct (proj1 (dict_contains_getitem missing d)) as [x Hx].
  - apply E. by apply list_elem_of_In.
  - by destruct (Hno x).
Qed.

End ContactConstructor.

(** The constructor of the contact sensors, when the three dictionaries
    hold the robot: it returns and only prints; there is one sensor slot per
    contact link and environment, all empty, and buffers of shape
    [[n_envs, n_sensors]] with the force norms at -1; every contact link has
    an offset and a radius.  A dictionary that names every contact link is
    kept as given; if the offsets (the radii) miss one link, the offset
    (radius) of every contact link, also of those that were given, is set to
    zero (to the default radius), and the entries of other keys stay. *)
Theorem contact_sensors_constructor name n_envs cp co sr prims offsets radii :
  holds cp name prims → holds co name offsets → holds sr name radii →
  ∃ w, OmniContactSensors.new name n_envs cp co sr = (Ok tt, w)
    ∧ Forall is_print (trace w)
    ∧ OmniContactSensors.contact_prims (obj w) = prims
    ∧ OmniContactSensors.n_sensors (obj w) = length prims
    ∧ OmniContactSensors.in_contact (obj w)
      = replicate n_envs (replicate (length prims) false)
    ∧ OmniContactSensors.force_norm (obj w) = torch.full n_envs (length prims) (-1)
    ∧ OmniContactSensors.n_contacts (obj w)
      = replicate n_envs (replicate (length prims) 0%Z)
    ∧ (∀ e s, (e < n_envs)%nat → (s < length prims)%nat →
         OmniContactSensors.sensor_at (obj w) e s = Some None)
    ∧ (∀ link, link ∈ prims →
         ∃ offset radius,
           dict_getitem link (OmniContactSensors.contact_offsets (obj w)) = Ok offset
           ∧ dict_getitem link (OmniContactSensors.sensor_radii (obj w)) = Ok radius)
    ∧ ((∀ link, link ∈ prims → ∃ x, dict_getitem link offsets = Ok x) →
         OmniContactSensors.contact_offsets (obj w) = offsets)
    ∧ ((∀ link, link ∈ prims → ∃ x, dict_getitem link radii = Ok x) →
         OmniContactSensors.sensor_radii (obj w) = radii)
    ∧ (∀ missing, missing ∈ prims → (∀ x, dict_getitem missing offsets ≠ Ok x) →
         (∀ link, link ∈ prims →
            dict_getitem link (OmniContactSensors.contact_offsets (obj w))
            = Ok [0; 0; 0]%Q)
         ∧ (∀ other, other ∉ prims →
              dict_getitem other (OmniContactSensors.contact_offsets (obj w))
              = dict_getitem other offsets))
    ∧ (∀ missing, missing ∈ prims → (∀ x, dict_getitem missing radii ≠ Ok x) →
         (∀ link, link ∈ prims →
            dict_getitem link (OmniContactSensors.sensor_radii (obj w))
            = Ok 0.003%Q)
         ∧ (∀ other, other ∉ prims →
              dict_getitem other (OmniContactSensors.sensor_radii (obj w))
              = dict_getitem other radii)).
Proof.
  intros Hp Ho Hr.
  destruct (new_outcome name n_envs cp co sr prims offsets radii Hp Ho Hr)
    as (out & E & F).
  eexists. split; [exact E|]. cbn [obj trace].
  unfold constructed. cbv zeta.
  cbn [OmniContactSensors.contact_prims OmniContactSensors.n_sensors
       OmniContactSensors.in_contact OmniContactSensors.force_norm
       OmniContactSensors.n_contacts OmniContactSensors.contact_offsets
       OmniContactSensors.sensor_radii].
  repeat split; try done.
  - intros e s He Hs. unfold OmniContactSensors.sensor_at.
    cbn [OmniContactSensors.contact_sensors OmniContactSensors.rows].
    rewrite (lookup_replicate_2 _ _ _ He). cbn [lookup list_lookup].
    by rewrite (lookup_replicate_2 _ _ _ Hs).
  - intros link Hl.
    destruct (completed_getitem prims [0; 0; 0]%Q offsets link Hl) as [o Eo].
    destruct (completed_getitem prims 0.003%Q radii link Hl) as [r Er].
    by exists o, r.
  - apply completed_all.
  - apply completed_all.
  - intros link Hl. rewrite (completed_missing _ _ _ missing) by done.
    by apply set_all_getitem_in.
  - intros other Ho'. rewrite (completed_missing _ _ _ missing) by done.
    by apply set_all_getitem_out.
  - intros link Hl. rewrite (completed_missing _ _ _ missing) by done.
    by apply set_all_getitem_in.
  - intros other Ho'. rewrite (completed_missing _ _ _ missing) by done.
    by apply set_all_getitem_out.
Qed.

Section ContactMissing.

Import OmniContactSensors.

Lemma new_raises name n_envs cp co sr e c :
  raises (_parse_contact_dicts name cp co sr)
         (mk n_envs name 0.003 [] [] [] 0 [] [] [] [] []) e c →
  ∃ out, new name n_envs cp co sr = (Raise e, mkWorld c out).
Proof.
  intros H. unfold new.
  assert (raises (__init__ name n_envs cp co sr) blank e c) as Hr.
  { unfold __init__.
    eapply runs_raises_bind; [apply runs_modify|]. cbv beta.
    by apply raises_bind. }
  destruct (Hr []) as (out & E). by exists out.
Qed.

End ContactMissing.

(** A dictionary that is omitted or does not hold the robot makes the
    constructor raise a plain [Exception] that names the first such
    dictionary, in the order contact links, offsets, radii. *)
Theorem contact_sensors_constructor_missing_key name n_envs cp co sr :
  let message dictionary :=
    "Could not find key " ++ name ++ " in" ++ dictionary ++ " dictionary." in
  ((∀ prims, ¬ holds cp name prims) →
     (OmniContactSensors.new name n_envs cp co sr).1
     = Raise (Exception (message "contact_prims")))
  ∧ (∀ prims, holds cp name prims → (∀ offsets, ¬ holds co name offsets) →
       (OmniContactSensors.new name n_envs cp co sr).1
       = Raise (Exception (message "contact_offsets")))
  ∧ (∀ prims offsets, holds cp name prims → holds co name offsets →
       (∀ radii, ¬ holds sr name radii) →
       (OmniContactSensors.new name n_envs cp co sr).1
       = Raise (Exception (message "sensor_radii"))).
Proof.
  cbv zeta. repeat split.
  - intros Hno.
    edestruct (new_raises name n_envs cp co sr) as (out & ->); [|reflexivity].
    unfold OmniContactSensors._parse_contact_dicts.
    apply raises_bind. by apply raises_lookup_or_raise.
  - intros prims Hp Hno.
    edestruct (new_raises name n_envs cp co sr) as (out & ->); [|reflexivity].
    unfold OmniContactSensors._parse_contact_dicts.
    eapply runs_raises_bind; [by apply runs_lookup_or_raise|]. cbv beta.
    eapply runs_raises_bind; [apply runs_modify|]. cbv beta.
    apply raises_bind. by apply raises_lookup_or_raise.
  - intros prims offsets Hp Ho Hno.
    edestruct (new_raises name n_envs cp co sr) as (out & ->); [|reflexivity].
    unfold OmniContactSensors._parse_contact_dicts.
    eapply runs_raises_bind; [by apply runs_lookup_or_raise|]. cbv beta.
    eapply runs_raises_bind; [apply runs_modify|]. cbv beta.
    eapply runs_raises_bind; [by apply runs_lookup_or_raise|]. cbv beta.
    eapply runs_raises_bind; [apply runs_modify|]. cbv beta.
    apply raises_bind. by apply raises_lookup_or_raise.
Qed.

(** ** Contact sensors: creating the sensors *)

Section CreateSensors.

Import OmniContactSensors.

Variables (c0 : OmniContactSensors.t) (ns : string)
          (sensor : nat → string → ContactSensor).

Hypothesis Hmake : ∀ e link,
  link ∈ contact_prims c0 → make_sensor c0 ns e link = Ok (sensor e link).
Hypothesis Hrefs : contact_sensors c0 = replicate (n_envs c0) 0%nat.

Let body (env_idx sensor_idx : nat) : M Stage unit :=
  match contact_prims c0 !! sensor_idx with
  | None => raise (IndexError "list index out of range")
  | Some link =>
      print ": creating contact sensor at ...";;
      contact_sensor ← lift (make_sensor c0 ns env_idx link);
      scene_add_into env_idx sensor_idx contact_sensor;;
      add_raw_contact_data_to_frame env_idx sensor_idx;;
      print ": contact sensor created."
  end.

Lemma runs_sensor_step e s link row scn raw :
  (e < n_envs c0)%nat → contact_prims c0 !! s = Some link → (s < length row)%nat →
  runs (body e s)
    (mkStage (set_rows [row] c0) scn raw) tt
    (mkStage (set_rows [<[s := Some (sensor e link)]> row] c0)
       (scn ++ [sensor e link]) (raw ++ [sensor_name (sensor e link)])).
Proof.
  intros He Hl Hs. unfold body. rewrite Hl.
  eapply runs_bind; [apply runs_print|]. cbv beta.
  rewrite (Hmake e link) by (by eapply list_elem_of_lookup_2).
  eapply runs_bind; [apply runs_lift|]. cbv beta.
  eapply runs_bind.
  { unfold scene_add_into.
    eapply runs_bind; [apply runs_modify|]. cbv beta.
    eapply runs_bind; [apply runs_get_self|]. cbv beta zeta.
    cbn [self_ contact_sensors rows set_rows scene raw_contact_data].
    rewrite Hrefs, (lookup_replicate_2 _ _ _ He).
    cbn [lookup list_lookup].
    rewrite (proj2 (Nat.ltb_lt _ _) Hs).
    exact (runs_modify _ _). }
  cbv beta.
  eapply runs_bind.
  { unfold add_raw_contact_data_to_frame.
    eapply runs_bind; [apply runs_get_self|]. cbv beta.
    unfold sensor_at.
    cbn [self_ contact_sensors rows set_rows scene raw_contact_data].
    rewrite Hrefs, (lookup_replicate_2 _ _ _ He).
    cbn [lookup list_lookup insert list_insert].
    rewrite (list_lookup_insert_eq _ _ _ Hs).
    exact (runs_modify _ _). }
  cbv beta. cbn [self_ contact_sensors rows set_rows scene raw_contact_data
                 insert list_insert].
  apply runs_print.
Qed.

Lemma runs_sensors_loop e (n : nat) : ∀ (a : nat) row scn raw,
  (e < n_envs c0)%nat → (a + n ≤ length (contact_prims c0))%nat →
  length row = length (contact_prims c0) →
  ∃ row', length row' = length row
    ∧ (∀ s link, (a ≤ s < a + n)%nat → contact_prims c0 !! s = Some link →
         row' !! s = Some (Some (sensor e link)))
    ∧ (∀ s, ¬ (a ≤ s < a + n)%nat → row' !! s = row !! s)
    ∧ runs (for_each (seq a n) (body e))
        (mkStage (set_rows [row] c0) scn raw) tt
        (mkStage (set_rows [row'] c0)
           (scn ++ map (sensor e) (take n (drop a (contact_prims c0))))
           (raw ++ map (λ link, sensor_name (sensor e link))
                     (take n (drop a (contact_prims c0))))).
Proof.
  induction n as [|n IH]; intros a row scn raw He Hlen Hrow.
  - exists row. repeat split; [intros; lia|].
    cbn [seq for_each take map]. rewrite !app_nil_r. apply runs_ret.
  - destruct (lookup_lt_is_Some_2 (contact_prims c0) a) as [link Hl]; [lia|].
    destruct (IH (S a) (<[a := Some (sensor e link)]> row)
                 (scn ++ [sensor e link])%list
                 (raw ++ [sensor_name (sensor e link)])%list He)
      as (row' & Hlen' & Hin & Hout & Hrun).
    { lia. }
    { by rewrite length_insert. }
    exists row'. split; [by rewrite Hlen', length_insert|]. split; [|split].
    + intros s link' Hs Hl'. destruct (decide (s = a)) as [->|Hne].
      * rewrite Hout by lia. rewrite Hl in Hl'. injection Hl' as <-.
        apply list_lookup_insert_eq. lia.
      * apply Hin; [lia|done].
    + intros s Hs. rewrite Hout by lia. apply list_lookup_insert_ne. lia.
    + cbn [seq for_each].
      eapply runs_bind; [apply runs_sensor_step; [done|done|lia]|]. cbv beta.
      rewrite (drop_S _ _ _ Hl). cbn [take map].
      rewrite <- !app_assoc in Hrun. exact Hrun.
Qed.

Lemma runs_envs_loop (n : nat) : ∀ (a : nat) row scn raw,
  (a + n ≤ n_envs c0)%nat → length row = length (contact_prims c0) →
  ∃ row', length row' = length row
    ∧ ((0 < n)%nat → ∀ s link, contact_prims c0 !! s = Some link →
         row' !! s = Some (Some (sensor (a + n - 1) link)))
    ∧ (n = 0%nat → row' = row)
    ∧ runs (for_each (seq a n) (λ env_idx,
              for_each (seq 0 (length (contact_prims c0))) (body env_idx)))
        (mkStage (set_rows [row] c0) scn raw) tt
        (mkStage (set_rows [row'] c0)
           (scn ++ flat_map (λ e, map (sensor e) (contact_prims c0)) (seq a n))
           (raw ++ flat_map (λ e, map (λ link, sensor_name (sensor e link))
                                    (contact_prims c0)) (seq a n))).
Proof.
  induction n as [|n IH]; intros a row scn raw Hlen Hrow.
  - exists row. repeat split; [intros; lia|].
    cbn [seq for_each flat_map]. rewrite !app_nil_r. apply runs_ret.
  - destruct (runs_sensors_loop a (length (contact_prims c0)) 0 row scn raw)
      as (row1 & Hlen1 & Hin1 & _ & Hrun1); [lia|lia|done|].
    rewrite drop_0, firstn_all in Hrun1.
    destruct (IH (S a) row1
                 (scn ++ map (sensor a) (contact_prims c0))%list
                 (raw ++ map (λ link, sensor_name (sensor a link))
                           (contact_prims c0))%list)
      as (row' & Hlen' & Hin & Hout & Hrun); [lia|congruence|].
    exists row'. split; [congruence|]. split; [|split; [done|]].
    + intros _ s link Hl. destruct n as [|n].
      * rewrite (Hout eq_refl). replace (a + 1 - 1)%nat with a by lia.
        apply Hin1; [|done]. apply lookup_lt_Some in Hl. lia.
      * replace (a + S (S n) - 1)%nat with (S a + S n - 1)%nat by lia.
        apply Hin; [lia|done].
    + cbn [seq for_each flat_map].
      eapply runs_bind; [exact Hrun1|]. cbv beta.
      rewrite !app_assoc. exact Hrun.
Qed.

End CreateSensors.

Section ContactAliasing.

Import OmniContactSensors.

Lemma string_length_app (s1 s2 : string) :
  String.length (s1 ++ s2) = (String.length s1 + String.length s2)%nat.
Proof. induction s1 as [|a s1 IH]; simpl; [done|by rewrite IH]. Qed.

Lemma string_app_inv_tail (r : string) : ∀ s1 s2 : string,
  s1 ++ r = s2 ++ r → s1 = s2.
Proof.
  induction s1 as [|a s1 IH]; intros [|b s2] E; [done| | |].
  - apply (f_equal String.length) in E.
    rewrite !string_length_app in E. simpl in E. lia.
  - apply (f_equal String.length) in E.
    rewrite !string_length_app in E. simpl in E. lia.
  - simpl in E. injection E as -> E. by rewrite (IH s2 E).
Qed.

Lemma make_sensor_Ok c ns e link radius translation :
  dict_getitem link (sensor_radii c) = Ok radius →
  dict_getitem link (contact_offsets c) = Ok translation →
  make_sensor c ns e link
  = Ok (mkSensor
          ((ns ++ "/env_" ++ pretty e ++ "/" ++ name c ++ "/" ++ link)
             ++ "/contact_sensor")
          (name c ++ pretty e ++ "_" ++ link ++ "_contact_sensor")
          0 10000000 radius translation).
Proof. intros Hr Ho. unfold make_sensor. by rewrite Hr, Ho. Qed.

Lemma make_sensor_inj c ns e e' link s :
  make_sensor c ns e link = Ok s → make_sensor c ns e' link = Ok s → e = e'.
Proof.
  unfold make_sensor.
  destruct (dict_getitem link (sensor_radii c)) as [r|]; [|done].
  destruct (dict_getitem link (contact_offsets c)) as [o|]; [|done].
  intros [= <-] [= _ E].
  apply String.app_inj, string_app_inv_tail in E.
  by apply pretty_nat_inj in E.
Qed.

Lemma prints_only_create ns : prints_only (create_base_contact_sensor ns).
Proof.
  unfold create_base_contact_sensor, scene_add_into, add_raw_contact_data_to_frame.
  repeat first
    [ apply prints_only_for_each; intros ?
    | progress quiet ].
Qed.

End ContactAliasing.

(** [create_base_contact_sensor] on a freshly constructed object: it
    returns and only prints; one sensor per environment and contact link
    is built and added to the scene, environment by environment, each with
    the raw contact data enabled; sensors of different environments differ;
    but the rows of [contact_sensors] are one and the same list, so that
    afterwards the slot of every environment holds the sensor of the last
    environment.  Nothing but the slots changes in the object. *)
Theorem create_base_contact_sensor_shares_one_row
    name n_envs prims offsets radii ns scene0 raw0 tr :
  let c := constructed name n_envs prims offsets radii in
  ∃ (sensor : nat → string → OmniContactSensors.ContactSensor) st' out,
    OmniContactSensors.create_base_contact_sensor ns
      (mkWorld (OmniContactSensors.mkStage c scene0 raw0) tr)
    = (Ok tt, mkWorld st' (tr ++ out))
    ∧ Forall is_print out
    ∧ (∀ e link, link ∈ prims →
         OmniContactSensors.make_sensor c ns e link = Ok (sensor e link))
    ∧ (∀ e e' link, link ∈ prims → sensor e link = sensor e' link → e = e')
    ∧ OmniContactSensors.scene st'
      = (scene0 ++ flat_map (λ e, map (sensor e) prims) (seq 0 n_envs))%list
    ∧ OmniContactSensors.raw_contact_data st'
      = (raw0 ++ flat_map (λ e, map (λ link,
                                   OmniContactSensors.sensor_name (sensor e link))
                                  prims) (seq 0 n_envs))%list
    ∧ (∀ e s link, (e < n_envs)%nat → prims !! s = Some link →
         OmniContactSensors.sensor_at (OmniContactSensors.self_ st') e s
         = Some (Some (sensor (n_envs - 1) link)))
    ∧ OmniContactSensors.set_rows (OmniContactSensors.rows c)
        (OmniContactSensors.self_ st') = c.
Proof.
  intros c.
  set (sensor := λ (e : nat) (link : string),
         match OmniContactSensors.make_sensor c ns e link with
         | Ok s => s
         | Raise _ => OmniContactSensors.mkSensor "" "" 0 0 0 []
         end).
  assert (∀ e link, link ∈ prims →
            OmniContactSensors.make_sensor c ns e link = Ok (sensor e link))
    as Hmake.
  { intros e link Hl. unfold sensor.
    destruct (completed_getitem prims [0; 0; 0]%Q offsets link Hl) as [o Eo].
    destruct (completed_getitem prims 0.003%Q radii link Hl) as [r Er].
    by rewrite (make_sensor_Ok c ns e link r o). }
  destruct (runs_envs_loop c ns sensor Hmake eq_refl n_envs 0
              (replicate (length prims) None) scene0 raw0)
    as (row' & Hlen & Hlast & _ & Hrun).
  { done. }
  { by rewrite length_replicate. }
  assert (runs (OmniContactSensors.create_base_contact_sensor ns)
            (OmniContactSensors.mkStage c scene0 raw0) tt
            (OmniContactSensors.mkStage (OmniContactSensors.set_rows [row'] c)
               (scene0 ++ flat_map (λ e, map (sensor e) prims) (seq 0 n_envs))
               (raw0 ++ flat_map (λ e, map (λ link,
                                   OmniContactSensors.sensor_name (sensor e link))
                                  prims) (seq 0 n_envs)))) as Hcreate.
  { unfold OmniContactSensors.create_base_contact_sensor.
    eapply runs_bind; [apply runs_get_self|]. cbv beta zeta.
    exact Hrun. }
  destruct (Hcreate tr) as (out & E).
  destruct (prints_only_create ns
              (mkWorld (OmniContactSensors.mkStage c scene0 raw0) tr))
    as (out' & E' & F).
  rewrite E in E'. cbn [snd trace] in E'. apply app_inv_head in E'. subst out'.
  eexists sensor, _, out. split; [exact E|]. split; [exact F|].
  split; [exact Hmake|]. split; [|split; [done|split; [done|split; [|done]]]].
  - intros e e' link Hl Heq.
    apply (make_sensor_inj c ns e e' link (sensor e link)); [by apply Hmake|].
    rewrite Heq. by apply Hmake.
  - intros e s link He Hl. unfold OmniContactSensors.sensor_at.
    cbn [OmniContactSensors.self_ OmniContactSensors.set_rows
         OmniContactSensors.contact_sensors OmniContactSensors.rows].
    change (OmniContactSensors.contact_sensors c) with (replicate n_envs 0%nat).
    rewrite (lookup_replicate_2 _ _ _ He). cbn [lookup list_lookup].
    replace (n_envs - 1)%nat with (0 + n_envs - 1)%nat by lia.
    apply Hlast; [lia|done].
Qed.

Lemma contact_sensors_constructor_witness :
  ∃ w,
    OmniContactSensors.new "aliengo" 2 (Some example_contact_prims)
      (Some example_contact_offsets) (Some example_sensor_radii) = (Ok tt, w)
    ∧ OmniContactSensors.n_sensors (obj w) = 2%nat
    ∧ dict_getitem "FL_foot" (OmniContactSensors.contact_offsets (obj w))
      = Ok [0; 0; 0]%Q
    ∧ OmniContactSensors.sensor_radii (obj w)
      = [("FL_foot", 0.02%Q); ("FR_foot", 0.02%Q)].
Proof.
  destruct (contact_sensors_constructor "aliengo" 2 (Some example_contact_prims)
              (Some example_contact_offsets) (Some example_sensor_radii)
              ["FL_foot"; "FR_foot"] [("FL_foot", [0; 0; 0.01]%Q)]
              [("FL_foot", 0.02%Q); ("FR_foot", 0.02%Q)])
    as (w & E & _ & _ & Hn & _ & _ & _ & _ & _ & _ & Hradii & Hoff & _).
  - eexists. split; reflexivity.
  - eexists. split; reflexivity.
  - eexists. split; reflexivity.
  - exists w. split; [exact E|]. split; [exact Hn|]. split.
    + apply (Hoff "FR_foot").
      * rewrite !elem_of_cons. auto.
      * intros x. vm_compute. discriminate.
      * rewrite !elem_of_cons. auto.
    + apply Hradii. intros link Hl.
      rewrite !elem_of_cons, elem_of_nil in Hl.
      destruct Hl as [->|[->|[]]]; eexists; reflexivity.
Defined.

Lemma contact_sensors_constructor_missing_key_witness :
  (OmniContactSensors.new "aliengo" 2 None None None).1
  = Raise (Exception "Could not find key aliengo incontact_prims dictionary.")
  ∧ (OmniContactSensors.new "aliengo" 2 (Some example_contact_prims)
       (Some [("centauro", [])]) (Some example_sensor_radii)).1
    = Raise (Exception "Could not find key aliengo incontact_offsets dictionary.")
  ∧ (OmniContactSensors.new "aliengo" 2 (Some example_contact_prims)
       (Some example_contact_offsets) None).1
    = Raise (Exception "Could not find key aliengo insensor_radii dictionary.").
Proof.
  split; [|split].
  - apply (proj1 (contact_sensors_constructor_missing_key "aliengo" 2 None None None)).
    by intros prims (d & [=] & _).
  - apply (proj1 (proj2 (contact_sensors_constructor_missing_key "aliengo" 2
                           (Some example_contact_prims) (Some [("centauro", [])])
                           (Some example_sensor_radii)))
             ["FL_foot"; "FR_foot"]).
    + eexists. split; reflexivity.
    + intros offsets (d & [= <-] & E). vm_compute in E. discriminate.
  - apply (proj2 (proj2 (contact_sensors_constructor_missing_key "aliengo" 2
                           (Some example_contact_prims) (Some example_contact_offsets)
                           None))
             ["FL_foot"; "FR_foot"] [("FL_foot", [0; 0; 0.01]%Q)]).
    + eexists. split; reflexivity.
    + eexists. split; reflexivity.
    + by intros radii (d & [=] & _).
Defined.

(** ** The state of the robots, read without a time step *)

Section SampledState.

Import CustomTask.

Variable quat_to_omega : Matrix → Matrix → Q → Matrix.
Variable views : gmap string Readback.

Lemma runs_sample_getitem {V} (d : gmap string V) key v (c : CustomTask.t) :
  d !! key = Some v → runs (getitem d key) c v c.
Proof. intros H. unfold getitem. rewrite H. apply runs_ret. Qed.

Lemma runs_sample_inplace read write key src buf (c : CustomTask.t) :
  read c !! key = Some buf →
  runs (inplace read write key src) c tt
       (write (<[key := slice_assign buf (mat_at src)]> (read c)) c).
Proof.
  intros H. unfold inplace.
  eapply runs_bind; [apply runs_get_self|]. cbv beta.
  eapply runs_bind; [by apply runs_sample_getitem|]. apply runs_modify.
Qed.

(** The body of the loop without [dt], whatever [reset] is. *)
Lemma runs_get_robot_state_sampled reset c name b rb :
  buffers_of c name b → views !! name = Some rb →
  runs (get_robot_state quat_to_omega views None reset name) c tt
       (store name (sample rb b) c).
Proof.
  intros (Hp & Hq & Hjq & Hv & Hom & Hjv & Hpp & Hqp & Hjqp) Hrb.
  destruct c as [names rp rq jq rv ro jv rpp rqp jqp].
  cbn [root_p root_q jnts_q root_v root_omega jnts_v root_p_prev root_q_prev
       jnts_q_prev] in *.
  unfold store, sample.
  cbn [b_root_p b_root_q b_jnts_q b_root_v b_root_omega b_jnts_v b_root_p_prev
       b_root_q_prev b_jnts_q_prev root_p root_q jnts_q root_v root_omega jnts_v
       root_p_prev root_q_prev jnts_q_prev robot_names].
  rewrite (insert_id rpp name _ Hpp), (insert_id rqp name _ Hqp),
    (insert_id jqp name _ Hjqp).
  assert (∃ c', runs (get_robot_state quat_to_omega views None reset name)
                     (CustomTask.mk names rp rq jq rv ro jv rpp rqp jqp) tt c'
                ∧ c' = CustomTask.mk names
                         (<[name := slice_assign (b_root_p b)
                                      (mat_at (get_world_poses rb).1)]> rp)
                         (<[name := slice_assign (b_root_q b)
                                      (mat_at (get_world_poses rb).2)]> rq)
                         (<[name := slice_assign (b_jnts_q b)
                                      (mat_at (get_joint_positions rb))]> jq)
                         (<[name := slice_assign (b_root_v b)
                                      (mat_at (get_linear_velocities rb))]> rv)
                         (<[name := slice_assign (b_root_omega b)
                                      (mat_at (get_angular_velocities rb))]> ro)
                         (<[name := slice_assign (b_jnts_v b)
                                      (mat_at (get_joint_velocities rb))]> jv)
                         rpp rqp jqp)
    as (c' & Hrun & ->); [|done].
  unfold get_robot_state. eexists. split.
  - eapply runs_bind; [by apply runs_sample_getitem|]. cbv beta zeta.
    repeat (eapply runs_bind;
            [eapply runs_sample_inplace; simpl; eassumption|]; cbv beta).
    eapply runs_sample_inplace; simpl; eassumption.
  - reflexivity.
Qed.

Lemma buffers_of_store_other c name name' b b' :
  name ≠ name' → buffers_of (store name b c) name' b' ↔ buffers_of c name' b'.
Proof. intros Hne. unfold buffers_of, store. simpl. by rewrite !lookup_insert_ne. Qed.

Lemma buffers_of_store_same c name b : buffers_of (store name b c) name b.
Proof. unfold buffers_of, store. simpl. by rewrite !lookup_insert_eq. Qed.

Lemma buffers_of_unique c name b b' :
  buffers_of c name b → buffers_of c name b' → b = b'.
Proof.
  destruct b, b'. unfold buffers_of. simpl.
  intros (? & ? & ? & ? & ? & ? & ? & ? & ?) (? & ? & ? & ? & ? & ? & ? & ? & ?).
  f_equal; congruence.
Qed.

(** The loop without [dt]: every listed robot is sampled once. *)
Lemma runs_for_each_robot_sampled reset names :
  NoDup names →
  ∀ c,
    (∀ name, name ∈ names → ∃ b rb, buffers_of c name b ∧ views !! name = Some rb) →
    ∃ c',
      runs (for_each names (get_robot_state quat_to_omega views None reset)) c tt c'
      ∧ robot_names c' = robot_names c
      ∧ (∀ name b rb, name ∈ names → buffers_of c name b → views !! name = Some rb →
           buffers_of c' name (sample rb b))
      ∧ (∀ name b, name ∉ names → buffers_of c name b → buffers_of c' name b).
Proof.
  induction 1 as [|name names Hnotin Hnd IH]; intros c Hall; cbn [for_each].
  - exists c. split; [apply runs_ret|]. split; [done|]. split; [|done].
    intros name b rb Hin. by apply elem_of_nil in Hin.
  - destruct (Hall name) as (b & rb & Hb & Hrb); [left|].
    pose proof (runs_get_robot_state_sampled reset c name b rb Hb Hrb) as Hstep.
    destruct (IH (store name (sample rb b) c)) as (c' & Hrun & Hnames & Hin & Hout).
    { intros n' Hn'. destruct (Hall n') as (b' & rb' & Hb' & Hrb'); [by right|].
      exists b', rb'. split; [|done].
      apply buffers_of_store_other; [|done]. by intros ->. }
    exists c'. split; [eapply runs_bind; [exact Hstep | exact Hrun]|].
    split; [by rewrite Hnames|]. split.
    + intros n' b' rb' Hn' Hb' Hrb'. apply elem_of_cons in Hn' as [->|Hn'].
      * rewrite (buffers_of_unique c name b' b Hb' Hb).
        assert (rb' = rb) as -> by congruence.
        apply Hout; [done|]. apply buffers_of_store_same.
      * apply Hin; [done | | done].
        apply buffers_of_store_other; [|done]. by intros ->.
    + intros n' b' Hn' Hb'. apply not_elem_of_cons in Hn' as [Hne Hn'].
      apply Hout; [done|]. apply buffers_of_store_other; [|done]. congruence.
Qed.

End SampledState.

Section SampledFacts.

Import CustomTask.

Lemma sample_shaped envs dofs rb b :
  robot_shaped envs dofs b → robot_shaped envs dofs (sample rb b).
Proof.
  intros (Hp & Hq & Hjq & Hv & Hom & Hjv & Hpp & Hqp & Hjqp).
  unfold sample, robot_shaped. simpl.
  repeat (match goal with |- _ ∧ _ => split end);
    first [by apply slice_assign_shape | done].
Qed.

Lemma sample_state envs dofs rb b :
  robot_shaped envs dofs b → readback_shaped envs dofs rb →
  has_shape envs 3 (get_linear_velocities rb) →
  has_shape envs 3 (get_angular_velocities rb) →
  has_shape envs dofs (get_joint_velocities rb) →
  sample rb b
  = mkBuffers (get_world_poses rb).1 (get_world_poses rb).2 (get_joint_positions rb)
      (get_linear_velocities rb) (get_angular_velocities rb) (get_joint_velocities rb)
      (b_root_p_prev b) (b_root_q_prev b) (b_jnts_q_prev b).
Proof.
  intros (Hp & Hq & Hjq & Hv & Hom & Hjv & Hpp & Hqp & Hjqp) (Hrp & Hrq & Hrjq)
    Hlv Hav Hjvr.
  unfold sample.
  rewrite (slice_assign_same_shape envs 3 (b_root_p b)) by done.
  rewrite (slice_assign_same_shape envs 4 (b_root_q b)) by done.
  rewrite (slice_assign_same_shape envs dofs (b_jnts_q b)) by done.
  rewrite (slice_assign_same_shape envs 3 (b_root_v b)) by done.
  rewrite (slice_assign_same_shape envs 3 (b_root_omega b)) by done.
  by rewrite (slice_assign_same_shape envs dofs (b_jnts_v b)) by done.
Qed.

End SampledFacts.

(** [_get_robots_state] without [dt] ignores [reset]: for every robot
    (listed once, buffers and readbacks of the right shapes) poses, joint
    positions and the three velocities become what the view returns, and the
    three [_prev] buffers stay as they were.  A differentiated call after it
    therefore divides by [dt] the displacement since the values the [_prev]
    buffers held before both calls. *)
Theorem sampled_state_keeps_previous_positions :
  ∀ (quat_to_omega : Matrix → Matrix → Q → Matrix)
    (views0 views1 : gmap string CustomTask.Readback) (reset : bool) (dt : Q)
    (envs : nat) (dofs : string → nat) (w : World CustomTask.t),
    NoDup (CustomTask.robot_names (obj w)) →
    task_shaped envs dofs (obj w) →
    views_shaped envs dofs (CustomTask.robot_names (obj w)) views0 →
    velocities_shaped envs dofs (CustomTask.robot_names (obj w)) views0 →
    views_shaped envs dofs (CustomTask.robot_names (obj w)) views1 →
    (∀ q q_prev, has_shape envs 4 q → has_shape envs 4 q_prev →
                 has_shape envs 3 (quat_to_omega q q_prev dt)) →
    ¬ (dt == 0)%Q →
    ∃ w1 w2,
      CustomTask._get_robots_state quat_to_omega views0 None reset w = (Ok tt, w1)
      ∧ CustomTask._get_robots_state quat_to_omega views1 (Some dt) false w1
        = (Ok tt, w2)
      ∧ ∀ name rb0 rb1 b,
          name ∈ CustomTask.robot_names (obj w) →
          views0 !! name = Some rb0 → views1 !! name = Some rb1 →
          buffers_of (obj w) name b →
          (* the call without a time step *)
          buffers_of (obj w1) name
            (mkBuffers (CustomTask.get_world_poses rb0).1
               (CustomTask.get_world_poses rb0).2
               (CustomTask.get_joint_positions rb0)
               (CustomTask.get_linear_velocities rb0)
               (CustomTask.get_angular_velocities rb0)
               (CustomTask.get_joint_velocities rb0)
               (b_root_p_prev b) (b_root_q_prev b) (b_jnts_q_prev b))
          (* the differentiated call after it *)
          ∧ (∃ v, CustomTask.root_v (obj w2) !! name = Some v ∧ has_shape envs 3 v
                  ∧ ∀ i j, (i < envs)%nat → (j < 3)%nat →
                      mat_at v i j
                      = ((mat_at (CustomTask.get_world_poses rb1).1 i j
                          - mat_at (b_root_p_prev b) i j) / dt)%Q)
          ∧ CustomTask.root_omega (obj w2) !! name
            = Some (quat_to_omega (CustomTask.get_world_poses rb1).2
                      (b_root_q_prev b) dt)
          ∧ (∃ v, CustomTask.jnts_v (obj w2) !! name = Some v
                  ∧ has_shape envs (dofs name) v
                  ∧ ∀ i j, (i < envs)%nat → (j < dofs name)%nat →
                      mat_at v i j
                      = ((mat_at (CustomTask.get_joint_positions rb1) i j
                          - mat_at (b_jnts_q_prev b) i j) / dt)%Q).
Proof.
  intros q2o views0 views1 reset dt envs dofs [c tr] Hnd Hc Hv0 Hvel Hv1 Hq2o _.
  cbn [obj] in *.
  destruct (runs_for_each_robot_sampled q2o views0 reset
              (CustomTask.robot_names c) Hnd c)
    as (c1 & Hrun1 & Hnames1 & Hin1 & _).
  { intros name Hn. destruct (Hc name Hn) as (b & Hb & _).
    destruct (Hv0 name Hn) as (rb & Hrb & _). eauto. }
  assert (Hnd1 : NoDup (CustomTask.robot_names c1)) by by rewrite Hnames1.
  destruct (runs_for_each_robot q2o views1 dt false (CustomTask.robot_names c1)
              Hnd1 c1)
    as (c2 & Hrun2 & Hnames2 & Hin2 & _).
  { intros name Hn. rewrite Hnames1 in Hn.
    destruct (Hc name Hn) as (b & Hb & _).
    destruct (Hv0 name Hn) as (rb0 & Hrb0 & _).
    destruct (Hv1 name Hn) as (rb1 & Hrb1 & _).
    exists (sample rb0 b), rb1. split; [by apply Hin1|done]. }
  assert (runs (CustomTask._get_robots_state q2o views0 None reset) c tt c1) as R1.
  { unfold CustomTask._get_robots_state.
    eapply runs_bind; [apply runs_get_self|]. exact Hrun1. }
  assert (runs (CustomTask._get_robots_state q2o views1 (Some dt) false) c1 tt c2)
    as R2.
  { unfold CustomTask._get_robots_state.
    eapply runs_bind; [apply runs_get_self|]. exact Hrun2. }
  destruct (R1 tr) as [out1 E1].
  destruct (R2 (tr ++ out1)%list) as [out2 E2].
  exists (mkWorld c1 (tr ++ out1)%list), (mkWorld c2 ((tr ++ out1) ++ out2)%list).
  split; [exact E1|]. split; [exact E2|]. cbn [obj].
  intros name rb0 rb1 b Hn Hrb0 Hrb1 Hb.
  destruct (Hc name Hn) as (b' & Hb' & Hbs).
  rewrite (buffers_of_unique c name b' b Hb' Hb) in Hbs. clear b' Hb'.
  destruct (Hv0 name Hn) as (rb0' & Hrb0' & Hrs0).
  destruct (Hv1 name Hn) as (rb1' & Hrb1' & Hrs1).
  assert (rb0' = rb0) as -> by congruence.
  assert (rb1' = rb1) as -> by congruence.
  destruct (Hvel name rb0 Hn Hrb0) as (Hlv & Hav & Hjv).
  pose proof (Hin1 name b rb0 Hn Hb Hrb0) as Hb1.
  assert (Hn1 : name ∈ CustomTask.robot_names c1) by by rewrite Hnames1.
  pose proof (Hin2 name _ rb1 Hn1 Hb1 Hrb1) as Hb2.
  pose proof (sample_shaped envs (dofs name) rb0 b Hbs) as Hbs1.
  destruct (tick_differentiate q2o dt envs (dofs name) rb1 _ Hbs1 Hrs1)
    as (S1 & D1 & D2 & S3 & D3).
  { apply Hq2o; [apply Hrs1 | apply Hbs1]. }
  rewrite (sample_state envs (dofs name) rb0 b Hbs Hrs0 Hlv Hav Hjv) in *.
  cbn [b_root_p_prev b_root_q_prev b_jnts_q_prev] in *.
  split; [exact Hb1|].
  destruct Hb2 as (_ & _ & _ & M4 & M5 & M6 & _).
  split; [eauto|]. split; [by rewrite M5, D2|]. eauto.
Qed.

Lemma sampled_state_keeps_previous_positions_witness :
  ∃ w1 w2,
    CustomTask._get_robots_state example_quat_to_omega example_views_sampled None true
      example_task = (Ok tt, w1)
    ∧ CustomTask._get_robots_state example_quat_to_omega example_views1 (Some 0.5%Q)
        false w1 = (Ok tt, w2)
    ∧ CustomTask.jnts_v (obj w1) !! "r" = Some [[8; 8]]%Q
    ∧ CustomTask.jnts_q_prev (obj w1) !! "r" = Some [[7; 7]]%Q
    ∧ ∃ v, CustomTask.jnts_v (obj w2) !! "r" = Some v
           ∧ ∀ i j, (i < 1)%nat → (j < 2)%nat →
               mat_at v i j = ((mat_at [[3; 5]]%Q i j - mat_at [[7; 7]]%Q i j) / 0.5)%Q.
Proof.
  assert (H1 : NoDup (CustomTask.robot_names (obj example_task))).
  { simpl. apply NoDup_singleton. }
  assert (H2 : ¬ (0.5 == 0)%Q) by done.
  assert (H3 : ∀ q q_prev, has_shape 1 4 q → has_shape 1 4 q_prev →
                 has_shape 1 3 (example_quat_to_omega q q_prev 0.5)).
  { intros q q_prev [Hl _] _. unfold example_quat_to_omega. rewrite Hl.
    apply full_shape. }
  assert (L0 : example_views_sampled !! "r"
               = Some (CustomTask.mkReadback ([[1; 1; 1]]%Q, [[1; 0; 0; 0]]%Q)
                         [[2; 2]]%Q [[4; 4; 4]]%Q [[6; 6; 6]]%Q [[8; 8]]%Q))
    by apply lookup_singleton_eq.
  assert (L1 : example_views1 !! "r"
               = Some (CustomTask.mkReadback ([[2; 3; 4]]%Q, [[0; 1; 0; 0]]%Q)
                         [[3; 5]]%Q [] [] []))
    by apply lookup_singleton_eq.
  assert (H4 : views_shaped 1 (λ _, 2%nat) ["r"] example_views_sampled).
  { intros name Hn. apply list_elem_of_singleton in Hn as ->.
    eexists. split; [exact L0|]. unfold readback_shaped. simpl. repeat constructor. }
  assert (H5 : velocities_shaped 1 (λ _, 2%nat) ["r"] example_views_sampled).
  { intros name rb Hn Hrb. apply list_elem_of_singleton in Hn as ->.
    rewrite L0 in Hrb. injection Hrb as <-. simpl. repeat constructor. }
  destruct (sampled_state_keeps_previous_positions example_quat_to_omega
              example_views_sampled example_views1 true 0.5 1 (λ _, 2%nat) example_task
              H1 example_task_shaped H4 H5 (proj2 example_views_shaped) H3 H2)
    as (w1 & w2 & E1 & E2 & Hall).
  exists w1, w2. split; [exact E1|]. split; [exact E2|].
  assert (Hin : "r" ∈ CustomTask.robot_names (obj example_task)).
  { simpl. by apply list_elem_of_singleton. }
  destruct (Hall "r" _ _
              (mkBuffers [[1; 2; 3]]%Q [[1; 0; 0; 0]]%Q [[5; 5]]%Q
                 [[9; 9; 9]]%Q [[9; 9; 9]]%Q [[9; 9]]%Q
                 [[7; 7; 7]]%Q [[7; 7; 7; 7]]%Q [[7; 7]]%Q) Hin L0 L1)
    as (Hb1 & _ & _ & (v & Hv & _ & Hd)).
  { unfold buffers_of. simpl. by rewrite !lookup_singleton_eq. }
  destruct Hb1 as (_ & _ & _ & _ & _ & Hjv & _ & _ & Hjqp).
  split; [exact Hjv|]. split; [exact Hjqp|]. exists v. split; [exact Hv|exact Hd].
Defined.

(** [_reset_jnt_imp_control] on a robot for which the task has no homer:
    the lookup fails inside [try], the [except] block formats
    [self.init_imp_control], which the task does not have, and the call
    raises that [AttributeError] instead of printing the warning.  The
    controller has been reset and holds the joint state and the wheel gains;
    its references are still zero. *)
Theorem reset_jnt_imp_control_without_homer_raises :
  ∀ (w : World CustomTaskControl.t) (name : string) (c : OmniJntImpCntrl.t)
    (pos vel : torch.Tensor2D),
    let T := obj w in
    controller_of T name c →
    CustomTaskControl.jnts_q T !! name = Some pos →
    CustomTaskControl.jnts_v T !! name = Some vel →
    state_of T c pos → state_of T c vel →
    CustomTaskControl.homers T !! name = None →
    ∃ w' c',
      CustomTaskControl._reset_jnt_imp_control name w
      = (Raise (AttributeError "init_imp_control"), w')
      ∧ CustomTaskControl.jnt_imp_controllers (obj w') !! name = Some c'
      ∧ ∀ i j jname,
          i < CustomTaskControl.num_envs T →
          OmniJntImpCntrl.jnts_names c !! j = Some jname →
          mat_at (OmniJntImpCntrl._pos_gains c') i j
          = (if is_wheel jname then CustomTaskControl.default_wheel_stiffness T
             else OmniJntImpCntrl._default_pgain c)
          ∧ mat_at (OmniJntImpCntrl._vel_gains c') i j
            = (if is_wheel jname then CustomTaskControl.default_wheel_damping T
               else OmniJntImpCntrl._default_vgain c)
          ∧ mat_at (OmniJntImpCntrl._pos c') i j = torch.t_at pos i j
          ∧ mat_at (OmniJntImpCntrl._vel c') i j = torch.t_at vel i j
          ∧ mat_at (OmniJntImpCntrl._eff c') i j = 0%Q
          ∧ mat_at (OmniJntImpCntrl._pos_ref c') i j = 0%Q
          ∧ mat_at (OmniJntImpCntrl._vel_ref c') i j = 0%Q
          ∧ mat_at (OmniJntImpCntrl._eff_ref c') i j = 0%Q.
Proof.
  intros [T tr] name c pos vel T0 Hco Hpos Hvel Hsp Hsv Hhomer.
  subst T0. cbn [obj] in *.
  destruct (reset_without_homer_raises T name c pos vel Hco Hpos Hvel Hhomer Hsp Hsv)
    as (c' & Hraises & Hcells).
  destruct (Hraises tr) as [out E].
  exists (mkWorld (with_controller name c' T) (tr ++ out)%list), c'.
  split; [exact E|]. cbn [obj].
  split; [apply with_controller_lookup|exact Hcells].
Qed.

(** ** Creating the controllers *)

Section InitControl.

Import torch CustomTaskControl.

Implicit Types (T : CustomTaskControl.t) (c : OmniJntImpCntrl.t).

Lemma runs_controller_init art pg vg ov d :
  ArticulationView.initialized art = true →
  ∃ c,
    runs (OmniJntImpCntrl.__init__ art pg vg "torch" d 50 None ov false)
         OmniJntImpCntrl.blank tt c
    ∧ OmniJntImpCntrl.num_robots c = ArticulationView.count art
    ∧ OmniJntImpCntrl.n_dofs c = ArticulationView.num_dof art
    ∧ OmniJntImpCntrl.jnts_names c = ArticulationView.dof_names art
    ∧ OmniJntImpCntrl._device c = d
    ∧ OmniJntImpCntrl._default_pgain c = pg
    ∧ OmniJntImpCntrl._default_vgain c = vg
    ∧ OmniJntImpCntrl._filter_dt c = None.
Proof.
  intros Hini. eexists. split.
  - unfold OmniJntImpCntrl.__init__. cbv zeta.
    eapply runs_bind; [apply runs_modify|]. cbv beta.
    rewrite Hini. cbn [negb].
    change (String.eqb "torch" "torch") with true. cbn [negb].
    eapply runs_bind; [apply runs_ret|]. cbv beta.
    eapply runs_bind; [apply runs_print|]. cbv beta.
    by apply runs_reset.
  - done.
Qed.

Lemma runs_construct_controller art pg vg ov d T c :
  runs (OmniJntImpCntrl.__init__ art pg vg "torch" d 50 None ov false)
       OmniJntImpCntrl.blank tt c →
  runs (construct_controller art pg vg ov d) T c T.
Proof.
  intros H tr. destruct (H tr) as [out E]. exists out.
  unfold construct_controller. cbn [trace obj]. by rewrite E.
Qed.

Lemma robot_ready_with_controller T name c name' view pos vel homer :
  robot_ready (with_controller name c T) name' view pos vel homer
  ↔ robot_ready T name' view pos vel homer.
Proof. done. Qed.

Lemma controller_ready_with_controller T name c view pos vel homer c' :
  controller_ready (with_controller name c T) view pos vel homer c'
  ↔ controller_ready T view pos vel homer c'.
Proof. done. Qed.

(** The body of the loop of [_init_jnt_imp_control], for one robot. *)
Lemma runs_init_robot T name view pos vel homer :
  robot_ready T name view pos vel homer →
  ∃ c',
    runs (self ← get_self;
          view ← getitem (_robots_art_views self) name;
          c ← construct_controller view (default_jnt_stiffness self)
                 (default_jnt_damping self) (override_art_controller self)
                 (torch_device self);
          modify (set_jnt_imp_controllers
                    (<[name := c]> (jnt_imp_controllers self)));;
          _reset_jnt_imp_control name)
         T tt (with_controller name c' T)
    ∧ controller_ready T view pos vel homer c'.
Proof.
  intros (Hview & Hpos & Hvel & Hhomer & Hini & Hcount & Hlen & Hnd
          & (Hpr & Hpc & Hpd) & (Hvr & Hvc & Hvd) & Hhr & Hhc).
  destruct (runs_controller_init view (default_jnt_stiffness T)
              (default_jnt_damping T) (override_art_controller T)
              (torch_device T) Hini)
    as (c0 & Hrun0 & E0r & E0c & E0n & E0d & E0p & E0v & E0f).
  destruct (reset_jnt_imp_control_run (with_controller name c0 T) name c0
              pos vel homer)
    as (c' & Hrun & Hg & Hr & Hcells); try done.
  { split; [apply with_controller_lookup|].
    split; [by rewrite E0r|]. split; [done|]. split; [by rewrite E0n, E0c|].
    split; [by rewrite E0n|done]. }
  { split; [done|]. split; [by rewrite E0c|done]. }
  { split; [done|]. split; [by rewrite E0c|done]. }
  { by rewrite E0c. }
  exists c'. split.
  - eapply runs_bind; [apply runs_get_self|]. cbv beta.
    eapply runs_bind; [eapply runs_getitem_task; exact Hview|]. cbv beta.
    eapply runs_bind; [by apply runs_construct_controller|]. cbv beta.
    eapply runs_bind; [apply runs_modify|]. cbv beta.
    rewrite <- (with_controller_twice name c0 c' T). exact Hrun.
  - split; [done|]. split; [done|].
    intros i j jname Hi Hj. rewrite <- E0n in Hj.
    destruct (Hcells i j jname Hi Hj) as (G1 & G2 & G3 & G4 & G5 & G6 & G7 & G8).
    rewrite E0p in G1. rewrite E0v in G2. done.
Qed.

(** The loop: every listed robot gets a controller, the others keep
    theirs. *)
Lemma runs_init_loop names :
  NoDup names →
  ∀ T,
    (∀ name, name ∈ names →
       ∃ view pos vel homer, robot_ready T name view pos vel homer) →
    ∃ m,
      runs (for_each names (λ robot_name,
              self ← get_self;
              view ← getitem (_robots_art_views self) robot_name;
              c ← construct_controller view (default_jnt_stiffness self)
                     (default_jnt_damping self) (override_art_controller self)
                     (torch_device self);
              modify (set_jnt_imp_controllers
                        (<[robot_name := c]> (jnt_imp_controllers self)));;
              _reset_jnt_imp_control robot_name))
           T tt (set_jnt_imp_controllers m T)
      ∧ (∀ other, other ∉ names → m !! other = jnt_imp_controllers T !! other)
      ∧ ∀ name view pos vel homer,
          name ∈ names → robot_ready T name view pos vel homer →
          ∃ c', m !! name = Some c' ∧ controller_ready T view pos vel homer c'.
Proof.
  induction 1 as [|name names Hnotin Hnd IH]; intros T Hall; cbn [for_each].
  - exists (jnt_imp_controllers T). split; [|split].
    + destruct T. apply runs_ret.
    + done.
    + intros name view pos vel homer Hin. by apply elem_of_nil in Hin.
  - destruct (Hall name) as (view & pos & vel & homer & Hready); [left|].
    destruct (runs_init_robot T name view pos vel homer Hready)
      as (c' & Hstep & Hc').
    destruct (IH (with_controller name c' T)) as (m & Hrun & Hout & Hin).
    { intros n' Hn'. apply Hall. by right. }
    exists m. split; [|split].
    + eapply runs_bind; [exact Hstep|]. cbv beta. exact Hrun.
    + intros other Ho. apply not_elem_of_cons in Ho as [Hne Ho].
      rewrite (Hout other Ho). by apply with_controller_lookup_ne.
    + intros n' view' pos' vel' homer' Hn' Hready'.
      apply elem_of_cons in Hn' as [->|Hn'].
      * exists c'. split.
        -- rewrite (Hout name Hnotin). apply with_controller_lookup.
        -- destruct Hready as (V1 & P1 & S1 & M1 & _).
           destruct Hready' as (V2 & P2 & S2 & M2 & _).
           assert (view' = view) as -> by congruence.
           assert (pos' = pos) as -> by congruence.
           assert (vel' = vel) as -> by congruence.
           assert (homer' = homer) as -> by congruence.
           exact Hc'.
      * by apply (Hin n' view' pos' vel' homer' Hn').
Qed.

End InitControl.

(** [_init_jnt_imp_control].  Before the world was initialized it raises
    and changes nothing.  Afterwards, with every robot listed once and
    ready (initialized view with one instance per environment and distinct
    joint names, joint state and homer of matching shape), it returns and
    every listed robot has a controller with both flags set whose gains are
    the task's wheel defaults on the wheel joints and the task's joint
    defaults elsewhere, whose state is the task's joint state and whose
    position reference is the homing; controllers of robots that are not
    listed are untouched. *)
Theorem init_jnt_imp_control_outcome :
  ∀ (w : World CustomTaskControl.t),
    let T := obj w in
    (CustomTaskControl._world_initialized T = false →
       CustomTaskControl._init_jnt_imp_control w
       = (Raise (Exception ": you should reset the World at least once and call the post_initialization_steps() method before initializing the joint impedance controller."),
          w))
    ∧ (CustomTaskControl._world_initialized T = true →
       NoDup (CustomTaskControl.robot_names T) →
       (∀ name, name ∈ CustomTaskControl.robot_names T →
          ∃ view pos vel homer, robot_ready T name view pos vel homer) →
       ∃ w',
         CustomTaskControl._init_jnt_imp_control w = (Ok tt, w')
         ∧ (∀ other, other ∉ CustomTaskControl.robot_names T →
              CustomTaskControl.jnt_imp_controllers (obj w') !! other
              = CustomTaskControl.jnt_imp_controllers T !! other)
         ∧ ∀ name view pos vel homer,
             name ∈ CustomTaskControl.robot_names T →
             robot_ready T name view pos vel homer →
             ∃ c', CustomTaskControl.jnt_imp_controllers (obj w') !! name = Some c'
                   ∧ controller_ready T view pos vel homer c').
Proof.
  intros [T tr] T0. subst T0. cbn [obj]. split.
  - intros Hw. unfold CustomTaskControl._init_jnt_imp_control.
    unfold bind, get_self. cbn [obj trace fst snd]. by rewrite Hw.
  - intros Hw Hnd Hall.
    destruct (runs_init_loop (CustomTaskControl.robot_names T) Hnd T Hall)
      as (m & Hrun & Hout & Hin).
    assert (runs CustomTaskControl._init_jnt_imp_control T tt
              (CustomTaskControl.set_jnt_imp_controllers m T)) as R.
    { unfold CustomTaskControl._init_jnt_imp_control.
      eapply runs_bind; [apply runs_get_self|]. cbv beta. rewrite Hw. exact Hrun. }
    destruct (R tr) as [out E].
    eexists. split; [exact E|]. cbn [obj].
    split; [exact Hout|exact Hin].
Qed.

Lemma reset_jnt_imp_control_without_homer_raises_witness :
  ∃ w' c',
    CustomTaskControl._reset_jnt_imp_control "r" example_legged_task
    = (Raise (AttributeError "init_imp_control"), w')
    ∧ CustomTaskControl.jnt_imp_controllers (obj w') !! "r" = Some c'
    ∧ mat_at (OmniJntImpCntrl._pos c') 1 1 = 5%Q
    ∧ mat_at (OmniJntImpCntrl._pos_ref c') 1 1 = 0%Q.
Proof.
  destruct example_legged_cntrl_dims as (Hd & Hr & Hj & Hn & Hf & Hs).
  assert (Hst : ∀ s, torch.t_rows s = 2 → torch.t_cols s = 2 →
                  torch.t_device s = torch.cpu →
                  state_of (obj example_legged_task) (obj example_legged_cntrl) s).
  { intros s H1 H2 H3. unfold state_of. rewrite Hj. done. }
  destruct (reset_jnt_imp_control_without_homer_raises example_legged_task "r"
              (obj example_legged_cntrl)
              (torch.tensor torch.cpu [[1; 2]; [4; 5]]%Q)
              (torch.tensor torch.cpu [[0; 0]; [0; 0]]%Q)
              example_legged_task_controller
              (lookup_singleton_eq _ _) (lookup_singleton_eq _ _)
              (Hst (torch.tensor torch.cpu [[1; 2]; [4; 5]]%Q) eq_refl eq_refl eq_refl)
              (Hst (torch.tensor torch.cpu [[0; 0]; [0; 0]]%Q) eq_refl eq_refl eq_refl)
              (lookup_empty _))
    as (w' & c' & E & Hc' & Hcells).
  exists w', c'. split; [exact E|]. split; [exact Hc'|].
  assert (H1 : OmniJntImpCntrl.jnts_names (obj example_legged_cntrl) !! 1 = Some "knee")
    by (by rewrite Hn).
  assert (Hi : 1 < CustomTaskControl.num_envs (obj example_legged_task))
    by (simpl; lia).
  destruct (Hcells 1 1 "knee" Hi H1) as (_ & _ & Hk3 & _ & _ & Hk6 & _).
  split; [exact Hk3|exact Hk6].
Defined.

Lemma example_control_task_ready :
  robot_ready (obj example_control_task) "r" example_articulation
    (torch.tensor torch.cpu [[1; 2; 3]; [4; 5; 6]]%Q)
    (torch.tensor torch.cpu [[0; 0; 0]; [0; 0; 1]]%Q) example_homer.
Proof.
  unfold robot_ready, example_control_task.
  cbn [obj CustomTaskControl._robots_art_views CustomTaskControl.jnts_q
       CustomTaskControl.jnts_v CustomTaskControl.homers
       CustomTaskControl.num_envs CustomTaskControl.torch_device].
  repeat (match goal with |- _ ∧ _ => split end);
    first [ apply lookup_singleton_eq | apply NoDup_hip_knee_wheel
          | vm_compute; reflexivity ].
Qed.

Lemma init_jnt_imp_control_outcome_witness :
  ∃ w' c',
    CustomTaskControl._init_jnt_imp_control example_control_task = (Ok tt, w')
    ∧ CustomTaskControl.jnt_imp_controllers (obj w') !! "r" = Some c'
    ∧ mat_at (OmniJntImpCntrl._pos_gains c') 1 2 = 0%Q
    ∧ mat_at (OmniJntImpCntrl._pos_gains c') 1 1 = 300%Q
    ∧ mat_at (OmniJntImpCntrl._vel_gains c') 1 1 = 20%Q
    ∧ mat_at (OmniJntImpCntrl._pos c') 1 1 = 5%Q
    ∧ mat_at (OmniJntImpCntrl._pos_ref c') 1 1 = (-0.6)%Q.
Proof.
  assert (Hin : "r" ∈ CustomTaskControl.robot_names (obj example_control_task)).
  { simpl. by apply list_elem_of_singleton. }
  destruct (proj2 (init_jnt_imp_control_outcome example_control_task) eq_refl)
    as (w' & E & _ & Hall).
  { simpl. apply NoDup_singleton. }
  { intros name Hn. simpl in Hn. apply list_elem_of_singleton in Hn as ->.
    eexists _, _, _, _. exact example_control_task_ready. }
  destruct (Hall "r" _ _ _ _ Hin example_control_task_ready)
    as (c' & Hc' & _ & _ & Hcells).
  exists w', c'. split; [exact E|]. split; [exact Hc'|].
  assert (Hi : 1 < CustomTaskControl.num_envs (obj example_control_task))
    by (simpl; lia).
  destruct (Hcells 1 2 "wheel" Hi eq_refl) as (Hw1 & _).
  destruct (Hcells 1 1 "knee" Hi eq_refl) as (Hk1 & Hk2 & Hk3 & _ & _ & Hk6 & _).
  split; [exact Hw1|]. split; [exact Hk1|]. split; [exact Hk2|].
  split; [exact Hk3|]. rewrite Hk6. vm_compute. reflexivity.
Defined.

(** ** The setters on signals with their dtype *)

Section BindSame.

Context {O : Type}.

Lemma bind_same {A B} (m m' : M O A) (k k' : A → M O B) w :
  m w = m' w →
  (∀ a w1, m' w = (Ok a, w1) → k a w1 = k' a w1) →
  bind m k w = bind m' k' w.
Proof.
  intros Hm Hk. unfold bind. rewrite Hm.
  destruct (m' w) as [[a|e] w1]; [by apply Hk|done].
Qed.

End BindSame.

Section DtypeSetters.

Import torch OmniJntImpCntrl.

Variable dt : dtype.

Implicit Types (c : OmniJntImpCntrl.t) (s : SignalDtype.Signal)
  (sel : option Selector).

Lemma assign_same buf s sel :
  sel = None ∨ SignalDtype.sig_dtype s = dt →
  SignalDtype.assign dt buf s sel = Ok (assign buf (SignalDtype.sig_tensor s) sel).
Proof.
  intros H. unfold SignalDtype.assign, assign. destruct sel as [g|]; [|done].
  destruct H as [|<-]; [done|]. by rewrite (proj2 (dtype_eqb_eq _ _) eq_refl).
Qed.

Lemma assign_signal_same tg s sel w :
  sel = None ∨ SignalDtype.sig_dtype s = dt →
  SignalDtype._assign_signal dt tg s sel w
  = _assign_signal tg (SignalDtype.sig_tensor s) sel w.
Proof.
  intros H. unfold SignalDtype._assign_signal, _assign_signal.
  apply bind_same; [done|]. intros self w1 _.
  destruct (bool_decide _); [|done].
  repeat (destruct (String.eqb tg _);
          [rewrite (assign_same _ s sel H); reflexivity|]).
  reflexivity.
Qed.

Lemma write_signal_same tg i (o : option SignalDtype.Signal) sel success w :
  sel = None ∨ of_dtype dt o →
  SignalDtype.write_signal dt tg i o sel success w
  = write_signal tg i (tensor_of o) sel success w.
Proof.
  intros H. destruct o as [s|]; [|done].
  unfold SignalDtype.write_signal, write_signal, tensor_of.
  cbn [fmap option_fmap option_map].
  apply bind_same; [done|]. intros valid w1 _.
  destruct valid; [|done].
  apply bind_same; [|done].
  apply assign_signal_same. destruct H as [->|H]; [by left|right; by apply H].
Qed.

Lemma gen_selector_result c r j tr sel w1 :
  classifiable r → classifiable j →
  _gen_selector r j (mkWorld c tr) = (Ok sel, w1) → sel = selector_of c r j.
Proof.
  intros Hr Hj E. destruct (runs_gen_selector c r j Hr Hj tr) as [out E'].
  rewrite E' in E. by injection E as <- _.
Qed.

Lemma set_refs_same (e p v : option SignalDtype.Signal) r j c tr :
  classifiable r → classifiable j →
  selector_of c r j = None ∨ (of_dtype dt e ∧ of_dtype dt p ∧ of_dtype dt v) →
  SignalDtype.set_refs dt e p v r j (mkWorld c tr)
  = set_refs (tensor_of e) (tensor_of p) (tensor_of v) r j (mkWorld c tr).
Proof.
  intros Hr Hj H. unfold SignalDtype.set_refs, set_refs. cbv zeta.
  apply bind_same; [done|]. intros sel w1 Hsel.
  apply (gen_selector_result c r j tr sel w1 Hr Hj) in Hsel. subst sel.
  apply bind_same; [apply write_signal_same; tauto|]. intros s1 w2 _.
  apply bind_same; [apply write_signal_same; tauto|]. intros s2 w3 _.
  apply bind_same; [apply write_signal_same; tauto|]. done.
Qed.

Lemma update_state_same (p v e : option SignalDtype.Signal) r j c tr :
  classifiable r → classifiable j →
  selector_of c r j = None ∨ (of_dtype dt p ∧ of_dtype dt v ∧ of_dtype dt e) →
  SignalDtype.update_state dt p v e r j (mkWorld c tr)
  = update_state (tensor_of p) (tensor_of v) (tensor_of e) r j (mkWorld c tr).
Proof.
  intros Hr Hj H. unfold SignalDtype.update_state, update_state. cbv zeta.
  apply bind_same; [done|]. intros sel w1 Hsel.
  apply (gen_selector_result c r j tr sel w1 Hr Hj) in Hsel. subst sel.
  apply bind_same; [apply write_signal_same; tauto|]. intros s1 w2 _.
  apply bind_same; [apply write_signal_same; tauto|]. intros s2 w3 _.
  apply bind_same; [apply write_signal_same; tauto|]. done.
Qed.

Lemma set_gains_same (pg vg : option SignalDtype.Signal) r j c tr :
  classifiable r → classifiable j →
  selector_of c r j = None ∨ (of_dtype dt pg ∧ of_dtype dt vg) →
  SignalDtype.set_gains dt pg vg r j (mkWorld c tr)
  = set_gains (tensor_of pg) (tensor_of vg) r j (mkWorld c tr).
Proof.
  intros Hr Hj H. unfold SignalDtype.set_gains, set_gains. cbv zeta.
  apply bind_same; [done|]. intros sel w1 Hsel.
  apply (gen_selector_result c r j tr sel w1 Hr Hj) in Hsel. subst sel.
  assert (Hpg : selector_of c r j = None ∨ of_dtype dt pg) by tauto.
  assert (Hvg : selector_of c r j = None ∨ of_dtype dt vg) by tauto.
  apply bind_same.
  { destruct pg as [s|]; [|done]. cbn [tensor_of fmap option_fmap option_map].
    apply bind_same; [done|]. intros valid w2 _. destruct valid; [|done].
    apply bind_same; [|done].
    apply assign_signal_same. destruct Hpg as [->|Hs]; [by left|right; by apply Hs]. }
  intros s1 w2 _.
  apply bind_same; [|done].
  destruct vg as [s|]; [|done]. cbn [tensor_of fmap option_fmap option_map].
  apply bind_same; [by destruct pg|]. intros valid w3 _. destruct valid; [|done].
  apply bind_same; [|done].
  apply assign_signal_same. destruct Hvg as [->|Hs]; [by left|right; by apply Hs].
Qed.

Lemma signal_call_same k s r j c tr :
  classifiable r → classifiable j →
  selector_of c r j = None ∨ SignalDtype.sig_dtype s = dt →
  signal_call dt k s r j (mkWorld c tr)
  = setter_call k (SignalDtype.sig_tensor s) r j (mkWorld c tr).
Proof.
  intros Hr Hj H.
  assert (Hs : of_dtype dt (Some s) ∨ selector_of c r j = None).
  { destruct H as [H|H]; [by right|left]. by intros s' [= <-]. }
  assert (Hn : of_dtype dt None) by (intros s' [=]).
  destruct k; unfold signal_call, setter_call;
    first [ apply (set_refs_same (Some s) None None)
          | apply (set_refs_same None (Some s) None)
          | apply (set_refs_same None None (Some s))
          | apply (update_state_same (Some s) None None)
          | apply (update_state_same None (Some s) None)
          | apply (update_state_same None None (Some s))
          | apply (set_gains_same (Some s) None)
          | apply (set_gains_same None (Some s)) ];
    try done; tauto.
Qed.

(** Through a selector, a signal of another dtype makes the assignment
    raise. *)
Lemma raises_assign_signal c k s g :
  SignalDtype.sig_dtype s ≠ dt →
  raises (SignalDtype._assign_signal dt (tag k) s (Some g)) c dtype_mismatch c.
Proof.
  intros Hne.
  assert (Ha : ∀ buf, SignalDtype.assign dt buf s (Some g) = Raise dtype_mismatch).
  { intros buf. unfold SignalDtype.assign.
    destruct (dtype_eqb (SignalDtype.sig_dtype s) dt) eqn:E; [|done].
    by apply dtype_eqb_eq in E. }
  unfold SignalDtype._assign_signal.
  eapply runs_raises_bind; [apply runs_get_self|]. cbv beta.
  destruct k; cbn -[SignalDtype.assign]; rewrite Ha; apply raises_bind;
    apply raises_lift.
Qed.

Lemma raises_write_signal c k i s g success :
  fits c (SignalDtype.sig_tensor s) (Some g) = true →
  SignalDtype.sig_dtype s ≠ dt →
  raises (SignalDtype.write_signal dt (tag k) i (Some s) (Some g) success) c
         dtype_mismatch c.
Proof.
  intros Hfit Hne. unfold SignalDtype.write_signal.
  eapply runs_raises_bind; [apply runs_validate_signal|]. cbv beta.
  rewrite Hfit. apply raises_bind. by apply raises_assign_signal.
Qed.

Lemma raises_signal_call c k s r j g :
  k ≠ VGain → classifiable r → classifiable j →
  selector_of c r j = Some g →
  fits c (SignalDtype.sig_tensor s) (Some g) = true →
  SignalDtype.sig_dtype s ≠ dt →
  raises (signal_call dt k s r j) c dtype_mismatch c.
Proof.
  intros Hk Hr Hj Hsel Hfit Hne.
  pose proof (runs_gen_selector c r j Hr Hj) as Hgen. rewrite Hsel in Hgen.
  pose proof (λ k i success, raises_write_signal c k i s g success Hfit Hne) as Hw.
  destruct k; try done;
    unfold signal_call, SignalDtype.set_refs, SignalDtype.update_state,
      SignalDtype.set_gains;
    (eapply runs_raises_bind; [exact Hgen|]); cbv beta.
  - (* pos_ref *)
    eapply runs_raises_bind; [apply runs_ret|]. cbv beta.
    apply raises_bind. apply (Hw PosRef).
  - (* vel_ref *)
    eapply runs_raises_bind; [apply runs_ret|]. cbv beta.
    eapply runs_raises_bind; [apply runs_ret|]. cbv beta.
    apply raises_bind. apply (Hw VelRef).
  - (* eff_ref *)
    apply raises_bind. apply (Hw EffRef).
  - (* pos *)
    apply raises_bind. apply (Hw Pos).
  - (* vel *)
    eapply runs_raises_bind; [apply runs_ret|]. cbv beta.
    apply raises_bind. apply (Hw Vel).
  - (* eff *)
    eapply runs_raises_bind; [apply runs_ret|]. cbv beta.
    eapply runs_raises_bind; [apply runs_ret|]. cbv beta.
    apply raises_bind. apply (Hw Eff).
  - (* pgain *)
    apply raises_bind.
    eapply runs_raises_bind; [apply runs_validate_signal|]. cbv beta.
    rewrite Hfit. apply raises_bind. by apply (raises_assign_signal c PGain).
Qed.

End DtypeSetters.

(** Selector-scoped writes.  For every buffer but the velocity gains, the
    setter call that passes one signal of shape [[|R|, |J|]] on the
    controller's device, with valid index subsets of pairwise distinct
    entries (an absent subset standing for the whole axis): when the signal
    has the dtype of the buffers, or no subset is given, the call returns
    all flags true, writes [signal[a, b]] into the cell ([R[a]], [J[b]])
    and leaves every cell outside [R x J] and every other buffer as it was;
    when a subset is given and the signal has another dtype, the assignment
    through the selector raises and the controller is left as it was. *)
Theorem selector_scoped_write :
  ∀ (torch_dtype : torch.dtype) (k : Buffer) (w : World OmniJntImpCntrl.t)
    (s : SignalDtype.Signal) (r j : option torch.IndexTensor),
    let c := obj w in
    let x := SignalDtype.sig_tensor s in
    k ≠ VGain →
    has_shape (OmniJntImpCntrl.num_robots c) (OmniJntImpCntrl.n_dofs c) (read k c) →
    valid_subset (OmniJntImpCntrl._device c) (OmniJntImpCntrl.num_robots c) r →
    valid_subset (OmniJntImpCntrl._device c) (OmniJntImpCntrl.n_dofs c) j →
    let R := resolved (OmniJntImpCntrl.num_robots c) r in
    let J := resolved (OmniJntImpCntrl.n_dofs c) j in
    torch.t_rows x = length R → torch.t_cols x = length J →
    torch.t_device x = OmniJntImpCntrl._device c →
    ((r = None ∧ j = None) ∨ SignalDtype.sig_dtype s = torch_dtype →
       ∃ w',
         signal_call torch_dtype k s r j w = (Ok (all_true k), w')
         ∧ has_shape (OmniJntImpCntrl.num_robots c) (OmniJntImpCntrl.n_dofs c)
             (read k (obj w'))
         ∧ (∀ a b row col, R !! a = Some row → J !! b = Some col →
              mat_at (read k (obj w')) row col = torch.t_at x a b)
         ∧ (∀ row col, ¬ (row ∈ R ∧ col ∈ J) →
              mat_at (read k (obj w')) row col = mat_at (read k c) row col)
         ∧ (∀ k', k' ≠ k → read k' (obj w') = read k' c))
    ∧ (¬ (r = None ∧ j = None) → SignalDtype.sig_dtype s ≠ torch_dtype →
         ∃ w',
           signal_call torch_dtype k s r j w = (Raise dtype_mismatch, w')
           ∧ obj w' = c).
Proof.
  intros dt k [c tr] s r j c0 x Hk Hs Hr Hj R J Hrows Hcols Hdev.
  subst c0 x. cbn [obj] in *.
  pose proof (valid_subset_classifiable _ _ _ Hr) as Hcr.
  pose proof (valid_subset_classifiable _ _ _ Hj) as Hcj.
  pose proof (selector_of_valid c r j Hr Hj) as Hsel.
  split.
  - intros Hok.
    rewrite (signal_call_same dt k s r j c tr Hcr Hcj).
    + exact (setter_call_scoped k (mkWorld c tr) (SignalDtype.sig_tensor s) r j
               Hk Hs Hr Hj Hrows Hcols Hdev).
    + destruct Hok as [[-> ->]|Hd]; [by left|by right].
  - intros Hsome Hne.
    pose proof (fits_valid c (SignalDtype.sig_tensor s) r j Hr Hj Hrows Hcols Hdev)
      as Hfit.
    assert (∃ g, selector_of c r j = Some g) as [g Hg].
    { rewrite Hsel. destruct r, j; eauto. by destruct Hsome. }
    rewrite Hg in Hfit.
    destruct (raises_signal_call dt c k s r j g Hk Hcr Hcj Hg Hfit Hne tr)
      as [out E].
    eexists. split; [exact E|done].
Qed.

(** [set_refs] treats its three references independently.  On a controller
    whose buffers have their shape, with index subsets that can be
    classified, and either no selector (no subset given, or an [INVALID]
    one) or subsets of pairwise distinct entries and signals of the dtype
    of the buffers: the call returns, the flag of each reference tells
    whether it was given and refused, a refused or absent reference leaves
    its buffer as it was, an accepted one is written through the selector,
    and nothing else of the controller changes. *)
Theorem set_refs_partial_success :
  ∀ (torch_dtype : torch.dtype)
    (eff_ref pos_ref vel_ref : option SignalDtype.Signal)
    (robot_indxs jnt_indxs : option torch.IndexTensor)
    (w : World OmniJntImpCntrl.t),
    classifiable robot_indxs → classifiable jnt_indxs →
    cntrl_shaped (obj w) →
    let sel := selector_of (obj w) robot_indxs jnt_indxs in
    sel = None
    ∨ (distinct robot_indxs ∧ distinct jnt_indxs
       ∧ of_dtype torch_dtype eff_ref ∧ of_dtype torch_dtype pos_ref
       ∧ of_dtype torch_dtype vel_ref) →
    let ok_eff := accepted (tensor_of eff_ref) sel (obj w) in
    let ok_pos := accepted (tensor_of pos_ref) sel (obj w) in
    let ok_vel := accepted (tensor_of vel_ref) sel (obj w) in
    ∃ w',
      SignalDtype.set_refs torch_dtype eff_ref pos_ref vel_ref robot_indxs jnt_indxs w
      = (Ok [ok_eff; ok_pos; ok_vel; true], w')
      ∧ cntrl_shaped (obj w')
      ∧ (ok_eff = false →
         OmniJntImpCntrl._eff_ref (obj w') = OmniJntImpCntrl._eff_ref (obj w))
      ∧ (ok_pos = false →
         OmniJntImpCntrl._pos_ref (obj w') = OmniJntImpCntrl._pos_ref (obj w))
      ∧ (ok_vel = false →
         OmniJntImpCntrl._vel_ref (obj w') = OmniJntImpCntrl._vel_ref (obj w))
      ∧ (∀ s, eff_ref = Some s → ok_eff = true →
           OmniJntImpCntrl._eff_ref (obj w')
           = OmniJntImpCntrl.assign (OmniJntImpCntrl._eff_ref (obj w))
               (SignalDtype.sig_tensor s) sel)
      ∧ (∀ s, pos_ref = Some s → ok_pos = true →
           OmniJntImpCntrl._pos_ref (obj w')
           = OmniJntImpCntrl.assign (OmniJntImpCntrl._pos_ref (obj w))
               (SignalDtype.sig_tensor s) sel)
      ∧ (∀ s, vel_ref = Some s → ok_vel = true →
           OmniJntImpCntrl._vel_ref (obj w')
           = OmniJntImpCntrl.assign (OmniJntImpCntrl._vel_ref (obj w))
               (SignalDtype.sig_tensor s) sel)
      ∧ (∀ k, k ∉ [EffRef; PosRef; VelRef] → read k (obj w') = read k (obj w))
      ∧ OmniJntImpCntrl.gains_initialized (obj w')
        = OmniJntImpCntrl.gains_initialized (obj w)
      ∧ OmniJntImpCntrl.refs_initialized (obj w')
        = OmniJntImpCntrl.refs_initialized (obj w)
      ∧ OmniJntImpCntrl._imp_eff (obj w') = OmniJntImpCntrl._imp_eff (obj w).
Proof.
  intros dt e p v r j [c tr] Hr Hj Hs sel Hok ok_eff ok_pos ok_vel.
  cbn [obj] in *.
  rewrite (set_refs_same dt e p v r j c tr Hr Hj) by tauto.
  destruct (set_refs_blocks (tensor_of e) (tensor_of p) (tensor_of v) r j
              (mkWorld c tr) Hr Hj Hs)
    as (w' & E & H1 & H2 & H3 & H4 & H5 & H6 & H7 & H8 & H9 & H10 & H11).
  exists w'. split; [exact E|]. cbn [obj] in *.
  repeat (match goal with |- _ ∧ _ => split end); try done.
  - intros s ->. by apply H5.
  - intros s ->. by apply H6.
  - intros s ->. by apply H7.
Qed.

(** [update_state] treats position, velocity and effort independently,
    under the same conditions and in the same way as [set_refs] treats the
    references: one flag per signal, a refused or absent signal leaves its
    buffer as it was, an accepted one is written through the selector,
    nothing else changes. *)
Theorem update_state_partial_success :
  ∀ (torch_dtype : torch.dtype)
    (pos vel eff : option SignalDtype.Signal)
    (robot_indxs jnt_indxs : option torch.IndexTensor)
    (w : World OmniJntImpCntrl.t),
    classifiable robot_indxs → classifiable jnt_indxs →
    cntrl_shaped (obj w) →
    let sel := selector_of (obj w) robot_indxs jnt_indxs in
    sel = None
    ∨ (distinct robot_indxs ∧ distinct jnt_indxs
       ∧ of_dtype torch_dtype pos ∧ of_dtype torch_dtype vel
       ∧ of_dtype torch_dtype eff) →
    let ok_pos := accepted (tensor_of pos) sel (obj w) in
    let ok_vel := accepted (tensor_of vel) sel (obj w) in
    let ok_eff := accepted (tensor_of eff) sel (obj w) in
    ∃ w',
      SignalDtype.update_state torch_dtype pos vel eff robot_indxs jnt_indxs w
      = (Ok [ok_pos; ok_vel; ok_eff; true], w')
      ∧ cntrl_shaped (obj w')
      ∧ (ok_pos = false → OmniJntImpCntrl._pos (obj w') = OmniJntImpCntrl._pos (obj w))
      ∧ (ok_vel = false → OmniJntImpCntrl._vel (obj w') = OmniJntImpCntrl._vel (obj w))
      ∧ (ok_eff = false → OmniJntImpCntrl._eff (obj w') = OmniJntImpCntrl._eff (obj w))
      ∧ (∀ s, pos = Some s → ok_pos = true →
           OmniJntImpCntrl._pos (obj w')
           = OmniJntImpCntrl.assign (OmniJntImpCntrl._pos (obj w))
               (SignalDtype.sig_tensor s) sel)
      ∧ (∀ s, vel = Some s → ok_vel = true →
           OmniJntImpCntrl._vel (obj w')
           = OmniJntImpCntrl.assign (OmniJntImpCntrl._vel (obj w))
               (SignalDtype.sig_tensor s) sel)
      ∧ (∀ s, eff = Some s → ok_eff = true →
           OmniJntImpCntrl._eff (obj w')
           = OmniJntImpCntrl.assign (OmniJntImpCntrl._eff (obj w))
               (SignalDtype.sig_tensor s) sel)
      ∧ (∀ k, k ∉ [Pos; Vel; Eff] → read k (obj w') = read k (obj w))
      ∧ OmniJntImpCntrl.gains_initialized (obj w')
        = OmniJntImpCntrl.gains_initialized (obj w)
      ∧ OmniJntImpCntrl.refs_initialized (obj w')
        = OmniJntImpCntrl.refs_initialized (obj w)
      ∧ OmniJntImpCntrl._imp_eff (obj w') = OmniJntImpCntrl._imp_eff (obj w).
Proof.
  intros dt p v e r j [c tr] Hr Hj Hs sel Hok ok_pos ok_vel ok_eff.
  cbn [obj] in *.
  rewrite (update_state_same dt p v e r j c tr Hr Hj) by tauto.
  destruct (update_state_blocks (tensor_of p) (tensor_of v) (tensor_of e) r j
              (mkWorld c tr) Hr Hj Hs)
    as (w' & E & H1 & H2 & H3 & H4 & H5 & H6 & H7 & H8 & H9 & H10 & H11).
  exists w'. split; [exact E|]. cbn [obj] in *.
  repeat (match goal with |- _ ∧ _ => split end); try done.
  - intros s ->. by apply H5.
  - intros s ->. by apply H6.
  - intros s ->. by apply H7.
Qed.

(** [set_gains] with both gains, of shape [[|R|, |J|]] on the controller's
    device, valid index subsets of pairwise distinct entries, and gains of
    the dtype of the buffers unless no subset is given: all flags true, both
    gain buffers written at the cells of [R x J] and unchanged elsewhere,
    the other buffers unchanged; unless the controller overrides the
    articulation's own, the new position gains and then the new velocity
    gains are pushed to the articulation, and nothing else is emitted. *)
Theorem set_gains_writes_and_pushes :
  ∀ (torch_dtype : torch.dtype) (w : World OmniJntImpCntrl.t)
    (pos_gains vel_gains : SignalDtype.Signal)
    (r j : option torch.IndexTensor),
    let c := obj w in
    let pg := SignalDtype.sig_tensor pos_gains in
    let vg := SignalDtype.sig_tensor vel_gains in
    cntrl_shaped c →
    valid_subset (OmniJntImpCntrl._device c) (OmniJntImpCntrl.num_robots c) r →
    valid_subset (OmniJntImpCntrl._device c) (OmniJntImpCntrl.n_dofs c) j →
    let R := resolved (OmniJntImpCntrl.num_robots c) r in
    let J := resolved (OmniJntImpCntrl.n_dofs c) j in
    torch.t_rows pg = length R → torch.t_cols pg = length J →
    torch.t_device pg = OmniJntImpCntrl._device c →
    torch.t_rows vg = length R → torch.t_cols vg = length J →
    torch.t_device vg = OmniJntImpCntrl._device c →
    (r = None ∧ j = None)
    ∨ (SignalDtype.sig_dtype pos_gains = torch_dtype
       ∧ SignalDtype.sig_dtype vel_gains = torch_dtype) →
    ∃ w',
      SignalDtype.set_gains torch_dtype (Some pos_gains) (Some vel_gains) r j w
      = (Ok [true; true; true], w')
      ∧ (∀ a b row col, R !! a = Some row → J !! b = Some col →
           mat_at (OmniJntImpCntrl._pos_gains (obj w')) row col = torch.t_at pg a b
           ∧ mat_at (OmniJntImpCntrl._vel_gains (obj w')) row col = torch.t_at vg a b)
      ∧ (∀ row col, ¬ (row ∈ R ∧ col ∈ J) →
           mat_at (OmniJntImpCntrl._pos_gains (obj w')) row col
           = mat_at (OmniJntImpCntrl._pos_gains c) row col
           ∧ mat_at (OmniJntImpCntrl._vel_gains (obj w')) row col
             = mat_at (OmniJntImpCntrl._vel_gains c) row col)
      ∧ (∀ k, k ≠ PGain → k ≠ VGain → read k (obj w') = read k c)
      ∧ cntrl_shaped (obj w')
      ∧ trace w'
        = (trace w
           ++ if OmniJntImpCntrl.override_art_controller c then []
              else [ArtSetGains (Some (OmniJntImpCntrl._pos_gains (obj w'))) None;
                    ArtSetGains None (Some (OmniJntImpCntrl._vel_gains (obj w')))])%list.
Proof.
  intros dt [c tr] pgs vgs r j c0 pg vg Hs Hr Hj R J Hpr Hpc Hpd Hvr Hvc Hvd Hok.
  subst c0 pg vg. cbn [obj] in *.
  pose proof (valid_subset_classifiable _ _ _ Hr) as Hcr.
  pose proof (valid_subset_classifiable _ _ _ Hj) as Hcj.
  rewrite (set_gains_same dt (Some pgs) (Some vgs) r j c tr Hcr Hcj).
  - exact (set_gains_both (mkWorld c tr) (SignalDtype.sig_tensor pgs)
             (SignalDtype.sig_tensor vgs) r j Hs Hr Hj Hpr Hpc Hpd Hvr Hvc Hvd).
  - destruct Hok as [[-> ->]|[H1 H2]]; [by left|right].
    split; intros s [= <-]; done.
Qed.

Section DtypeWitnesses.

Import torch.

Lemma example_subsets :
  valid_subset (OmniJntImpCntrl._device (obj example_cntrl))
    (OmniJntImpCntrl.num_robots (obj example_cntrl)) (Some (int64_indices [1]%Z))
  ∧ valid_subset (OmniJntImpCntrl._device (obj example_cntrl))
      (OmniJntImpCntrl.n_dofs (obj example_cntrl)) (Some (int64_indices [0; 2]%Z)).
Proof.
  destruct example_cntrl_dims as (Hd & Hr & Hj). rewrite Hd, Hr, Hj. split.
  - intros x [= <-]. split.
    + repeat split; try done. repeat constructor; lia.
    + apply NoDup_singleton.
  - intros x [= <-]. split.
    + repeat split; try done. repeat constructor; lia.
    + simpl. apply NoDup_cons. split; [|apply NoDup_singleton].
      intros Hin. apply list_elem_of_singleton in Hin. done.
Qed.

End DtypeWitnesses.

Lemma selector_scoped_write_witness :
  let r := Some (int64_indices [1]%Z) in
  let j := Some (int64_indices [0; 2]%Z) in
  (∃ w',
     signal_call torch.float64 PGain (signal torch.float64 torch.cpu [[5; 7]]%Q) r j
       example_cntrl = (Ok [true; true; true], w')
     ∧ mat_at (OmniJntImpCntrl._pos_gains (obj w')) 1 0 = 5%Q
     ∧ mat_at (OmniJntImpCntrl._pos_gains (obj w')) 1 2 = 7%Q
     ∧ mat_at (OmniJntImpCntrl._pos_gains (obj w')) 1 1
       = mat_at (OmniJntImpCntrl._pos_gains (obj example_cntrl)) 1 1
     ∧ mat_at (OmniJntImpCntrl._pos_gains (obj w')) 0 0
       = mat_at (OmniJntImpCntrl._pos_gains (obj example_cntrl)) 0 0)
  ∧ (∃ w',
       signal_call torch.float64 PGain (signal torch.float32 torch.cpu [[5; 7]]%Q) r j
         example_cntrl = (Raise dtype_mismatch, w')
       ∧ obj w' = obj example_cntrl).
Proof.
  cbv zeta.
  destruct example_cntrl_dims as (Hd & Hr & Hj).
  destruct example_subsets as (H1 & H2).
  assert (H0 : PGain ≠ VGain) by done.
  assert (H3 : has_shape (OmniJntImpCntrl.num_robots (obj example_cntrl))
                 (OmniJntImpCntrl.n_dofs (obj example_cntrl))
                 (read PGain (obj example_cntrl))) by (vm_compute; repeat constructor).
  split.
  - destruct (proj1 (selector_scoped_write torch.float64 PGain example_cntrl
                       (signal torch.float64 torch.cpu [[5; 7]]%Q)
                       (Some (int64_indices [1]%Z)) (Some (int64_indices [0; 2]%Z))
                       H0 H3 H1 H2 eq_refl eq_refl Hd) (or_intror eq_refl))
      as (w' & E & _ & Hhit & Hframe & _).
    exists w'. split; [exact E|].
    split; [exact (Hhit 0 0 1 0 eq_refl eq_refl)|].
    split; [exact (Hhit 0 1 1 2 eq_refl eq_refl)|].
    split; apply Hframe; simpl; intros [Ha Hb].
    + apply elem_of_cons in Hb as [Hb|Hb]; [done|].
      apply list_elem_of_singleton in Hb. done.
    + apply list_elem_of_singleton in Ha. done.
  - apply (proj2 (selector_scoped_write torch.float64 PGain example_cntrl
                    (signal torch.float32 torch.cpu [[5; 7]]%Q)
                    (Some (int64_indices [1]%Z)) (Some (int64_indices [0; 2]%Z))
                    H0 H3 H1 H2 eq_refl eq_refl Hd)).
    + by intros [? _].
    + done.
Defined.

Lemma set_refs_partial_success_witness :
  let eff_ref := Some (signal torch.float32 torch.cpu [[1; 2]]%Q) in
  let pos_ref := Some (signal torch.float32 torch.cpu [[1; 2; 3]; [4; 5; 6]]%Q) in
  ∃ w',
    SignalDtype.set_refs torch.float64 eff_ref pos_ref None None None example_cntrl
    = (Ok [false; true; true; true], w')
    ∧ OmniJntImpCntrl._eff_ref (obj w') = OmniJntImpCntrl._eff_ref (obj example_cntrl)
    ∧ OmniJntImpCntrl._pos_ref (obj w') = [[1; 2; 3]; [4; 5; 6]]%Q.
Proof.
  cbv zeta.
  destruct (set_refs_partial_success torch.float64
              (Some (signal torch.float32 torch.cpu [[1; 2]]%Q))
              (Some (signal torch.float32 torch.cpu [[1; 2; 3]; [4; 5; 6]]%Q))
              None None None example_cntrl
              classifiable_None classifiable_None example_cntrl_shaped
              (or_introl eq_refl))
    as (w' & E & _ & He & _ & _ & _ & Hp & _).
  exists w'. split; [exact E|]. split; [by apply He|].
  rewrite (Hp _ eq_refl eq_refl). vm_compute. reflexivity.
Defined.

Lemma update_state_partial_success_witness :
  let pos := Some (signal torch.float32 torch.cpu [[1; 2; 3]; [4; 5; 6]]%Q) in
  let vel := Some (signal torch.float32 torch.cpu [[1; 2]]%Q) in
  ∃ w',
    SignalDtype.update_state torch.float64 pos vel None None None example_cntrl
    = (Ok [true; false; true; true], w')
    ∧ OmniJntImpCntrl._vel (obj w') = OmniJntImpCntrl._vel (obj example_cntrl)
    ∧ OmniJntImpCntrl._pos (obj w') = [[1; 2; 3]; [4; 5; 6]]%Q.
Proof.
  cbv zeta.
  destruct (update_state_partial_success torch.float64
              (Some (signal torch.float32 torch.cpu [[1; 2; 3]; [4; 5; 6]]%Q))
              (Some (signal torch.float32 torch.cpu [[1; 2]]%Q))
              None None None example_cntrl
              classifiable_None classifiable_None example_cntrl_shaped
              (or_introl eq_refl))
    as (w' & E & _ & _ & Hv & _ & Hp & _).
  exists w'. split; [exact E|]. split; [by apply Hv|].
  rewrite (Hp _ eq_refl eq_refl). vm_compute. reflexivity.
Defined.

Lemma set_gains_writes_and_pushes_witness :
  let pg := signal torch.float64 torch.cpu [[5; 7]]%Q in
  let vg := signal torch.float64 torch.cpu [[1; 2]]%Q in
  let r := Some (int64_indices [1]%Z) in
  let j := Some (int64_indices [0; 2]%Z) in
  ∃ w',
    SignalDtype.set_gains torch.float64 (Some pg) (Some vg) r j example_cntrl
    = (Ok [true; true; true], w')
    ∧ mat_at (OmniJntImpCntrl._pos_gains (obj w')) 1 2 = 7%Q
    ∧ mat_at (OmniJntImpCntrl._vel_gains (obj w')) 1 0 = 1%Q
    ∧ trace w'
      = (trace example_cntrl
         ++ [ArtSetGains (Some (OmniJntImpCntrl._pos_gains (obj w'))) None;
             ArtSetGains None (Some (OmniJntImpCntrl._vel_gains (obj w')))])%list.
Proof.
  cbv zeta.
  destruct example_cntrl_dims as (Hd & Hr & Hj).
  destruct example_cntrl_names as (_ & Hov & _).
  destruct example_subsets as (H1 & H2).
  destruct (set_gains_writes_and_pushes torch.float64 example_cntrl
              (signal torch.float64 torch.cpu [[5; 7]]%Q)
              (signal torch.float64 torch.cpu [[1; 2]]%Q)
              (Some (int64_indices [1]%Z)) (Some (int64_indices [0; 2]%Z))
              example_cntrl_shaped H1 H2 eq_refl eq_refl Hd eq_refl eq_refl Hd
              (or_intror (conj eq_refl eq_refl)))
    as (w' & E & Hhit & _ & _ & _ & Htr).
  exists w'. split; [exact E|].
  split; [exact (proj1 (Hhit 0 1 1 2 eq_refl eq_refl))|].
  split; [exact (proj2 (Hhit 0 0 1 0 eq_refl eq_refl))|].
  rewrite Hov in Htr. exact Htr.
Defined.

